(** * Eliza Town orchestration engine: a shallow embedding

  The development follows the JavaScript sources of the repository:

  - [State]        src/orchestration/state.js   (agent state machine)
  - [Pathfinding]  src/utils/pathfinding.js     (movement)
  - [Claude]       src/agents/claude.js         (reply parsing, reasoning call)
  - [Loop]         src/orchestration/loop.js    (the tick scheduler)
  - [AgentStateManager]  src/orchestration/state.js  (the in-memory states)
  - [Routes]       src/api/routes.js            (submission, cancellation,
                                                 manual move)
  - [TaskProcessor], [AgentWorker]  src/workers  (the worker-side variants)

  JavaScript numbers are IEEE-754 doubles and are modelled by the kernel's
  primitive floats; the database is a record of row lists; exceptions are
  values of a state-and-exception monad in which the state survives a throw. *)

From Stdlib Require Import Floats.PrimFloat.
From Stdlib Require Import ZArith Bool List String Ascii Lia.
From Stdlib Require Import DecimalString DecimalNat.
From Stdlib Require Import Sorting.Sorted Sorting.Permutation.
From Stdlib Require Import QArith.
From Stdlib Require Import Floats.FloatOps Floats.FloatAxioms.
Import ListNotations.

Local Close Scope Q_scope.

Local Open Scope string_scope.
Local Open Scope list_scope.

(* ================================================================== *)
(** * The fragment of the JavaScript runtime that the sources rely on *)
(* ================================================================== *)

Set Warnings "-register-all".

Module JS.

(** A value as [JSON.parse] can produce it.  [undefined] is the absence of a
    value and is modelled by [None] in [option JSValue]. *)
Inductive JSValue : Type :=
| JNull
| JBool (b : bool)
| JNum (f : float)
| JStr (s : string)
| JArr (items : list JSValue)
| JObj (fields : list (string * JSValue)).

(** ToBoolean: [null], [false], [0], [-0], [NaN] and [""] are falsy. *)
Definition truthy (v : JSValue) : bool :=
  match v with
  | JNull => false
  | JBool b => b
  | JNum f => negb (PrimFloat.is_zero f || PrimFloat.is_nan f)
  | JStr s => negb (String.eqb s "")
  | JArr _ => true
  | JObj _ => true
  end.

(** ToBoolean of a possibly-undefined value. *)
Definition truthy_opt (v : option JSValue) : bool :=
  match v with
  | None => false
  | Some x => truthy x
  end.

(** Own-property lookup in the field list of an object literal; a later
    binding of the same key overrides an earlier one, as in [JSON.parse]. *)
Fixpoint lookup_field (k : string) (fs : list (string * JSValue)) : option JSValue :=
  match fs with
  | [] => None
  | (k', v) :: rest =>
      match lookup_field k rest with
      | Some v' => Some v'
      | None => if String.eqb k k' then Some v else None
      end
  end.

(** What went wrong when an operation throws. *)
Inductive Exn : Type :=
| TypeError (what : string)
| SyntaxError
| Error (msg : string).

(** [v.k] for one of the reply's field names (none of them is a property of
    a built-in prototype): reading a property of [null] throws, a primitive
    or an array has no such property. *)
Definition get_prop (v : JSValue) (k : string) : Exn + option JSValue :=
  match v with
  | JNull => inl (TypeError ("Cannot read properties of null (reading '" ++ k ++ "')"))
  | JObj fs => inr (lookup_field k fs)
  | _ => inr None
  end.

(** The property names of [Object.prototype] in Node.js.  Every object
    literal inherits them: [__proto__] is an accessor that yields the
    prototype itself, the others are functions. *)
Definition Object_prototype : list string :=
  [ "constructor"; "__defineGetter__"; "__defineSetter__"; "hasOwnProperty";
    "__lookupGetter__"; "__lookupSetter__"; "isPrototypeOf"; "propertyIsEnumerable";
    "toString"; "valueOf"; "__proto__"; "toLocaleString" ].

Definition inherited (k : string) : bool := existsb (String.eqb k) Object_prototype.

(** The outcome of [literal[k]] on an object literal: an own property, a
    property inherited from [Object.prototype] (a function or the prototype,
    truthy either way, without any property the sources read), or
    [undefined]. *)
Inductive Looked (A : Type) : Type :=
| Own (a : A)
| Inherited
| Absent.

Arguments Own {A} a.
Arguments Inherited {A}.
Arguments Absent {A}.

(** [literal[k]] for an object literal with the given own properties. *)
Definition lookup_literal {A : Type} (k : string) (fields : list (string * A)) : Looked A :=
  match List.find (fun c => String.eqb (fst c) k) fields with
  | Some c => Own (snd c)
  | None => if inherited k then Inherited else Absent
  end.

(** What [JSON.stringify] writes for the value of the inherited property
    [k]: a function is left out, the prototype has no enumerable property. *)
Definition inherited_json (k : string) : option JSValue :=
  if String.eqb k "__proto__" then Some (JObj []) else None.

(** The conversion of a value of [JSON.parse] to a text (ToString, and
    ToPropertyKey when the value is used as a key).  The result is the text
    when it consists of the value's own strings, and [None] for a text that
    holds a number, [true], [false], [null], [[object Object]] or a comma: no
    such text names a property of the objects that the sources index.  An
    object with an own [toString] property, which is not a function, cannot
    be converted: a TypeError.  An array is joined with commas, [null]
    elements being empty. *)
Fixpoint to_key (v : JSValue) : Exn + option string :=
  match v with
  | JStr s => inr (Some s)
  | JNull | JBool _ | JNum _ => inr None
  | JObj fs =>
      match lookup_field "toString" fs with
      | Some _ => inl (TypeError "Cannot convert object to primitive value")
      | None => inr None
      end
  | JArr items =>
      let texts :=
        (fix each (l : list JSValue) : Exn + list (option string) :=
           match l with
           | [] => inr []
           | x :: rest =>
               match (match x with JNull => inr (Some "") | _ => to_key x end) with
               | inl e => inl e
               | inr t =>
                   match each rest with
                   | inl e => inl e
                   | inr ts => inr (t :: ts)
                   end
               end
           end) items in
      match texts with
      | inl e => inl e
      | inr [] => inr (Some "")
      | inr [t] => inr t
      | inr _ => inr None
      end
  end.

(** [a || b]. *)
Definition or_else (a : option JSValue) (b : JSValue) : JSValue :=
  match a with
  | Some x => if truthy x then x else b
  | None => b
  end.

(** [s.slice(0, n)] for [0 <= n]; a character stands for a UTF-16 code unit. *)
Definition slice0 (n : nat) (s : string) : string := String.substring 0 n s.

(** [x || 0] on numbers. *)
Definition num_or_zero (x : float) : float :=
  if PrimFloat.is_zero x || PrimFloat.is_nan x then PrimFloat.zero else x.

(** [Math.min(a, b)] on doubles: [NaN] is contagious and [-0 < +0]. *)
Definition Math_min (a b : float) : float :=
  if PrimFloat.is_nan a || PrimFloat.is_nan b then PrimFloat.nan
  else if PrimFloat.ltb a b then a
  else if PrimFloat.ltb b a then b
  else if PrimFloat.is_zero a && PrimFloat.get_sign a then a
  else b.

End JS.

(* ================================================================== *)
(** * src/orchestration/state.js: the agent state machine *)
(* ================================================================== *)

Module State.

(** [AgentStatus]. *)
Inductive AgentStatus : Type :=
| IDLE | TRAVELING | WORKING | CHATTING | WAITING | BLOCKED.

(** [AgentEvents]. *)
Inductive AgentEvents : Type :=
| ASSIGN_TASK | START_TRAVEL | ARRIVE | START_WORK | COMPLETE_WORK
| REQUEST_CHAT | END_CHAT | BLOCK | UNBLOCK.

Definition status_eqb (a b : AgentStatus) : bool :=
  match a, b with
  | IDLE, IDLE | TRAVELING, TRAVELING | WORKING, WORKING
  | CHATTING, CHATTING | WAITING, WAITING | BLOCKED, BLOCKED => true
  | _, _ => false
  end.

Lemma status_eqb_eq a b : status_eqb a b = true <-> a = b.
Proof. destruct a, b; simpl; split; intro H; try reflexivity; discriminate H. Qed.

(** The [transitions] object: the row of the current status, then the event. *)
Definition transitions (s : AgentStatus) (e : AgentEvents) : option AgentStatus :=
  match s with
  | IDLE =>
      match e with
      | ASSIGN_TASK => Some TRAVELING
      | START_TRAVEL => Some TRAVELING
      | REQUEST_CHAT => Some CHATTING
      | _ => None
      end
  | TRAVELING =>
      match e with
      | ARRIVE => Some IDLE
      | _ => None
      end
  | WORKING =>
      match e with
      | COMPLETE_WORK => Some IDLE
      | REQUEST_CHAT => Some CHATTING
      | BLOCK => Some BLOCKED
      | _ => None
      end
  | CHATTING =>
      match e with
      | END_CHAT => Some IDLE
      | _ => None
      end
  | WAITING =>
      match e with
      | UNBLOCK => Some WORKING
      | _ => None
      end
  | BLOCKED =>
      match e with
      | UNBLOCK => Some WORKING
      | _ => None
      end
  end.

Record Position : Type := mkPosition { px : float; py : float; pz : float }.

(** The [payload] argument of [transition]; every field may be missing. *)
Record Payload : Type := mkPayload {
  p_taskId : option nat;
  p_subtaskId : option nat;
  p_hub : option string;
  p_position : option Position;
  p_doing : option string;
  p_withAgent : option string
}.

Definition no_payload : Payload := mkPayload None None None None None None.

(** What [emit] hands to the subscribed listeners. *)
Inductive Notification : Type :=
| NTransition (oldStatus newStatus : AgentStatus) (event : AgentEvents) (payload : Payload)
| NPosition (p : Position).

(** The fields of an [AgentState] object.  [emitted] is the sequence of
    notifications sent to the listeners so far, oldest first. *)
Record AgentState : Type := mkAgentState {
  agentId : nat;
  agentType : string;
  status : AgentStatus;
  currentHub : option string;
  targetHub : option string;
  currentTask : option nat;
  currentSubtask : option nat;
  position : Position;
  doing : option string;
  chattingWith : option string;
  emitted : list Notification
}.

Definition getStatus (st : AgentState) : AgentStatus := status st.

Definition canTransition (st : AgentState) (event : AgentEvents) : option AgentStatus :=
  transitions (status st) event.

Definition emit (n : Notification) (st : AgentState) : AgentState :=
  mkAgentState (agentId st) (agentType st) (status st) (currentHub st) (targetHub st)
    (currentTask st) (currentSubtask st) (position st) (doing st) (chattingWith st)
    (emitted st ++ [n]).

(** The [switch (event)] of [transition], applied after the status change. *)
Definition apply_event (event : AgentEvents) (payload : Payload) (newStatus : AgentStatus)
    (st : AgentState) : AgentState :=
  match event with
  | ASSIGN_TASK =>
      mkAgentState (agentId st) (agentType st) newStatus (currentHub st) (p_hub payload)
        (p_taskId payload) (p_subtaskId payload) (position st) (doing st) (chattingWith st)
        (emitted st)
  | START_TRAVEL =>
      mkAgentState (agentId st) (agentType st) newStatus (currentHub st) (p_hub payload)
        (currentTask st) (currentSubtask st) (position st) (doing st) (chattingWith st)
        (emitted st)
  | ARRIVE =>
      mkAgentState (agentId st) (agentType st) newStatus (targetHub st) None
        (currentTask st) (currentSubtask st)
        (match p_position payload with Some p => p | None => position st end)
        (doing st) (chattingWith st) (emitted st)
  | START_WORK =>
      mkAgentState (agentId st) (agentType st) newStatus (currentHub st) (targetHub st)
        (currentTask st) (currentSubtask st) (position st) (p_doing payload) (chattingWith st)
        (emitted st)
  | COMPLETE_WORK =>
      mkAgentState (agentId st) (agentType st) newStatus (currentHub st) (targetHub st)
        (currentTask st) None (position st) None (chattingWith st) (emitted st)
  | REQUEST_CHAT =>
      mkAgentState (agentId st) (agentType st) newStatus (currentHub st) (targetHub st)
        (currentTask st) (currentSubtask st) (position st) (doing st) (p_withAgent payload)
        (emitted st)
  | END_CHAT =>
      mkAgentState (agentId st) (agentType st) newStatus (currentHub st) (targetHub st)
        (currentTask st) (currentSubtask st) (position st) (doing st) None (emitted st)
  | BLOCK | UNBLOCK =>
      mkAgentState (agentId st) (agentType st) newStatus (currentHub st) (targetHub st)
        (currentTask st) (currentSubtask st) (position st) (doing st) (chattingWith st)
        (emitted st)
  end.

(** [transition(event, payload)]: the returned boolean and the object after
    the call. *)
Definition transition (event : AgentEvents) (payload : Payload) (st : AgentState)
    : bool * AgentState :=
  match canTransition st event with
  | None => (false, st)
  | Some newStatus =>
      let oldStatus := status st in
      (true, emit (NTransition oldStatus newStatus event payload)
               (apply_event event payload newStatus st))
  end.

Definition assignTask (taskId subtaskId : nat) (hub : string) :=
  transition ASSIGN_TASK (mkPayload (Some taskId) (Some subtaskId) (Some hub) None None None).
Definition startTravel (hub : string) :=
  transition START_TRAVEL (mkPayload None None (Some hub) None None None).
Definition arrived (pos : option Position) :=
  transition ARRIVE (mkPayload None None None pos None None).
Definition startWork (d : string) :=
  transition START_WORK (mkPayload None None None None (Some d) None).
Definition completeWork := transition COMPLETE_WORK no_payload.
Definition startChat (withAgent : string) :=
  transition REQUEST_CHAT (mkPayload None None None None None (Some withAgent)).
Definition endChat := transition END_CHAT no_payload.
Definition block := transition BLOCK no_payload.
Definition unblock := transition UNBLOCK no_payload.

(** [updatePosition(x, y, z = 0)]: the default applies when [z] is not
    passed. *)
Definition updatePosition (x y : float) (z : option float) (st : AgentState) : AgentState :=
  let p := mkPosition x y (match z with Some v => v | None => PrimFloat.zero end) in
  emit (NPosition p)
    (mkAgentState (agentId st) (agentType st) (status st) (currentHub st) (targetHub st)
       (currentTask st) (currentSubtask st) p (doing st) (chattingWith st) (emitted st)).

(** [distanceToTarget(targetPosition)]. *)
Definition distanceToTarget (targetPosition : Position) (st : AgentState) : float :=
  let dx := PrimFloat.sub (px targetPosition) (px (position st)) in
  let dy := PrimFloat.sub (py targetPosition) (py (position st)) in
  PrimFloat.sqrt (PrimFloat.add (PrimFloat.mul dx dx) (PrimFloat.mul dy dy)).

(** [hasArrived(targetPosition, threshold = 0.1)]. *)
Definition hasArrived (targetPosition : Position) (threshold : option float)
    (st : AgentState) : bool :=
  PrimFloat.ltb (distanceToTarget targetPosition st)
    (match threshold with Some t => t | None => 0x1.999999999999ap-4%float end).

(** The object that [toJSON()] returns. *)
Record StateData : Type := mkStateData {
  d_agentId : nat;
  d_agentType : string;
  d_status : AgentStatus;
  d_currentHub : option string;
  d_targetHub : option string;
  d_currentTask : option nat;
  d_currentSubtask : option nat;
  d_position : Position;
  d_doing : option string;
  d_chattingWith : option string
}.

(** [toJSON()]. *)
Definition toJSON (st : AgentState) : StateData :=
  mkStateData (agentId st) (agentType st) (status st) (currentHub st) (targetHub st)
    (currentTask st) (currentSubtask st) (position st) (doing st) (chattingWith st).

(** The table of section 4.2 of the specification, row by row. *)
Definition spec_table : list (AgentStatus * AgentEvents * AgentStatus) :=
  [ (IDLE, ASSIGN_TASK, TRAVELING);
    (IDLE, START_TRAVEL, TRAVELING);
    (IDLE, REQUEST_CHAT, CHATTING);
    (TRAVELING, ARRIVE, IDLE);
    (WORKING, COMPLETE_WORK, IDLE);
    (WORKING, REQUEST_CHAT, CHATTING);
    (WORKING, BLOCK, BLOCKED);
    (CHATTING, END_CHAT, IDLE);
    (WAITING, UNBLOCK, WORKING);
    (BLOCKED, UNBLOCK, WORKING) ].

(** The code's table and the specification's table list the same triples. *)
Lemma transitions_spec_table s e t :
  transitions s e = Some t <-> In (s, e, t) spec_table.
Proof.
  split.
  - destruct s, e; simpl; intro H; inversion H; subst; simpl; tauto.
  - simpl. intro H.
    repeat (destruct H as [H | H]; [inversion H; subst; reflexivity | ]).
    contradiction.
Qed.

Lemma transition_accepts st e p t :
  transitions (status st) e = Some t ->
  fst (transition e p st) = true /\ status (snd (transition e p st)) = t.
Proof.
  intro H. unfold transition, canTransition. rewrite H. simpl.
  split; [reflexivity | destruct e; reflexivity].
Qed.

Lemma transition_rejects st e p :
  transitions (status st) e = None -> transition e p st = (false, st).
Proof.
  intro H. unfold transition, canTransition. rewrite H. reflexivity.
Qed.

End State.

(* ================================================================== *)
(** * src/utils/pathfinding.js: movement *)
(* ================================================================== *)

Module Pathfinding.

Local Open Scope float_scope.

(** A point object [{x, y}] or [{x, y, z}]. *)
Record Point : Type := mkPoint { x : float; y : float; z : option float }.

(** [distance(p1, p2)]. *)
Definition distance (p1 p2 : Point) : float :=
  let dx := x p2 - x p1 in
  let dy := y p2 - y p1 in
  PrimFloat.sqrt (dx * dx + dy * dy).

(** [lerp(a, b, t)]. *)
Definition lerp (a b t : float) : float := a + (b - a) * t.

(** [p.z || 0]. *)
Definition z_or_zero (p : Point) : float :=
  match z p with
  | Some v => JS.num_or_zero v
  | None => 0
  end.

(** [lerpPoint(p1, p2, t)]. *)
Definition lerpPoint (p1 p2 : Point) (t : float) : Point :=
  mkPoint (lerp (x p1) (x p2) t) (lerp (y p1) (y p2) t)
          (Some (lerp (z_or_zero p1) (z_or_zero p2) t)).

(** The literal [0.1]. *)
Definition arrivalThreshold : float := 0x1.999999999999ap-4.

(** [moveAgentToHub(agent, hub, speed, deltaTime)], on the agent's and the
    hub's [(position_x, position_y)]: the returned boolean and the agent's
    coordinates after the call (the function assigns them in place). *)
Definition moveAgentToHub (agent hub : float * float) (speed deltaTime : float)
    : bool * (float * float) :=
  let currentPos := mkPoint (fst agent) (snd agent) None in
  let targetPos := mkPoint (fst hub) (snd hub) None in
  let dist := distance currentPos targetPos in
  if PrimFloat.ltb dist arrivalThreshold then (true, agent)
  else
    let moveDistance := speed * deltaTime in
    let t := JS.Math_min (moveDistance / dist) 1 in
    let newPos := lerpPoint currentPos targetPos t in
    (false, (x newPos, y newPos)).

End Pathfinding.

(* ================================================================== *)
(** * The database (src/db/schema.sql) and the process state *)
(* ================================================================== *)

Module Db.

(** [tasks.status]. *)
Inductive TaskStatus : Type :=
| TASK_PENDING | TASK_PLANNING | TASK_IN_PROGRESS
| TASK_COMPLETED | TASK_FAILED | TASK_CANCELLED.

(** [subtasks.status]. *)
Inductive SubtaskStatus : Type :=
| SUB_PENDING | SUB_ASSIGNED | SUB_IN_PROGRESS | SUB_COMPLETED | SUB_FAILED.

Definition task_status_eqb (a b : TaskStatus) : bool :=
  match a, b with
  | TASK_PENDING, TASK_PENDING | TASK_PLANNING, TASK_PLANNING
  | TASK_IN_PROGRESS, TASK_IN_PROGRESS | TASK_COMPLETED, TASK_COMPLETED
  | TASK_FAILED, TASK_FAILED | TASK_CANCELLED, TASK_CANCELLED => true
  | _, _ => false
  end.

Definition subtask_status_eqb (a b : SubtaskStatus) : bool :=
  match a, b with
  | SUB_PENDING, SUB_PENDING | SUB_ASSIGNED, SUB_ASSIGNED
  | SUB_IN_PROGRESS, SUB_IN_PROGRESS | SUB_COMPLETED, SUB_COMPLETED
  | SUB_FAILED, SUB_FAILED => true
  | _, _ => false
  end.

(** The terminal task statuses of the specification. *)
Definition terminal (s : TaskStatus) : bool :=
  match s with
  | TASK_COMPLETED | TASK_FAILED | TASK_CANCELLED => true
  | _ => false
  end.

(** Rows carry the columns the sources read or write.  Identifiers (UUIDs)
    are natural numbers and timestamps are integers. *)
Record Hub : Type := mkHub {
  hub_id : string;
  hub_position_x : float;
  hub_position_y : float
}.

Record Agent : Type := mkAgent {
  agent_id : nat;
  agent_type : string;
  current_hub : option string;
  target_hub : option string;
  agent_status : State.AgentStatus;
  agent_doing : option string;
  position_x : float;
  position_y : float;
  position_z : float
}.

Record Task : Type := mkTask {
  task_id : nat;
  task_prompt : string;
  task_user_id : string;
  task_status : TaskStatus;
  task_created_at : Z;
  task_started_at : option Z;
  task_completed_at : option Z;
  download_url : option string;
  preview_url : option string;
  task_error : option string
}.

Record Subtask : Type := mkSubtask {
  subtask_id : nat;
  st_task_id : nat;
  st_agent_id : nat;
  st_agent_type : string;
  st_description : string;
  st_output : option string;
  st_status : SubtaskStatus;
  st_sequence : Z;
  st_hub_id : option string;
  st_started_at : option Z;
  st_completed_at : option Z
}.

Record Message : Type := mkMessage {
  message_id : nat;
  msg_task_id : nat;
  from_agent_id : nat;
  to_agent_id : nat;
  from_agent_type : string;
  to_agent_type : option string;
  msg_content : string;
  msg_hub_id : option string;
  read_at : option Z;
  msg_created_at : Z
}.

(** A notification published with [emit(type, payload)] (src/api/websocket.js),
    which sends [JSON.stringify] of it: [agent_speak_no_text] is an
    [agent_speak] whose text is [undefined] or a function and is left out. *)
Inductive Event : Type :=
| task_created (taskId : nat) (prompt : string)
| task_started (taskId : nat) (agent : string)
| task_planned (taskId : nat) (subtaskCount : option JS.JSValue)
| task_complete (taskId : nat) (downloadUrl previewUrl : string)
| task_cancelled (taskId : nat)
| agent_arrived (agent hub : string) (x y : float)
| agent_position (agent : string) (pos : State.Position)
| agent_status_changed (agent : string) (status : State.AgentStatus) (doing : option string)
| agent_speak (agent : string) (text : JS.JSValue) (toAgent : option JS.JSValue)
| agent_speak_no_text (agent : string)
| agent_think (agent : string) (text : JS.JSValue)
| agent_chat_request (from : string) (to : JS.JSValue) (topic : option JS.JSValue)
| agent_move (agent : string) (from_x from_y to_x to_y : float) (hub : string).

(** An entry of [Orchestrator.activeTasks]. *)
Record ActiveTask : Type := mkActiveTask {
  at_task : Task;
  at_phase : string;
  at_waitingFor : nat
}.

(** Everything the scheduler can change: the tables, the published events
    (oldest first), the callbacks handed to [setTimeout] with their delay, the
    orchestrator's fields, the clock behind [NOW()], the identifier source and
    the number of reasoning calls made so far. *)
Record World : Type := mkWorld {
  hubs : list Hub;
  agents : list Agent;
  tasks : list Task;
  subtasks : list Subtask;
  messages : list Message;
  events : list Event;
  timers : list (Z * Event);
  running : bool;
  agentStates : list (nat * State.AgentState);
  activeTasks : list (nat * ActiveTask);
  now : Z;
  next_id : nat;
  calls : nat
}.

Definition set_agents (f : list Agent -> list Agent) (w : World) : World :=
  mkWorld (hubs w) (f (agents w)) (tasks w) (subtasks w) (messages w) (events w) (timers w)
    (running w) (agentStates w) (activeTasks w) (now w) (next_id w) (calls w).

Definition set_tasks (f : list Task -> list Task) (w : World) : World :=
  mkWorld (hubs w) (agents w) (f (tasks w)) (subtasks w) (messages w) (events w) (timers w)
    (running w) (agentStates w) (activeTasks w) (now w) (next_id w) (calls w).

Definition set_subtasks (f : list Subtask -> list Subtask) (w : World) : World :=
  mkWorld (hubs w) (agents w) (tasks w) (f (subtasks w)) (messages w) (events w) (timers w)
    (running w) (agentStates w) (activeTasks w) (now w) (next_id w) (calls w).

Definition set_messages (f : list Message -> list Message) (w : World) : World :=
  mkWorld (hubs w) (agents w) (tasks w) (subtasks w) (f (messages w)) (events w) (timers w)
    (running w) (agentStates w) (activeTasks w) (now w) (next_id w) (calls w).

Definition set_events (f : list Event -> list Event) (w : World) : World :=
  mkWorld (hubs w) (agents w) (tasks w) (subtasks w) (messages w) (f (events w)) (timers w)
    (running w) (agentStates w) (activeTasks w) (now w) (next_id w) (calls w).

Definition set_timers (f : list (Z * Event) -> list (Z * Event)) (w : World) : World :=
  mkWorld (hubs w) (agents w) (tasks w) (subtasks w) (messages w) (events w) (f (timers w))
    (running w) (agentStates w) (activeTasks w) (now w) (next_id w) (calls w).

Definition set_running (b : bool) (w : World) : World :=
  mkWorld (hubs w) (agents w) (tasks w) (subtasks w) (messages w) (events w) (timers w)
    b (agentStates w) (activeTasks w) (now w) (next_id w) (calls w).

Definition set_agentStates
    (f : list (nat * State.AgentState) -> list (nat * State.AgentState)) (w : World) : World :=
  mkWorld (hubs w) (agents w) (tasks w) (subtasks w) (messages w) (events w) (timers w)
    (running w) (f (agentStates w)) (activeTasks w) (now w) (next_id w) (calls w).

Definition set_activeTasks
    (f : list (nat * ActiveTask) -> list (nat * ActiveTask)) (w : World) : World :=
  mkWorld (hubs w) (agents w) (tasks w) (subtasks w) (messages w) (events w) (timers w)
    (running w) (agentStates w) (f (activeTasks w)) (now w) (next_id w) (calls w).

Definition set_now (t : Z) (w : World) : World :=
  mkWorld (hubs w) (agents w) (tasks w) (subtasks w) (messages w) (events w) (timers w)
    (running w) (agentStates w) (activeTasks w) t (next_id w) (calls w).

Definition bump_next_id (w : World) : World :=
  mkWorld (hubs w) (agents w) (tasks w) (subtasks w) (messages w) (events w) (timers w)
    (running w) (agentStates w) (activeTasks w) (now w) (S (next_id w)) (calls w).

Definition bump_calls (w : World) : World :=
  mkWorld (hubs w) (agents w) (tasks w) (subtasks w) (messages w) (events w) (timers w)
    (running w) (agentStates w) (activeTasks w) (now w) (next_id w) (S (calls w)).

(** [UPDATE t SET ... WHERE id = $1] on a table: every row with that key. *)
Definition update_where {A : Type} (p : A -> bool) (f : A -> A) (rows : list A) : list A :=
  map (fun r => if p r then f r else r) rows.

(** [rows[0]] of a [SELECT ... WHERE] without ordering: the first match in
    table order, or [undefined]. *)
Definition first_where {A : Type} (p : A -> bool) (rows : list A) : option A :=
  List.find p rows.

(** [ORDER BY key]: a stable insertion sort (SQL leaves the order of equal
    keys open; the table order is kept). *)
Fixpoint insert_by {A : Type} (key : A -> Z) (a : A) (l : list A) : list A :=
  match l with
  | [] => [a]
  | b :: rest => if (key a <=? key b)%Z then a :: b :: rest else b :: insert_by key a rest
  end.

Definition order_by {A : Type} (key : A -> Z) (l : list A) : list A :=
  fold_right (insert_by key) [] l.

(** SQL [a = b] on nullable text: true only when both are present and equal. *)
Definition sql_eq (a b : option string) : bool :=
  match a, b with
  | Some x, Some y => String.eqb x y
  | _, _ => false
  end.

Definition has_hub (id : string) (w : World) : bool :=
  existsb (fun h => String.eqb (hub_id h) id) (hubs w).

Definition has_task (id : nat) (w : World) : bool :=
  existsb (fun t => Nat.eqb (task_id t) id) (tasks w).

End Db.

(* ================================================================== *)
(** * Effects: state that survives a throw *)
(* ================================================================== *)

Module Effects.

Import Db.

(** A computation runs on a world and leaves a world together with either
    the exception it threw or the value it returned.  Writes made before a
    throw stay (no statement of the sources runs inside a transaction). *)
Definition M (A : Type) : Type := World -> World * (JS.Exn + A).

Definition ret {A : Type} (a : A) : M A := fun w => (w, inr a).

Definition throw {A : Type} (e : JS.Exn) : M A := fun w => (w, inl e).

Definition bind {A B : Type} (m : M A) (k : A -> M B) : M B :=
  fun w =>
    match m w with
    | (w', inr a) => k a w'
    | (w', inl e) => (w', inl e)
    end.

(** [try { body } catch (e) { handler }]. *)
Definition try_catch {A : Type} (body : M A) (handler : JS.Exn -> M A) : M A :=
  fun w =>
    match body w with
    | (w', inl e) => handler e w'
    | r => r
    end.

(** The settled outcome of an awaited call. *)
Definition attempt {A : Type} (m : M A) : M (JS.Exn + A) :=
  fun w => let (w', r) := m w in (w', inr r).

(** Re-enter with a settled outcome: return its value or throw its exception. *)
Definition settle {A : Type} (r : JS.Exn + A) : M A :=
  match r with
  | inl e => throw e
  | inr a => ret a
  end.

Definition modify (f : World -> World) : M unit := fun w => (f w, inr tt).

Definition read {A : Type} (f : World -> A) : M A := fun w => (w, inr (f w)).

(** Property access on a possibly-undefined row: [rows[0].field]. *)
Definition defined {A : Type} (o : option A) (reading : string) : M A :=
  match o with
  | Some a => ret a
  | None => throw (JS.TypeError ("Cannot read properties of undefined (reading '" ++ reading ++ "')"))
  end.

Definition when (b : bool) (m : M unit) : M unit := if b then m else ret tt.

(** [emit(type, payload)]. *)
Definition emit (e : Event) : M unit := modify (set_events (fun l => l ++ [e])).

(** [setTimeout(() => emit(...), delay)]. *)
Definition setTimeout_emit (e : Event) (delay : Z) : M unit :=
  modify (set_timers (fun l => l ++ [(delay, e)])).

Definition exec {A : Type} (m : M A) (w : World) : World := fst (m w).

Definition outcome {A : Type} (m : M A) (w : World) : JS.Exn + A := snd (m w).

End Effects.

Declare Scope eff_scope.
Delimit Scope eff_scope with eff.
Notation "x <- m ;; k" := (Effects.bind m (fun x => k))
  (at level 61, m at next level, right associativity) : eff_scope.
Notation "m ;; k" := (Effects.bind m (fun _ => k))
  (at level 61, right associativity) : eff_scope.

(** [for (const x of rows) { body }]. *)
Fixpoint for_each {A : Type} (rows : list A) (body : A -> Effects.M unit) : Effects.M unit :=
  match rows with
  | [] => Effects.ret tt
  | r :: rest => Effects.bind (body r) (fun _ => for_each rest body)
  end.

(* ================================================================== *)
(** * What the process consumes from outside the repository *)
(* ================================================================== *)

Module Env.

(** The JavaScript built-ins, the database driver, the reasoning service and
    the file system are not code of the repository; the model takes them as a
    record of functions and the theorems hold for every such record. *)
Record Runtime : Type := mkRuntime {
  (** [JSON.parse(text)]; [None] when it throws a SyntaxError. *)
  JSON_parse : string -> option JS.JSValue;
  (** ToNumber on a value that is not a number. *)
  ToNumber : JS.JSValue -> float;
  (** The text node-postgres sends for a parameter that is not a string. *)
  pg_serialize : JS.JSValue -> string;
  (** [client.messages.create(...)] followed by [response.content[0].text]:
      the n-th call, for an agent type and a prompt. *)
  messages_create : nat -> string -> string -> JS.Exn + string;
  (** [saveTaskFiles(taskId, files, agentId)] of src/utils/files.js, which
      writes to the file system: the exception it throws, if any. *)
  saveTaskFiles : nat -> JS.JSValue -> nat -> option JS.Exn;
  (** The text of an identifier. *)
  uuid_text : nat -> string;
  (** [process.env.PREVIEW_URL || 'http://localhost:3000/preview']. *)
  PREVIEW_URL : string
}.

End Env.

(* ================================================================== *)
(** * src/agents/configs.js and src/agents/claude.js *)
(* ================================================================== *)

Module Claude.

Import Db Effects.
Local Open Scope eff_scope.

(** [agentConfigs]: each agent type with its [hub]. *)
Definition agentConfigs : list (string * string) :=
  [ ("planner", "planning_room");
    ("designer", "design_studio");
    ("coder", "coding_desk");
    ("reviewer", "review_station") ].

(** [agentConfigs[agentType]]. *)
Definition config_of (agentType : string) : JS.Looked string :=
  JS.lookup_literal agentType agentConfigs.

(** The line feed and the double quote of the template literals. *)
Definition line_feed : string := String (ascii_of_nat 10) EmptyString.
Definition double_quote : string := String (ascii_of_nat 34) EmptyString.

Section WithRuntime.

Variable env : Env.Runtime.

(** [callAgent(agentType, prompt)]: [!config] holds only when the type names
    no property at all; for an inherited one the call is made (with the
    default model and no system prompt). *)
Definition callAgent (agentType prompt : string) : M string :=
  match config_of agentType with
  | JS.Absent => throw (JS.Error ("Unknown agent type: " ++ agentType))
  | _ =>
      n <- read calls ;;
      modify bump_calls ;;
      settle (Env.messages_create env n agentType prompt)
  end.

(** Position of the first / the last occurrence of a character. *)
Fixpoint first_index (c : ascii) (s : string) : option nat :=
  match s with
  | EmptyString => None
  | String a rest =>
      if Ascii.eqb a c then Some 0 else option_map S (first_index c rest)
  end.

Fixpoint last_index (c : ascii) (s : string) : option nat :=
  match s with
  | EmptyString => None
  | String a rest =>
      match last_index c rest with
      | Some i => Some (S i)
      | None => if Ascii.eqb a c then Some 0 else None
      end
  end.

(** [response.match(/\{[\s\S]*\}/)]: from the first opening brace to the last
    closing brace after it. *)
Definition match_braces (response : string) : option string :=
  match first_index "{"%char response, last_index "}"%char response with
  | Some i, Some j =>
      if Nat.ltb i j then Some (String.substring i (j - i + 1) response) else None
  | _, _ => None
  end.

(** The object returned when no structured block is found. *)
Definition plain_output (response : string) : JS.JSValue :=
  JS.JObj [ ("output", JS.JStr response);
            ("saying", JS.JNull);
            ("thinking", JS.JNull);
            ("doing", JS.JNull) ].

(** [parseAgentResponse(response)] of claude.js. *)
Definition parseAgentResponse (response : string) : JS.JSValue :=
  match match_braces response with
  | Some block =>
      match Env.JSON_parse env block with
      | Some v => v
      | None => plain_output response
      end
  | None => plain_output response
  end.

(** [agentChat(agent1Type, agent2Type, topic, rounds = 2)], for a number of
    rounds that is a natural number: the loop, with the conversation so far
    and the current context. *)
Fixpoint agentChat_loop (agent1Type agent2Type context : string) (rounds : nat)
    (conversation : list (string * string)) : M (list (string * string)) :=
  match rounds with
  | 0 => ret conversation
  | S remaining =>
      msg1 <- callAgent agent1Type
                ("You're discussing with " ++ agent2Type ++ ". Topic: " ++ context
                 ++ line_feed ++ line_feed ++ "Respond briefly (1-2 sentences).")%string ;;
      msg2 <- callAgent agent2Type
                (agent1Type ++ " said: " ++ double_quote ++ msg1 ++ double_quote
                 ++ line_feed ++ line_feed ++ "Respond briefly (1-2 sentences).")%string ;;
      agentChat_loop agent1Type agent2Type msg2 remaining
        (conversation ++ [(agent1Type, msg1); (agent2Type, msg2)])
  end.

Definition agentChat (agent1Type agent2Type topic : string) (rounds : option nat)
    : M (list (string * string)) :=
  agentChat_loop agent1Type agent2Type topic
    (match rounds with Some n => n | None => 2 end) [].

End WithRuntime.

End Claude.

(* ================================================================== *)
(** * src/orchestration/loop.js: the orchestrator *)
(* ================================================================== *)

Module Loop.

Import Db Effects.
Local Open Scope eff_scope.

Definition TICK_INTERVAL : float := 1000%float.
Definition AGENT_SPEED : float := 2%float.

(** The line feed and the double quote of the template literals. *)
Definition nl : string := String (ascii_of_nat 10) EmptyString.
Definition dquote : string := String (ascii_of_nat 34) EmptyString.

(** The value node-postgres stores for a query parameter: [undefined] and
    [null] become NULL, a string is sent as it is. *)
Definition pg_param (env : Env.Runtime) (v : option JS.JSValue) : option string :=
  match v with
  | None => None
  | Some JS.JNull => None
  | Some (JS.JStr s) => Some s
  | Some x => Some (Env.pg_serialize env x)
  end.

(** ToNumber.  An object or an array is first converted to a text, which
    throws when that conversion does. *)
Definition to_number (env : Env.Runtime) (v : JS.JSValue) : JS.Exn + float :=
  match v with
  | JS.JNum f => inr f
  | _ =>
      match JS.to_key v with
      | inl e => inl e
      | inr _ => inr (Env.ToNumber env v)
      end
  end.

(** A count as a number: what a counter that starts at [0] holds after [n]
    increments. *)
Fixpoint counter (n : nat) : float :=
  match n with
  | O => PrimFloat.zero
  | S k => PrimFloat.add (counter k) PrimFloat.one
  end.

(** [v.length], for a value that is not [null]. *)
Definition length_of (v : JS.JSValue) : option JS.JSValue :=
  match v with
  | JS.JArr items => Some (JS.JNum (counter (List.length items)))
  | JS.JStr s => Some (JS.JNum (counter (String.length s)))
  | JS.JObj fs => JS.lookup_field "length" fs
  | _ => None
  end.

(** [v.length > 0], for a value that is not [null]. *)
Definition length_positive (env : Env.Runtime) (v : JS.JSValue) : JS.Exn + bool :=
  match v with
  | JS.JArr items => inr (negb (Nat.eqb (List.length items) 0))
  | JS.JStr s => inr (negb (Nat.eqb (String.length s) 0))
  | JS.JObj fs =>
      match JS.lookup_field "length" fs with
      | None => inr false
      | Some x =>
          match to_number env x with
          | inl e => inl e
          | inr f => inr (PrimFloat.ltb PrimFloat.zero f)
          end
      end
  | _ => inr false
  end.

(** [new AgentState(agent)]. *)
Definition new_AgentState (agent : Agent) : State.AgentState :=
  State.mkAgentState (agent_id agent) (agent_type agent) (agent_status agent)
    (current_hub agent) (target_hub agent) None None
    (State.mkPosition (position_x agent) (position_y agent) (JS.num_or_zero (position_z agent)))
    (agent_doing agent) None [].

(** [map.set(key, value)] on a [Map] kept in insertion order. *)
Fixpoint map_set {V : Type} (k : nat) (v : V) (m : list (nat * V)) : list (nat * V) :=
  match m with
  | [] => [(k, v)]
  | (k', v') :: rest => if Nat.eqb k' k then (k, v) :: rest else (k', v') :: map_set k v rest
  end.

Definition map_get {V : Type} (k : nat) (m : list (nat * V)) : option V :=
  option_map snd (List.find (fun e => Nat.eqb (fst e) k) m).

(** An object that starts as [{}] and is given properties by assignment, the
    values being texts or [null]: its own properties in the order of their
    creation, and whether [Object.prototype] is still its prototype. *)
Record Obj : Type := mkObj {
  own : list (string * option string);
  proto : bool
}.

(** [{}]. *)
Definition empty_obj : Obj := mkObj [] true.

(** Writing the own property [k]: an existing property keeps its place, a
    new one goes last. *)
Fixpoint own_set {V : Type} (k : string) (v : V) (o : list (string * V)) : list (string * V) :=
  match o with
  | [] => [(k, v)]
  | (k', v') :: rest =>
      if String.eqb k' k then (k, v) :: rest else (k', v') :: own_set k v rest
  end.

(** [obj[k] = v].  Every key writes an own property, except [__proto__]
    while the object inherits the accessor of [Object.prototype]: its setter
    ignores a text, and with [null] it removes the prototype, after which
    [__proto__] is a key like any other. *)
Definition obj_set (k : string) (v : option string) (o : Obj) : Obj :=
  if String.eqb k "__proto__" && proto o then
    match v with
    | Some _ => o
    | None => mkObj (own o) false
    end
  else mkObj (own_set k v (own o)) (proto o).

(** The value of a decimal digit. *)
Definition digit (c : ascii) : option Z :=
  let n := nat_of_ascii c in
  if Nat.leb 48 n && Nat.leb n 57 then Some (Z.of_nat (n - 48)) else None.

Fixpoint digits (acc : Z) (s : string) : option Z :=
  match s with
  | EmptyString => Some acc
  | String c rest =>
      match digit c with
      | Some d => digits (10 * acc + d) rest
      | None => None
      end
  end.

(** The array index that a key denotes, if any: the canonical decimal text
    of an integer from 0 to 2^32 - 2. *)
Definition array_index (k : string) : option Z :=
  match k with
  | EmptyString => None
  | String c rest =>
      if Ascii.eqb c "0" then (if String.eqb rest "" then Some 0%Z else None)
      else
        match digits 0 k with
        | Some n => if (n <=? 4294967294)%Z then Some n else None
        | None => None
        end
  end.

Definition is_index (entry : string * option string) : bool :=
  match array_index (fst entry) with
  | Some _ => true
  | None => false
  end.

Definition index_of (entry : string * option string) : Z :=
  match array_index (fst entry) with
  | Some n => n
  | None => 0%Z
  end.

(** [Object.entries(obj)] (and the keys of [Object.keys(obj)]): the array
    indices in ascending order, then the other keys in the order of their
    creation. *)
Definition entries (o : Obj) : list (string * option string) :=
  order_by index_of (filter is_index (own o))
  ++ filter (fun entry => negb (is_index entry)) (own o).

(** [getAgentPosition(agent)] of pathfinding.js. *)
Definition getAgentPosition (agent : Agent) : State.Position :=
  State.mkPosition (position_x agent) (position_y agent) (JS.num_or_zero (position_z agent)).

(** The property name of the index [i]: its decimal text. *)
Definition index_key (i : nat) : string := NilEmpty.string_of_uint (Nat.to_uint i).

(** The elements [fs[i], fs[i + 1], ...] of an object, up to the first index
    that is not a key.  An object with [n] properties has fewer than [n + 1]
    consecutive indices, so [n] steps reach that index. *)
Fixpoint leading (fs : list (string * JS.JSValue)) (steps i : nat) : list JS.JSValue :=
  match steps with
  | O => []
  | S rest =>
      match JS.lookup_field (index_key i) fs with
      | Some x => x :: leading fs rest (S i)
      | None => []
      end
  end.

(** [v[0], v[1], ...], up to the first index at which [v[i]] is
    [undefined]: the items of an array, the characters of a text, the
    properties of an object that are named by consecutive indices. *)
Definition elements (v : JS.JSValue) : list JS.JSValue :=
  match v with
  | JS.JArr items => items
  | JS.JStr s => map (fun c => JS.JStr (String c EmptyString)) (list_ascii_of_string s)
  | JS.JObj fs => leading fs (List.length fs) 0
  | _ => []
  end.

(** [i < v.length] as a function of [i]; reading [length] throws on [null],
    and so does the conversion of a [length] that cannot be converted. *)
Definition below_length (env : Env.Runtime) (v : JS.JSValue) : JS.Exn + (nat -> bool) :=
  match v with
  | JS.JNull => inl (JS.TypeError "Cannot read properties of null (reading 'length')")
  | JS.JArr items => inr (fun i => Nat.ltb i (List.length items))
  | JS.JStr s => inr (fun i => Nat.ltb i (String.length s))
  | JS.JObj fs =>
      match JS.lookup_field "length" fs with
      | None => inr (fun _ => false)
      | Some x =>
          match to_number env x with
          | inl e => inl e
          | inr f => inr (fun i => PrimFloat.ltb (counter i) f)
          end
      end
  | _ => inr (fun _ => false)
  end.

(** [agentConfigs[agent]?.hub || 'town_square']. *)
Definition hub_for (agent : option JS.JSValue) : JS.Exn + string :=
  match agent with
  | None => inr "town_square"
  | Some v =>
      match JS.to_key v with
      | inl e => inl e
      | inr (Some k) =>
          inr (match Claude.config_of k with
               | JS.Own hub => hub
               | _ => "town_square"
               end)
      | inr None => inr "town_square"
      end
  end.

Section Orchestrator.

Variable env : Env.Runtime.

Definition getAgent (agentId : nat) : M (option Agent) :=
  read (fun w => first_where (fun a => Nat.eqb (agent_id a) agentId) (agents w)).

Definition getAgentByType (type : option string) : M (option Agent) :=
  read (fun w => first_where (fun a => sql_eq (Some (agent_type a)) type) (agents w)).

Definition getHub (hubId : option string) : M (option Hub) :=
  read (fun w => first_where (fun h => sql_eq (Some (hub_id h)) hubId) (hubs w)).

(** A statement rejected by the database (a constraint of schema.sql). *)
Definition db_error (constraint : string) : JS.Exn :=
  JS.Error ("violates constraint " ++ constraint).

(** [assignAgentToHub(agentId, hubId)]. *)
Definition assignAgentToHub (agentId : nat) (hubId : string) : M unit :=
  found <- getAgent agentId ;;
  agent <- defined found "current_hub" ;;
  if sql_eq (current_hub agent) (Some hubId) then ret tt
  else
    known <- read (has_hub hubId) ;;
    (if known then
       modify (set_agents (update_where (fun a => Nat.eqb (agent_id a) agentId)
         (fun a => mkAgent (agent_id a) (agent_type a) (current_hub a) (Some hubId)
                     State.TRAVELING (agent_doing a)
                     (position_x a) (position_y a) (position_z a))))
     else throw (db_error "agents_target_hub_fkey")) ;;
    found_hub <- getHub (Some hubId) ;;
    hub <- defined found_hub "position_x" ;;
    emit (agent_move (agent_type agent) (position_x agent) (position_y agent)
            (hub_position_x hub) (hub_position_y hub) hubId).

(** [processPendingTasks()]. *)
Definition processPendingTasks : M unit :=
  rows <- read (fun w =>
    firstn 5 (order_by task_created_at
      (filter (fun t => task_status_eqb (task_status t) TASK_PENDING) (tasks w)))) ;;
  for_each rows (fun task =>
    t <- read now ;;
    modify (set_tasks (update_where (fun r => Nat.eqb (task_id r) (task_id task))
      (fun r => mkTask (task_id r) (task_prompt r) (task_user_id r) TASK_PLANNING
                  (task_created_at r) (Some t) (task_completed_at r)
                  (download_url r) (preview_url r) (task_error r)))) ;;
    found <- getAgentByType (Some "planner") ;;
    planner <- defined found "id" ;;
    assignAgentToHub (agent_id planner) "planning_room" ;;
    emit (task_started (task_id task) "planner") ;;
    modify (set_activeTasks
      (map_set (task_id task) (mkActiveTask task "planning" (agent_id planner))))).

(** The body of the loop of [updateAgentPositions()], for one selected row. *)
Definition moveOneAgent (agent : Agent) : M unit :=
  found <- getHub (target_hub agent) ;;
  hub <- defined found "position_x" ;;
  let moved :=
    Pathfinding.moveAgentToHub
      (position_x agent, position_y agent) (hub_position_x hub, hub_position_y hub)
      AGENT_SPEED (PrimFloat.div TICK_INTERVAL 1000%float) in
  if fst moved then
    modify (set_agents (update_where (fun a => Nat.eqb (agent_id a) (agent_id agent))
      (fun a => mkAgent (agent_id a) (agent_type a) (target_hub a) None State.IDLE
                  (agent_doing a) (hub_position_x hub) (hub_position_y hub) (position_z a)))) ;;
    emit (agent_arrived (agent_type agent) (hub_id hub)
            (hub_position_x hub) (hub_position_y hub)) ;;
    modify (set_agentStates (fun m =>
      match map_get (agent_id agent) m with
      | Some state => map_set (agent_id agent) (snd (State.arrived None state)) m
      | None => m
      end))
  else
    let agent' := mkAgent (agent_id agent) (agent_type agent) (current_hub agent)
                    (target_hub agent) (agent_status agent) (agent_doing agent)
                    (fst (snd moved)) (snd (snd moved)) (position_z agent) in
    let pos := getAgentPosition agent' in
    modify (set_agents (update_where (fun a => Nat.eqb (agent_id a) (agent_id agent))
      (fun a => mkAgent (agent_id a) (agent_type a) (current_hub a) (target_hub a)
                  (agent_status a) (agent_doing a) (State.px pos) (State.py pos)
                  (position_z a)))) ;;
    emit (agent_position (agent_type agent) pos).

(** [updateAgentPositions()]. *)
Definition updateAgentPositions : M unit :=
  rows <- read (fun w =>
    filter (fun a =>
      match target_hub a with Some _ => true | None => false end
      && State.status_eqb (agent_status a) State.TRAVELING) (agents w)) ;;
  for_each rows moveOneAgent.

(** The rows of the query of [processSubtasks()]: subtasks joined with their
    agent, [assigned], the agent [idle] and at the subtask's hub, ordered by
    sequence. *)
Definition ready_subtasks (w : World) : list Subtask :=
  order_by st_sequence
    (flat_map (fun s =>
       map (fun _ => s)
         (filter (fun a =>
            Nat.eqb (st_agent_id s) (agent_id a)
            && subtask_status_eqb (st_status s) SUB_ASSIGNED
            && State.status_eqb (agent_status a) State.IDLE
            && sql_eq (current_hub a) (st_hub_id s)) (agents w)))
       (subtasks w)).

(** [buildContext(taskId, beforeSequence)]. *)
Definition buildContext (taskId : nat) (beforeSequence : Z) : M Obj :=
  read (fun w =>
    fold_left (fun context row => obj_set (st_agent_type row) (st_output row) context)
      (order_by st_sequence
        (filter (fun s =>
           Nat.eqb (st_task_id s) taskId
           && (st_sequence s <? beforeSequence)%Z
           && subtask_status_eqb (st_status s) SUB_COMPLETED) (subtasks w)))
      empty_obj).

(** The lines of "Previous work" in [buildPrompt]; [output.slice] throws on
    a NULL output. *)
Fixpoint previous_work (entries : list (string * option string)) : M string :=
  match entries with
  | [] => ret ""
  | (agent, output) :: rest =>
      text <- defined output "slice" ;;
      more <- previous_work rest ;;
      ret ("- " ++ agent ++ ": " ++ JS.slice0 500 text ++ nl ++ more)%string
  end.

(** [buildPrompt(subtask, context)]. *)
Definition buildPrompt (subtask : Subtask) (context : Obj) : M string :=
  let prompt := ("Task: " ++ st_description subtask ++ nl ++ nl)%string in
  previous <-
    (if Nat.ltb 0 (List.length (entries context)) then
       lines <- previous_work (entries context) ;;
       ret ("Previous work:" ++ nl ++ lines ++ nl)%string
     else ret "") ;;
  ret (prompt ++ previous ++ "Complete your part of this task.")%string.

(** [parseAgentResponse(response)] of the orchestrator. *)
Definition parseAgentResponse (response : string) : JS.JSValue :=
  match Env.JSON_parse env response with
  | Some v => v
  | None => JS.JObj [ ("output", JS.JStr response) ]
  end.

(** The object literal [messages] of [getStartingMessage]. *)
Definition startingMessages : list (string * string) :=
  [ ("planner", "Let me break this down...");
    ("designer", "Thinking about the visuals...");
    ("coder", "Time to write some code...");
    ("reviewer", "Let me check this...") ].

(** [getStartingMessage(agentType)], that is [messages[agentType] || 'On it!']:
    a text, or the inherited property that the type names. *)
Definition getStartingMessage (agentType : string) : JS.Looked string :=
  match JS.lookup_literal agentType startingMessages with
  | JS.Absent => JS.Own "On it!"
  | found => found
  end.

(** What [emit('agent_speak', {agent, text: this.getStartingMessage(agent),
    type: 'saying'})] publishes. *)
Definition startingSpeech (agentType : string) : Event :=
  match getStartingMessage agentType with
  | JS.Own text => agent_speak agentType (JS.JStr text) None
  | _ =>
      match JS.inherited_json agentType with
      | Some text => agent_speak agentType text None
      | None => agent_speak_no_text agentType
      end
  end.

(** [parsed.field]. *)
Definition prop (parsed : JS.JSValue) (field : string) : M (option JS.JSValue) :=
  settle (JS.get_prop parsed field).

(** [packageResult(taskId)] of src/utils/files.js. *)
Definition packageResult (taskId : nat) : string * string :=
  (("/downloads/" ++ Env.uuid_text env taskId ++ ".zip")%string,
   (Env.PREVIEW_URL env ++ "/" ++ Env.uuid_text env taskId)%string).

(** [celebrateCompletion()]. *)
Definition celebrateCompletion : M unit :=
  rows <- read agents ;;
  for_each rows (fun agent => assignAgentToHub (agent_id agent) "town_square") ;;
  setTimeout_emit (agent_speak "coder" (JS.JStr "Shipped!") None) 1000 ;;
  setTimeout_emit (agent_speak "designer" (JS.JStr "Looks great!") None) 1500 ;;
  setTimeout_emit (agent_speak "reviewer" (JS.JStr "Clean code!") None) 2000 ;;
  setTimeout_emit (agent_speak "planner" (JS.JStr "Good work team!") None) 2500.

(** The row count of [checkTaskCompletion]: subtasks of the task whose
    status is not [completed]. *)
Definition count_not_completed (taskId : nat) (w : World) : nat :=
  List.length
    (filter (fun s =>
       Nat.eqb (st_task_id s) taskId
       && negb (subtask_status_eqb (st_status s) SUB_COMPLETED)) (subtasks w)).

(** The row written by [checkTaskCompletion]: status [completed], the two
    locators and the completion time. *)
Definition completed_task (downloadUrl previewUrl : string) (t : Z) (r : Task) : Task :=
  mkTask (task_id r) (task_prompt r) (task_user_id r) TASK_COMPLETED
    (task_created_at r) (task_started_at r) (Some t)
    (Some downloadUrl) (Some previewUrl) (task_error r).

(** [checkTaskCompletion(taskId)]. *)
Definition checkTaskCompletion (taskId : nat) : M unit :=
  pending <- read (count_not_completed taskId) ;;
  if Nat.eqb pending 0 then
    let (downloadUrl, previewUrl) := packageResult taskId in
    t <- read now ;;
    modify (set_tasks (update_where (fun r => Nat.eqb (task_id r) taskId)
      (completed_task downloadUrl previewUrl t))) ;;
    emit (task_complete taskId downloadUrl previewUrl) ;;
    celebrateCompletion
  else ret tt.

(** [requestAgentHelp(fromAgent, toAgentType, topic, taskId)]. *)
Definition requestAgentHelp (fromAgent : Agent) (toAgentType : JS.JSValue)
    (topic : option JS.JSValue) (taskId : nat) : M unit :=
  found <- getAgentByType (pg_param env (Some toAgentType)) ;;
  toAgent <- defined found "id" ;;
  task_known <- read (has_task taskId) ;;
  hub_known <- read (has_hub "town_square") ;;
  (match pg_param env topic with
   | None => throw (db_error "messages_content_not_null")
   | Some content =>
       if negb task_known then throw (db_error "messages_task_id_fkey")
       else if negb hub_known then throw (db_error "messages_hub_id_fkey")
       else
         id <- read next_id ;;
         t <- read now ;;
         modify bump_next_id ;;
         modify (set_messages (fun rows => rows ++
           [ mkMessage id taskId (agent_id fromAgent) (agent_id toAgent)
               (agent_type fromAgent) (pg_param env (Some toAgentType)) content
               (Some "town_square") None t ]))
   end) ;;
  assignAgentToHub (agent_id fromAgent) "town_square" ;;
  assignAgentToHub (agent_id toAgent) "town_square" ;;
  emit (agent_chat_request (agent_type fromAgent) toAgentType topic).

(** The row written when execution starts: status [in_progress] and the
    start time. *)
Definition started_row (t : Z) (s : Subtask) : Subtask :=
  mkSubtask (subtask_id s) (st_task_id s) (st_agent_id s) (st_agent_type s)
    (st_description s) (st_output s) SUB_IN_PROGRESS (st_sequence s)
    (st_hub_id s) (Some t) (st_completed_at s).

(** [executeSubtask(subtask)] up to the reasoning call: the agent row it
    read and the prompt it built. *)
Definition executeSubtask_begin (subtask : Subtask) : M (Agent * string) :=
  found <- getAgent (st_agent_id subtask) ;;
  agent <- defined found "type" ;;
  t <- read now ;;
  modify (set_subtasks (update_where (fun s => Nat.eqb (subtask_id s) (subtask_id subtask))
    (started_row t))) ;;
  modify (set_agents (update_where (fun a => Nat.eqb (agent_id a) (agent_id agent))
    (fun a => mkAgent (agent_id a) (agent_type a) (current_hub a) (target_hub a)
                State.WORKING (Some (JS.slice0 50 (st_description subtask)))
                (position_x a) (position_y a) (position_z a)))) ;;
  emit (agent_status_changed (agent_type agent) State.WORKING
          (Some (JS.slice0 50 (st_description subtask)))) ;;
  context <- buildContext (st_task_id subtask) (st_sequence subtask) ;;
  prompt <- buildPrompt subtask context ;;
  emit (startingSpeech (agent_type agent)) ;;
  ret (agent, prompt).

(** "Emit speech/thought bubbles". *)
Definition emitBubbles (agent : Agent) (parsed : JS.JSValue) : M unit :=
  thinking <- prop parsed "thinking" ;;
  match thinking with
  | Some text => when (JS.truthy text) (emit (agent_think (agent_type agent) text))
  | None => ret tt
  end ;;
  saying <- prop parsed "saying" ;;
  match saying with
  | Some text =>
      if JS.truthy text then
        toAgent <- prop parsed "toAgent" ;;
        emit (agent_speak (agent_type agent) text toAgent)
      else ret tt
  | None => ret tt
  end.

(** The row written by "Save output": status [completed], the output and the
    completion time. *)
Definition completed_row (output : option string) (t : Z) (s : Subtask) : Subtask :=
  mkSubtask (subtask_id s) (st_task_id s) (st_agent_id s) (st_agent_type s)
    (st_description s) output SUB_COMPLETED (st_sequence s) (st_hub_id s)
    (st_started_at s) (Some t).

(** "Save output": [parsed.output || response] goes to the subtask. *)
Definition saveOutput (subtask : Subtask) (parsed : JS.JSValue) (response : string) : M unit :=
  output <- prop parsed "output" ;;
  t <- read now ;;
  modify (set_subtasks (update_where (fun s => Nat.eqb (subtask_id s) (subtask_id subtask))
    (completed_row (pg_param env (Some (JS.or_else output (JS.JStr response)))) t))).

(** "Handle file outputs". *)
Definition handleFiles (subtask : Subtask) (agent : Agent) (parsed : JS.JSValue) : M unit :=
  files <- prop parsed "files" ;;
  match files with
  | Some fs =>
      if JS.truthy fs then
        positive <- settle (length_positive env fs) ;;
        if positive : bool then
          match Env.saveTaskFiles env (st_task_id subtask) fs (agent_id agent) with
          | Some e => throw e
          | None => ret tt
          end
        else ret tt
      else ret tt
  | None => ret tt
  end.

(** "Check if agent needs help from another". *)
Definition handleHelp (subtask : Subtask) (agent : Agent) (parsed : JS.JSValue) : M unit :=
  needsHelp <- prop parsed "needsHelp" ;;
  match needsHelp with
  | Some toAgentType =>
      if JS.truthy toAgentType then
        helpTopic <- prop parsed "helpTopic" ;;
        requestAgentHelp agent toAgentType helpTopic (st_task_id subtask)
      else ret tt
  | None => ret tt
  end.

(** The statements of the [try] block after [await callAgent(...)]. *)
Definition handleResponse (subtask : Subtask) (agent : Agent) (response : string) : M unit :=
  let parsed := parseAgentResponse response in
  emitBubbles agent parsed ;;
  saveOutput subtask parsed response ;;
  handleFiles subtask agent parsed ;;
  handleHelp subtask agent parsed ;;
  checkTaskCompletion (st_task_id subtask).

(** The row written by the [catch] block: status [failed]. *)
Definition failed_row (s : Subtask) : Subtask :=
  mkSubtask (subtask_id s) (st_task_id s) (st_agent_id s) (st_agent_type s)
    (st_description s) (st_output s) SUB_FAILED (st_sequence s) (st_hub_id s)
    (st_started_at s) (st_completed_at s).

(** The [catch] block of [executeSubtask]. *)
Definition handleFailure (subtask : Subtask) (agent : Agent) : M unit :=
  modify (set_subtasks (update_where (fun s => Nat.eqb (subtask_id s) (subtask_id subtask))
    failed_row)) ;;
  emit (agent_speak (agent_type agent) (JS.JStr "Something went wrong...") None).

(** The row written by "Reset agent status": [idle], nothing being done. *)
Definition idle_agent (a : Agent) : Agent :=
  mkAgent (agent_id a) (agent_type a) (current_hub a) (target_hub a)
    State.IDLE None (position_x a) (position_y a) (position_z a).

(** [executeSubtask(subtask)] from the moment the reasoning call settles,
    with what it settled to. *)
Definition executeSubtask_finish (subtask : Subtask) (agent : Agent)
    (reply : JS.Exn + string) : M unit :=
  try_catch
    (response <- settle reply ;; handleResponse subtask agent response)
    (fun _ => handleFailure subtask agent) ;;
  modify (set_agents (update_where (fun a => Nat.eqb (agent_id a) (agent_id agent))
    idle_agent)) ;;
  emit (agent_status_changed (agent_type agent) State.IDLE None).

(** [executeSubtask(subtask)]. *)
Definition executeSubtask (subtask : Subtask) : M unit :=
  started <- executeSubtask_begin subtask ;;
  reply <- attempt (Claude.callAgent env (agent_type (fst started)) (snd started)) ;;
  executeSubtask_finish subtask (fst started) reply.

(** The row that [planTask] inserts: the status is the column's default,
    [pending]. *)
Definition planned_row (id taskId agentId : nat) (agentType description hub : string)
    (i : nat) : Subtask :=
  mkSubtask id taskId agentId agentType description None SUB_PENDING (Z.of_nat i)
    (Some hub) None None.

(** The [INSERT INTO subtasks] of [planTask], with the constraints of
    schema.sql: [agent_type] and [description] are NOT NULL, the generated
    identifier is the primary key, the task and the hub are foreign keys. *)
Definition insertSubtask (taskId : nat) (agent : Agent) (agentType description : option string)
    (hub : string) (i : nat) : M unit :=
  match agentType, description with
  | None, _ => throw (db_error "subtasks_agent_type_not_null")
  | _, None => throw (db_error "subtasks_description_not_null")
  | Some type, Some text =>
      id <- read next_id ;;
      used <- read (fun w => existsb (fun s => Nat.eqb (subtask_id s) id) (subtasks w)) ;;
      task_known <- read (has_task taskId) ;;
      hub_known <- read (has_hub hub) ;;
      if used : bool then throw (db_error "subtasks_pkey")
      else if negb task_known then throw (db_error "subtasks_task_id_fkey")
      else if negb hub_known then throw (db_error "subtasks_hub_id_fkey")
      else
        modify bump_next_id ;;
        modify (set_subtasks (fun rows => rows ++
          [ planned_row id taskId (agent_id agent) type text hub i ]))
  end.

(** The body of the loop of [planTask], for [st = subtasks[i]]. *)
Definition planSubtask (taskId : nat) (i : nat) (st : JS.JSValue) : M unit :=
  agentType <- settle (JS.get_prop st "agent") ;;
  found <- getAgentByType (pg_param env agentType) ;;
  hub <- settle (hub_for agentType) ;;
  agent <- defined found "id" ;;
  description <- settle (JS.get_prop st "description") ;;
  insertSubtask taskId agent (pg_param env agentType) (pg_param env description) hub i ;;
  assignAgentToHub (agent_id agent) hub.

(** The loop of [planTask] from index [i] on, [items] being the elements
    from there: it ends when [i < subtasks.length] fails, and reading
    [st.agent] throws when the element at [i] is [undefined]. *)
Fixpoint planSubtasks (taskId : nat) (below : nat -> bool) (items : list JS.JSValue)
    (i : nat) : M unit :=
  if below i then
    match items with
    | [] => throw (JS.TypeError "Cannot read properties of undefined (reading 'agent')")
    | st :: rest => planSubtask taskId i st ;; planSubtasks taskId below rest (S i)
    end
  else ret tt.

(** The row written at the end of [planTask]: status [in_progress]. *)
Definition planned_task (r : Task) : Task :=
  mkTask (task_id r) (task_prompt r) (task_user_id r) TASK_IN_PROGRESS
    (task_created_at r) (task_started_at r) (task_completed_at r)
    (download_url r) (preview_url r) (task_error r).

(** [planTask(taskId, plannerResponse)]. *)
Definition planTask (taskId : nat) (plannerResponse : string) : M unit :=
  match Env.JSON_parse env plannerResponse with
  | None => throw JS.SyntaxError
  | Some subtasks =>
      below <- settle (below_length env subtasks) ;;
      planSubtasks taskId below (elements subtasks) 0 ;;
      modify (set_tasks (update_where (fun r => Nat.eqb (task_id r) taskId) planned_task)) ;;
      emit (task_planned taskId (length_of subtasks))
  end.

(** [processSubtasks()]. *)
Definition processSubtasks : M unit :=
  rows <- read ready_subtasks ;;
  for_each rows executeSubtask.

(** The rows of the query of [processMessages()]: unread messages joined with
    sender and recipient, both with [current_hub = 'town_square'], ordered by
    creation time; each row with [from_type] and [to_type]. *)
Definition unread (m : Message) : bool :=
  match read_at m with
  | None => true
  | Some _ => false
  end.

Definition ready_messages (w : World) : list (Message * string * string) :=
  order_by (fun row => msg_created_at (fst (fst row)))
    (flat_map (fun m =>
       flat_map (fun fa =>
         map (fun ta => (m, agent_type fa, agent_type ta))
           (filter (fun ta =>
              Nat.eqb (to_agent_id m) (agent_id ta)
              && sql_eq (current_hub ta) (Some "town_square")) (agents w)))
         (filter (fun fa =>
            Nat.eqb (from_agent_id m) (agent_id fa)
            && sql_eq (current_hub fa) (Some "town_square")) (agents w)))
       (filter unread (messages w))).

(** The row written by "Mark as read". *)
Definition read_row (t : Z) (m : Message) : Message :=
  mkMessage (message_id m) (msg_task_id m) (from_agent_id m) (to_agent_id m)
    (from_agent_type m) (to_agent_type m) (msg_content m) (msg_hub_id m)
    (Some t) (msg_created_at m).

(** The body of the loop of [processMessages()]. *)
Definition deliverMessage (row : Message * string * string) : M unit :=
  let msg := fst (fst row) in
  let from_type := snd (fst row) in
  let to_type := snd row in
  t <- read now ;;
  modify (set_messages (update_where (fun m => Nat.eqb (message_id m) (message_id msg))
    (read_row t))) ;;
  response <- Claude.callAgent env to_type
    (nl ++ "        " ++ from_type ++ " said: " ++ dquote ++ msg_content msg ++ dquote ++ nl
     ++ "        Respond briefly and helpfully." ++ nl ++ "      ")%string ;;
  let parsed := parseAgentResponse response in
  saying <- prop parsed "saying" ;;
  emit (agent_speak to_type (JS.or_else saying (JS.JStr (JS.slice0 100 response)))
          (Some (JS.JStr from_type))).

(** [processMessages()]. *)
Definition processMessages : M unit :=
  rows <- read ready_messages ;;
  for_each rows deliverMessage.

(** What one call of [tick()] did besides changing the world: the exception
    its [catch] logged, and whether it handed itself to [setTimeout]. *)
Record TickResult : Type := mkTickResult {
  caught : option JS.Exn;
  rescheduled : bool
}.

(** The four phases inside the [try] of [tick()]. *)
Definition phases : M unit :=
  processPendingTasks ;;
  updateAgentPositions ;;
  processSubtasks ;;
  processMessages.

(** [tick()]. *)
Definition tick (w : World) : World * TickResult :=
  if negb (running w) then (w, mkTickResult None false)
  else
    match phases w with
    | (w', inl error) => (w', mkTickResult (Some error) true)
    | (w', inr _) => (w', mkTickResult None true)
    end.

(** [start()]. *)
Definition start (w : World) : World * TickResult :=
  let w1 := set_running true w in
  let w2 := set_agentStates (fun m =>
              fold_left (fun acc agent => map_set (agent_id agent) (new_AgentState agent) acc)
                (agents w1) m) w1 in
  tick w2.

(** [stop()]. *)
Definition stop (w : World) : World := set_running false w.

End Orchestrator.

End Loop.

(* ================================================================== *)
(** * src/orchestration/state.js: serialization and the state manager *)
(* ================================================================== *)

Module AgentStateManager.

Import Db.

(** [AgentState.fromJSON(data)], for data that carries a position, as the
    object of [toJSON()] does: the constructor runs on the row-shaped object
    built from the data, then the three remaining fields are assigned. *)
Definition fromJSON (data : State.StateData) : State.AgentState :=
  let state :=
    Loop.new_AgentState
      (mkAgent (State.d_agentId data) (State.d_agentType data) (State.d_currentHub data)
         (State.d_targetHub data) (State.d_status data) (State.d_doing data)
         (State.px (State.d_position data)) (State.py (State.d_position data))
         (State.pz (State.d_position data))) in
  State.mkAgentState (State.agentId state) (State.agentType state) (State.status state)
    (State.currentHub state) (State.targetHub state)
    (State.d_currentTask data) (State.d_currentSubtask data)
    (State.position state) (State.doing state) (State.d_chattingWith data)
    (State.emitted state).

(** The [agents] map of the manager, in insertion order. *)
Definition Agents : Type := list (nat * State.AgentState).

(** [new AgentStateManager()]. *)
Definition empty : Agents := [].

(** [set(agentId, agent)]: the state it returns and the map after the call. *)
Definition set (agentId : nat) (agent : Agent) (m : Agents) : State.AgentState * Agents :=
  let state := Loop.new_AgentState agent in
  (state, Loop.map_set agentId state m).

(** [get(agentId)]. *)
Definition get (agentId : nat) (m : Agents) : option State.AgentState :=
  Loop.map_get agentId m.

(** [this.agents.values()]. *)
Definition values (m : Agents) : list State.AgentState := map snd m.

(** [getByType(type)]: the first state of that type, or [null]. *)
Definition getByType (type : string) (m : Agents) : option State.AgentState :=
  List.find (fun state => String.eqb (State.agentType state) type) (values m).

(** [getByStatus(status)]. *)
Definition getByStatus (status : State.AgentStatus) (m : Agents) : list State.AgentState :=
  filter (fun a => State.status_eqb (State.status a) status) (values m).

Definition getIdleAgents (m : Agents) : list State.AgentState := getByStatus State.IDLE m.
Definition getTravelingAgents (m : Agents) : list State.AgentState :=
  getByStatus State.TRAVELING m.
Definition getWorkingAgents (m : Agents) : list State.AgentState := getByStatus State.WORKING m.

(** [toJSON()] of the manager: the serialized state under each key. *)
Definition toJSON (m : Agents) : list (nat * State.StateData) :=
  map (fun entry => (fst entry, State.toJSON (snd entry))) m.

End AgentStateManager.

(* ================================================================== *)
(** * src/api/routes.js: the task endpoints *)
(* ================================================================== *)

Module Routes.

Import Db Effects.
Local Open Scope eff_scope.

(** [POST /api/tasks] with a body [{prompt, userId}]; the created row, or
    nothing when the prompt is missing or empty (status 400). *)
Definition createTask (prompt : string) (userId : option string) (w : World)
    : World * option Task :=
  if String.eqb prompt "" then (w, None)
  else
    let task := mkTask (next_id w) prompt
                  (match userId with
                   | Some u => if String.eqb u "" then "anonymous" else u
                   | None => "anonymous"
                   end)
                  TASK_PENDING (now w) None None None None None in
    (exec (emit (task_created (task_id task) (task_prompt task)))
       (bump_next_id (set_tasks (fun rows => rows ++ [task])%list w)),
     Some task).

(** The row written by the cancel route: status [cancelled]. *)
Definition cancelled_task (r : Task) : Task :=
  mkTask (task_id r) (task_prompt r) (task_user_id r) TASK_CANCELLED
    (task_created_at r) (task_started_at r) (task_completed_at r)
    (download_url r) (preview_url r) (task_error r).

(** The [WHERE] clause of the cancel route. *)
Definition cancellable (id : nat) (r : Task) : bool :=
  Nat.eqb (task_id r) id
  && negb (task_status_eqb (task_status r) TASK_COMPLETED
           || task_status_eqb (task_status r) TASK_CANCELLED).

(** [POST /api/tasks/:id/cancel]. *)
Definition cancelTask (id : nat) : M unit :=
  modify (set_tasks (update_where (cancellable id) cancelled_task)) ;;
  emit (task_cancelled id).

(** The row written by the move route: the target hub and the status
    [traveling]. *)
Definition moved_to (hub : option string) (a : Agent) : Agent :=
  mkAgent (agent_id a) (agent_type a) (current_hub a) hub State.TRAVELING (agent_doing a)
    (position_x a) (position_y a) (position_z a).

(** [POST /api/agents/:id/move] with a body [{hub}]: the world after the
    request and the status code of the response.  Every exception is caught
    by the handler and answered with 500. *)
Definition moveAgent (id : nat) (hub : option string) (w : World) : World * nat :=
  match hub, first_where (fun h => sql_eq (Some (hub_id h)) hub) (hubs w) with
  | Some hubId, Some targetHub =>
      let w1 := set_agents (update_where (fun a => Nat.eqb (agent_id a) id) (moved_to hub)) w in
      match first_where (fun a => Nat.eqb (agent_id a) id) (agents w1) with
      | Some agent =>
          (exec (emit (agent_move (agent_type agent) (position_x agent) (position_y agent)
                         (hub_position_x targetHub) (hub_position_y targetHub) hubId)) w1,
           200)
      | None => (w1, 500)
      end
  | _, _ => (w, 404)
  end.

End Routes.

(* ================================================================== *)
(** * src/workers/taskProcessor.js: the background task processor *)
(* ================================================================== *)

Module TaskProcessor.

Import Db.

Definition POLL_INTERVAL : Z := 2000.
Definition MAX_CONCURRENT_TASKS : nat := 5.
Definition MAX_RETRIES : nat := 3.

(** An entry of [activeTasks]. *)
Record Active : Type := mkActive {
  a_task : Task;
  a_startedAt : Z;
  a_retries : nat
}.

(** What the processor publishes with [emit]. *)
Inductive Published : Type :=
| task_processed (taskId : nat)
| task_failed (taskId : nat) (error : option string).

(** The processor's fields, with the tasks table, the published events
    (oldest first) and the clock behind [Date.now()]. *)
Record Processor : Type := mkProcessor {
  running : bool;
  activeTasks : list (nat * Active);
  queue : list Task;
  tasks : list Task;
  published : list Published;
  clock : Z
}.

(** [map.delete(key)]. *)
Definition map_delete {V : Type} (k : nat) (m : list (nat * V)) : list (nat * V) :=
  filter (fun entry => negb (Nat.eqb (fst entry) k)) m.

(** [processTask(task)]: nothing in its [try] block throws, so the entry it
    adds is removed again and [task_processed] is published. *)
Definition processTask (task : Task) (p : Processor) : Processor :=
  let added := Loop.map_set (task_id task) (mkActive task (clock p) 0) (activeTasks p) in
  mkProcessor (running p) (map_delete (task_id task) added) (queue p) (tasks p)
    (published p ++ [task_processed (task_id task)]) (clock p).

(** The row written by [handleTaskFailure]: status [failed] and the error. *)
Definition failed_task (message : option string) (r : Task) : Task :=
  mkTask (task_id r) (task_prompt r) (task_user_id r) TASK_FAILED
    (task_created_at r) (task_started_at r) (task_completed_at r)
    (download_url r) (preview_url r) message.

(** [handleTaskFailure(task, error)], with [error.message] (NULL when the
    thrown value has none). *)
Definition handleTaskFailure (task : Task) (message : option string) (p : Processor)
    : Processor :=
  let failed :=
    mkProcessor (running p) (map_delete (task_id task) (activeTasks p)) (queue p)
      (update_where (fun r => Nat.eqb (task_id r) (task_id task)) (failed_task message)
         (tasks p))
      (published p ++ [task_failed (task_id task) message]) (clock p) in
  match Loop.map_get (task_id task) (activeTasks p) with
  | Some activeTask =>
      if Nat.ltb (a_retries activeTask) MAX_RETRIES then
        mkProcessor (running p)
          (Loop.map_set (task_id task)
             (mkActive (a_task activeTask) (a_startedAt activeTask)
                (S (a_retries activeTask)))
             (activeTasks p))
          (queue p) (tasks p) (published p) (clock p)
      else failed
  | None => failed
  end.

(** [getStatus()]. *)
Definition getStatus (p : Processor) : bool * nat * nat :=
  (running p, List.length (activeTasks p), List.length (queue p)).

End TaskProcessor.

(* ================================================================== *)
(** * src/workers/agentWorker.js: the worker's execution of a subtask *)
(* ================================================================== *)

Module AgentWorker.

Import Db Effects.
Local Open Scope eff_scope.

(** The object literal [phrases] of [getStartingPhrase()]. *)
Definition phrases : list (string * list string) :=
  [ ("planner",
     ["Let me think about this..."; "Breaking this down..."; "Alright, here's the plan..."]);
    ("designer",
     ["Let me visualize this..."; "Thinking about the look..."; "I see it now..."]);
    ("coder", ["Time to code..."; "Let me build this..."; "Writing some code..."]);
    ("reviewer", ["Let me check this..."; "Reviewing now..."; "Looking it over..."]) ].

Section Worker.

Variable env : Env.Runtime.

(** [this.agent], the row that [init()] loaded; [this.agentId] is its key.
    ([this.currentSubtask] is assigned and never read.) *)
Variable agent : Agent.

(** The integer that [Math.floor(Math.random() * n)] yields for a positive
    [n]; it lies below [n], which [getStartingPhrase] relies on. *)
Variable draw : nat -> nat.

(** [updateStatus(status, doing = null)]. *)
Definition updateStatus (status : State.AgentStatus) (doing : option string) : M unit :=
  modify (set_agents (update_where (fun a => Nat.eqb (agent_id a) (agent_id agent))
    (fun a => mkAgent (agent_id a) (agent_type a) (current_hub a) (target_hub a)
                status doing (position_x a) (position_y a) (position_z a)))) ;;
  emit (agent_status_changed (agent_type agent) status doing).

(** [getStartingPhrase()]: an element of the list that the agent's type
    names, or of [['On it...']].  For a type that names an inherited property
    the options are a function or the prototype, indexing them yields
    [undefined], and the result is [undefined]. *)
Definition getStartingPhrase : option string :=
  let pick (options : list string) :=
    nth (draw (List.length options) mod List.length options) options "" in
  match JS.lookup_literal (agent_type agent) phrases with
  | JS.Own options => Some (pick options)
  | JS.Absent => Some (pick ["On it..."])
  | JS.Inherited => None
  end.

(** [getPreviousOutputs(taskId, beforeSequence)]. *)
Definition getPreviousOutputs (taskId : nat) (beforeSequence : Z)
    : M Loop.Obj :=
  read (fun w =>
    fold_left (fun outputs row => Loop.obj_set (st_agent_type row) (st_output row) outputs)
      (order_by st_sequence
        (filter (fun s =>
           Nat.eqb (st_task_id s) taskId
           && (st_sequence s <? beforeSequence)%Z
           && subtask_status_eqb (st_status s) SUB_COMPLETED) (subtasks w)))
      Loop.empty_obj).

(** [buildPrompt(subtask)]. *)
Definition buildPrompt (subtask : Subtask) : M string :=
  let prompt := ("Task: " ++ st_description subtask ++ Loop.nl ++ Loop.nl)%string in
  prevOutputs <- getPreviousOutputs (st_task_id subtask) (st_sequence subtask) ;;
  previous <-
    (if Nat.ltb 0 (List.length (Loop.entries prevOutputs)) then
       lines <- Loop.previous_work (Loop.entries prevOutputs) ;;
       ret ("Previous work:" ++ Loop.nl ++ lines ++ Loop.nl)%string
     else ret "") ;;
  ret (prompt ++ previous ++ "Complete your part of this task.")%string.

(** [saveFile(taskId, file)] reads [file.name] for its log line. *)
Definition saveFile (file : JS.JSValue) : M unit :=
  _ <- settle (JS.get_prop file "name") ;; ret tt.

(** [processOutput(parsed, subtask)]: the files are iterated, and a request
    for help is only logged. *)
Definition processOutput (parsed : JS.JSValue) : M unit :=
  files <- settle (JS.get_prop parsed "files") ;;
  match files with
  | Some fs =>
      if JS.truthy fs then
        positive <- settle (Loop.length_positive env fs) ;;
        if positive : bool then
          match fs with
          | JS.JArr items => for_each items saveFile
          | JS.JStr _ => ret tt
          | _ => throw (JS.TypeError "parsed.files is not iterable")
          end
        else ret tt
      else ret tt
  | None => ret tt
  end ;;
  needsHelp <- settle (JS.get_prop parsed "needsHelp") ;;
  (if JS.truthy_opt needsHelp then _ <- settle (JS.get_prop parsed "helpTopic") ;; ret tt
   else ret tt).

(** The statements of the [try] block of [executeSubtask(subtask)]. *)
Definition attemptSubtask (subtask : Subtask) : M JS.JSValue :=
  prompt <- buildPrompt subtask ;;
  emit (match getStartingPhrase with
        | Some text => agent_speak (agent_type agent) (JS.JStr text) None
        | None => agent_speak_no_text (agent_type agent)
        end) ;;
  response <- Claude.callAgent env (agent_type agent) prompt ;;
  let parsed := Claude.parseAgentResponse env response in
  thinking <- settle (JS.get_prop parsed "thinking") ;;
  match thinking with
  | Some text => when (JS.truthy text) (emit (agent_think (agent_type agent) text))
  | None => ret tt
  end ;;
  saying <- settle (JS.get_prop parsed "saying") ;;
  match saying with
  | Some text =>
      if JS.truthy text then
        toAgent <- settle (JS.get_prop parsed "toAgent") ;;
        emit (agent_speak (agent_type agent) text toAgent)
      else ret tt
  | None => ret tt
  end ;;
  processOutput parsed ;;
  output <- settle (JS.get_prop parsed "output") ;;
  t <- read now ;;
  modify (set_subtasks (update_where (fun s => Nat.eqb (subtask_id s) (subtask_id subtask))
    (Loop.completed_row (Loop.pg_param env (Some (JS.or_else output (JS.JStr response)))) t))) ;;
  ret parsed.

(** [executeSubtask(subtask)]. *)
Definition executeSubtask (subtask : Subtask) : M JS.JSValue :=
  updateStatus State.WORKING (Some (JS.slice0 50 (st_description subtask))) ;;
  try_catch (attemptSubtask subtask)
    (fun error => updateStatus State.IDLE None ;; throw error).

End Worker.

End AgentWorker.

(* ================================================================== *)
(** * Concrete worlds: the seed of schema.sql and the scenarios *)
(* ================================================================== *)

Module Scenario.

Import Db.

(** The hubs and the agents that schema.sql seeds. *)
Definition seed_hubs : list Hub :=
  [ mkHub "town_square" 0 0;
    mkHub "planning_room" (-5) 3;
    mkHub "design_studio" 5 3;
    mkHub "coding_desk" (-5) (-3);
    mkHub "review_station" 5 (-3);
    mkHub "deploy_station" 0 (-5);
    mkHub "tavern" (-7) 0;
    mkHub "library" 7 0 ]%float.

Definition seed_agent (id : nat) (type : string) : Agent :=
  mkAgent id type (Some "town_square") None State.IDLE None 0 0 0.

Definition seed_agents : list Agent :=
  [ seed_agent 1 "planner"; seed_agent 2 "designer";
    seed_agent 3 "coder"; seed_agent 4 "reviewer" ].

(** An agent standing idle at a hub. *)
Definition agent_at (id : nat) (type hub : string) (x y : float) : Agent :=
  mkAgent id type (Some hub) None State.IDLE None x y 0.

Definition seed_world : World :=
  mkWorld seed_hubs seed_agents [] [] [] [] [] true [] [] 0%Z 100 0.

(** [JSON.parse] on the replies the scenarios use: the text [null] is the
    JSON literal, the other replies are prose and make it throw. *)
Definition JSON_parse_replies (text : string) : option JS.JSValue :=
  if String.eqb text "null" then Some JS.JNull else None.

(** A runtime whose reasoning service answers every call with [reply]. *)
Definition runtime_replying (reply : JS.Exn + string) : Env.Runtime :=
  Env.mkRuntime JSON_parse_replies (fun _ => PrimFloat.nan) (fun _ => "")
    (fun _ _ _ => reply) (fun _ _ _ => None) (fun _ => "task")
    "http://localhost:3000/preview".

Definition prose : string := "I did it, no JSON here".

Definition env_prose : Env.Runtime := runtime_replying (inr prose).
Definition env_null : Env.Runtime := runtime_replying (inr "null").
Definition env_down : Env.Runtime := runtime_replying (inl (JS.Error "overloaded")).

Definition a_task (id : nat) (status : TaskStatus) : Task :=
  mkTask id "build a page" "anonymous" status 0%Z None None None None None.

Definition a_subtask (id taskId agentId : nat) (type hub : string) (seq : Z)
    (status : SubtaskStatus) : Subtask :=
  mkSubtask id taskId agentId type "do your part" None status seq (Some hub) None None.

End Scenario.

(* ================================================================== *)
(** * The agent state machine follows the table of section 4.2 *)
(* ================================================================== *)

(** C7.  The transitions that [AgentState.transition] accepts are exactly the
    rows of the table of section 4.2: an event listed for the current status
    is accepted and leads to the listed status; for a pair that is not listed
    the call returns [false] and the object, status and every other field, is
    left as it was.  In particular [complete_work] on an idle agent is
    rejected and the agent stays idle. *)
Theorem transition_follows_spec_table
    (st : State.AgentState) (e : State.AgentEvents) (p : State.Payload) :
  (forall t, State.canTransition st e = Some t <-> In (State.status st, e, t) State.spec_table)
  /\ (forall t, In (State.status st, e, t) State.spec_table ->
        fst (State.transition e p st) = true
        /\ State.status (snd (State.transition e p st)) = t)
  /\ ((forall t, ~ In (State.status st, e, t) State.spec_table) ->
        State.transition e p st = (false, st))
  /\ (State.status st = State.IDLE ->
        State.completeWork st = (false, st)
        /\ State.status (snd (State.completeWork st)) = State.IDLE).
Proof.
  split; [ | split; [ | split]].
  - intro t. apply State.transitions_spec_table.
  - intros t Hin. apply State.transition_accepts. now apply State.transitions_spec_table.
  - intro Hnone. apply State.transition_rejects.
    destruct (State.transitions (State.status st) e) as [t |] eqn:Ht; [ | reflexivity].
    exfalso. apply (Hnone t). now apply State.transitions_spec_table.
  - intro Hidle. unfold State.completeWork.
    rewrite State.transition_rejects by (rewrite Hidle; reflexivity).
    split; [reflexivity | exact Hidle].
Qed.

(* ================================================================== *)
(** * Asking an agent to travel to the hub it occupies *)
(* ================================================================== *)

(** C10.  [assignAgentToHub(agentId, hubId)] with [hubId] equal to the
    [current_hub] of the agent row is a no-op: it returns without throwing
    and the world (the agent's status, target hub and position, and the list
    of published events among the rest) is unchanged. *)
Theorem assignAgentToHub_current_hub_noop
    (w : Db.World) (agentId : nat) (hubId : string) (agent : Db.Agent) :
  Effects.outcome (Loop.getAgent agentId) w = inr (Some agent) ->
  Db.current_hub agent = Some hubId ->
  Loop.assignAgentToHub agentId hubId w = (w, inr tt).
Proof.
  intros Hget Hhub.
  unfold Effects.outcome, Loop.getAgent, Effects.read in Hget. simpl in Hget.
  injection Hget as Hget.
  unfold Loop.assignAgentToHub, Effects.bind, Loop.getAgent, Effects.read.
  rewrite Hget. simpl. rewrite Hhub. simpl. rewrite String.eqb_refl. reflexivity.
Qed.

Lemma assignAgentToHub_current_hub_noop_witness :
  Loop.assignAgentToHub 1 "town_square" Scenario.seed_world = (Scenario.seed_world, inr tt).
Proof.
  apply (assignAgentToHub_current_hub_noop Scenario.seed_world 1 "town_square"
           (Scenario.seed_agent 1 "planner")); reflexivity.
Defined.

(* ================================================================== *)
(** * Frame conditions: what a computation leaves alone *)
(* ================================================================== *)

Module Frame.

Import Db Effects.

(** [keeps f m]: the observation [f] of the world is the same after [m],
    whether [m] returns or throws. *)
Definition keeps {A X : Type} (f : World -> X) (m : M A) : Prop :=
  forall w, f (fst (m w)) = f w.

Section Rules.

Context {X : Type} (f : World -> X).

Lemma keeps_ret {A} (a : A) : keeps f (ret a).
Proof. intro w. reflexivity. Qed.

Lemma keeps_throw {A} (e : JS.Exn) : keeps f (@throw A e).
Proof. intro w. reflexivity. Qed.

Lemma keeps_read {A} (g : World -> A) : keeps f (read g).
Proof. intro w. reflexivity. Qed.

Lemma keeps_defined {A} (o : option A) (s : string) : keeps f (defined o s).
Proof. intro w. destruct o; reflexivity. Qed.

Lemma keeps_settle {A} (r : JS.Exn + A) : keeps f (settle r).
Proof. intro w. destruct r; reflexivity. Qed.

Lemma keeps_modify (g : World -> World) :
  (forall w, f (g w) = f w) -> keeps f (modify g).
Proof. intros H w. apply H. Qed.

Lemma keeps_bind {A B} (m : M A) (k : A -> M B) :
  keeps f m -> (forall a, keeps f (k a)) -> keeps f (bind m k).
Proof.
  intros Hm Hk w. unfold bind. specialize (Hm w).
  destruct (m w) as [w1 [e | a]]; simpl in *.
  - exact Hm.
  - rewrite (Hk a w1). exact Hm.
Qed.

Lemma keeps_try_catch {A} (m : M A) (h : JS.Exn -> M A) :
  keeps f m -> (forall e, keeps f (h e)) -> keeps f (try_catch m h).
Proof.
  intros Hm Hh w. unfold try_catch. specialize (Hm w).
  destruct (m w) as [w1 [e | a]]; simpl in *.
  - rewrite (Hh e w1). exact Hm.
  - exact Hm.
Qed.

Lemma keeps_attempt {A} (m : M A) : keeps f m -> keeps f (attempt m).
Proof.
  intros Hm w. unfold attempt. specialize (Hm w).
  destruct (m w) as [w1 r]. exact Hm.
Qed.

Lemma keeps_when (b : bool) (m : M unit) : keeps f m -> keeps f (when b m).
Proof. intros Hm. destruct b; [exact Hm | apply keeps_ret]. Qed.

Lemma keeps_for_each {A} (rows : list A) (body : A -> M unit) :
  (forall r, keeps f (body r)) -> keeps f (for_each rows body).
Proof.
  intro Hb. induction rows as [ | r rest IH]; simpl.
  - apply keeps_ret.
  - apply keeps_bind; [apply Hb | intros _; exact IH].
Qed.

End Rules.

(** An [UPDATE] keeps a column that its [SET] list does not assign. *)
Lemma map_update_where {A B : Type} (col : A -> B) (p : A -> bool) (g : A -> A) (rows : list A) :
  (forall r, col (g r) = col r) -> map col (update_where p g rows) = map col rows.
Proof.
  intro H. unfold update_where. rewrite map_map. apply map_ext.
  intro r. destruct (p r); [apply H | reflexivity].
Qed.

Lemma update_where_length {A : Type} (p : A -> bool) (g : A -> A) (rows : list A) :
  List.length (update_where p g rows) = List.length rows.
Proof. apply length_map. Qed.

Lemma in_update_where {A : Type} (p : A -> bool) (g : A -> A) (rows : list A) (r' : A) :
  In r' (update_where p g rows) <->
  exists r, In r rows /\ r' = (if p r then g r else r).
Proof.
  unfold update_where. rewrite in_map_iff. split.
  - intros [r [Heq Hin]]. exists r. split; [exact Hin | symmetry; exact Heq].
  - intros [r [Hin Heq]]. exists r. split; [symmetry; exact Heq | exact Hin].
Qed.

(** The kinds of write the sources perform.  An [UPDATE] of the agents never
    assigns [id] or [type]; an [UPDATE] of the subtasks assigns only status,
    output and the two timestamps; an [UPDATE] of the tasks never assigns
    [id]; an [UPDATE] of the messages assigns only [read_at]. *)
Definition agent_update (g : Agent -> Agent) : Prop :=
  forall a, agent_id (g a) = agent_id a /\ agent_type (g a) = agent_type a.

Definition subtask_update (g : Subtask -> Subtask) : Prop :=
  forall s, subtask_id (g s) = subtask_id s /\ st_task_id (g s) = st_task_id s
            /\ st_agent_id (g s) = st_agent_id s /\ st_agent_type (g s) = st_agent_type s
            /\ st_description (g s) = st_description s
            /\ st_sequence (g s) = st_sequence s /\ st_hub_id (g s) = st_hub_id s.

Definition task_update (g : Task -> Task) : Prop :=
  forall t, task_id (g t) = task_id t /\ task_created_at (g t) = task_created_at t.

Definition message_update (g : Message -> Message) : Prop :=
  forall m, message_id (g m) = message_id m /\ msg_task_id (g m) = msg_task_id m
            /\ from_agent_id (g m) = from_agent_id m /\ to_agent_id (g m) = to_agent_id m
            /\ msg_hub_id (g m) = msg_hub_id m /\ msg_content (g m) = msg_content m
            /\ msg_created_at (g m) = msg_created_at m.

(** An observation is blind to a kind of write when no such write changes it. *)
Definition blind_agents {X} (f : World -> X) : Prop :=
  forall p g w, agent_update g -> f (set_agents (update_where p g) w) = f w.
Definition blind_subtasks {X} (f : World -> X) : Prop :=
  forall p g w, subtask_update g -> f (set_subtasks (update_where p g) w) = f w.
Definition blind_subtask {X} (id : nat) (f : World -> X) : Prop :=
  forall g w, subtask_update g ->
    f (set_subtasks (update_where (fun s => Nat.eqb (subtask_id s) id) g) w) = f w.
Definition blind_tasks {X} (f : World -> X) : Prop :=
  forall p g w, task_update g -> f (set_tasks (update_where p g) w) = f w.
Definition blind_message_updates {X} (f : World -> X) : Prop :=
  forall p g w, message_update g -> f (set_messages (update_where p g) w) = f w.
Definition blind_message_inserts {X} (f : World -> X) : Prop :=
  forall l w, f (set_messages (fun rows => rows ++ l) w) = f w.
Definition blind_events {X} (f : World -> X) : Prop :=
  forall g w, f (set_events g w) = f w.
Definition blind_timers {X} (f : World -> X) : Prop :=
  forall g w, f (set_timers g w) = f w.
Definition blind_agentStates {X} (f : World -> X) : Prop :=
  forall g w, f (set_agentStates g w) = f w.
Definition blind_activeTasks {X} (f : World -> X) : Prop :=
  forall g w, f (set_activeTasks g w) = f w.
Definition blind_next_id {X} (f : World -> X) : Prop :=
  forall w, f (bump_next_id w) = f w.
Definition blind_calls {X} (f : World -> X) : Prop :=
  forall w, f (bump_calls w) = f w.

Lemma blind_subtasks_one {X} (f : World -> X) (id : nat) :
  blind_subtasks f -> blind_subtask id f.
Proof. intros H g w Hg. apply H, Hg. Qed.

End Frame.

Create HintDb frame.

#[export] Hint Resolve Frame.blind_subtasks_one : frame.

(** A write of a known kind, against an observation assumed blind to it. *)
Ltac frame_write :=
  apply Frame.keeps_modify; intro;
  match goal with
  | H : Frame.blind_agents ?f |- ?f _ = _ => apply H; intro; repeat split
  | H : Frame.blind_subtasks ?f |- ?f _ = _ => apply H; intro; repeat split
  | H : Frame.blind_subtask _ ?f |- ?f _ = _ => apply H; intro; repeat split
  | H : Frame.blind_tasks ?f |- ?f _ = _ => apply H; intro; repeat split
  | H : Frame.blind_message_updates ?f |- ?f _ = _ => apply H; intro; repeat split
  | H : Frame.blind_message_inserts ?f |- ?f _ = _ => apply H
  | H : Frame.blind_events ?f |- ?f _ = _ => apply H
  | H : Frame.blind_timers ?f |- ?f _ = _ => apply H
  | H : Frame.blind_agentStates ?f |- ?f _ = _ => apply H
  | H : Frame.blind_activeTasks ?f |- ?f _ = _ => apply H
  | H : Frame.blind_next_id ?f |- ?f _ = _ => apply H
  | H : Frame.blind_calls ?f |- ?f _ = _ => apply H
  end.

(** One step of a frame proof: peel the outermost construct. *)
Ltac frame_step :=
  match goal with
  | |- Frame.keeps _ (Effects.bind _ _) => apply Frame.keeps_bind; [ | intro]
  | |- Frame.keeps _ (Effects.ret _) => apply Frame.keeps_ret
  | |- Frame.keeps _ (Effects.throw _) => apply Frame.keeps_throw
  | |- Frame.keeps _ (Effects.read _) => apply Frame.keeps_read
  | |- Frame.keeps _ (Effects.defined _ _) => apply Frame.keeps_defined
  | |- Frame.keeps _ (Effects.settle _) => apply Frame.keeps_settle
  | |- Frame.keeps _ (Effects.when _ _) => apply Frame.keeps_when
  | |- Frame.keeps _ (Effects.attempt _) => apply Frame.keeps_attempt
  | |- Frame.keeps _ (Effects.try_catch _ _) => apply Frame.keeps_try_catch; [ | intro]
  | |- Frame.keeps _ (for_each _ _) => apply Frame.keeps_for_each; intro
  | |- Frame.keeps _ (Effects.emit _) => unfold Effects.emit; frame_write
  | |- Frame.keeps _ (Effects.setTimeout_emit _ _) => unfold Effects.setTimeout_emit; frame_write
  | |- Frame.keeps _ (Effects.modify _) => frame_write
  | |- Frame.keeps _ (if ?b then _ else _) => destruct b
  | |- Frame.keeps _ (match ?x with _ => _ end) => destruct x
  | |- Frame.keeps _ _ => solve [eauto with frame]
  end.

Ltac frame := repeat frame_step.

(** Blindness of a concrete observation is checked by computation. *)
Ltac blind :=
  first
    [ intros ? ? ? ?; simpl; first [reflexivity | apply Frame.map_update_where; firstorder]
    | intros ? ?; reflexivity
    | intros ?; reflexivity ].

#[export] Hint Extern 1 (Frame.blind_agents _) => blind : frame.
#[export] Hint Extern 1 (Frame.blind_subtasks _) => blind : frame.
#[export] Hint Extern 1 (Frame.blind_tasks _) => blind : frame.
#[export] Hint Extern 1 (Frame.blind_message_updates _) => blind : frame.
#[export] Hint Extern 1 (Frame.blind_message_inserts _) => blind : frame.
#[export] Hint Extern 1 (Frame.blind_events _) => blind : frame.
#[export] Hint Extern 1 (Frame.blind_timers _) => blind : frame.
#[export] Hint Extern 1 (Frame.blind_agentStates _) => blind : frame.
#[export] Hint Extern 1 (Frame.blind_activeTasks _) => blind : frame.
#[export] Hint Extern 1 (Frame.blind_next_id _) => blind : frame.
#[export] Hint Extern 1 (Frame.blind_calls _) => blind : frame.

(* ================================================================== *)
(** * Frame conditions of the orchestrator's methods *)
(* ================================================================== *)

Module LoopFrame.

Import Db Effects Frame.

Section Observation.

Context {X : Type} (f : World -> X).

Lemma assignAgentToHub_keeps (agentId : nat) (hubId : string) :
  blind_agents f -> blind_events f -> keeps f (Loop.assignAgentToHub agentId hubId).
Proof. intros Ha He. unfold Loop.assignAgentToHub, Loop.getAgent, Loop.getHub. frame. Qed.

Lemma celebrateCompletion_keeps :
  blind_agents f -> blind_events f -> blind_timers f -> keeps f Loop.celebrateCompletion.
Proof.
  intros Ha He Ht. unfold Loop.celebrateCompletion.
  pose proof assignAgentToHub_keeps. frame.
Qed.

Lemma checkTaskCompletion_keeps (env : Env.Runtime) (taskId : nat) :
  blind_tasks f -> blind_agents f -> blind_events f -> blind_timers f ->
  keeps f (Loop.checkTaskCompletion env taskId).
Proof.
  intros Hk Ha He Ht. unfold Loop.checkTaskCompletion, Loop.packageResult.
  pose proof celebrateCompletion_keeps. frame.
Qed.

Lemma requestAgentHelp_keeps (env : Env.Runtime) (fromAgent : Agent) (toAgentType : JS.JSValue)
    (topic : option JS.JSValue) (taskId : nat) :
  blind_agents f -> blind_events f -> blind_message_inserts f -> blind_next_id f ->
  keeps f (Loop.requestAgentHelp env fromAgent toAgentType topic taskId).
Proof.
  intros Ha He Hm Hn. unfold Loop.requestAgentHelp, Loop.getAgentByType.
  pose proof assignAgentToHub_keeps. frame.
Qed.

Lemma previous_work_keeps (entries : list (string * option string)) :
  keeps f (Loop.previous_work entries).
Proof.
  induction entries as [ | [agent output] rest IH]; simpl; frame.
Qed.

Lemma buildPrompt_keeps (subtask : Subtask) (context : Loop.Obj) :
  keeps f (Loop.buildPrompt subtask context).
Proof. unfold Loop.buildPrompt. pose proof previous_work_keeps. frame. Qed.

Lemma executeSubtask_begin_keeps (subtask : Subtask) :
  blind_agents f -> blind_subtask (subtask_id subtask) f -> blind_events f ->
  keeps f (Loop.executeSubtask_begin subtask).
Proof.
  intros Ha Hs He. unfold Loop.executeSubtask_begin, Loop.getAgent, Loop.buildContext.
  pose proof buildPrompt_keeps. frame.
Qed.

Lemma callAgent_keeps (env : Env.Runtime) (agentType prompt : string) :
  blind_calls f -> keeps f (Claude.callAgent env agentType prompt).
Proof. intros Hc. unfold Claude.callAgent. frame. Qed.

Lemma emitBubbles_keeps (agent : Agent) (parsed : JS.JSValue) :
  blind_events f -> keeps f (Loop.emitBubbles agent parsed).
Proof. intros He. unfold Loop.emitBubbles, Loop.prop. frame. Qed.

Lemma saveOutput_keeps (env : Env.Runtime) (subtask : Subtask) (parsed : JS.JSValue)
    (response : string) :
  blind_subtask (subtask_id subtask) f -> keeps f (Loop.saveOutput env subtask parsed response).
Proof. intros Hs. unfold Loop.saveOutput, Loop.prop. frame. Qed.

Lemma handleFiles_keeps (env : Env.Runtime) (subtask : Subtask) (agent : Agent)
    (parsed : JS.JSValue) :
  keeps f (Loop.handleFiles env subtask agent parsed).
Proof. unfold Loop.handleFiles, Loop.prop. frame. Qed.

Lemma handleHelp_keeps (env : Env.Runtime) (subtask : Subtask) (agent : Agent)
    (parsed : JS.JSValue) :
  blind_agents f -> blind_events f -> blind_message_inserts f -> blind_next_id f ->
  keeps f (Loop.handleHelp env subtask agent parsed).
Proof.
  intros Ha He Hm Hn. unfold Loop.handleHelp, Loop.prop.
  pose proof requestAgentHelp_keeps. frame.
Qed.

Lemma handleResponse_keeps (env : Env.Runtime) (subtask : Subtask) (agent : Agent)
    (response : string) :
  blind_agents f -> blind_subtask (subtask_id subtask) f -> blind_tasks f -> blind_events f -> blind_timers f ->
  blind_message_inserts f -> blind_next_id f ->
  keeps f (Loop.handleResponse env subtask agent response).
Proof.
  intros Ha Hs Hk He Ht Hm Hn.
  unfold Loop.handleResponse, Loop.emitBubbles, Loop.saveOutput, Loop.handleFiles,
    Loop.handleHelp, Loop.prop.
  pose proof requestAgentHelp_keeps. pose proof checkTaskCompletion_keeps. frame.
Qed.

Lemma handleFailure_keeps (subtask : Subtask) (agent : Agent) :
  blind_subtask (subtask_id subtask) f -> blind_events f -> keeps f (Loop.handleFailure subtask agent).
Proof. intros Hs He. unfold Loop.handleFailure. frame. Qed.

Lemma executeSubtask_finish_keeps (env : Env.Runtime) (subtask : Subtask) (agent : Agent)
    (reply : JS.Exn + string) :
  blind_agents f -> blind_subtask (subtask_id subtask) f -> blind_tasks f -> blind_events f -> blind_timers f ->
  blind_message_inserts f -> blind_next_id f ->
  keeps f (Loop.executeSubtask_finish env subtask agent reply).
Proof.
  intros Ha Hs Hk He Ht Hm Hn. unfold Loop.executeSubtask_finish.
  pose proof handleResponse_keeps. pose proof handleFailure_keeps. frame.
Qed.

Lemma executeSubtask_keeps (env : Env.Runtime) (subtask : Subtask) :
  blind_agents f -> blind_subtask (subtask_id subtask) f -> blind_tasks f -> blind_events f -> blind_timers f ->
  blind_message_inserts f -> blind_next_id f -> blind_calls f ->
  keeps f (Loop.executeSubtask env subtask).
Proof.
  intros Ha Hs Hk He Ht Hm Hn Hc. unfold Loop.executeSubtask.
  pose proof executeSubtask_begin_keeps. pose proof callAgent_keeps.
  pose proof executeSubtask_finish_keeps. frame.
Qed.

Lemma processSubtasks_keeps (env : Env.Runtime) :
  blind_agents f -> blind_subtasks f -> blind_tasks f -> blind_events f -> blind_timers f ->
  blind_message_inserts f -> blind_next_id f -> blind_calls f ->
  keeps f (Loop.processSubtasks env).
Proof.
  intros Ha Hs Hk He Ht Hm Hn Hc. unfold Loop.processSubtasks.
  pose proof executeSubtask_keeps. frame.
Qed.

Lemma deliverMessage_keeps (env : Env.Runtime) (row : Message * string * string) :
  blind_message_updates f -> blind_events f -> blind_calls f ->
  keeps f (Loop.deliverMessage env row).
Proof.
  intros Hm He Hc. unfold Loop.deliverMessage, Loop.prop.
  pose proof callAgent_keeps. frame.
Qed.

Lemma processMessages_keeps (env : Env.Runtime) :
  blind_message_updates f -> blind_events f -> blind_calls f ->
  keeps f (Loop.processMessages env).
Proof.
  intros Hm He Hc. unfold Loop.processMessages.
  pose proof deliverMessage_keeps. frame.
Qed.

Lemma moveOneAgent_keeps (agent : Agent) :
  blind_agents f -> blind_events f -> blind_agentStates f ->
  keeps f (Loop.moveOneAgent agent).
Proof. intros Ha He Hs. unfold Loop.moveOneAgent, Loop.getHub. frame. Qed.

Lemma updateAgentPositions_keeps :
  blind_agents f -> blind_events f -> blind_agentStates f ->
  keeps f Loop.updateAgentPositions.
Proof.
  intros Ha He Hs. unfold Loop.updateAgentPositions.
  pose proof moveOneAgent_keeps. frame.
Qed.

Lemma processPendingTasks_keeps :
  blind_agents f -> blind_tasks f -> blind_events f -> blind_activeTasks f ->
  keeps f Loop.processPendingTasks.
Proof.
  intros Ha Hk He Hs. unfold Loop.processPendingTasks, Loop.getAgentByType.
  pose proof assignAgentToHub_keeps. frame.
Qed.

Lemma cancelTask_keeps (id : nat) :
  blind_tasks f -> blind_events f -> keeps f (Routes.cancelTask id).
Proof. intros Hk He. unfold Routes.cancelTask. frame. Qed.

End Observation.

End LoopFrame.

(* ================================================================== *)
(** * One tick: what a failing phase does to the rest *)
(* ================================================================== *)

Module TickSpec.

Import Db Effects.
Local Open Scope eff_scope.

(** A phase whose failure is caught on the spot, as section 4.1 words it
    ("tick failures are caught per-phase"). *)
Definition isolated (phase : M unit) : M unit :=
  try_catch phase (fun _ => ret tt).

(** The world a tick would leave if every phase were isolated. *)
Definition tick_per_phase (env : Env.Runtime) (w : World) : World :=
  exec (isolated Loop.processPendingTasks ;;
        isolated Loop.updateAgentPositions ;;
        isolated (Loop.processSubtasks env) ;;
        isolated (Loop.processMessages env)) w.

(** A pending task, no planner, and a designer on its way to the studio. *)
Definition no_planner : World :=
  mkWorld Scenario.seed_hubs
    [ mkAgent 2 "designer" (Some "town_square") (Some "design_studio") State.TRAVELING None
        0 0 0 ]
    [ Scenario.a_task 10 TASK_PENDING ]
    [] [] [] [] true [] [] 0%Z 100 0.

End TickSpec.

Lemma bind_run {A B : Type} (m : Effects.M A) (k : A -> Effects.M B) (w w1 : Db.World)
    (r : JS.Exn + A) :
  m w = (w1, r) ->
  Effects.bind m k w = match r with
                       | inr a => k a w1
                       | inl e => (w1, inl e)
                       end.
Proof. intro H. unfold Effects.bind. rewrite H. destruct r; reflexivity. Qed.

(** C6, as stated, fails: in a world with a pending task and no planner the
    intake phase throws, and the tick leaves the travelling designer where it
    was, although the movement phase alone moves it; with per-phase isolation
    the designer would have moved. *)
Lemma tick_failure_skips_remaining_phases :
  Loop.caught (snd (Loop.tick Scenario.env_prose TickSpec.no_planner))
    = Some (JS.TypeError "Cannot read properties of undefined (reading 'id')")
  /\ map Db.position_x (Db.agents (fst (Loop.tick Scenario.env_prose TickSpec.no_planner)))
       = [0%float]
  /\ map Db.position_x
       (Db.agents (TickSpec.tick_per_phase Scenario.env_prose TickSpec.no_planner))
       = [0x1.b7095010f9354p+0%float]
  /\ fst (Loop.tick Scenario.env_prose TickSpec.no_planner)
       <> TickSpec.tick_per_phase Scenario.env_prose TickSpec.no_planner.
Proof.
  split; [vm_compute; reflexivity | ].
  split; [vm_compute; reflexivity | ].
  split; [vm_compute; reflexivity | ].
  intro H.
  apply (f_equal (fun w => map (fun a => PrimFloat.ltb 1 (Db.position_x a)) (Db.agents w))) in H.
  vm_compute in H. discriminate H.
Qed.

(** C6, amended.  While the orchestrator is running, a tick runs the four
    phases in order inside one [try]: the first phase that throws ends the
    tick's work (the world is the one that phase left, the later phases do
    not run), its exception is caught, and in every case the next tick is
    scheduled. *)
Theorem tick_stops_at_first_failure_and_reschedules (env : Env.Runtime) (w : Db.World) :
  Db.running w = true ->
  Loop.rescheduled (snd (Loop.tick env w)) = true
  /\ (forall w1 e,
        Loop.processPendingTasks w = (w1, inl e) ->
        Loop.tick env w = (w1, Loop.mkTickResult (Some e) true))
  /\ (forall w1 w2 e,
        Loop.processPendingTasks w = (w1, inr tt) ->
        Loop.updateAgentPositions w1 = (w2, inl e) ->
        Loop.tick env w = (w2, Loop.mkTickResult (Some e) true))
  /\ (forall w1 w2 w3 e,
        Loop.processPendingTasks w = (w1, inr tt) ->
        Loop.updateAgentPositions w1 = (w2, inr tt) ->
        Loop.processSubtasks env w2 = (w3, inl e) ->
        Loop.tick env w = (w3, Loop.mkTickResult (Some e) true))
  /\ (forall w1 w2 w3 w4 e,
        Loop.processPendingTasks w = (w1, inr tt) ->
        Loop.updateAgentPositions w1 = (w2, inr tt) ->
        Loop.processSubtasks env w2 = (w3, inr tt) ->
        Loop.processMessages env w3 = (w4, inl e) ->
        Loop.tick env w = (w4, Loop.mkTickResult (Some e) true))
  /\ (forall w1 w2 w3 w4,
        Loop.processPendingTasks w = (w1, inr tt) ->
        Loop.updateAgentPositions w1 = (w2, inr tt) ->
        Loop.processSubtasks env w2 = (w3, inr tt) ->
        Loop.processMessages env w3 = (w4, inr tt) ->
        Loop.tick env w = (w4, Loop.mkTickResult None true)).
Proof.
  intro Hrun. unfold Loop.tick. rewrite Hrun. simpl.
  split; [destruct (Loop.phases env w) as [w' [e | u]]; reflexivity | ].
  unfold Loop.phases.
  split; [intros w1 e H1; rewrite (bind_run _ _ _ _ _ H1); reflexivity | ].
  split; [intros w1 w2 e H1 H2;
          rewrite (bind_run _ _ _ _ _ H1), (bind_run _ _ _ _ _ H2); reflexivity | ].
  split; [intros w1 w2 w3 e H1 H2 H3;
          rewrite (bind_run _ _ _ _ _ H1), (bind_run _ _ _ _ _ H2), (bind_run _ _ _ _ _ H3);
          reflexivity | ].
  split; [intros w1 w2 w3 w4 e H1 H2 H3 H4;
          rewrite (bind_run _ _ _ _ _ H1), (bind_run _ _ _ _ _ H2), (bind_run _ _ _ _ _ H3), H4;
          reflexivity | ].
  intros w1 w2 w3 w4 H1 H2 H3 H4.
  rewrite (bind_run _ _ _ _ _ H1), (bind_run _ _ _ _ _ H2), (bind_run _ _ _ _ _ H3), H4.
  reflexivity.
Qed.

Lemma tick_stops_at_first_failure_and_reschedules_witness :
  Loop.rescheduled (snd (Loop.tick Scenario.env_prose TickSpec.no_planner)) = true.
Proof.
  apply (tick_stops_at_first_failure_and_reschedules Scenario.env_prose TickSpec.no_planner).
  reflexivity.
Defined.

(* ================================================================== *)
(** * A program logic for computations that may throw *)
(* ================================================================== *)

Module Hoare.

Import Db Effects.

(** [triple P m Q E]: from a world satisfying [P], [m] either returns [a] in
    a world satisfying [Q a] or throws in a world satisfying [E]. *)
Definition triple {A : Type} (P : World -> Prop) (m : M A)
    (Q : A -> World -> Prop) (E : World -> Prop) : Prop :=
  forall w, P w ->
    match snd (m w) with
    | inr a => Q a (fst (m w))
    | inl _ => E (fst (m w))
    end.

(** [preserves P m]: [P] holds after [m], returned or thrown, if it held before. *)
Definition preserves {A : Type} (P : World -> Prop) (m : M A) : Prop :=
  triple P m (fun _ => P) P.

Lemma triple_ret {A} (P : World -> Prop) (a : A) Q E :
  (forall w, P w -> Q a w) -> triple P (ret a) Q E.
Proof. intros H w Hw. simpl. auto. Qed.

Lemma triple_throw {A} (P : World -> Prop) (e : JS.Exn) (Q : A -> World -> Prop) E :
  (forall w, P w -> E w) -> triple P (throw e) Q E.
Proof. intros H w Hw. simpl. auto. Qed.

Lemma triple_read {A} (P : World -> Prop) (g : World -> A) Q E :
  (forall w, P w -> Q (g w) w) -> triple P (read g) Q E.
Proof. intros H w Hw. simpl. auto. Qed.

Lemma triple_modify (P : World -> Prop) (g : World -> World) Q E :
  (forall w, P w -> Q tt (g w)) -> triple P (modify g) Q E.
Proof. intros H w Hw. simpl. auto. Qed.

Lemma triple_defined {A} (P : World -> Prop) (o : option A) (s : string) Q E :
  (forall a w, o = Some a -> P w -> Q a w) -> (forall w, o = None -> P w -> E w) ->
  triple P (defined o s) Q E.
Proof. intros Hs Hn w Hw. destruct o; simpl; auto. Qed.

Lemma triple_settle {A} (P : World -> Prop) (r : JS.Exn + A) Q E :
  (forall a w, r = inr a -> P w -> Q a w) -> (forall e w, r = inl e -> P w -> E w) ->
  triple P (settle r) Q E.
Proof. intros Hs Hn w Hw. destruct r; simpl; eauto. Qed.

Lemma triple_bind {A B} (P : World -> Prop) (m : M A) (k : A -> M B)
    (R : A -> World -> Prop) Q E :
  triple P m R E -> (forall a, triple (R a) (k a) Q E) -> triple P (bind m k) Q E.
Proof.
  intros Hm Hk w Hw. specialize (Hm w Hw). unfold bind.
  destruct (m w) as [w1 [e | a]]; simpl in *.
  - exact Hm.
  - apply (Hk a w1 Hm).
Qed.

Lemma triple_try_catch {A} (P : World -> Prop) (m : M A) (h : JS.Exn -> M A)
    Q (E' E : World -> Prop) :
  triple P m Q E' -> (forall e, triple E' (h e) Q E) -> triple P (try_catch m h) Q E.
Proof.
  intros Hm Hh w Hw. specialize (Hm w Hw). unfold try_catch.
  destruct (m w) as [w1 [e | a]]; simpl in *.
  - apply (Hh e w1 Hm).
  - exact Hm.
Qed.

Lemma triple_attempt {A} (P : World -> Prop) (m : M A) (Q : JS.Exn + A -> World -> Prop) E :
  triple P m (fun a => Q (inr a)) (fun w => forall e, Q (inl e) w) ->
  triple P (attempt m) Q E.
Proof.
  intros Hm w Hw. specialize (Hm w Hw). unfold attempt.
  destruct (m w) as [w1 [e | a]]; simpl in *; auto.
Qed.

Lemma triple_weaken {A} (P P' : World -> Prop) (m : M A) (Q Q' : A -> World -> Prop)
    (E E' : World -> Prop) :
  triple P' m Q' E' ->
  (forall w, P w -> P' w) -> (forall a w, Q' a w -> Q a w) -> (forall w, E' w -> E w) ->
  triple P m Q E.
Proof.
  intros Hm HP HQ HE w Hw. specialize (Hm w (HP w Hw)).
  destruct (snd (m w)); auto.
Qed.

Lemma triple_for_each {A} (I : World -> Prop) (rows : list A) (body : A -> M unit) :
  (forall r, In r rows -> preserves I (body r)) -> preserves I (for_each rows body).
Proof.
  induction rows as [ | r rest IH]; intro Hb; simpl.
  - apply triple_ret. auto.
  - apply triple_bind with (R := fun _ => I).
    + apply Hb. now left.
    + intros _. apply IH. intros r' Hr'. apply Hb. now right.
Qed.

(** A property that reads the world only through [f] survives whatever
    keeps [f]. *)
Lemma keeps_preserves {A X} (f : World -> X) (P : World -> Prop) (m : M A) :
  (forall w w', f w' = f w -> P w -> P w') -> Frame.keeps f m -> preserves P m.
Proof.
  intros Hf Hk w Hw. specialize (Hk w).
  destruct (snd (m w)); apply (Hf w); auto.
Qed.

Lemma triple_run {A} (P : World -> Prop) (m : M A) Q E (w : World) :
  triple P m Q E -> P w ->
  match snd (m w) with
  | inr a => Q a (fst (m w))
  | inl _ => E (fst (m w))
  end.
Proof. intros H Hw. apply H, Hw. Qed.

End Hoare.

(* ================================================================== *)
(** * Tasks and subtasks: the completion check and the two halves of
      [executeSubtask] *)
(* ================================================================== *)

Module Lifecycle.

Import Db Effects Frame Hoare.

(** The subtask rows whose key is not [id]. *)
Definition others (id : nat) (w : World) : list Subtask :=
  filter (fun r => negb (Nat.eqb (subtask_id r) id)) (subtasks w).

(** Every subtask of the task is [completed]. *)
Definition all_completed (taskId : nat) (w : World) : Prop :=
  forall s, In s (subtasks w) -> st_task_id s = taskId -> st_status s = SUB_COMPLETED.

(** No completed task owns a subtask that is not completed. *)
Definition completed_means_all_completed (w : World) : Prop :=
  forall t, In t (tasks w) -> task_status t = TASK_COMPLETED -> all_completed (task_id t) w.

(** The rows with key [id] belong to tasks that are not completed. *)
Definition owner_not_completed (id : nat) (w : World) : Prop :=
  forall r t, In r (subtasks w) -> subtask_id r = id ->
              In t (tasks w) -> task_id t = st_task_id r -> task_status t <> TASK_COMPLETED.

Lemma subtask_status_eqb_eq a b : subtask_status_eqb a b = true <-> a = b.
Proof. destruct a, b; simpl; split; intro H; try reflexivity; discriminate H. Qed.

Lemma task_status_eqb_eq a b : task_status_eqb a b = true <-> a = b.
Proof. destruct a, b; simpl; split; intro H; try reflexivity; discriminate H. Qed.

Lemma count_zero_all_completed (taskId : nat) (w : World) :
  Loop.count_not_completed taskId w = 0 <-> all_completed taskId w.
Proof.
  unfold Loop.count_not_completed, all_completed. split.
  - intros H s Hin Hown.
    apply length_zero_iff_nil in H.
    destruct (subtask_status_eqb (st_status s) SUB_COMPLETED) eqn:Hs.
    + now apply subtask_status_eqb_eq.
    + exfalso.
      assert (Hf : In s (filter (fun s0 => Nat.eqb (st_task_id s0) taskId
                    && negb (subtask_status_eqb (st_status s0) SUB_COMPLETED)) (subtasks w))).
      { apply filter_In. split; [exact Hin | ].
        rewrite Hs. rewrite (proj2 (Nat.eqb_eq _ _) Hown). reflexivity. }
      rewrite H in Hf. exact Hf.
  - intro H. apply length_zero_iff_nil.
    destruct (filter _ (subtasks w)) as [ | s rest] eqn:Hf; [reflexivity | exfalso].
    assert (Hin : In s (s :: rest)) by now left.
    rewrite <- Hf in Hin. apply filter_In in Hin. destruct Hin as [Hin Hc].
    apply andb_true_iff in Hc. destruct Hc as [Hown Hs].
    apply Nat.eqb_eq in Hown. rewrite (H s Hin Hown) in Hs. discriminate Hs.
Qed.

(** While a subtask of the task is outstanding the check changes nothing. *)
Lemma checkTaskCompletion_outstanding (env : Env.Runtime) (taskId : nat) (w : World) :
  Loop.count_not_completed taskId w <> 0 ->
  Loop.checkTaskCompletion env taskId w = (w, inr tt).
Proof.
  intro H. unfold Loop.checkTaskCompletion, bind, read. simpl.
  destruct (Nat.eqb (Loop.count_not_completed taskId w) 0) eqn:Hc.
  - apply Nat.eqb_eq in Hc. contradiction.
  - reflexivity.
Qed.

Lemma outstanding_counts (taskId : nat) (w : World) (r : Subtask) :
  In r (subtasks w) -> st_task_id r = taskId -> st_status r <> SUB_COMPLETED ->
  Loop.count_not_completed taskId w <> 0.
Proof.
  intros Hin Hown Hs Hc. apply count_zero_all_completed in Hc.
  apply Hs, (Hc r Hin Hown).
Qed.

(** An [UPDATE ... WHERE id = $1] leaves the rows with another key alone. *)
Lemma others_update (id : nat) (g : Subtask -> Subtask) (rows : list Subtask) :
  subtask_update g ->
  filter (fun r => negb (Nat.eqb (subtask_id r) id))
    (update_where (fun s => Nat.eqb (subtask_id s) id) g rows)
  = filter (fun r => negb (Nat.eqb (subtask_id r) id)) rows.
Proof.
  intro Hg. induction rows as [ | r rest IH]; [reflexivity | ].
  simpl. destruct (Nat.eqb (subtask_id r) id) eqn:Hr.
  - destruct (Hg r) as [Hid _]. rewrite Hid, Hr. simpl. exact IH.
  - rewrite Hr. simpl. now rewrite IH.
Qed.

Lemma others_blind (id : nat) : blind_subtask id (others id).
Proof. intros g w Hg. unfold others. simpl. now apply others_update. Qed.

Lemma in_others (id : nat) (w : World) (r : Subtask) :
  In r (others id w) <-> In r (subtasks w) /\ subtask_id r <> id.
Proof.
  unfold others. rewrite filter_In. split; intros [Hin Hid]; split; try exact Hin.
  - intro Heq. rewrite Heq, Nat.eqb_refl in Hid. discriminate Hid.
  - destruct (Nat.eqb (subtask_id r) id) eqn:He; [ | reflexivity].
    apply Nat.eqb_eq in He. contradiction.
Qed.

End Lifecycle.

#[export] Hint Resolve Lifecycle.others_blind : frame.

Module Completion.

Import Db Effects Frame Hoare Lifecycle.

(** The tasks together with the subtask rows of the other keys: what the
    execution of one subtask leaves alone until the completion check. *)
Definition tasks_and_others (id : nat) (w : World) : list Task * list Subtask :=
  (tasks w, others id w).

Lemma tasks_and_others_blind (id : nat) : blind_subtask id (tasks_and_others id).
Proof.
  intros g w Hg. unfold tasks_and_others. f_equal. now apply others_blind.
Qed.

(** The tables that the execution of a subtask reads besides the agents. *)
Definition tables (w : World) : list Task * list Subtask * list Hub :=
  (tasks w, subtasks w, hubs w).

Section Finish.

Variable env : Env.Runtime.
Variables (subtask : Subtask) (agent : Agent).

(** With another subtask of the task outstanding, the second half of
    [executeSubtask] never touches the tasks. *)
Lemma finish_keeps_tasks_while_outstanding (reply : JS.Exn + string) (w : World) (r0 : Subtask) :
  In r0 (subtasks w) -> subtask_id r0 <> subtask_id subtask ->
  st_task_id r0 = st_task_id subtask -> st_status r0 <> SUB_COMPLETED ->
  tasks (exec (Loop.executeSubtask_finish env subtask agent reply) w) = tasks w.
Proof.
  intros Hin Hid Hown Hst.
  set (P := fun w' : World => tasks w' = tasks w /\ In r0 (others (subtask_id subtask) w')).
  assert (HP : forall w1 w2, tasks_and_others (subtask_id subtask) w2
                 = tasks_and_others (subtask_id subtask) w1 -> P w1 -> P w2).
  { intros w1 w2 Heq [Ht Ho]. unfold tasks_and_others in Heq.
    injection Heq as Heq1 Heq2. unfold P. rewrite Heq1, Heq2. auto. }
  assert (Hb := tasks_and_others_blind (subtask_id subtask)).
  assert (Hpres : preserves P (Loop.executeSubtask_finish env subtask agent reply)).
  { unfold Loop.executeSubtask_finish, preserves.
    apply triple_bind with (R := fun _ => P).
    - apply triple_try_catch with (E' := P).
      + apply triple_bind with (R := fun _ => P).
        * apply (keeps_preserves _ _ _ HP). apply keeps_settle.
        * intro response. unfold Loop.handleResponse.
          apply triple_bind with (R := fun _ => P).
          { apply (keeps_preserves _ _ _ HP). apply LoopFrame.emitBubbles_keeps. blind. }
          intros _. apply triple_bind with (R := fun _ => P).
          { apply (keeps_preserves _ _ _ HP). apply LoopFrame.saveOutput_keeps. exact Hb. }
          intros _. apply triple_bind with (R := fun _ => P).
          { apply (keeps_preserves _ _ _ HP). apply LoopFrame.handleFiles_keeps. }
          intros _. apply triple_bind with (R := fun _ => P).
          { apply (keeps_preserves _ _ _ HP). apply LoopFrame.handleHelp_keeps; blind. }
          intros _ w1 [Ht Ho].
          apply in_others in Ho. destruct Ho as [Hin1 _].
          rewrite (checkTaskCompletion_outstanding env _ w1
                     (outstanding_counts _ _ r0 Hin1 Hown Hst)).
          simpl. split; [exact Ht | ]. apply in_others. auto.
      + intros _. apply (keeps_preserves _ _ _ HP).
        apply LoopFrame.handleFailure_keeps; [exact Hb | blind].
    - intros _. apply (keeps_preserves _ _ _ HP).
      apply keeps_bind; [ | intros _ ].
      + apply keeps_modify. intro w1. reflexivity.
      + apply keeps_modify. intro w1. reflexivity. }
  assert (H0 : P w). { split; [reflexivity | ]. apply in_others. auto. }
  specialize (Hpres w H0). unfold exec.
  destruct (snd (Loop.executeSubtask_finish env subtask agent reply w)); apply Hpres.
Qed.

(** When the reasoning call throws, the second half of [executeSubtask] is
    the [catch] block followed by the reset of the agent. *)
Lemma finish_after_throw (e : JS.Exn) (w : World) :
  Loop.executeSubtask_finish env subtask agent (inl e) w
  = (set_events (fun l => l ++ [agent_status_changed (agent_type agent) State.IDLE None])
       (set_agents (update_where (fun a => Nat.eqb (agent_id a) (agent_id agent))
                      Loop.idle_agent)
          (set_events (fun l => l ++ [agent_speak (agent_type agent)
                                        (JS.JStr "Something went wrong...") None])
             (set_subtasks (update_where
                              (fun s => Nat.eqb (subtask_id s) (subtask_id subtask))
                              Loop.failed_row) w))),
     inr tt).
Proof. reflexivity. Qed.

End Finish.

End Completion.

(* ================================================================== *)
(** * Scenarios C and D: a failing subtask, a cancelled task *)
(* ================================================================== *)

Module Cases.

Import Db Effects.

Definition designer_subtask : Subtask :=
  Scenario.a_subtask 20 10 2 "designer" "design_studio" 0 SUB_ASSIGNED.

Definition coder_subtask : Subtask :=
  Scenario.a_subtask 21 10 3 "coder" "coding_desk" 1 SUB_ASSIGNED.

Definition designer : Agent := Scenario.agent_at 2 "designer" "design_studio" 5 3.
Definition coder : Agent := Scenario.agent_at 3 "coder" "coding_desk" (-5) (-3).

(** Task 10 in progress with two subtasks, both agents idle at their hubs. *)
Definition both_ready : World :=
  mkWorld Scenario.seed_hubs [designer; coder] [Scenario.a_task 10 TASK_IN_PROGRESS]
    [designer_subtask; coder_subtask] [] [] [] true [] [] 0%Z 100 0.

(** The reasoning service fails on its first call and answers in prose from
    then on. *)
Definition env_first_call_fails : Env.Runtime :=
  Env.mkRuntime Scenario.JSON_parse_replies (fun _ => PrimFloat.nan) (fun _ => "")
    (fun n _ _ => match n with
                  | 0 => inl (JS.Error "overloaded")
                  | S _ => inr Scenario.prose
                  end)
    (fun _ _ _ => None) (fun _ => "task") "http://localhost:3000/preview".

(** Task 10 already failed. *)
Definition failed_task : World :=
  mkWorld Scenario.seed_hubs Scenario.seed_agents [Scenario.a_task 10 TASK_FAILED]
    [] [] [] [] true [] [] 0%Z 100 0.

(** Task 10 with its first subtask completed, with an output, and its
    second, the last one, ready. *)
Definition designed_subtask : Subtask :=
  mkSubtask 20 10 2 "designer" "do your part" (Some "a palette") SUB_COMPLETED 0
    (Some "design_studio") None None.

Definition second_ready : World :=
  mkWorld Scenario.seed_hubs [designer; coder] [Scenario.a_task 10 TASK_IN_PROGRESS]
    [designed_subtask; coder_subtask] [] [] [] true [] [] 0%Z 100 0.

(** [executeSubtask(coderSubtask)] up to the reasoning call: the rows are
    written and the prompt is built. *)
Definition after_begin : World * (JS.Exn + (Agent * string)) :=
  Loop.executeSubtask_begin coder_subtask second_ready.

(** The reasoning call is made with the agent and the prompt of
    [after_begin]; its promise is pending. *)
Definition call_in_flight : World * (JS.Exn + (JS.Exn + string)) :=
  match snd after_begin with
  | inr started =>
      attempt (Claude.callAgent Scenario.env_prose (agent_type (fst started)) (snd started))
        (fst after_begin)
  | inl e => (fst after_begin, inl e)
  end.

Definition in_flight : World := fst call_in_flight.

(** [POST /api/tasks/10/cancel] is served while the promise is pending. *)
Definition cancelled_in_flight : World := exec (Routes.cancelTask 10) in_flight.

(** The promise settles and [executeSubtask] resumes. *)
Definition after_return : World :=
  exec (Loop.executeSubtask_finish Scenario.env_prose coder_subtask coder (inr Scenario.prose))
    cancelled_in_flight.

End Cases.

Lemma update_where_none {A : Type} (p : A -> bool) (g : A -> A) (rows : list A) :
  (forall r, In r rows -> p r = false) -> Db.update_where p g rows = rows.
Proof.
  intro H. unfold Db.update_where. rewrite <- (map_id rows) at 2.
  apply map_ext_in. intros r Hr. now rewrite (H r Hr).
Qed.

(** C2, as stated, fails: the first reasoning call throws, the designer's
    subtask becomes [failed], yet the owning task stays [in_progress] and the
    coder's subtask of the same task is dispatched afterwards and completes. *)
Lemma failed_subtask_leaves_task_in_progress :
  let w := Effects.exec (Loop.processSubtasks Cases.env_first_call_fails) Cases.both_ready in
  map Db.subtask_id (Loop.ready_subtasks Cases.both_ready) = [20; 21]
  /\ map Db.st_status (Db.subtasks w) = [Db.SUB_FAILED; Db.SUB_COMPLETED]
  /\ map Db.task_status (Db.tasks w) = [Db.TASK_IN_PROGRESS].
Proof. vm_compute. repeat split; reflexivity. Qed.

(** C2, amended.  When the reasoning call of a subtask throws, the same
    execution step marks the subtask [failed] (the other rows are left as
    they are) and resets the agent to [idle]; the tasks are not touched, so
    the owning task is not marked [failed]; and while the subtask stays
    failed the completion check leaves the owning task as it is. *)
Theorem failed_call_fails_subtask_only (env : Env.Runtime) (subtask : Db.Subtask)
    (agent : Db.Agent) (e : JS.Exn) (w : Db.World) :
  let w' := Effects.exec (Loop.executeSubtask_finish env subtask agent (inl e)) w in
  Db.subtasks w'
    = Db.update_where (fun s => Nat.eqb (Db.subtask_id s) (Db.subtask_id subtask))
        Loop.failed_row (Db.subtasks w)
  /\ Db.tasks w' = Db.tasks w
  /\ Db.agents w'
       = Db.update_where (fun a => Nat.eqb (Db.agent_id a) (Db.agent_id agent))
           Loop.idle_agent (Db.agents w)
  /\ (forall r, In r (Db.subtasks w) -> Db.subtask_id r = Db.subtask_id subtask ->
        In (Loop.failed_row r) (Db.subtasks w')
        /\ Loop.checkTaskCompletion env (Db.st_task_id r) w' = (w', inr tt)).
Proof.
  intro w'. subst w'. unfold Effects.exec.
  rewrite Completion.finish_after_throw. simpl.
  split; [reflexivity | ]. split; [reflexivity | ]. split; [reflexivity | ].
  intros r Hin Hid.
  assert (Hrow : In (Loop.failed_row r)
                   (Db.update_where (fun s => Nat.eqb (Db.subtask_id s) (Db.subtask_id subtask))
                      Loop.failed_row (Db.subtasks w))).
  { apply Frame.in_update_where. exists r. split; [exact Hin | ].
    rewrite (proj2 (Nat.eqb_eq _ _) Hid). reflexivity. }
  split; [exact Hrow | ].
  apply Lifecycle.checkTaskCompletion_outstanding.
  apply (Lifecycle.outstanding_counts _ _ (Loop.failed_row r)).
  - exact Hrow.
  - reflexivity.
  - discriminate.
Qed.

(** C3, as stated, fails twice: cancelling a task that is [failed] changes
    its status to [cancelled]; and when a task is cancelled while its last
    subtask is in flight, the return of the call sets the task to
    [completed].  In the second run the first part of [executeSubtask]
    returns with the coder's row and the call settles to the prose reply,
    which are the agent and the reply that the last part resumes with;
    without the cancellation the three parts are [executeSubtask]. *)
Lemma terminal_task_status_changes :
  map Db.task_status (Db.tasks Cases.failed_task) = [Db.TASK_FAILED]
  /\ map Db.task_status (Db.tasks (Effects.exec (Routes.cancelTask 10) Cases.failed_task))
       = [Db.TASK_CANCELLED]
  /\ (exists prompt, snd Cases.after_begin = inr (Cases.coder, prompt))
  /\ snd Cases.call_in_flight = inr (inr Scenario.prose)
  /\ map Db.st_status (Db.subtasks Cases.in_flight) = [Db.SUB_COMPLETED; Db.SUB_IN_PROGRESS]
  /\ map Db.task_status (Db.tasks Cases.in_flight) = [Db.TASK_IN_PROGRESS]
  /\ map Db.task_status (Db.tasks Cases.cancelled_in_flight) = [Db.TASK_CANCELLED]
  /\ map Db.task_status (Db.tasks Cases.after_return) = [Db.TASK_COMPLETED]
  /\ Effects.exec (Loop.executeSubtask_finish Scenario.env_prose Cases.coder_subtask
                     Cases.coder (inr Scenario.prose)) Cases.in_flight
     = Effects.exec (Loop.executeSubtask Scenario.env_prose Cases.coder_subtask)
         Cases.second_ready.
Proof.
  split; [reflexivity | ]. split; [reflexivity | ].
  split; [eexists; vm_compute; reflexivity | ].
  vm_compute. repeat split; reflexivity.
Qed.

(** C3, amended.  Cancelling is a no-op on the status of a task that is
    [completed] or [cancelled] (when every row with the key is so, the tables
    are unchanged and only the notification is published); a task in any other
    status, [failed] included, becomes [cancelled].  The return of an
    in-flight subtask leaves every task as it is, a cancelled one included,
    as long as another subtask of the same task is not completed. *)
Theorem cancel_guard_and_outstanding_subtasks (env : Env.Runtime) (w : Db.World) :
  (forall id,
     (forall t, In t (Db.tasks w) -> Db.task_id t = id ->
        Db.task_status t = Db.TASK_COMPLETED \/ Db.task_status t = Db.TASK_CANCELLED) ->
     Routes.cancelTask id w
       = (Db.set_events (fun l => l ++ [Db.task_cancelled id]) w, inr tt))
  /\ (forall id t, In t (Db.tasks w) -> Db.task_id t = id ->
        Db.task_status t <> Db.TASK_COMPLETED -> Db.task_status t <> Db.TASK_CANCELLED ->
        In (Routes.cancelled_task t) (Db.tasks (Effects.exec (Routes.cancelTask id) w))
        /\ Db.task_status (Routes.cancelled_task t) = Db.TASK_CANCELLED)
  /\ (forall subtask agent reply r,
        In r (Db.subtasks w) -> Db.subtask_id r <> Db.subtask_id subtask ->
        Db.st_task_id r = Db.st_task_id subtask -> Db.st_status r <> Db.SUB_COMPLETED ->
        Db.tasks (Effects.exec (Loop.executeSubtask_finish env subtask agent reply) w)
          = Db.tasks w).
Proof.
  split; [ | split].
  - intros id Hall. unfold Routes.cancelTask, Effects.bind, Effects.modify, Effects.emit.
    simpl. unfold Db.set_tasks. simpl.
    rewrite update_where_none.
    + destruct w; reflexivity.
    + intros t Hin. unfold Routes.cancellable.
      destruct (Nat.eqb (Db.task_id t) id) eqn:Hid; [ | reflexivity].
      apply Nat.eqb_eq in Hid.
      destruct (Hall t Hin Hid) as [Hs | Hs]; rewrite Hs; reflexivity.
  - intros id t Hin Hid Hc Hx. split; [ | reflexivity].
    unfold Routes.cancelTask, Effects.exec, Effects.bind, Effects.modify, Effects.emit.
    simpl. apply Frame.in_update_where. exists t. split; [exact Hin | ].
    unfold Routes.cancellable. rewrite (proj2 (Nat.eqb_eq _ _) Hid).
    destruct (Db.task_status t); try reflexivity; contradiction.
  - intros subtask agent reply r Hin Hid Hown Hst.
    now apply (Completion.finish_keeps_tasks_while_outstanding env subtask agent reply w r).
Qed.

(* ================================================================== *)
(** * [ORDER BY]: the rows, sorted *)
(* ================================================================== *)


Module OrderBy.

Import Db.

Section Key.

Context {A : Type} (key : A -> Z).

Definition key_le (a b : A) : Prop := (key a <= key b)%Z.

Lemma insert_by_perm (a : A) (l : list A) : Permutation (insert_by key a l) (a :: l).
Proof.
  induction l as [ | b rest IH]; simpl.
  - apply Permutation_refl.
  - destruct (key a <=? key b)%Z.
    + apply Permutation_refl.
    + apply perm_trans with (b :: a :: rest).
      * apply perm_skip, IH.
      * apply perm_swap.
Qed.

Lemma order_by_perm (l : list A) : Permutation (order_by key l) l.
Proof.
  induction l as [ | a rest IH]; simpl.
  - apply perm_nil.
  - apply perm_trans with (a :: order_by key rest).
    + apply insert_by_perm.
    + apply perm_skip, IH.
Qed.

Lemma in_order_by (x : A) (l : list A) : In x (order_by key l) <-> In x l.
Proof.
  split; apply Permutation_in; [ | apply Permutation_sym ]; apply order_by_perm.
Qed.

Lemma insert_by_sorted (a : A) (l : list A) :
  StronglySorted key_le l -> StronglySorted key_le (insert_by key a l).
Proof.
  induction 1 as [ | b rest Hs IH Hall]; simpl.
  - constructor; constructor.
  - destruct (key a <=? key b)%Z eqn:Hab.
    + apply Z.leb_le in Hab. constructor.
      * constructor; assumption.
      * constructor; [exact Hab | ].
        apply Forall_impl with (P := key_le b); [ | exact Hall].
        intros c Hc. unfold key_le in *. lia.
    + apply Z.leb_gt in Hab. constructor; [exact IH | ].
      apply Forall_forall. intros c Hc.
      apply (Permutation_in _ (insert_by_perm a rest)) in Hc.
      destruct Hc as [Hc | Hc].
      * subst c. unfold key_le. lia.
      * apply (proj1 (Forall_forall _ _) Hall c Hc).
Qed.

Lemma order_by_sorted (l : list A) : StronglySorted key_le (order_by key l).
Proof.
  induction l as [ | a rest IH]; simpl.
  - constructor.
  - apply insert_by_sorted, IH.
Qed.

End Key.

End OrderBy.

(* ================================================================== *)
(** * Scenario A: the order of dispatch *)
(* ================================================================== *)

Module Dispatch.

Import Db.

(** The dispatch precondition of [processSubtasks()]: the subtask is
    [assigned] and its agent is [idle] at the subtask's hub. *)
Definition dispatchable (w : World) (s : Subtask) : Prop :=
  In s (subtasks w)
  /\ st_status s = SUB_ASSIGNED
  /\ exists a, In a (agents w) /\ agent_id a = st_agent_id s
               /\ agent_status a = State.IDLE
               /\ exists hub, current_hub a = Some hub /\ st_hub_id s = Some hub.

Lemma sql_eq_true (a b : option string) :
  sql_eq a b = true <-> exists x, a = Some x /\ b = Some x.
Proof.
  destruct a as [x | ], b as [y | ]; simpl; split.
  - intro H. apply String.eqb_eq in H. subst y. now exists x.
  - intros [z [Hx Hy]]. injection Hx as <-. injection Hy as <-. apply String.eqb_refl.
  - discriminate.
  - intros [z [_ Hy]]. discriminate Hy.
  - discriminate.
  - intros [z [Hx _]]. discriminate Hx.
  - discriminate.
  - intros [z [Hx _]]. discriminate Hx.
Qed.

Lemma ready_subtasks_dispatchable (w : World) (s : Subtask) :
  In s (Loop.ready_subtasks w) <-> dispatchable w s.
Proof.
  unfold Loop.ready_subtasks, dispatchable.
  rewrite OrderBy.in_order_by, in_flat_map. split.
  - intros [s0 [Hin Hmap]]. apply in_map_iff in Hmap.
    destruct Hmap as [a [Heq Ha]]. subst s0.
    apply filter_In in Ha. destruct Ha as [Ha Hc].
    repeat (apply andb_true_iff in Hc; destruct Hc as [Hc ?]).
    split; [exact Hin | ]. split; [now apply Lifecycle.subtask_status_eqb_eq | ].
    exists a. split; [exact Ha | ]. split; [symmetry; now apply Nat.eqb_eq | ].
    split; [now apply State.status_eqb_eq | ]. now apply sql_eq_true.
  - intros [Hin [Hs [a [Ha [Hid [Hidle Hhub]]]]]].
    exists s. split; [exact Hin | ]. apply in_map_iff. exists a. split; [reflexivity | ].
    apply filter_In. split; [exact Ha | ].
    rewrite Hid, Nat.eqb_refl, Hs, Hidle. simpl. now apply sql_eq_true.
Qed.

(** Task 10 with the designer still on its way and the coder at its desk. *)
Definition designer_travelling : World :=
  mkWorld Scenario.seed_hubs
    [ mkAgent 2 "designer" (Some "town_square") (Some "design_studio") State.TRAVELING None
        0 0 0;
      Cases.coder ]
    [Scenario.a_task 10 TASK_IN_PROGRESS]
    [Cases.designer_subtask; Cases.coder_subtask] [] [] [] true [] [] 0%Z 100 0.

End Dispatch.

(** C1, as stated, fails: with the designer (sequence 0) still travelling
    and the coder (sequence 1) idle at its desk, the pass dispatches the
    coder's subtask: it is [in_progress], and then [completed], while the
    designer's subtask of the same task is still [assigned]. *)
Lemma later_subtask_runs_before_earlier_completes :
  map Db.subtask_id (Loop.ready_subtasks Dispatch.designer_travelling) = [21]
  /\ map (fun s => (Db.st_task_id s, Db.st_sequence s, Db.st_status s))
       (Db.subtasks (Effects.exec (Loop.executeSubtask_begin Cases.coder_subtask)
                       Dispatch.designer_travelling))
     = [ (10, 0%Z, Db.SUB_ASSIGNED); (10, 1%Z, Db.SUB_IN_PROGRESS) ]
  /\ map (fun s => (Db.st_task_id s, Db.st_sequence s, Db.st_status s))
       (Db.subtasks (Effects.exec (Loop.processSubtasks Scenario.env_prose)
                       Dispatch.designer_travelling))
     = [ (10, 0%Z, Db.SUB_ASSIGNED); (10, 1%Z, Db.SUB_COMPLETED) ].
Proof. vm_compute. repeat split; reflexivity. Qed.

(* ================================================================== *)
(** * Message delivery *)
(* ================================================================== *)

Module Delivery.

Import Db Effects Frame Hoare.

(** Sender and recipient of the message both have [current_hub =
    'town_square'], the condition of the query of [processMessages()]. *)
Definition both_at_town_square (w : World) (m : Message) : Prop :=
  exists fa ta,
    In fa (agents w) /\ In ta (agents w)
    /\ agent_id fa = from_agent_id m /\ agent_id ta = to_agent_id m
    /\ current_hub fa = Some "town_square" /\ current_hub ta = Some "town_square".

(** A message is selected only if it is unread and both agents are at the
    town square. *)
Lemma ready_message_selected (w : World) (row : Message * string * string) :
  In row (Loop.ready_messages w) ->
  In (fst (fst row)) (messages w) /\ read_at (fst (fst row)) = None
  /\ both_at_town_square w (fst (fst row)).
Proof.
  unfold Loop.ready_messages. rewrite OrderBy.in_order_by, in_flat_map.
  intros [m [Hm Hrow]]. apply filter_In in Hm. destruct Hm as [Hm Hun].
  apply in_flat_map in Hrow. destruct Hrow as [fa [Hfa Hrow]].
  apply in_map_iff in Hrow. destruct Hrow as [ta [Heq Hta]]. subst row. simpl.
  apply filter_In in Hfa. destruct Hfa as [Hfa Hc1].
  apply filter_In in Hta. destruct Hta as [Hta Hc2].
  apply andb_true_iff in Hc1. destruct Hc1 as [Hid1 Hh1].
  apply andb_true_iff in Hc2. destruct Hc2 as [Hid2 Hh2].
  apply Nat.eqb_eq in Hid1, Hid2.
  apply Dispatch.sql_eq_true in Hh1, Hh2.
  destruct Hh1 as [x1 [Hx1 Hy1]]. destruct Hh2 as [x2 [Hx2 Hy2]].
  injection Hy1 as <-. injection Hy2 as <-.
  split; [exact Hm | ]. split.
  - unfold Loop.unread in Hun. destruct (read_at m); [discriminate Hun | reflexivity].
  - exists fa, ta. repeat split; auto.
Qed.

(** Rows of a table with a primary key: equal keys, equal rows. *)
Lemma key_determines_row {A : Type} (key : A -> nat) (rows : list A) (a b : A) :
  NoDup (map key rows) -> In a rows -> In b rows -> key a = key b -> a = b.
Proof.
  induction rows as [ | r rest IH]; simpl; intros Hnd Ha Hb Hk; [contradiction | ].
  inversion Hnd as [ | ? ? Hnotin Hnd']; subst.
  destruct Ha as [Ha | Ha], Hb as [Hb | Hb]; subst.
  - reflexivity.
  - exfalso. apply Hnotin. rewrite Hk. now apply in_map.
  - exfalso. apply Hnotin. rewrite <- Hk. now apply in_map.
  - now apply IH.
Qed.

Lemma in_update_where_kept {A : Type} (p : A -> bool) (g : A -> A) (rows : list A) (r : A) :
  In r rows -> p r = false -> In r (update_where p g rows).
Proof.
  intros Hin Hp. apply in_update_where. exists r. split; [exact Hin | ].
  now rewrite Hp.
Qed.

Section Pass.

Variable env : Env.Runtime.
Variable w0 : World.
Hypothesis keys : NoDup (map message_id (messages w0)).

(** Every row is an original row, or an original row that was unread with
    both agents at the town square and now carries the time of the pass. *)
Definition marked_only_if_ready (w : World) : Prop :=
  now w = now w0
  /\ forall m', In m' (messages w) ->
       In m' (messages w0)
       \/ exists m, In m (messages w0) /\ m' = Loop.read_row (now w0) m
                    /\ read_at m = None /\ both_at_town_square w0 m.

(** A row that was read before the pass is still there, as it was. *)
Definition read_rows_kept (w : World) : Prop :=
  forall m t, In m (messages w0) -> read_at m = Some t -> In m (messages w).

Definition pass_invariant (w : World) : Prop :=
  marked_only_if_ready w /\ read_rows_kept w.

Definition messages_and_clock (w : World) : list Message * Z := (messages w, now w).

Lemma pass_invariant_reads_messages (w1 w2 : World) :
  messages_and_clock w2 = messages_and_clock w1 -> pass_invariant w1 -> pass_invariant w2.
Proof.
  unfold messages_and_clock. intros Heq [[Hn Hm] Hr]. injection Heq as Hmsg Hnow.
  unfold pass_invariant, marked_only_if_ready, read_rows_kept.
  rewrite Hmsg, Hnow. auto.
Qed.

Lemma deliverMessage_invariant (row : Message * string * string) :
  In row (Loop.ready_messages w0) -> preserves pass_invariant (Loop.deliverMessage env row).
Proof.
  intro Hrow. destruct (ready_message_selected w0 row Hrow) as [Hin [Hun Hco]].
  unfold Loop.deliverMessage, preserves.
  apply triple_bind with (R := fun t w => t = now w0 /\ pass_invariant w).
  { apply triple_read. intros w [[Hn Hm] Hr]. repeat split; auto. }
  intro t. apply triple_bind with (R := fun _ => pass_invariant).
  - apply triple_modify. intros w [Ht [[Hn Hm] Hr]]. subst t.
    split; [split | ].
    + exact Hn.
    + intros m' Hm'. simpl in Hm'. apply in_update_where in Hm'.
      destruct Hm' as [m1 [Hm1 Heq]].
      destruct (Nat.eqb (message_id m1) (message_id (fst (fst row)))) eqn:Hid.
      * apply Nat.eqb_eq in Hid. subst m'. right. exists (fst (fst row)).
        destruct (Hm m1 Hm1) as [Horig | [m2 [Hm2 [Heq2 _]]]].
        { rewrite (key_determines_row message_id _ _ _ keys Horig Hin Hid). auto. }
        { assert (Hid2 : message_id m2 = message_id (fst (fst row))).
          { rewrite <- Hid, Heq2. reflexivity. }
          rewrite Heq2, (key_determines_row message_id _ _ _ keys Hm2 Hin Hid2). auto. }
      * subst m'. apply (Hm m1 Hm1).
    + intros m t Hm0 Hread. simpl. apply in_update_where_kept; [now apply (Hr m t) | ].
      destruct (Nat.eqb (message_id m) (message_id (fst (fst row)))) eqn:Hid; [ | reflexivity].
      apply Nat.eqb_eq in Hid.
      rewrite (key_determines_row message_id _ _ _ keys Hm0 Hin Hid) in Hread.
      rewrite Hun in Hread. discriminate Hread.
  - intros _. apply (keeps_preserves _ _ _ pass_invariant_reads_messages).
    unfold Loop.prop. pose proof (LoopFrame.callAgent_keeps messages_and_clock env). frame.
    all: blind.
Qed.

Lemma processMessages_invariant :
  pass_invariant (exec (Loop.processMessages env) w0).
Proof.
  assert (H0 : pass_invariant w0).
  { split; [split; [reflexivity | auto] | intros m t Hm _; exact Hm]. }
  assert (Hloop := triple_for_each pass_invariant (Loop.ready_messages w0)
                     (Loop.deliverMessage env) deliverMessage_invariant w0 H0).
  unfold Loop.processMessages, exec, bind, read. simpl.
  destruct (for_each (Loop.ready_messages w0) (Loop.deliverMessage env) w0) as [w1 [e | u]];
    exact Hloop.
Qed.

End Pass.

(** A message that [requestAgentHelp] adds is addressed to the town square. *)
Lemma requestAgentHelp_targets_town_square (env : Env.Runtime) (fromAgent : Agent)
    (toAgentType : JS.JSValue) (topic : option JS.JSValue) (taskId : nat) (w : World)
    (m : Message) :
  In m (messages (exec (Loop.requestAgentHelp env fromAgent toAgentType topic taskId) w)) ->
  In m (messages w) \/ msg_hub_id m = Some "town_square".
Proof.
  set (P := fun w' : World => forall m', In m' (messages w') ->
              In m' (messages w) \/ msg_hub_id m' = Some "town_square").
  assert (HP : forall w1 w2, messages w2 = messages w1 -> P w1 -> P w2).
  { intros w1 w2 Heq H1. unfold P. rewrite Heq. exact H1. }
  assert (Hpres : preserves P (Loop.requestAgentHelp env fromAgent toAgentType topic taskId)).
  { unfold Loop.requestAgentHelp, Loop.getAgentByType, preserves.
    apply triple_bind with (R := fun _ => P); [apply triple_read; auto | intro found].
    apply triple_bind with (R := fun _ => P); [apply triple_defined; auto | intro toAgent].
    apply triple_bind with (R := fun _ => P); [apply triple_read; auto | intro task_known].
    apply triple_bind with (R := fun _ => P); [apply triple_read; auto | intro hub_known].
    apply triple_bind with (R := fun _ => P).
    - destruct (Loop.pg_param env topic) as [content | ]; [ | apply triple_throw; auto].
      destruct (negb task_known); [apply triple_throw; auto | ].
      destruct (negb hub_known); [apply triple_throw; auto | ].
      apply triple_bind with (R := fun _ => P); [apply triple_read; auto | intro id].
      apply triple_bind with (R := fun _ => P); [apply triple_read; auto | intro t].
      apply triple_bind with (R := fun _ => P); [apply triple_modify; auto | intros _].
      apply triple_modify. intros w1 H1 m' Hm'. simpl in Hm'.
      apply in_app_or in Hm'. destruct Hm' as [Hm' | [Hm' | []]].
      + now apply H1.
      + subst m'. right. reflexivity.
    - intros _. apply (keeps_preserves messages _ _ HP).
      pose proof (LoopFrame.assignAgentToHub_keeps messages). frame. all: blind. }
  intro Hm. assert (H0 : P w) by (intros m' Hm'; now left).
  specialize (Hpres w H0). unfold exec in Hm.
  destruct (snd (Loop.requestAgentHelp env fromAgent toAgentType topic taskId w));
    apply Hpres, Hm.
Qed.

(** A message between a designer waiting at the town square and a reviewer
    that has left for its station: the reviewer is travelling, its
    [current_hub] still names the town square. *)
Definition reviewer_left : World :=
  mkWorld Scenario.seed_hubs
    [ Scenario.agent_at 2 "designer" "town_square" 0 0;
      mkAgent 4 "reviewer" (Some "town_square") (Some "review_station") State.TRAVELING None
        2.5 (-1.5) 0 ]
    [Scenario.a_task 10 TASK_IN_PROGRESS] []
    [ mkMessage 50 10 2 4 "designer" (Some "reviewer") "which palette?"
        (Some "town_square") None 0%Z ]
    [] [] true [] [] 7%Z 100 0.

(** The same two agents, both at the town square, and a message that was
    read at time 3. *)
Definition read_message : Message :=
  mkMessage 50 10 2 4 "designer" (Some "reviewer") "which palette?"
    (Some "town_square") (Some 3%Z) 0%Z.

Definition already_read : World :=
  mkWorld Scenario.seed_hubs
    [ Scenario.agent_at 2 "designer" "town_square" 0 0;
      Scenario.agent_at 4 "reviewer" "town_square" 0 0 ]
    [Scenario.a_task 10 TASK_IN_PROGRESS] [] [read_message]
    [] [] true [] [] 7%Z 100 0.

End Delivery.

(** C5, as stated, fails: the reviewer has left the town square and is
    [traveling], but its [current_hub] still names the town square, so the
    pass marks the message read and has the reviewer answer. *)
Lemma message_delivered_to_travelling_agent :
  map Db.agent_status (Db.agents Delivery.reviewer_left) = [State.IDLE; State.TRAVELING]
  /\ map Db.read_at (Db.messages Delivery.reviewer_left) = [None]
  /\ map Db.read_at
       (Db.messages (Effects.exec (Loop.processMessages Scenario.env_prose)
                       Delivery.reviewer_left))
     = [Some 7%Z]
  /\ Db.events (Effects.exec (Loop.processMessages Scenario.env_prose) Delivery.reviewer_left)
     = [ Db.agent_speak "reviewer" (JS.JStr Scenario.prose) (Some (JS.JStr "designer")) ].
Proof. vm_compute. repeat split; reflexivity. Qed.

(** C5, amended.  In a pass of [processMessages()] over a table with unique
    keys, a message is marked read only if it was unread and the
    [current_hub] of its sender and of its recipient both were
    ['town_square'] when the pass started (their status is not looked at);
    a message that was already read is never marked again, and no read
    message is selected by a later pass.  The town square is the hub of
    every message that [requestAgentHelp] creates. *)
Theorem message_marked_once_when_both_at_town_square (env : Env.Runtime) (w : Db.World) :
  NoDup (map Db.message_id (Db.messages w)) ->
  let w' := Effects.exec (Loop.processMessages env) w in
  (forall m', In m' (Db.messages w') ->
     In m' (Db.messages w)
     \/ exists m, In m (Db.messages w) /\ m' = Loop.read_row (Db.now w) m
                  /\ Db.read_at m = None /\ Delivery.both_at_town_square w m)
  /\ (forall m t, In m (Db.messages w) -> Db.read_at m = Some t -> In m (Db.messages w'))
  /\ (forall row, In row (Loop.ready_messages w') -> Db.read_at (fst (fst row)) = None)
  /\ (forall fromAgent toAgentType topic taskId m,
        In m (Db.messages
                (Effects.exec (Loop.requestAgentHelp env fromAgent toAgentType topic taskId) w)) ->
        In m (Db.messages w) \/ Db.msg_hub_id m = Some "town_square").
Proof.
  intros Hkeys w'.
  destruct (Delivery.processMessages_invariant env w Hkeys) as [[_ Hm] Hr].
  split; [exact Hm | ]. split; [exact Hr | ]. split.
  - intros row Hrow. apply (Delivery.ready_message_selected w' row Hrow).
  - intros fromAgent toAgentType topic taskId m.
    apply Delivery.requestAgentHelp_targets_town_square.
Qed.

Lemma message_marked_once_when_both_at_town_square_witness :
  In Delivery.read_message
    (Db.messages (Effects.exec (Loop.processMessages Scenario.env_prose)
                    Delivery.already_read)).
Proof.
  apply (proj1 (proj2 (message_marked_once_when_both_at_town_square Scenario.env_prose
                         Delivery.already_read
                         ltac:(repeat constructor; simpl; tauto)))
           Delivery.read_message 3%Z).
  - simpl. tauto.
  - reflexivity.
Defined.

(* ================================================================== *)
(** * The elements that [planTask] iterates over *)
(* ================================================================== *)

Module Elements.

(** Distinct indices have distinct property names. *)
Lemma index_key_inj (i j : nat) : Loop.index_key i = Loop.index_key j -> i = j.
Proof.
  unfold Loop.index_key. intro H.
  assert (Hu : Nat.to_uint i = Nat.to_uint j).
  { apply (f_equal NilEmpty.uint_of_string) in H. rewrite !NilEmpty.usu in H.
    now injection H. }
  apply (f_equal Nat.of_uint) in Hu. now rewrite !DecimalNat.Unsigned.of_to in Hu.
Qed.

Lemma lookup_field_key (k : string) (fs : list (string * JS.JSValue)) (v : JS.JSValue) :
  JS.lookup_field k fs = Some v -> In k (map fst fs).
Proof.
  induction fs as [ | [k' v'] rest IH]; simpl; [discriminate | ].
  destruct (JS.lookup_field k rest) as [x | ].
  - intro H. right. exact (IH H).
  - destruct (String.eqb k k') eqn:Hk; [ | discriminate].
    intros _. left. symmetry. now apply String.eqb_eq.
Qed.

(** [leading] yields the elements at consecutive indices, and stops before
    its steps are used up only at an index that is not a key. *)
Lemma leading_run (fs : list (string * JS.JSValue)) (steps : nat) :
  forall i,
    List.length (Loop.leading fs steps i) <= steps
    /\ (forall j, j < List.length (Loop.leading fs steps i) ->
          JS.lookup_field (Loop.index_key (i + j)) fs
          = Some (nth j (Loop.leading fs steps i) JS.JNull))
    /\ (List.length (Loop.leading fs steps i) < steps ->
          JS.lookup_field (Loop.index_key (i + List.length (Loop.leading fs steps i))) fs
          = None).
Proof.
  induction steps as [ | steps IH]; intro i; simpl.
  - split; [lia | ]. split; intros; lia.
  - destruct (JS.lookup_field (Loop.index_key i) fs) as [x | ] eqn:Hx; simpl.
    + destruct (IH (S i)) as [Hlen [Hin Hstop]]. split; [lia | ]. split.
      * intros [ | j] Hj.
        -- now rewrite Nat.add_0_r.
        -- rewrite <- Nat.add_succ_comm. apply Hin. lia.
      * intro Hlt. rewrite <- Nat.add_succ_comm. apply Hstop. lia.
    + split; [lia | ]. split; [intros j Hj; lia | ].
      intros _. now rewrite Nat.add_0_r.
Qed.

(** The steps that [elements] allows are enough: the index after the
    elements of an object is not one of its keys, so [elements] lists
    [v[0], v[1], ...] up to the first [undefined]. *)
Lemma elements_complete (fs : list (string * JS.JSValue)) :
  let items := Loop.elements (JS.JObj fs) in
  (forall j, j < List.length items ->
     JS.lookup_field (Loop.index_key j) fs = Some (nth j items JS.JNull))
  /\ JS.lookup_field (Loop.index_key (List.length items)) fs = None.
Proof.
  simpl. destruct (leading_run fs (List.length fs) 0) as [Hlen [Hin Hstop]].
  split; [exact Hin | ].
  destruct (Nat.eq_dec (List.length (Loop.leading fs (List.length fs) 0)) (List.length fs))
    as [Hfull | Hshort]; [ | apply Hstop; lia].
  destruct (JS.lookup_field (Loop.index_key (List.length (Loop.leading fs (List.length fs) 0)))
              fs) as [v | ] eqn:Hv; [exfalso | reflexivity].
  assert (Hincl : incl (map Loop.index_key (seq 0 (S (List.length fs)))) (map fst fs)).
  { intros k Hk. apply in_map_iff in Hk. destruct Hk as [j [<- Hj]].
    apply in_seq in Hj.
    destruct (Nat.eq_dec j (List.length fs)) as [-> | Hne].
    - rewrite Hfull in Hv. exact (lookup_field_key _ _ _ Hv).
    - apply (lookup_field_key _ _ (nth j (Loop.leading fs (List.length fs) 0) JS.JNull)).
      apply (Hin j). lia. }
  assert (Hnd : NoDup (map Loop.index_key (seq 0 (S (List.length fs))))).
  { apply Finite.Injective_map_NoDup; [intros i j; apply index_key_inj | apply seq_NoDup]. }
  pose proof (NoDup_incl_length Hnd Hincl) as Hle.
  rewrite !length_map, length_seq in Hle. lia.
Qed.

End Elements.

(* ================================================================== *)
(** * No completed task with an incomplete subtask *)
(* ================================================================== *)

Module Invariant.

Import Db Effects Frame Hoare Lifecycle.

Lemma triple_for_each_throwing {A} (I E : World -> Prop) (rows : list A) (body : A -> M unit) :
  (forall r, In r rows -> triple I (body r) (fun _ => I) E) ->
  triple I (for_each rows body) (fun _ => I) E.
Proof.
  induction rows as [ | r rest IH]; intro Hb; simpl.
  - apply triple_ret. auto.
  - apply triple_bind with (R := fun _ => I).
    + apply Hb. now left.
    + intros _. apply IH. intros r' Hr'. apply Hb. now right.
Qed.

Lemma find_in_some {A : Type} (p : A -> bool) (rows : list A) (r : A) :
  In r rows -> p r = true -> exists r', List.find p rows = Some r'.
Proof.
  intros Hin Hp. destruct (List.find p rows) as [r' | ] eqn:Hf.
  - now exists r'.
  - rewrite (find_none _ _ Hf r Hin) in Hp. discriminate Hp.
Qed.

Lemma has_hub_found (id : string) (w : World) :
  has_hub id w = true ->
  exists h, first_where (fun h => sql_eq (Some (hub_id h)) (Some id)) (hubs w) = Some h.
Proof.
  unfold has_hub, first_where. intro H. apply existsb_exists in H.
  destruct H as [h [Hin Heq]]. apply (find_in_some _ _ h Hin). exact Heq.
Qed.

(** With the hub in the table and the agent in the table,
    [assignAgentToHub] returns. *)
Lemma assignAgentToHub_returns (agentId : nat) (hubId : string) (w : World) :
  has_hub hubId w = true -> In agentId (map agent_id (agents w)) ->
  snd (Loop.assignAgentToHub agentId hubId w) = inr tt.
Proof.
  intros Hhub Hin. apply in_map_iff in Hin. destruct Hin as [a [Hid Ha]].
  destruct (find_in_some (fun a0 => Nat.eqb (agent_id a0) agentId) (agents w) a Ha) as [a' Hf].
  { now apply Nat.eqb_eq. }
  unfold Loop.assignAgentToHub, Loop.getAgent, Loop.getHub, bind, read, first_where.
  simpl. rewrite Hf. simpl.
  destruct (sql_eq (current_hub a') (Some hubId)); [reflexivity | ].
  simpl. rewrite Hhub. simpl.
  destruct (has_hub_found hubId w Hhub) as [h Hh]. unfold first_where in Hh.
  simpl in Hh. rewrite Hh. reflexivity.
Qed.

(** The town square is a hub, and the agents are the agents of [w0]. *)
Definition square_and_agents (w0 w : World) : Prop :=
  has_hub "town_square" w = true /\ map agent_id (agents w) = map agent_id (agents w0).

Definition hubs_and_agent_ids (w : World) : list Hub * list nat :=
  (hubs w, map agent_id (agents w)).

Lemma square_and_agents_reads (w0 w1 w2 : World) :
  hubs_and_agent_ids w2 = hubs_and_agent_ids w1 ->
  square_and_agents w0 w1 -> square_and_agents w0 w2.
Proof.
  unfold hubs_and_agent_ids, square_and_agents, has_hub.
  intros Heq [Hh Ha]. injection Heq as Hhubs Hids. rewrite Hhubs, Hids. auto.
Qed.

Lemma hubs_and_agent_ids_blind : blind_agents hubs_and_agent_ids.
Proof.
  intros p g w Hg. unfold hubs_and_agent_ids. simpl. f_equal.
  apply map_update_where. intro a. apply Hg.
Qed.

(** With the town square in the table the celebration returns. *)
Lemma celebrateCompletion_returns (w : World) :
  has_hub "town_square" w = true -> snd (Loop.celebrateCompletion w) = inr tt.
Proof.
  intro Hhub.
  assert (Hloop : triple (square_and_agents w)
                    (for_each (agents w)
                       (fun agent => Loop.assignAgentToHub (agent_id agent) "town_square"))
                    (fun _ => square_and_agents w) (fun _ => False)).
  { apply triple_for_each_throwing. intros r Hr w1 H1.
    assert (Hret : snd (Loop.assignAgentToHub (agent_id r) "town_square" w1) = inr tt).
    { destruct H1 as [Hh Hids]. apply assignAgentToHub_returns; [exact Hh | ].
      rewrite Hids. now apply in_map. }
    rewrite Hret. apply (square_and_agents_reads w w1); [ | exact H1].
    apply (LoopFrame.assignAgentToHub_keeps hubs_and_agent_ids).
    - apply hubs_and_agent_ids_blind.
    - blind. }
  specialize (Hloop w (conj Hhub eq_refl)).
  unfold Loop.celebrateCompletion, bind, read. simpl.
  destruct (for_each (agents w) _ w) as [w1 [e | u]]; simpl in *.
  - contradiction.
  - reflexivity.
Qed.

(** The world in which [checkTaskCompletion] starts the celebration. *)
Definition marked_completed (env : Env.Runtime) (taskId : nat) (w : World) : World :=
  set_events (fun l => l ++ [task_complete taskId (fst (Loop.packageResult env taskId))
                               (snd (Loop.packageResult env taskId))])
    (set_tasks (update_where (fun r => Nat.eqb (task_id r) taskId)
                  (Loop.completed_task (fst (Loop.packageResult env taskId))
                     (snd (Loop.packageResult env taskId)) (now w))) w).

Lemma checkTaskCompletion_all_completed (env : Env.Runtime) (taskId : nat) (w : World) :
  Loop.count_not_completed taskId w = 0 ->
  Loop.checkTaskCompletion env taskId w
  = Loop.celebrateCompletion (marked_completed env taskId w).
Proof.
  intro Hc. unfold Loop.checkTaskCompletion, marked_completed, bind at 1, read.
  rewrite Hc. simpl. destruct (Loop.packageResult env taskId) as [d p]. reflexivity.
Qed.

(** When no subtask of the task is outstanding, the check marks the task
    completed, leaves the subtasks and the hubs alone, and returns. *)
Lemma checkTaskCompletion_completes (env : Env.Runtime) (taskId : nat) (w : World) :
  Loop.count_not_completed taskId w = 0 -> has_hub "town_square" w = true ->
  snd (Loop.checkTaskCompletion env taskId w) = inr tt
  /\ subtasks (exec (Loop.checkTaskCompletion env taskId) w) = subtasks w
  /\ hubs (exec (Loop.checkTaskCompletion env taskId) w) = hubs w
  /\ tasks (exec (Loop.checkTaskCompletion env taskId) w)
     = update_where (fun r => Nat.eqb (task_id r) taskId)
         (Loop.completed_task (fst (Loop.packageResult env taskId))
            (snd (Loop.packageResult env taskId)) (now w))
         (tasks w).
Proof.
  intros Hc Hhub. unfold exec. rewrite (checkTaskCompletion_all_completed env taskId w Hc).
  set (w1 := marked_completed env taskId w).
  assert (Hh1 : has_hub "town_square" w1 = true) by exact Hhub.
  split; [exact (celebrateCompletion_returns w1 Hh1) | ].
  split; [ | split].
  - exact (LoopFrame.celebrateCompletion_keeps subtasks ltac:(blind) ltac:(blind)
             ltac:(blind) w1).
  - exact (LoopFrame.celebrateCompletion_keeps hubs ltac:(blind) ltac:(blind)
             ltac:(blind) w1).
  - exact (LoopFrame.celebrateCompletion_keeps tasks ltac:(blind) ltac:(blind)
             ltac:(blind) w1).
Qed.

(** The invariant, with the town square present. *)
Definition good (w : World) : Prop :=
  completed_means_all_completed w /\ has_hub "town_square" w = true.

(** The invariant while the subtask with key [id] is being executed. *)
Definition executing (id : nat) (w : World) : Prop :=
  good w /\ owner_not_completed id w.

Lemma good_reads_tables (w1 w2 : World) :
  Completion.tables w2 = Completion.tables w1 -> good w1 -> good w2.
Proof.
  unfold Completion.tables. intros Heq [Hinv Hhub]. injection Heq as Ht Hs Hh.
  unfold good, completed_means_all_completed, all_completed, has_hub.
  rewrite Ht, Hs, Hh. auto.
Qed.

Lemma executing_reads_tables (id : nat) (w1 w2 : World) :
  Completion.tables w2 = Completion.tables w1 -> executing id w1 -> executing id w2.
Proof.
  intros Heq [Hg Ho]. split; [now apply (good_reads_tables w1) | ].
  unfold Completion.tables in Heq. injection Heq as Ht Hs Hh.
  unfold owner_not_completed. rewrite Ht, Hs. exact Ho.
Qed.

(** An [UPDATE] of the rows with key [id] keeps the invariant when each row
    it writes is completed or belongs to a task that is not completed. *)
Lemma good_update_subtask (id : nat) (g : Subtask -> Subtask) (w : World) :
  subtask_update g -> good w ->
  (forall r, In r (subtasks w) -> subtask_id r = id ->
     st_status (g r) = SUB_COMPLETED
     \/ forall t, In t (tasks w) -> task_id t = st_task_id r ->
          task_status t <> TASK_COMPLETED) ->
  good (set_subtasks (update_where (fun s => Nat.eqb (subtask_id s) id) g) w).
Proof.
  intros Hg [Hinv Hhub] Hrows. split; [ | exact Hhub].
  intros t Ht Hdone s Hs Hown. simpl in *.
  apply in_update_where in Hs. destruct Hs as [r [Hr Heq]].
  destruct (Nat.eqb (subtask_id r) id) eqn:Hid.
  - apply Nat.eqb_eq in Hid. subst s.
    destruct (Hg r) as [_ [Htask _]]. rewrite Htask in Hown.
    destruct (Hrows r Hr Hid) as [Hc | Hn]; [exact Hc | ].
    exfalso. apply (Hn t Ht); auto.
  - subst s. apply (Hinv t Ht Hdone r Hr Hown).
Qed.

Lemma owner_update_subtask (id id' : nat) (g : Subtask -> Subtask) (w : World) :
  subtask_update g -> owner_not_completed id w ->
  owner_not_completed id
    (set_subtasks (update_where (fun s => Nat.eqb (subtask_id s) id') g) w).
Proof.
  intros Hg Ho r t Hr Hid Ht Hown. simpl in *.
  apply in_update_where in Hr. destruct Hr as [r0 [Hr0 Heq]].
  assert (Hsame : subtask_id r = subtask_id r0 /\ st_task_id r = st_task_id r0).
  { subst r. destruct (Nat.eqb (subtask_id r0) id'); [ | auto].
    destruct (Hg r0) as [H1 [H2 _]]. auto. }
  destruct Hsame as [Hi Hk]. rewrite Hi in Hid. rewrite Hk in Hown.
  apply (Ho r0 t Hr0 Hid Ht Hown).
Qed.

Lemma completed_row_update (output : option string) (t : Z) :
  subtask_update (Loop.completed_row output t).
Proof. intro s. repeat split. Qed.

Lemma failed_row_update : subtask_update Loop.failed_row.
Proof. intro s. repeat split. Qed.

Lemma started_row_update (t : Z) : subtask_update (Loop.started_row t).
Proof. intro s. repeat split. Qed.

Lemma tables_blind_agents : blind_agents Completion.tables.
Proof. intros p g w Hg. reflexivity. Qed.

Section OneSubtask.

Variable env : Env.Runtime.
Variable subtask : Subtask.

Let id : nat := subtask_id subtask.

Lemma saveOutput_executing (parsed : JS.JSValue) (response : string) :
  preserves (executing id) (Loop.saveOutput env subtask parsed response).
Proof.
  unfold Loop.saveOutput, Loop.prop, preserves.
  apply triple_bind with (R := fun _ => executing id); [apply triple_settle; auto | ].
  intro output.
  apply triple_bind with (R := fun _ => executing id); [apply triple_read; auto | ].
  intro t. apply triple_modify. intros w [Hg Ho]. split.
  - apply good_update_subtask; [apply completed_row_update | exact Hg | ].
    intros r _ _. now left.
  - apply owner_update_subtask; [apply completed_row_update | exact Ho].
Qed.

Lemma checkTaskCompletion_good (taskId : nat) :
  triple good (Loop.checkTaskCompletion env taskId) (fun _ => good) (fun _ => False).
Proof.
  intros w [Hinv Hhub].
  destruct (Nat.eq_dec (Loop.count_not_completed taskId w) 0) as [Hc | Hc].
  - destruct (checkTaskCompletion_completes env taskId w Hc Hhub) as [Hret [Hs [Hh Ht]]].
    rewrite Hret. unfold exec in *. split.
    + intros t Hin Hdone s Hsin Hown. rewrite Hs in Hsin. rewrite Ht in Hin.
      apply in_update_where in Hin. destruct Hin as [t0 [Ht0 Heq]].
      destruct (Nat.eqb (task_id t0) taskId) eqn:Hid.
      * apply Nat.eqb_eq in Hid. subst t. simpl in Hown.
        apply (proj1 (count_zero_all_completed taskId w) Hc s Hsin). congruence.
      * subst t. apply (Hinv t0 Ht0 Hdone s Hsin Hown).
    + unfold has_hub. rewrite Hh. exact Hhub.
  - rewrite (checkTaskCompletion_outstanding env taskId w Hc). simpl. split; assumption.
Qed.

Lemma handleResponse_executing (agent : Agent) (response : string) :
  triple (executing id) (Loop.handleResponse env subtask agent response)
    (fun _ => good) (executing id).
Proof.
  unfold Loop.handleResponse.
  apply triple_bind with (R := fun _ => executing id).
  { apply (keeps_preserves _ _ _ (executing_reads_tables id)).
    apply LoopFrame.emitBubbles_keeps. blind. }
  intros _. apply triple_bind with (R := fun _ => executing id).
  { apply saveOutput_executing. }
  intros _. apply triple_bind with (R := fun _ => executing id).
  { apply (keeps_preserves _ _ _ (executing_reads_tables id)).
    apply LoopFrame.handleFiles_keeps. }
  intros _. apply triple_bind with (R := fun _ => executing id).
  { apply (keeps_preserves _ _ _ (executing_reads_tables id)).
    apply LoopFrame.handleHelp_keeps; blind. }
  intros _.
  apply (triple_weaken _ good _ _ (fun _ => good) _ (fun _ => False)
           (checkTaskCompletion_good (st_task_id subtask))).
  - intros w [Hg _]. exact Hg.
  - auto.
  - contradiction.
Qed.

Lemma handleFailure_good (agent : Agent) :
  triple (executing id) (Loop.handleFailure subtask agent) (fun _ => good) good.
Proof.
  unfold Loop.handleFailure.
  apply triple_bind with (R := fun _ => good).
  - apply triple_modify. intros w [Hg Ho].
    apply good_update_subtask; [apply failed_row_update | exact Hg | ].
    intros r Hr Hid. right. intros t Ht Hown. apply (Ho r t Hr Hid Ht Hown).
  - intros _. apply (keeps_preserves _ _ _ good_reads_tables).
    apply keeps_modify. intro w. reflexivity.
Qed.

Lemma executeSubtask_finish_good (agent : Agent) (reply : JS.Exn + string) :
  triple (executing id) (Loop.executeSubtask_finish env subtask agent reply)
    (fun _ => good) good.
Proof.
  unfold Loop.executeSubtask_finish.
  apply triple_bind with (R := fun _ => good).
  - apply triple_try_catch with (E' := executing id).
    + apply triple_bind with (R := fun _ => executing id).
      * apply triple_settle; auto.
      * intro response. apply handleResponse_executing.
    + intros _. apply handleFailure_good.
  - intros _. apply (keeps_preserves _ _ _ good_reads_tables).
    apply keeps_bind; [ | intros _]; apply keeps_modify; intro w; reflexivity.
Qed.

Lemma executeSubtask_begin_executing :
  triple (executing id) (Loop.executeSubtask_begin subtask)
    (fun _ => executing id) good.
Proof.
  assert (Hweak : forall w, executing id w -> good w) by (intros w [Hg _]; exact Hg).
  unfold Loop.executeSubtask_begin, Loop.getAgent, Loop.buildContext.
  apply triple_bind with (R := fun _ => executing id); [apply triple_read; auto | ].
  intro found.
  apply triple_bind with (R := fun _ => executing id); [apply triple_defined; auto | ].
  intro a.
  apply triple_bind with (R := fun _ => executing id); [apply triple_read; auto | ].
  intro t.
  apply triple_bind with (R := fun _ => executing id).
  { apply triple_modify. intros w [Hg Ho]. split.
    - apply good_update_subtask; [apply started_row_update | exact Hg | ].
      intros r Hr Hid. right. intros t0 Ht0 Hown. apply (Ho r t0 Hr Hid Ht0 Hown).
    - apply owner_update_subtask; [apply started_row_update | exact Ho]. }
  intros _.
  apply (triple_weaken (executing id) (executing id) _ _ (fun _ => executing id)
           _ (executing id)); [ | auto | auto | exact Hweak].
  apply (keeps_preserves _ _ _ (executing_reads_tables id)).
  pose proof (LoopFrame.buildPrompt_keeps Completion.tables). frame. all: blind.
Qed.

(** The execution of a subtask whose rows belong to tasks that are not
    completed keeps the invariant, whatever the reasoning call does. *)
Lemma executeSubtask_good :
  triple (executing id) (Loop.executeSubtask env subtask) (fun _ => good) good.
Proof.
  unfold Loop.executeSubtask.
  apply triple_bind with (R := fun _ => executing id).
  { apply executeSubtask_begin_executing. }
  intro started. apply triple_bind with (R := fun _ => executing id).
  - apply triple_attempt.
    apply (triple_weaken _ (executing id) _ _ (fun _ => executing id) _ (executing id)).
    + apply (keeps_preserves _ _ _ (executing_reads_tables id)).
      apply LoopFrame.callAgent_keeps. blind.
    + auto.
    + auto.
    + auto.
  - intro reply. apply executeSubtask_finish_good.
Qed.

End OneSubtask.

(** ** The dispatch pass *)

Lemma filter_at_most_one {A : Type} (key : A -> nat) (p : A -> bool) (k : nat)
    (rows : list A) :
  NoDup (map key rows) -> (forall a, p a = true -> key a = k) ->
  List.length (filter p rows) <= 1.
Proof.
  intros Hnd Hp. induction rows as [ | r rest IH]; simpl; [lia | ].
  inversion Hnd as [ | ? ? Hnotin Hnd']; subst.
  destruct (p r) eqn:Hr; [ | now apply IH].
  simpl. destruct (filter p rest) as [ | r' rest'] eqn:Hf; [simpl; lia | exfalso].
  assert (Hin : In r' (filter p rest)) by (rewrite Hf; now left).
  apply filter_In in Hin. destruct Hin as [Hin Hr'].
  apply Hnotin. rewrite (Hp r Hr), <- (Hp r' Hr'). now apply in_map.
Qed.

(** With unique keys in both tables the query of the pass yields every
    subtask at most once. *)
Lemma ready_subtasks_keys (w : World) :
  NoDup (map subtask_id (subtasks w)) -> NoDup (map agent_id (agents w)) ->
  NoDup (map subtask_id (Loop.ready_subtasks w)).
Proof.
  intros Hs Ha. unfold Loop.ready_subtasks.
  apply (Permutation_NoDup
           (Permutation_sym (Permutation_map subtask_id (OrderBy.order_by_perm st_sequence _)))).
  induction (subtasks w) as [ | s rest IH]; simpl; [constructor | ].
  inversion Hs as [ | ? ? Hnotin Hs']; subst.
  rewrite map_app.
  set (inner := filter _ (agents w)).
  assert (Hlen : List.length inner <= 1).
  { apply (filter_at_most_one agent_id _ (st_agent_id s) _ Ha).
    intros a Hc. repeat (apply andb_true_iff in Hc; destruct Hc as [Hc ?]).
    symmetry. now apply Nat.eqb_eq. }
  assert (Hrest : forall x, In x (map subtask_id
                     (flat_map (fun s0 => map (fun _ => s0)
                        (filter (fun a => Nat.eqb (st_agent_id s0) (agent_id a)
                           && subtask_status_eqb (st_status s0) SUB_ASSIGNED
                           && State.status_eqb (agent_status a) State.IDLE
                           && sql_eq (current_hub a) (st_hub_id s0)) (agents w))) rest)) ->
                   In x (map subtask_id rest)).
  { intros x Hx. apply in_map_iff in Hx. destruct Hx as [s0 [Hid Hin]].
    apply in_flat_map in Hin. destruct Hin as [s1 [Hs1 Hin]].
    apply in_map_iff in Hin. destruct Hin as [a [Heq _]]. subst s0 x. now apply in_map. }
  destruct inner as [ | a [ | a' more]]; simpl.
  - now apply IH.
  - constructor; [ | now apply IH]. intro Hin. apply Hnotin, Hrest, Hin.
  - simpl in Hlen. lia.
Qed.

(** The rows still to be executed are [assigned] in the table. *)
Definition still_assigned (rows : list Subtask) (w : World) : Prop :=
  forall s r, In s rows -> In r (subtasks w) -> subtask_id r = subtask_id s ->
              st_status r = SUB_ASSIGNED.

Lemma assigned_row_executing (s : Subtask) (rest : list Subtask) (w : World) :
  good w -> still_assigned (s :: rest) w -> executing (subtask_id s) w.
Proof.
  intros Hg Hrows. split; [exact Hg | ].
  intros r t Hr Hid Ht Hown Hdone.
  destruct Hg as [Hinv _].
  assert (Hc := Hinv t Ht Hdone r Hr (eq_sym Hown)).
  rewrite (Hrows s r (or_introl eq_refl) Hr Hid) in Hc. discriminate Hc.
Qed.

Lemma for_each_executeSubtask_good (env : Env.Runtime) (rows : list Subtask) :
  NoDup (map subtask_id rows) ->
  forall w, good w -> still_assigned rows w ->
    good (fst (for_each rows (Loop.executeSubtask env) w)).
Proof.
  induction rows as [ | s rest IH]; intros Hnd w Hg Hrows; simpl; [exact Hg | ].
  inversion Hnd as [ | ? ? Hnotin Hnd']; subst.
  pose proof (executeSubtask_good env s w (assigned_row_executing s rest w Hg Hrows)) as Hs.
  pose proof (LoopFrame.executeSubtask_keeps (others (subtask_id s)) env s
                ltac:(blind) (others_blind (subtask_id s)) ltac:(blind) ltac:(blind)
                ltac:(blind) ltac:(blind) ltac:(blind) ltac:(blind) w) as Hothers.
  unfold bind. destruct (Loop.executeSubtask env s w) as [w1 [e | u]]; simpl in *.
  - exact Hs.
  - apply (IH Hnd' w1 Hs). intros s' r Hs' Hr Hid.
    assert (Hne : subtask_id r <> subtask_id s).
    { intro Heq. apply Hnotin. rewrite <- Heq, Hid. now apply in_map. }
    assert (Hin : In r (others (subtask_id s) w1)) by (apply in_others; auto).
    rewrite Hothers in Hin. apply in_others in Hin. destruct Hin as [Hin _].
    apply (Hrows s' r (or_intror Hs') Hin Hid).
Qed.

(** The pass keeps the invariant. *)
Lemma processSubtasks_good (env : Env.Runtime) (w : World) :
  NoDup (map subtask_id (subtasks w)) -> NoDup (map agent_id (agents w)) ->
  good w -> good (exec (Loop.processSubtasks env) w).
Proof.
  intros Hs Ha Hg. unfold exec, Loop.processSubtasks, bind, read. simpl.
  apply for_each_executeSubtask_good.
  - now apply ready_subtasks_keys.
  - exact Hg.
  - intros s r Hin Hr Hid.
    apply Dispatch.ready_subtasks_dispatchable in Hin. destruct Hin as [Hin [Hst _]].
    now rewrite (Delivery.key_determines_row subtask_id _ r s Hs Hr Hin Hid).
Qed.

(** ** The other phases, cancellation and submission *)

(** An [UPDATE] of the tasks that writes a status other than [completed]
    keeps the invariant. *)
Lemma good_update_task (p : Task -> bool) (g : Task -> Task) (w : World) :
  (forall r, task_id (g r) = task_id r /\ task_status (g r) <> TASK_COMPLETED) ->
  good w -> good (set_tasks (update_where p g) w).
Proof.
  intros Hg [Hinv Hhub]. split; [ | exact Hhub].
  intros t Ht Hdone s Hs Hown. simpl in *.
  apply in_update_where in Ht. destruct Ht as [r [Hr Heq]].
  destruct (p r); subst t.
  - exfalso. now apply (proj2 (Hg r)).
  - apply (Hinv r Hr Hdone s Hs Hown).
Qed.

Lemma processPendingTasks_good : preserves good Loop.processPendingTasks.
Proof.
  unfold Loop.processPendingTasks, Loop.getAgentByType, preserves.
  apply triple_bind with (R := fun _ => good); [apply triple_read; auto | intro rows].
  apply triple_for_each. intros task _.
  apply triple_bind with (R := fun _ => good); [apply triple_read; auto | intro t].
  apply triple_bind with (R := fun _ => good).
  { apply triple_modify. intros w Hg. apply good_update_task; [ | exact Hg].
    intro r. split; [reflexivity | discriminate]. }
  intros _. apply (keeps_preserves _ _ _ good_reads_tables).
  pose proof (LoopFrame.assignAgentToHub_keeps Completion.tables). frame. all: blind.
Qed.

(** The keys of the subtasks and of the agents. *)
Definition keys (w : World) : list nat * list nat :=
  (map subtask_id (subtasks w), map agent_id (agents w)).

(** Both tables have a primary key. *)
Definition keyed (w : World) : Prop :=
  NoDup (map subtask_id (subtasks w)) /\ NoDup (map agent_id (agents w)).

Lemma keyed_reads_keys (w1 w2 : World) : keys w2 = keys w1 -> keyed w1 -> keyed w2.
Proof.
  unfold keys, keyed. intros Heq H. injection Heq as Hs Ha. rewrite Hs, Ha. exact H.
Qed.

Lemma keys_blind_agents : blind_agents keys.
Proof.
  intros p g w Hg. unfold keys. simpl. f_equal. apply map_update_where. intro a. apply Hg.
Qed.

Lemma keys_blind_subtasks : blind_subtasks keys.
Proof.
  intros p g w Hg. unfold keys. simpl. f_equal. apply map_update_where. intro r. apply Hg.
Qed.

(** The invariant together with the keys: what every operation maintains. *)
Definition stable (w : World) : Prop := good w /\ keyed w.

Lemma phases_stable (env : Env.Runtime) (w : World) :
  stable w -> stable (fst (Loop.phases env w)).
Proof.
  intros [Hg Hk].
  (* intake *)
  pose proof (processPendingTasks_good w Hg) as Hg1.
  pose proof (LoopFrame.processPendingTasks_keeps keys keys_blind_agents ltac:(blind)
                ltac:(blind) ltac:(blind) w) as Hk1.
  unfold Loop.phases, bind at 1.
  destruct (Loop.processPendingTasks w) as [w1 [e1 | u1]]; simpl in *.
  { split; [exact Hg1 | exact (keyed_reads_keys _ _ Hk1 Hk)]. }
  assert (Hkeyed1 := keyed_reads_keys _ _ Hk1 Hk).
  (* movement *)
  pose proof (LoopFrame.updateAgentPositions_keeps Completion.tables tables_blind_agents
                ltac:(blind) ltac:(blind) w1) as Ht2.
  pose proof (LoopFrame.updateAgentPositions_keeps keys keys_blind_agents
                ltac:(blind) ltac:(blind) w1) as Hk2.
  unfold bind at 1.
  destruct (Loop.updateAgentPositions w1) as [w2 [e2 | u2]]; simpl in *.
  { split; [exact (good_reads_tables _ _ Ht2 Hg1) | exact (keyed_reads_keys _ _ Hk2 Hkeyed1)]. }
  assert (Hg2 := good_reads_tables _ _ Ht2 Hg1).
  assert (Hkeyed2 := keyed_reads_keys _ _ Hk2 Hkeyed1).
  (* work dispatch *)
  pose proof (processSubtasks_good env w2 (proj1 Hkeyed2) (proj2 Hkeyed2) Hg2) as Hg3.
  pose proof (LoopFrame.processSubtasks_keeps keys env keys_blind_agents keys_blind_subtasks
                ltac:(blind) ltac:(blind) ltac:(blind) ltac:(blind) ltac:(blind)
                ltac:(blind) w2) as Hk3.
  unfold exec in Hg3. unfold bind at 1.
  destruct (Loop.processSubtasks env w2) as [w3 [e3 | u3]]; simpl in *.
  { split; [exact Hg3 | exact (keyed_reads_keys _ _ Hk3 Hkeyed2)]. }
  assert (Hkeyed3 := keyed_reads_keys _ _ Hk3 Hkeyed2).
  (* message delivery *)
  pose proof (LoopFrame.processMessages_keeps Completion.tables env ltac:(blind)
                ltac:(blind) ltac:(blind) w3) as Ht4.
  pose proof (LoopFrame.processMessages_keeps keys env ltac:(blind)
                ltac:(blind) ltac:(blind) w3) as Hk4.
  split; [exact (good_reads_tables _ _ Ht4 Hg3) | exact (keyed_reads_keys _ _ Hk4 Hkeyed3)].
Qed.

Lemma tick_stable (env : Env.Runtime) (w : World) :
  stable w -> stable (fst (Loop.tick env w)).
Proof.
  intro Hs. unfold Loop.tick. destruct (running w); simpl; [ | exact Hs].
  pose proof (phases_stable env w Hs) as H.
  destruct (Loop.phases env w) as [w' [e | u]]; exact H.
Qed.

Lemma cancelTask_stable (id : nat) (w : World) :
  stable w -> stable (exec (Routes.cancelTask id) w).
Proof.
  intros [Hg Hk]. unfold exec, Routes.cancelTask, bind, modify, emit. simpl. split.
  - apply (good_reads_tables (set_tasks (update_where (Routes.cancellable id)
                                           Routes.cancelled_task) w)); [reflexivity | ].
    apply good_update_task; [ | exact Hg]. intro r. split; [reflexivity | discriminate].
  - exact Hk.
Qed.

Lemma createTask_stable (prompt : string) (userId : option string) (w : World) :
  stable w -> stable (fst (Routes.createTask prompt userId w)).
Proof.
  intros [[Hinv Hhub] Hk]. unfold Routes.createTask.
  destruct (String.eqb prompt ""); simpl; [repeat split; assumption || apply Hk | ].
  split; [split | exact Hk]; [ | exact Hhub].
  intros t Ht Hdone s Hs Hown. simpl in *.
  apply in_app_or in Ht. destruct Ht as [Ht | [Ht | []]].
  - apply (Hinv t Ht Hdone s Hs Hown).
  - subst t. discriminate Hdone.
Qed.

(** ** Planning *)

(** The task with key [taskId] is not completed. *)
Definition task_open (taskId : nat) (w : World) : Prop :=
  forall t, In t (tasks w) -> task_id t = taskId -> task_status t <> TASK_COMPLETED.

(** What [planTask] maintains while it inserts the subtasks of an open task. *)
Definition planning (taskId : nat) (w : World) : Prop := stable w /\ task_open taskId w.

Definition tables_and_keys (w : World)
    : (list Task * list Subtask * list Hub) * (list nat * list nat) :=
  (Completion.tables w, keys w).

Lemma planning_reads (taskId : nat) (w1 w2 : World) :
  tables_and_keys w2 = tables_and_keys w1 -> planning taskId w1 -> planning taskId w2.
Proof.
  unfold tables_and_keys. intros Heq [[Hg Hk] Ho].
  assert (Ht : Completion.tables w2 = Completion.tables w1) by exact (f_equal fst Heq).
  assert (Hkeys : keys w2 = keys w1) by exact (f_equal snd Heq).
  split; [split | ].
  - now apply (good_reads_tables w1).
  - now apply (keyed_reads_keys w1).
  - assert (Htasks : tasks w2 = tasks w1) by exact (f_equal (fun x => fst (fst x)) Ht).
    unfold task_open. now rewrite Htasks.
Qed.

Lemma tables_and_keys_blind_agents : blind_agents tables_and_keys.
Proof.
  intros p g w Hg. unfold tables_and_keys. f_equal.
  apply keys_blind_agents. exact Hg.
Qed.

(** The [INSERT] keeps the invariant when the task is open: the new row
    belongs to it, and its key is not in the table. *)
Lemma insertSubtask_planning (taskId : nat) (agent : Agent)
    (agentType description : option string) (hub : string) (i : nat) :
  preserves (planning taskId) (Loop.insertSubtask taskId agent agentType description hub i).
Proof.
  unfold Loop.insertSubtask.
  destruct agentType as [type | ]; [ | apply triple_throw; auto].
  destruct description as [text | ]; [ | apply triple_throw; auto].
  intros w Hw. unfold bind, read. simpl.
  destruct (existsb (fun s => Nat.eqb (subtask_id s) (next_id w)) (subtasks w)) eqn:Hused;
    simpl; [exact Hw | ].
  destruct (has_task taskId w); simpl; [ | exact Hw].
  destruct (has_hub hub w); simpl; [ | exact Hw].
  destruct Hw as [[[Hinv Hhub] [Hks Hka]] Hopen].
  split; [split; [split | split] | ]; simpl.
  - intros t Ht Hdone s Hs Hown. simpl in *.
    apply in_app_or in Hs. destruct Hs as [Hs | [<- | []]].
    + apply (Hinv t Ht Hdone s Hs Hown).
    + simpl in Hown. exfalso. apply (Hopen t Ht); [now symmetry | exact Hdone].
  - exact Hhub.
  - rewrite map_app. simpl.
    apply (Permutation_NoDup (Permutation_cons_append _ _)).
    constructor; [ | exact Hks].
    intro Hin. apply in_map_iff in Hin. destruct Hin as [s [Hid Hs]].
    assert (Hex : existsb (fun s0 => Nat.eqb (subtask_id s0) (next_id w)) (subtasks w) = true).
    { apply existsb_exists. exists s. split; [exact Hs | now apply Nat.eqb_eq]. }
    rewrite Hex in Hused. discriminate Hused.
  - exact Hka.
  - exact Hopen.
Qed.

Lemma assignAgentToHub_planning (taskId agentId : nat) (hubId : string) :
  preserves (planning taskId) (Loop.assignAgentToHub agentId hubId).
Proof.
  apply (keeps_preserves tables_and_keys _ _ (fun w w' => planning_reads taskId w w')).
  apply LoopFrame.assignAgentToHub_keeps; [apply tables_and_keys_blind_agents | blind].
Qed.

Lemma planSubtask_planning (env : Env.Runtime) (taskId i : nat) (st : JS.JSValue) :
  preserves (planning taskId) (Loop.planSubtask env taskId i st).
Proof.
  unfold Loop.planSubtask, Loop.getAgentByType, preserves.
  apply triple_bind with (R := fun _ => planning taskId); [apply triple_settle; auto | ].
  intro agentType.
  apply triple_bind with (R := fun _ => planning taskId); [apply triple_read; auto | ].
  intro found.
  apply triple_bind with (R := fun _ => planning taskId); [apply triple_settle; auto | ].
  intro hub.
  apply triple_bind with (R := fun _ => planning taskId); [apply triple_defined; auto | ].
  intro agent.
  apply triple_bind with (R := fun _ => planning taskId); [apply triple_settle; auto | ].
  intro description.
  apply triple_bind with (R := fun _ => planning taskId).
  - apply insertSubtask_planning.
  - intros _. apply assignAgentToHub_planning.
Qed.

Lemma planSubtasks_planning (env : Env.Runtime) (taskId : nat) (below : nat -> bool)
    (items : list JS.JSValue) :
  forall i, preserves (planning taskId) (Loop.planSubtasks env taskId below items i).
Proof.
  induction items as [ | st rest IH]; intro i; simpl.
  - destruct (below i); [apply triple_throw | apply triple_ret]; auto.
  - destruct (below i); [ | apply triple_ret; auto].
    apply triple_bind with (R := fun _ => planning taskId).
    + apply planSubtask_planning.
    + intros _. apply IH.
Qed.

(** [planTask] for a task that is not completed keeps the invariant and the
    keys, whatever the planner's reply and wherever it throws. *)
Lemma planTask_stable (env : Env.Runtime) (taskId : nat) (plannerResponse : string)
    (w : World) :
  stable w -> task_open taskId w ->
  stable (exec (Loop.planTask env taskId plannerResponse) w).
Proof.
  intros Hs Ho.
  assert (H : triple (planning taskId) (Loop.planTask env taskId plannerResponse)
                (fun _ => stable) stable).
  { unfold Loop.planTask.
    destruct (Env.JSON_parse env plannerResponse) as [subtasks | ];
      [ | apply triple_throw; intros w0 [H0 _]; exact H0].
    apply triple_bind with (R := fun _ => planning taskId).
    { apply triple_settle; [auto | intros e w0 _ [H0 _]; exact H0]. }
    intro below.
    apply triple_bind with (R := fun _ => planning taskId).
    { apply (triple_weaken _ (planning taskId) _ _ (fun _ => planning taskId) _
               (planning taskId)).
      - apply planSubtasks_planning.
      - auto.
      - auto.
      - intros w0 [H0 _]. exact H0. }
    intros _.
    apply triple_bind with (R := fun _ => stable).
    - apply triple_modify. intros w0 [[Hg Hk] _]. split; [ | exact Hk].
      apply good_update_task; [ | exact Hg]. intro r. split; [reflexivity | discriminate].
    - intros _. apply triple_modify. intros w0 [Hg Hk]. split; [ | exact Hk].
      apply (good_reads_tables w0); [reflexivity | exact Hg]. }
  specialize (H w (conj Hs Ho)). unfold exec.
  destruct (snd (Loop.planTask env taskId plannerResponse w)); exact H.
Qed.

(** ** Starting, stopping and the manual move *)

Lemma stable_reads (w1 w2 : World) :
  tables_and_keys w2 = tables_and_keys w1 -> stable w1 -> stable w2.
Proof.
  unfold tables_and_keys. intros Heq [Hg Hk]. split.
  - apply (good_reads_tables w1); [exact (f_equal fst Heq) | exact Hg].
  - apply (keyed_reads_keys w1); [exact (f_equal snd Heq) | exact Hk].
Qed.

Lemma start_stable (env : Env.Runtime) (w : World) :
  stable w -> stable (fst (Loop.start env w)).
Proof.
  intro Hs. unfold Loop.start. apply tick_stable.
  apply (stable_reads w); [reflexivity | exact Hs].
Qed.

Lemma stop_stable (w : World) : stable w -> stable (Loop.stop w).
Proof. intro Hs. apply (stable_reads w); [reflexivity | exact Hs]. Qed.

Lemma moveAgent_stable (id : nat) (hub : option string) (w : World) :
  stable w -> stable (fst (Routes.moveAgent id hub w)).
Proof.
  intro Hs. unfold Routes.moveAgent.
  assert (Hmoved : stable (set_agents (update_where (fun a => Nat.eqb (agent_id a) id)
                                         (Routes.moved_to hub)) w)).
  { apply (stable_reads w); [ | exact Hs].
    apply tables_and_keys_blind_agents. intro a. repeat split. }
  destruct hub as [hubId | ]; [ | exact Hs].
  destruct (first_where _ (hubs w)) as [targetHub | ]; [ | exact Hs].
  destruct (first_where _ _) as [agent | ]; simpl; [ | exact Hmoved].
  apply (stable_reads (set_agents (update_where (fun a => Nat.eqb (agent_id a) id)
                                     (Routes.moved_to (Some hubId))) w));
    [reflexivity | exact Hmoved].
Qed.

(** ** Reachable worlds *)

(** What can happen to the world: the orchestrator is started or stopped, a
    tick of the scheduler runs, a task that is not completed is planned, a
    task is cancelled or submitted or an agent moved through the API, and
    time passes. *)
Inductive step (env : Env.Runtime) : World -> World -> Prop :=
| step_start (w : World) : step env w (fst (Loop.start env w))
| step_stop (w : World) : step env w (Loop.stop w)
| step_tick (w : World) : step env w (fst (Loop.tick env w))
| step_plan (w : World) (taskId : nat) (plannerResponse : string) :
    task_open taskId w -> step env w (exec (Loop.planTask env taskId plannerResponse) w)
| step_cancel (w : World) (id : nat) : step env w (exec (Routes.cancelTask id) w)
| step_create (w : World) (prompt : string) (userId : option string) :
    step env w (fst (Routes.createTask prompt userId w))
| step_move (w : World) (id : nat) (hub : option string) :
    step env w (fst (Routes.moveAgent id hub w))
| step_clock (w : World) (t : Z) : step env w (set_now t w).

Inductive reachable (env : Env.Runtime) (w : World) : World -> Prop :=
| reachable_here : reachable env w w
| reachable_step (w1 w2 : World) :
    reachable env w w1 -> step env w1 w2 -> reachable env w w2.

Lemma step_stable (env : Env.Runtime) (w w' : World) :
  step env w w' -> stable w -> stable w'.
Proof.
  intros Hstep Hs. destruct Hstep.
  - now apply start_stable.
  - now apply stop_stable.
  - now apply tick_stable.
  - now apply planTask_stable.
  - now apply cancelTask_stable.
  - now apply createTask_stable.
  - now apply moveAgent_stable.
  - exact Hs.
Qed.

Lemma reachable_stable (env : Env.Runtime) (w w' : World) :
  reachable env w w' -> stable w -> stable w'.
Proof.
  intros Hr Hs. induction Hr as [ | w1 w2 _ IH Hstep]; [exact Hs | ].
  apply (step_stable env w1 w2 Hstep IH).
Qed.

(** The completion check marks the rows of the task completed exactly when
    none of its subtasks is outstanding. *)
Lemma checkTaskCompletion_iff (env : Env.Runtime) (taskId : nat) (w : World) (t : Task) :
  has_hub "town_square" w = true -> In t (tasks w) -> task_id t = taskId ->
  (all_completed taskId w ->
     In (Loop.completed_task (fst (Loop.packageResult env taskId))
           (snd (Loop.packageResult env taskId)) (now w) t)
        (tasks (exec (Loop.checkTaskCompletion env taskId) w)))
  /\ (~ all_completed taskId w -> exec (Loop.checkTaskCompletion env taskId) w = w).
Proof.
  intros Hhub Hin Hid. split.
  - intro Hall. apply count_zero_all_completed in Hall.
    destruct (checkTaskCompletion_completes env taskId w Hall Hhub) as [_ [_ [_ Ht]]].
    rewrite Ht. apply in_update_where. exists t. split; [exact Hin | ].
    now rewrite (proj2 (Nat.eqb_eq _ _) Hid).
  - intro Hnot. unfold exec. rewrite checkTaskCompletion_outstanding; [reflexivity | ].
    intro Hc. apply Hnot. now apply count_zero_all_completed.
Qed.

End Invariant.

(* ================================================================== *)
(** * The dispatch pass: which subtasks it starts *)
(* ================================================================== *)

Module DispatchPass.

Import Db Effects Frame Hoare Lifecycle.

(** Every row with key [id] has a status in [P]. *)
Definition statuses (id : nat) (P : SubtaskStatus -> Prop) (w : World) : Prop :=
  forall r, In r (subtasks w) -> subtask_id r = id -> P (st_status r).

Definition finished (st : SubtaskStatus) : Prop := st = SUB_COMPLETED \/ st = SUB_FAILED.

Definition in_progress (st : SubtaskStatus) : Prop := st = SUB_IN_PROGRESS.

(** The agents table has a row with key [agentId]. *)
Definition agent_known (agentId : nat) (w : World) : Prop :=
  In agentId (map agent_id (agents w)).

Lemma statuses_reads (id : nat) (P : SubtaskStatus -> Prop) (w1 w2 : World) :
  subtasks w2 = subtasks w1 -> statuses id P w1 -> statuses id P w2.
Proof. unfold statuses. intros Heq H. rewrite Heq. exact H. Qed.

Lemma statuses_written (id : nat) (P : SubtaskStatus -> Prop) (g : Subtask -> Subtask)
    (w : World) :
  (forall r, P (st_status (g r))) ->
  statuses id P (set_subtasks (update_where (fun s => Nat.eqb (subtask_id s) id) g) w).
Proof.
  intros Hg r' Hin Hid. simpl in Hin. apply in_update_where in Hin.
  destruct Hin as [r [_ Heq]]. destruct (Nat.eqb (subtask_id r) id) eqn:Hk; subst r'.
  - apply Hg.
  - apply Nat.eqb_neq in Hk. contradiction.
Qed.

Lemma triple_any {A : Type} (P : World -> Prop) (m : M A) :
  triple P m (fun _ _ => True) (fun _ => True).
Proof. intros w _. destruct (snd (m w)); exact I. Qed.

Lemma keeps_statuses {A : Type} (id : nat) (P : SubtaskStatus -> Prop) (m : M A) :
  keeps subtasks m -> preserves (statuses id P) m.
Proof.
  apply keeps_preserves. intros w w' Heq. now apply statuses_reads.
Qed.

Section OneSubtask.

Variable env : Env.Runtime.
Variable subtask : Subtask.

Let id := subtask_id subtask.

(** Once the agent's row is found, [executeSubtask] writes [in_progress]
    before anything can throw. *)
Lemma executeSubtask_begin_in_progress :
  triple (agent_known (st_agent_id subtask)) (Loop.executeSubtask_begin subtask)
    (fun _ => statuses id in_progress) (statuses id in_progress).
Proof.
  unfold Loop.executeSubtask_begin, Loop.getAgent, Loop.buildContext.
  apply triple_bind with (R := fun found _ => found <> None).
  { apply triple_read. intros w Hknown. unfold agent_known in Hknown.
    apply in_map_iff in Hknown. destruct Hknown as [a [Hid Hin]].
    destruct (Invariant.find_in_some
                (fun a0 => Nat.eqb (agent_id a0) (st_agent_id subtask)) (agents w) a Hin)
      as [a' Ha'].
    - now apply Nat.eqb_eq.
    - unfold first_where. rewrite Ha'. discriminate. }
  intro found.
  apply triple_bind with (R := fun _ _ => True).
  { apply triple_defined; [auto | ]. intros w Hnone Hfound. contradiction. }
  intro agent.
  apply triple_bind with (R := fun _ _ => True); [apply triple_read; auto | ].
  intro t.
  apply triple_bind with (R := fun _ => statuses id in_progress).
  { apply triple_modify. intros w _. apply statuses_written. reflexivity. }
  intros _. apply keeps_statuses.
  pose proof (LoopFrame.buildPrompt_keeps subtasks). frame. all: blind.
Qed.

Lemma saveOutput_completed (parsed : JS.JSValue) (response : string) :
  triple (fun _ => True) (Loop.saveOutput env subtask parsed response)
    (fun _ => statuses id (eq SUB_COMPLETED)) (fun _ => True).
Proof.
  unfold Loop.saveOutput.
  apply triple_bind with (R := fun _ _ => True); [apply triple_any | ].
  intro output.
  apply triple_bind with (R := fun _ _ => True); [apply triple_read; auto | ].
  intro t. apply triple_modify. intros w _. apply statuses_written. reflexivity.
Qed.

Lemma handleResponse_completed (agent : Agent) (response : string) :
  triple (fun _ => True) (Loop.handleResponse env subtask agent response)
    (fun _ => statuses id (eq SUB_COMPLETED)) (fun _ => True).
Proof.
  unfold Loop.handleResponse.
  apply triple_bind with (R := fun _ _ => True); [apply triple_any | ].
  intros _.
  apply triple_bind with (R := fun _ => statuses id (eq SUB_COMPLETED));
    [apply saveOutput_completed | ].
  intros _.
  apply (triple_weaken _ (statuses id (eq SUB_COMPLETED)) _ _
           (fun _ => statuses id (eq SUB_COMPLETED)) _ (statuses id (eq SUB_COMPLETED)));
    auto.
  apply keeps_statuses.
  pose proof (LoopFrame.handleFiles_keeps subtasks).
  pose proof (LoopFrame.handleHelp_keeps subtasks).
  pose proof (LoopFrame.checkTaskCompletion_keeps subtasks).
  frame. all: blind.
Qed.

(** From the moment the call settles, [executeSubtask] returns, with the
    subtask [completed] or [failed]. *)
Lemma executeSubtask_finish_finished (agent : Agent) (reply : JS.Exn + string) :
  triple (fun _ => True) (Loop.executeSubtask_finish env subtask agent reply)
    (fun _ => statuses id finished) (fun _ => False).
Proof.
  unfold Loop.executeSubtask_finish.
  apply triple_bind with (R := fun _ => statuses id finished).
  { apply triple_try_catch with (E' := fun _ => True).
    - apply triple_bind with (R := fun _ _ => True).
      + apply triple_settle; auto.
      + intro response.
        apply (triple_weaken _ (fun _ => True) _ _ (fun _ => statuses id (eq SUB_COMPLETED))
                 _ (fun _ => True)); auto.
        * apply handleResponse_completed.
        * intros _ w H r Hr Hid. left. symmetry. now apply (H r).
    - intros _. unfold Loop.handleFailure.
      apply triple_bind with (R := fun _ => statuses id finished).
      + apply triple_modify. intros w _. apply statuses_written. intro r. now right.
      + intros _. apply triple_modify. intros w H. exact H. }
  intros _.
  apply triple_bind with (R := fun _ => statuses id finished).
  - apply triple_modify. intros w H. exact H.
  - intros _. apply triple_modify. intros w H. exact H.
Qed.

(** One execution: returned, the subtask is [completed] or [failed];
    thrown, it is [in_progress]. *)
Lemma executeSubtask_statuses :
  triple (agent_known (st_agent_id subtask)) (Loop.executeSubtask env subtask)
    (fun _ => statuses id finished) (statuses id in_progress).
Proof.
  unfold Loop.executeSubtask.
  apply triple_bind with (R := fun _ _ => True).
  { apply (triple_weaken _ (agent_known (st_agent_id subtask)) _ _
             (fun _ => statuses id in_progress) _ (statuses id in_progress)); auto.
    apply executeSubtask_begin_in_progress. }
  intro started.
  apply triple_bind with (R := fun _ _ => True).
  { apply triple_attempt.
    apply (triple_weaken _ (fun _ => True) _ _ (fun _ _ => True) _ (fun _ => True)); auto.
    apply triple_any. }
  intro reply.
  apply (triple_weaken _ (fun _ => True) _ _ (fun _ => statuses id finished)
           _ (fun _ => False)); auto.
  - apply executeSubtask_finish_finished.
  - intros w [].
Qed.

End OneSubtask.

(** What a run of the loop of [processSubtasks()] leaves behind: the rows
    [started] were executed, the rows [skipped] were not. *)
Definition ran (m : M unit) (started skipped : list Subtask) (w : World) : Prop :=
  let w' := exec m w in
  (forall r, ~ In (subtask_id r) (map subtask_id started) ->
     (In r (subtasks w') <-> In r (subtasks w)))
  /\ match outcome m w with
     | inr _ =>
         skipped = []
         /\ forall s, In s started -> statuses (subtask_id s) finished w'
     | inl _ =>
         exists before s0,
           started = before ++ [s0]
           /\ (forall s, In s before -> statuses (subtask_id s) finished w')
           /\ statuses (subtask_id s0) in_progress w'
     end.

Lemma for_each_executeSubtask_ran (env : Env.Runtime) (rows : list Subtask) :
  NoDup (map subtask_id rows) ->
  forall w, (forall s, In s rows -> agent_known (st_agent_id s) w) ->
    exists started skipped,
      rows = started ++ skipped
      /\ ran (for_each rows (Loop.executeSubtask env)) started skipped w.
Proof.
  induction rows as [ | s rest IH]; intros Hnd w Hknown.
  - exists [], []. split; [reflexivity | ]. unfold ran, exec, outcome. simpl.
    split; [intros r _; reflexivity | ]. split; [reflexivity | intros s []].
  - inversion Hnd as [ | ? ? Hnotin Hnd']; subst.
    pose proof (executeSubtask_statuses env s w (Hknown s (or_introl eq_refl))) as Hs.
    pose proof (LoopFrame.executeSubtask_keeps (others (subtask_id s)) env s
                  ltac:(blind) (others_blind (subtask_id s)) ltac:(blind) ltac:(blind)
                  ltac:(blind) ltac:(blind) ltac:(blind) ltac:(blind) w) as Hothers.
    pose proof (f_equal snd
                  (LoopFrame.executeSubtask_keeps Invariant.keys env s
                     Invariant.keys_blind_agents
                     (blind_subtasks_one _ _ Invariant.keys_blind_subtasks)
                     ltac:(blind) ltac:(blind) ltac:(blind) ltac:(blind) ltac:(blind)
                     ltac:(blind) w)) as Hagents.
    assert (Hrows : forall r, subtask_id r <> subtask_id s ->
              (In r (subtasks (fst (Loop.executeSubtask env s w))) <-> In r (subtasks w))).
    { intros r Hne. split; intro Hin.
      - assert (H : In r (others (subtask_id s) (fst (Loop.executeSubtask env s w))))
          by (apply in_others; auto).
        rewrite Hothers in H. now apply in_others in H.
      - assert (H : In r (others (subtask_id s) w)) by (apply in_others; auto).
        rewrite <- Hothers in H. now apply in_others in H. }
    unfold ran, exec, outcome. simpl. unfold bind.
    destruct (Loop.executeSubtask env s w) as [w1 [e | u]] eqn:Hrun; simpl in *.
    + exists [s], rest. split; [reflexivity | ]. split.
      * intros r Hr. apply Hrows. intro Heq. apply Hr. simpl. left. now symmetry.
      * exists [], s. split; [reflexivity | ]. split; [intros s' [] | exact Hs].
    + destruct (IH Hnd' w1) as [started [skipped [Hsplit [Hkept Hout]]]].
      { intros s' Hs'. unfold agent_known. rewrite Hagents.
        apply Hknown. now right. }
      unfold exec, outcome in *.
      assert (Hfresh : ~ In (subtask_id s) (map subtask_id started)).
      { intro Hin. apply Hnotin. rewrite Hsplit, map_app. apply in_or_app. now left. }
      assert (Hfirst : statuses (subtask_id s) finished
                         (fst (for_each rest (Loop.executeSubtask env) w1))).
      { intros r Hr Hid. apply (Hs r); [ | exact Hid].
        apply (Hkept r); [ | exact Hr]. now rewrite Hid. }
      exists (s :: started), skipped. split; [simpl; now rewrite Hsplit | ]. split.
      * intros r Hr. rewrite (Hkept r).
        -- apply Hrows. intro Heq. apply Hr. simpl. left. now symmetry.
        -- intro Hin. apply Hr. simpl. now right.
      * destruct (snd (for_each rest (Loop.executeSubtask env) w1)) as [e | u'].
        -- destruct Hout as [before [s0 [Hst [Hbefore Hlast]]]].
           exists (s :: before), s0. split; [simpl; now rewrite Hst | ].
           split; [ | exact Hlast].
           intros s' [<- | Hs']; [exact Hfirst | now apply Hbefore].
        -- destruct Hout as [Hnil Hall]. split; [exact Hnil | ].
           intros s' [<- | Hs']; [exact Hfirst | now apply Hall].
Qed.

End DispatchPass.

(** C1, amended.  With unique keys in the subtasks and in the agents: the
    query of a dispatch pass returns exactly the subtasks that are
    [assigned] and whose agent is [idle] at the subtask's hub, in
    non-decreasing sequence order, and the pass executes them one after the
    other in that order until an execution throws.  The rows [started] were
    executed: when the pass returns they are all the rows of the query, each
    [completed] or [failed]; when it throws, the one whose execution threw
    is [in_progress] and the ones before it are [completed] or [failed].
    The rows [skipped] come after the throw and are in the table as they
    were, as is every row that the pass did not start.  The status of the
    subtasks with a lower sequence index is not part of the condition. *)
Theorem dispatch_pass_is_sorted_and_gated_by_agent (env : Env.Runtime) (w : Db.World) :
  NoDup (map Db.subtask_id (Db.subtasks w)) -> NoDup (map Db.agent_id (Db.agents w)) ->
  let ready := Loop.ready_subtasks w in
  let w' := Effects.exec (Loop.processSubtasks env) w in
  StronglySorted (fun a b => (Db.st_sequence a <= Db.st_sequence b)%Z) ready
  /\ (forall s, In s ready <-> Dispatch.dispatchable w s)
  /\ map Db.subtask_id (Db.subtasks w') = map Db.subtask_id (Db.subtasks w)
  /\ exists started skipped,
       ready = started ++ skipped
       /\ (forall s, In s skipped -> In s (Db.subtasks w'))
       /\ (forall r, ~ In (Db.subtask_id r) (map Db.subtask_id started) ->
             (In r (Db.subtasks w') <-> In r (Db.subtasks w)))
       /\ match Effects.outcome (Loop.processSubtasks env) w with
          | inr _ =>
              skipped = []
              /\ forall s, In s started ->
                   DispatchPass.statuses (Db.subtask_id s) DispatchPass.finished w'
          | inl _ =>
              exists before s0,
                started = before ++ [s0]
                /\ (forall s, In s before ->
                      DispatchPass.statuses (Db.subtask_id s) DispatchPass.finished w')
                /\ DispatchPass.statuses (Db.subtask_id s0) DispatchPass.in_progress w'
          end.
Proof.
  intros Hs Ha ready w'.
  split; [apply (OrderBy.order_by_sorted Db.st_sequence) | ].
  split; [apply Dispatch.ready_subtasks_dispatchable | ].
  split.
  { subst w'. unfold Effects.exec.
    apply (f_equal fst
             (LoopFrame.processSubtasks_keeps Invariant.keys env
                Invariant.keys_blind_agents Invariant.keys_blind_subtasks
                ltac:(blind) ltac:(blind) ltac:(blind) ltac:(blind) ltac:(blind)
                ltac:(blind) w)). }
  pose proof (Invariant.ready_subtasks_keys w Hs Ha) as Hnd.
  destruct (DispatchPass.for_each_executeSubtask_ran env (Loop.ready_subtasks w) Hnd w)
    as [started [skipped [Hsplit [Hkept Hout]]]].
  { intros s Hin. apply Dispatch.ready_subtasks_dispatchable in Hin.
    destruct Hin as [_ [_ [a [Hin [Hid _]]]]].
    unfold DispatchPass.agent_known. rewrite <- Hid. now apply in_map. }
  exists started, skipped. split; [exact Hsplit | ].
  split; [ | split; [exact Hkept | exact Hout]].
  intros s Hin. apply (Hkept s).
  - fold ready in Hnd. unfold ready in *. rewrite Hsplit, map_app in Hnd.
    intro Hdup. apply in_map_iff in Hdup. destruct Hdup as [s' [Hid Hs']].
    apply in_split in Hs'. destruct Hs' as [l1 [l2 ->]].
    apply in_split in Hin. destruct Hin as [l3 [l4 ->]].
    rewrite !map_app in Hnd. simpl in Hnd. rewrite <- app_assoc in Hnd. simpl in Hnd.
    apply NoDup_remove_2 in Hnd. apply Hnd.
    rewrite Hid. apply in_or_app. right. apply in_or_app. right.
    apply in_or_app. right. now left.
  - assert (Hr : In s (Loop.ready_subtasks w))
      by (rewrite Hsplit; apply in_or_app; now right).
    apply Dispatch.ready_subtasks_dispatchable in Hr. now destruct Hr.
Qed.

Lemma dispatch_pass_is_sorted_and_gated_by_agent_witness :
  map Db.subtask_id
    (Db.subtasks (Effects.exec (Loop.processSubtasks Scenario.env_prose) Cases.both_ready))
  = [20; 21].
Proof.
  rewrite (proj1 (proj2 (proj2
             (dispatch_pass_is_sorted_and_gated_by_agent Scenario.env_prose Cases.both_ready
                ltac:(repeat constructor; simpl; intuition discriminate)
                ltac:(repeat constructor; simpl; intuition discriminate))))).
  reflexivity.
Defined.

(** C4, as stated, fails in the direction from the subtasks to the task: a
    task that has just been submitted owns no subtask, so every subtask it
    owns is completed, and its status is [pending]. *)
Lemma submitted_task_is_not_completed :
  let w := fst (Routes.createTask "build a page" None Scenario.seed_world) in
  map (fun t => (Db.task_id t, Db.task_status t)) (Db.tasks w) = [(100, Db.TASK_PENDING)]
  /\ Lifecycle.all_completed 100 w.
Proof.
  split; [reflexivity | ]. intros s Hs. destruct Hs.
Qed.

(** C4, amended.  Take a world in which no completed task owns a subtask
    that is not completed, the town square is a hub, and the subtasks and the
    agents have unique keys.  The same holds in every world reached from it
    by starting and stopping the orchestrator, its ticks, [planTask] for
    tasks that are not completed, cancellations, submissions and manual moves
    through the API, and the passing of time; and there the completion check
    marks a task completed exactly when every subtask it owns is completed at
    that moment. *)
Theorem completed_task_owns_only_completed_subtasks
    (env : Env.Runtime) (w w' : Db.World) :
  Invariant.stable w -> Invariant.reachable env w w' ->
  (forall t s, In t (Db.tasks w') -> Db.task_status t = Db.TASK_COMPLETED ->
     In s (Db.subtasks w') -> Db.st_task_id s = Db.task_id t ->
     Db.st_status s = Db.SUB_COMPLETED)
  /\ (forall t, In t (Db.tasks w') ->
        (Lifecycle.all_completed (Db.task_id t) w' ->
           In (Loop.completed_task (fst (Loop.packageResult env (Db.task_id t)))
                 (snd (Loop.packageResult env (Db.task_id t))) (Db.now w') t)
              (Db.tasks (Effects.exec (Loop.checkTaskCompletion env (Db.task_id t)) w')))
        /\ (~ Lifecycle.all_completed (Db.task_id t) w' ->
              Effects.exec (Loop.checkTaskCompletion env (Db.task_id t)) w' = w')).
Proof.
  intros Hs Hr.
  destruct (Invariant.reachable_stable env w w' Hr Hs) as [[Hinv Hhub] _].
  split.
  - intros t s Ht Hdone Hsin Hown. apply (Hinv t Ht Hdone s Hsin Hown).
  - intros t Ht. apply (Invariant.checkTaskCompletion_iff env (Db.task_id t) w' t Hhub Ht).
    reflexivity.
Qed.

(** [planTask] does not look at the status of the task.  Called for a
    completed task with a reply whose second entry is [null], it inserts the
    first subtask, [pending], and throws at the second: the task is left
    [completed] with a subtask that is not.  With a reply that it reads to the
    end it sets the completed task back to [in_progress]. *)
Lemma planTask_ignores_the_task_status :
  let coder_part :=
    JS.JObj [("agent", JS.JStr "coder"); ("description", JS.JStr "write the page")] in
  let env :=
    Env.mkRuntime
      (fun text => if String.eqb text "short"
                   then Some (JS.JArr [coder_part])
                   else Some (JS.JArr [coder_part; JS.JNull]))
      (fun _ => PrimFloat.nan) (fun _ => "")
      (fun _ _ _ => inr Scenario.prose) (fun _ _ _ => None) (fun _ => "task")
      "http://localhost:3000/preview" in
  let completed :=
    Db.mkWorld Scenario.seed_hubs Scenario.seed_agents [Scenario.a_task 10 Db.TASK_COMPLETED]
      [] [] [] [] true [] [] 0%Z 100 0 in
  let cut_short := Loop.planTask env 10 "broken" completed in
  let read_through := Loop.planTask env 10 "short" completed in
  (exists msg, snd cut_short = inl (JS.TypeError msg))
  /\ map Db.task_status (Db.tasks (fst cut_short)) = [Db.TASK_COMPLETED]
  /\ map (fun s => (Db.st_task_id s, Db.st_agent_type s, Db.st_status s))
       (Db.subtasks (fst cut_short))
     = [(10, "coder", Db.SUB_PENDING)]
  /\ snd read_through = inr tt
  /\ map Db.task_status (Db.tasks (fst read_through)) = [Db.TASK_IN_PROGRESS].
Proof. vm_compute. split; [eexists; reflexivity | repeat split; reflexivity]. Qed.

(** The database as schema.sql seeds it satisfies the hypotheses: no task,
    no subtask, the town square among the hubs, one agent per key. *)
Lemma seed_world_stable : Invariant.stable Scenario.seed_world.
Proof.
  split; [split | split].
  - intros t [].
  - reflexivity.
  - constructor.
  - repeat constructor; simpl; intuition discriminate.
Qed.

Lemma both_ready_stable : Invariant.stable Cases.both_ready.
Proof.
  split; [split | split].
  - intros t [Ht | []] Hdone. subst t. discriminate Hdone.
  - reflexivity.
  - repeat constructor; simpl; intuition discriminate.
  - repeat constructor; simpl; intuition discriminate.
Qed.

Lemma completed_task_owns_only_completed_subtasks_witness :
  Db.st_status
    (nth 0 (Db.subtasks (fst (Loop.tick Scenario.env_prose Cases.both_ready)))
       Cases.designer_subtask)
  = Db.SUB_COMPLETED.
Proof.
  apply (proj1 (completed_task_owns_only_completed_subtasks Scenario.env_prose
                  Cases.both_ready (fst (Loop.tick Scenario.env_prose Cases.both_ready))
                  both_ready_stable
                  (Invariant.reachable_step _ _ Cases.both_ready _
                     (Invariant.reachable_here _ _) (Invariant.step_tick _ _)))
           (nth 0 (Db.tasks (fst (Loop.tick Scenario.env_prose Cases.both_ready)))
              (Scenario.a_task 10 Db.TASK_PENDING))).
  - vm_compute. left. reflexivity.
  - vm_compute. reflexivity.
  - vm_compute. left. reflexivity.
  - vm_compute. reflexivity.
Defined.

(* ================================================================== *)
(** * Scenario B: a reply that is not a structured record *)
(* ================================================================== *)

Module Replies.

Import Db Effects.

(** Task 10 with one subtask, the coder idle at its desk. *)
Definition coder_alone : World :=
  mkWorld Scenario.seed_hubs [Cases.coder] [Scenario.a_task 10 TASK_IN_PROGRESS]
    [Cases.coder_subtask] [] [] [] true [] [] 0%Z 100 0.

Lemma checkTaskCompletion_returns (env : Env.Runtime) (taskId : nat) (w : World) :
  has_hub "town_square" w = true ->
  snd (Loop.checkTaskCompletion env taskId w) = inr tt
  /\ subtasks (exec (Loop.checkTaskCompletion env taskId) w) = subtasks w.
Proof.
  intro Hhub. destruct (Nat.eq_dec (Loop.count_not_completed taskId w) 0) as [Hc | Hc].
  - destruct (Invariant.checkTaskCompletion_completes env taskId w Hc Hhub) as [H1 [H2 _]].
    auto.
  - unfold exec. rewrite (Lifecycle.checkTaskCompletion_outstanding env taskId w Hc). auto.
Qed.

(** What the orchestrator's parser returns when [JSON.parse] throws. *)
Lemma parse_failure_is_output_only (env : Env.Runtime) (response : string) :
  Env.JSON_parse env response = None ->
  Loop.parseAgentResponse env response = JS.JObj [("output", JS.JStr response)].
Proof. intro H. unfold Loop.parseAgentResponse. now rewrite H. Qed.

Lemma output_only_fields (response k : string) :
  JS.get_prop (JS.JObj [("output", JS.JStr response)]) k
  = inr (if String.eqb k "output" then Some (JS.JStr response) else None).
Proof. reflexivity. Qed.

(** The statements after the call, for a reply on which [JSON.parse] throws:
    nothing is published, the raw reply is saved as the output, and the
    completion check runs. *)
Lemma handleResponse_raw (env : Env.Runtime) (subtask : Subtask) (agent : Agent)
    (response : string) (w : World) :
  Env.JSON_parse env response = None ->
  Loop.handleResponse env subtask agent response w
  = Loop.checkTaskCompletion env (st_task_id subtask)
      (set_subtasks (update_where (fun s => Nat.eqb (subtask_id s) (subtask_id subtask))
                       (Loop.completed_row (Some response) (now w))) w).
Proof.
  intro Hparse. unfold Loop.handleResponse.
  rewrite (parse_failure_is_output_only env response Hparse).
  unfold Loop.emitBubbles, Loop.saveOutput, Loop.handleFiles, Loop.handleHelp, Loop.prop,
    bind, settle, read, modify, ret. simpl.
  destruct (negb (String.eqb response "")); reflexivity.
Qed.

(** What the orchestrator does with a reply that parses to [null]: reading
    [parsed.thinking] throws inside the [try], and the [catch] block runs. *)
Lemma handleResponse_null (env : Env.Runtime) (subtask : Subtask) (agent : Agent)
    (response : string) (w : World) :
  Env.JSON_parse env response = Some JS.JNull ->
  Loop.handleResponse env subtask agent response w
  = (w, inl (JS.TypeError "Cannot read properties of null (reading 'thinking')")).
Proof.
  intro Hparse. unfold Loop.handleResponse, Loop.parseAgentResponse. rewrite Hparse.
  reflexivity.
Qed.

End Replies.

(** C9 at the reply [null]: [JSON.parse] returns [null] without throwing,
    the first property read throws, and the subtask ends [failed] with no
    output; the same execution with the prose reply of scenario B ends
    [completed] with the reply as output. *)
Lemma null_reply_fails_the_subtask :
  map (fun s => (Db.st_status s, Db.st_output s))
      (Db.subtasks (Effects.exec (Loop.executeSubtask Scenario.env_null Cases.coder_subtask)
                      Replies.coder_alone))
    = [(Db.SUB_FAILED, None)]
  /\ map (fun s => (Db.st_status s, Db.st_output s))
       (Db.subtasks (Effects.exec (Loop.executeSubtask Scenario.env_prose Cases.coder_subtask)
                       Replies.coder_alone))
     = [(Db.SUB_COMPLETED, Some "I did it, no JSON here")]
  /\ Claude.parseAgentResponse Scenario.env_null "null" = Claude.plain_output "null".
Proof. vm_compute. repeat split; reflexivity. Qed.

(** When [JSON.parse] throws on the reply, the orchestrator's parser returns
    an object whose only field is [output], holding the raw reply (every
    other field reads as undefined); and, the town square being a hub, the
    subtask ends [completed] with the raw reply as its output. *)
Theorem unparseable_reply_completes_with_raw_output
    (env : Env.Runtime) (subtask : Db.Subtask) (agent : Db.Agent) (response : string)
    (w : Db.World) :
  Env.JSON_parse env response = None ->
  Db.has_hub "town_square" w = true ->
  Loop.parseAgentResponse env response = JS.JObj [("output", JS.JStr response)]
  /\ (forall k, String.eqb k "output" = false ->
        JS.get_prop (Loop.parseAgentResponse env response) k = inr None)
  /\ Db.subtasks (Effects.exec (Loop.executeSubtask_finish env subtask agent (inr response)) w)
     = Db.update_where (fun s => Nat.eqb (Db.subtask_id s) (Db.subtask_id subtask))
         (Loop.completed_row (Some response) (Db.now w)) (Db.subtasks w).
Proof.
  intros Hparse Hhub. split; [now apply Replies.parse_failure_is_output_only | ]. split.
  - intros k Hk. rewrite (Replies.parse_failure_is_output_only env response Hparse).
    rewrite Replies.output_only_fields, Hk. reflexivity.
  - unfold Effects.exec, Loop.executeSubtask_finish, Effects.bind at 1, Effects.try_catch,
      Effects.bind at 1. simpl.
    rewrite (Replies.handleResponse_raw env subtask agent response w Hparse).
    set (w1 := Db.set_subtasks _ w).
    destruct (Replies.checkTaskCompletion_returns env (Db.st_task_id subtask) w1 Hhub)
      as [Hret Hsub].
    unfold Effects.exec in Hsub.
    destruct (Loop.checkTaskCompletion env (Db.st_task_id subtask) w1) as [w2 r].
    simpl in *. subst r. simpl. exact Hsub.
Qed.

Lemma unparseable_reply_completes_with_raw_output_witness :
  Db.subtasks (Effects.exec (Loop.executeSubtask_finish Scenario.env_prose Cases.coder_subtask
                               Cases.coder (inr Scenario.prose)) Replies.coder_alone)
  = Db.update_where (fun s => Nat.eqb (Db.subtask_id s) 21)
      (Loop.completed_row (Some Scenario.prose) 0%Z) (Db.subtasks Replies.coder_alone).
Proof.
  apply (unparseable_reply_completes_with_raw_output Scenario.env_prose Cases.coder_subtask
           Cases.coder Scenario.prose Replies.coder_alone); reflexivity.
Defined.

(* ================================================================== *)
(** * Movement *)
(* ================================================================== *)

Module Geometry.

Import Pathfinding.
Local Open Scope float_scope.

(** ** Comparisons with [NaN] *)

Lemma SFcompare_refl (s : SpecFloat.spec_float) :
  SpecFloat.SFcompare s s = None -> s = SpecFloat.S754_nan.
Proof.
  destruct s as [sg | sg | | sg m e]; simpl; try (destruct sg; discriminate); auto.
Qed.

(** [x < y] is false when [x] is [NaN]. *)
Lemma ltb_nan (x y : float) : PrimFloat.is_nan x = true -> PrimFloat.ltb x y = false.
Proof.
  unfold PrimFloat.is_nan. intro H. apply negb_true_iff in H.
  rewrite FloatAxioms.eqb_spec in H. rewrite FloatAxioms.ltb_spec.
  unfold SpecFloat.SFeqb in H. unfold SpecFloat.SFltb.
  destruct (SpecFloat.SFcompare (FloatOps.Prim2SF x) (FloatOps.Prim2SF x)) as [c | ] eqn:Hc.
  - destruct (FloatOps.Prim2SF x) as [sg | sg | | sg m e]; simpl in Hc.
    + destruct sg; injection Hc as <-; discriminate H.
    + destruct sg; injection Hc as <-; discriminate H.
    + discriminate Hc.
    + destruct sg; rewrite Z.compare_refl, Pos.compare_cont_refl in Hc;
        injection Hc as <-; discriminate H.
  - apply SFcompare_refl in Hc. rewrite Hc. reflexivity.
Qed.

(** ** [NaN] among the coordinates *)

Lemma is_nan_spec (x : float) :
  PrimFloat.is_nan x = true <-> FloatOps.Prim2SF x = SpecFloat.S754_nan.
Proof.
  unfold PrimFloat.is_nan. rewrite negb_true_iff, FloatAxioms.eqb_spec.
  unfold SpecFloat.SFeqb. split.
  - intro H.
    destruct (FloatOps.Prim2SF x) as [sg | sg | | sg m e]; simpl in H.
    + destruct sg; discriminate H.
    + destruct sg; discriminate H.
    + reflexivity.
    + destruct sg; rewrite Z.compare_refl, Pos.compare_cont_refl in H; discriminate H.
  - intros ->. reflexivity.
Qed.

Lemma sub_nan (x y : float) :
  PrimFloat.is_nan x = true \/ PrimFloat.is_nan y = true -> PrimFloat.is_nan (x - y) = true.
Proof.
  rewrite !is_nan_spec, FloatAxioms.sub_spec. intros [-> | ->].
  - reflexivity.
  - destruct (FloatOps.Prim2SF x) as [sg | sg | | sg m e]; reflexivity.
Qed.

Lemma add_nan (x y : float) :
  PrimFloat.is_nan x = true \/ PrimFloat.is_nan y = true -> PrimFloat.is_nan (x + y) = true.
Proof.
  rewrite !is_nan_spec, FloatAxioms.add_spec. intros [-> | ->].
  - reflexivity.
  - destruct (FloatOps.Prim2SF x) as [sg | sg | | sg m e]; reflexivity.
Qed.

Lemma mul_nan (x y : float) :
  PrimFloat.is_nan x = true \/ PrimFloat.is_nan y = true -> PrimFloat.is_nan (x * y) = true.
Proof.
  rewrite !is_nan_spec, FloatAxioms.mul_spec. intros [-> | ->].
  - reflexivity.
  - destruct (FloatOps.Prim2SF x) as [sg | sg | | sg m e]; reflexivity.
Qed.

Lemma sqrt_nan (x : float) :
  PrimFloat.is_nan x = true -> PrimFloat.is_nan (PrimFloat.sqrt x) = true.
Proof.
  rewrite !is_nan_spec, FloatAxioms.sqrt_spec. intros ->. reflexivity.
Qed.

(** A [NaN] among the coordinates makes the computed distance [NaN]. *)
Lemma distance_nan (ax ay hx hy : float) :
  PrimFloat.is_nan ax = true \/ PrimFloat.is_nan ay = true
  \/ PrimFloat.is_nan hx = true \/ PrimFloat.is_nan hy = true ->
  PrimFloat.is_nan (PrimFloat.sqrt ((hx - ax) * (hx - ax) + (hy - ay) * (hy - ay))) = true.
Proof.
  intro H. apply sqrt_nan, add_nan.
  destruct H as [H | [H | [H | H]]].
  - left. apply mul_nan. left. apply sub_nan. now right.
  - right. apply mul_nan. left. apply sub_nan. now right.
  - left. apply mul_nan. left. apply sub_nan. now left.
  - right. apply mul_nan. left. apply sub_nan. now left.
Qed.

(** ** The fraction of the way covered by one step *)

Lemma is_zero_leb_one (a : float) : PrimFloat.is_zero a = true -> PrimFloat.leb a 1 = true.
Proof.
  unfold PrimFloat.is_zero. rewrite FloatAxioms.eqb_spec, FloatAxioms.leb_spec.
  replace (FloatOps.Prim2SF 0) with (SpecFloat.S754_zero false) by reflexivity.
  replace (FloatOps.Prim2SF 1) with (SpecFloat.S754_finite false 4503599627370496 (-52))
    by reflexivity.
  destruct (FloatOps.Prim2SF a) as [sg | sg | | sg m e]; try destruct sg;
    simpl; try reflexivity; discriminate.
Qed.

Lemma ltb_leb (a b : float) : PrimFloat.ltb a b = true -> PrimFloat.leb a b = true.
Proof.
  rewrite FloatAxioms.ltb_spec, FloatAxioms.leb_spec.
  unfold SpecFloat.SFltb, SpecFloat.SFleb.
  destruct (SpecFloat.SFcompare _ _) as [[ | | ] | ]; try reflexivity; discriminate.
Qed.

(** [Math.min(a, 1)] is [NaN] or at most 1. *)
Lemma Math_min_at_most_one (a : float) :
  PrimFloat.is_nan (JS.Math_min a 1) = true \/ PrimFloat.leb (JS.Math_min a 1) 1 = true.
Proof.
  unfold JS.Math_min.
  destruct (PrimFloat.is_nan a || PrimFloat.is_nan 1)%bool; [left; reflexivity | right].
  destruct (PrimFloat.ltb a 1) eqn:Hlt; [now apply ltb_leb | ].
  destruct (PrimFloat.ltb 1 a); [reflexivity | ].
  destruct (PrimFloat.is_zero a) eqn:Hz; simpl.
  - destruct (PrimFloat.get_sign a); [now apply is_zero_leb_one | reflexivity].
  - reflexivity.
Qed.

(** ** What the movement phase writes *)

(** The row that [updateAgentPositions()] writes for a traveling agent whose
    target hub is [hub]: idle at the hub, at the hub's coordinates, when
    [moveAgentToHub] declares arrival; otherwise the coordinates of the step. *)
Lemma moveOneAgent_writes (agent : Db.Agent) (hub : Db.Hub) (w : Db.World) (a' : Db.Agent) :
  Effects.outcome (Loop.getHub (Db.target_hub agent)) w = inr (Some hub) ->
  In a' (Db.agents (Effects.exec (Loop.moveOneAgent agent) w)) ->
  Db.agent_id a' = Db.agent_id agent ->
  let moved :=
    moveAgentToHub (Db.position_x agent, Db.position_y agent)
      (Db.hub_position_x hub, Db.hub_position_y hub)
      Loop.AGENT_SPEED (Loop.TICK_INTERVAL / 1000) in
  (Db.position_x a', Db.position_y a')
  = (if fst moved then (Db.hub_position_x hub, Db.hub_position_y hub) else snd moved)
  /\ (fst moved = true -> Db.agent_status a' = State.IDLE /\ Db.target_hub a' = None).
Proof.
  intros Hhub Hin Hid.
  unfold Effects.outcome, Loop.getHub, Effects.read in Hhub. simpl in Hhub.
  injection Hhub as Hhub.
  unfold Effects.exec, Loop.moveOneAgent, Loop.getHub, Effects.bind, Effects.read,
    Effects.defined, Effects.ret in Hin.
  simpl in Hin. rewrite Hhub in Hin.
  cbv zeta.
  destruct (fst (moveAgentToHub _ _ _ _)) eqn:Harrived;
    simpl in Hin; apply Frame.in_update_where in Hin; destruct Hin as [a [_ Heq]];
    destruct (Nat.eqb (Db.agent_id a) (Db.agent_id agent)) eqn:Ha; subst a';
    try (apply Nat.eqb_neq in Ha; contradiction); simpl.
  - split; [reflexivity | intros _; split; reflexivity].
  - split; [ | discriminate].
    destruct (snd (moveAgentToHub _ _ _ _)). reflexivity.
Qed.

(** ** The exact value of a double *)

(** The value of a finite double as a rational number. *)
Definition exact (f : float) : Q :=
  match FloatOps.Prim2SF f with
  | SpecFloat.S754_finite s m e =>
      Qmult (inject_Z (if s then Z.neg m else Z.pos m)) (Qpower (inject_Z 2) e)
  | _ => 0%Q
  end.

(** C8, as stated, fails on the doubles the program computes with.  From
    (0,0) toward the hub at (3,4), five units away, with speed 2 and a tick of
    one second, the step ends at (1.2000000000000002, 1.6): the exact distance
    covered is not 2.  Toward a hub at (2^600, 0) the square of the
    difference overflows, the distance is infinite, and the agent does not
    move at all; it never arrives.  And a step that ends at the hub does not
    declare arrival: toward (0,1) the agent is moved onto the hub and the
    answer is [false]. *)
Lemma step_length_is_not_min :
  distance (mkPoint 0 0 None) (mkPoint 3 4 None) = 5
  /\ moveAgentToHub (0, 0) (3, 4) 2 1 = (false, (0x1.3333333333334p+0, 0x1.999999999999ap+0))
  /\ Qeq_bool
       (exact 0x1.3333333333334p+0 * exact 0x1.3333333333334p+0
        + exact 0x1.999999999999ap+0 * exact 0x1.999999999999ap+0)%Q
       (2 * 2)%Q = false
  /\ moveAgentToHub (0, 0) (0x1p+600, 0) 2 1 = (false, (0, 0))
  /\ moveAgentToHub (0, 0) (0, 1) 2 1 = (false, (0, 1)).
Proof. vm_compute. repeat split; reflexivity. Qed.

(** C8, amended.  [moveAgentToHub] works in double arithmetic.  With [d] the
    computed distance [sqrt(dx * dx + dy * dy)] before the step, it declares
    arrival exactly when [d < 0.1], never when [d] is [NaN] (as it is when a
    coordinate of the agent or of the hub is [NaN]), and then leaves the
    coordinates as they are; otherwise the new coordinates are
    [p + (h - p) * t] with [t = Math.min(speed * deltaTime / d, 1)], a
    fraction that is [NaN] or at most 1, and arrival is not declared in that
    step.  For a traveling agent whose target hub is in the table, the
    movement phase of the orchestrator (speed 2, tick of 1000 ms) writes the
    hub's coordinates and sets the agent idle when arrival is declared, and
    writes the coordinates of the step otherwise. *)
Theorem movement_step_in_double_arithmetic
    (agent hub : float * float) (speed deltaTime : float) :
  let dx := fst hub - fst agent in
  let dy := snd hub - snd agent in
  let d := PrimFloat.sqrt (dx * dx + dy * dy) in
  let t := JS.Math_min (speed * deltaTime / d) 1 in
  let r := moveAgentToHub agent hub speed deltaTime in
  (fst r = true <-> PrimFloat.ltb d 0x1.999999999999ap-4 = true)
  /\ (PrimFloat.is_nan d = true -> fst r = false)
  /\ (PrimFloat.is_nan (fst agent) = true \/ PrimFloat.is_nan (snd agent) = true
      \/ PrimFloat.is_nan (fst hub) = true \/ PrimFloat.is_nan (snd hub) = true ->
      fst r = false)
  /\ (fst r = true -> snd r = agent)
  /\ (fst r = false -> snd r = (fst agent + dx * t, snd agent + dy * t))
  /\ (PrimFloat.is_nan t = true \/ PrimFloat.leb t 1 = true)
  /\ (forall (row row' : Db.Agent) (target : Db.Hub) (w : Db.World),
        agent = (Db.position_x row, Db.position_y row) ->
        hub = (Db.hub_position_x target, Db.hub_position_y target) ->
        speed = Loop.AGENT_SPEED -> deltaTime = Loop.TICK_INTERVAL / 1000 ->
        Effects.outcome (Loop.getHub (Db.target_hub row)) w = inr (Some target) ->
        In row' (Db.agents (Effects.exec (Loop.moveOneAgent row) w)) ->
        Db.agent_id row' = Db.agent_id row ->
        (Db.position_x row', Db.position_y row') = (if fst r then hub else snd r)
        /\ (fst r = true -> Db.agent_status row' = State.IDLE /\ Db.target_hub row' = None)).
Proof.
  destruct agent as [ax ay], hub as [hx hy]. cbv zeta.
  unfold moveAgentToHub, distance, lerpPoint, lerp, arrivalThreshold.
  cbn [fst snd x y].
  set (d := PrimFloat.sqrt ((hx - ax) * (hx - ax) + (hy - ay) * (hy - ay))).
  split; [ | split; [ | split; [ | split; [ | split; [ | split]]]]].
  - destruct (PrimFloat.ltb d 0x1.999999999999ap-4); simpl; split; auto; discriminate.
  - intro Hnan. rewrite (ltb_nan d _ Hnan). reflexivity.
  - intro Hnan. rewrite (ltb_nan d _ (distance_nan ax ay hx hy Hnan)). reflexivity.
  - destruct (PrimFloat.ltb d 0x1.999999999999ap-4); simpl; [reflexivity | discriminate].
  - destruct (PrimFloat.ltb d 0x1.999999999999ap-4); simpl; [discriminate | reflexivity].
  - apply Math_min_at_most_one.
  - intros row row' target w Hagent Hhub -> -> Hfound Hin Hid.
    injection Hagent as -> ->. injection Hhub as -> ->.
    exact (moveOneAgent_writes row target w row' Hfound Hin Hid).
Qed.

End Geometry.

(* ================================================================== *)
(** * The orchestrator's in-memory agent states *)
(* ================================================================== *)

Module InMemory.

Import Db Effects Frame Hoare.

(** No registered state is [traveling]. *)
Definition none_traveling (w : World) : Prop :=
  forall id st, In (id, st) (agentStates w) -> State.status st <> State.TRAVELING.

Lemma map_get_in {V : Type} (k : nat) (m : list (nat * V)) (v : V) :
  Loop.map_get k m = Some v -> In (k, v) m.
Proof.
  unfold Loop.map_get. induction m as [ | [k' v'] rest IH]; simpl; [discriminate | ].
  destruct (Nat.eqb k' k) eqn:Hk; simpl.
  - intro H. injection H as H. subst v'. apply Nat.eqb_eq in Hk. subst k'. now left.
  - intro H. right. now apply IH.
Qed.

(** [map.set(k, map.get(k))] changes nothing. *)
Lemma map_set_same {V : Type} (k : nat) (m : list (nat * V)) (v : V) :
  Loop.map_get k m = Some v -> Loop.map_set k v m = m.
Proof.
  unfold Loop.map_get. induction m as [ | [k' v'] rest IH]; simpl; [discriminate | ].
  destruct (Nat.eqb k' k) eqn:Hk; simpl.
  - intro H. injection H as H. subst v'. apply Nat.eqb_eq in Hk. now subst k'.
  - intro H. f_equal. now apply IH.
Qed.

(** [arrive] is accepted only while [traveling]. *)
Lemma arrived_rejected (pos : option State.Position) (st : State.AgentState) :
  State.status st <> State.TRAVELING -> State.arrived pos st = (false, st).
Proof.
  intro H. apply State.transition_rejects.
  destruct (State.status st); try reflexivity. now contradiction H.
Qed.

Lemma moveOneAgent_states (agent : Agent) (w : World) :
  none_traveling w -> agentStates (exec (Loop.moveOneAgent agent) w) = agentStates w.
Proof.
  intro Hnone.
  unfold exec, Loop.moveOneAgent, Loop.getHub, bind, read, defined, emit, modify, ret, throw.
  destruct (first_where _ (hubs w)) as [hub | ]; [ | reflexivity].
  destruct (fst (Pathfinding.moveAgentToHub _ _ _ _)); [ | reflexivity].
  simpl. destruct (Loop.map_get (agent_id agent) (agentStates w)) as [state | ] eqn:Hget;
    [ | reflexivity].
  rewrite (arrived_rejected None state).
  - now apply map_set_same.
  - apply (Hnone (agent_id agent)). now apply map_get_in.
Qed.

Section Frozen.

Variable env : Env.Runtime.
Variable w0 : World.
Hypothesis idle_states : none_traveling w0.

Definition same_states (w : World) : Prop := agentStates w = agentStates w0.

Lemma same_states_reads (w w' : World) :
  agentStates w' = agentStates w -> same_states w -> same_states w'.
Proof. unfold same_states. congruence. Qed.

Lemma updateAgentPositions_same : preserves same_states Loop.updateAgentPositions.
Proof.
  unfold Loop.updateAgentPositions.
  apply (triple_bind _ _ _ (fun _ => same_states)).
  - apply triple_read. auto.
  - intro rows. apply triple_for_each. intros agent _ w Hw.
    assert (Hs : same_states (fst (Loop.moveOneAgent agent w))).
    { unfold same_states in *. rewrite <- Hw. apply moveOneAgent_states.
      intros id st Hin. apply (idle_states id). now rewrite <- Hw. }
    destruct (snd (Loop.moveOneAgent agent w)); exact Hs.
Qed.

Lemma phases_same : preserves same_states (Loop.phases env).
Proof.
  unfold Loop.phases.
  apply (triple_bind _ _ _ (fun _ => same_states)).
  { apply (keeps_preserves agentStates); [exact same_states_reads | ].
    apply LoopFrame.processPendingTasks_keeps; auto with frame. }
  intros _. apply (triple_bind _ _ _ (fun _ => same_states)).
  { exact updateAgentPositions_same. }
  intros _. apply (triple_bind _ _ _ (fun _ => same_states)).
  { apply (keeps_preserves agentStates); [exact same_states_reads | ].
    apply LoopFrame.processSubtasks_keeps; auto with frame. }
  intros _. apply (keeps_preserves agentStates); [exact same_states_reads | ].
  apply LoopFrame.processMessages_keeps; auto with frame.
Qed.

Lemma tick_same (w : World) : same_states w -> same_states (fst (Loop.tick env w)).
Proof.
  intro Hw. unfold Loop.tick. destruct (negb (running w)); [exact Hw | ].
  pose proof (triple_run _ _ _ _ w phases_same Hw) as H.
  destruct (Loop.phases env w) as [w' [e | u]]; exact H.
Qed.

End Frozen.

(** [n] ticks in a row. *)
Fixpoint ticks (env : Env.Runtime) (n : nat) (w : World) : World :=
  match n with
  | 0 => w
  | S k => ticks env k (fst (Loop.tick env w))
  end.

(** A designer whose row was sent to the studio after [start()] registered
    it idle at the town square. *)
Definition dispatched : World :=
  mkWorld Scenario.seed_hubs
    [ mkAgent 2 "designer" (Some "town_square") (Some "design_studio") State.TRAVELING None
        0 0 0 ]
    [] [] [] [] [] true
    [ (2, Loop.new_AgentState (Scenario.seed_agent 2 "designer")) ] [] 0%Z 100 0.

End InMemory.

(** The in-memory agent states are written by the movement phase alone, and
    only through [state.arrived()]: when no registered state is [traveling]
    (nothing in the orchestrator makes one so after [start()] built them from
    the rows), any number of ticks leaves every registered state as it is,
    whatever happens to the agents' rows. *)
Theorem ticks_leave_non_traveling_states (env : Env.Runtime) (n : nat) (w : Db.World) :
  InMemory.none_traveling w ->
  Db.agentStates (InMemory.ticks env n w) = Db.agentStates w.
Proof.
  revert w. induction n as [ | k IH]; intros w Hnone; simpl; [reflexivity | ].
  assert (Hs : Db.agentStates (fst (Loop.tick env w)) = Db.agentStates w).
  { apply (InMemory.tick_same env w Hnone). reflexivity. }
  rewrite IH; [exact Hs | ].
  intros id st Hin. apply (Hnone id). now rewrite <- Hs.
Qed.

Lemma ticks_leave_non_traveling_states_witness :
  Db.agentStates (InMemory.ticks Scenario.env_prose 4 InMemory.dispatched)
  = Db.agentStates InMemory.dispatched
  /\ map Db.agent_status (Db.agents (InMemory.ticks Scenario.env_prose 4 InMemory.dispatched))
     = [State.IDLE].
Proof.
  split.
  - apply (ticks_leave_non_traveling_states Scenario.env_prose 4 InMemory.dispatched).
    intros id st [H | []]. injection H as _ H. subst st. discriminate.
  - vm_compute. reflexivity.
Defined.

(* ================================================================== *)
(** * What escapes [executeSubtask] *)
(* ================================================================== *)

Module Escapes.

Import Db Effects Frame Hoare.

Lemma executeSubtask_finish_returns (env : Env.Runtime) (subtask : Subtask) (agent : Agent)
    (reply : JS.Exn + string) (w : World) :
  snd (Loop.executeSubtask_finish env subtask agent reply w) = inr tt.
Proof.
  unfold Loop.executeSubtask_finish, bind, try_catch.
  destruct (match settle reply w with
            | (w', inr a) => Loop.handleResponse env subtask agent a w'
            | (w', inl e) => (w', inl e)
            end) as [w1 [e | []]]; reflexivity.
Qed.

Lemma executeSubtask_finish_agents (env : Env.Runtime) (subtask : Subtask) (agent : Agent)
    (reply : JS.Exn + string) (w : World) :
  exists rows,
    agents (exec (Loop.executeSubtask_finish env subtask agent reply) w)
    = update_where (fun a => Nat.eqb (agent_id a) (agent_id agent)) Loop.idle_agent rows
    /\ map agent_id rows = map agent_id (agents w).
Proof.
  unfold exec, Loop.executeSubtask_finish, bind at 1.
  set (guarded := try_catch _ _).
  assert (Hids : keeps (fun w => map agent_id (agents w)) guarded).
  { unfold guarded. pose proof (@LoopFrame.handleResponse_keeps).
    pose proof (@LoopFrame.handleFailure_keeps). frame. }
  specialize (Hids w).
  assert (Hret : exists w1, guarded w = (w1, inr tt)).
  { unfold guarded, try_catch, bind.
    destruct (settle reply w) as [w0 [e0 | response]].
    - eexists. reflexivity.
    - destruct (Loop.handleResponse env subtask agent response w0) as [w1 [e | []]];
        eexists; reflexivity. }
  destruct Hret as [w1 Hw1]. rewrite Hw1 in *. simpl in Hids.
  exists (agents w1). split; [reflexivity | exact Hids].
Qed.

End Escapes.

(** Nothing escapes the second half of [executeSubtask]: whatever the
    reasoning call settled to, and whatever the statements of the [try] block
    throw, the part from the [try] on returns normally, keeps the agent rows
    (none is added or dropped) and leaves every row of the executing agent
    [idle] with [doing = NULL].  Hence a call of [executeSubtask] throws only
    if the part before the reasoning call does. *)
Theorem executeSubtask_throws_only_before_the_call
    (env : Env.Runtime) (subtask : Db.Subtask) (w : Db.World) :
  (forall agent reply w1,
     let w' := Effects.exec (Loop.executeSubtask_finish env subtask agent reply) w1 in
     Effects.outcome (Loop.executeSubtask_finish env subtask agent reply) w1 = inr tt
     /\ map Db.agent_id (Db.agents w') = map Db.agent_id (Db.agents w1)
     /\ (forall a, In a (Db.agents w') -> Db.agent_id a = Db.agent_id agent ->
           Db.agent_status a = State.IDLE /\ Db.agent_doing a = None))
  /\ (forall e, Effects.outcome (Loop.executeSubtask env subtask) w = inl e ->
        Effects.outcome (Loop.executeSubtask_begin subtask) w = inl e
        /\ Db.calls (Effects.exec (Loop.executeSubtask env subtask) w) = Db.calls w).
Proof.
  split.
  - intros agent reply w1 w'. subst w'.
    split; [apply Escapes.executeSubtask_finish_returns | ].
    destruct (Escapes.executeSubtask_finish_agents env subtask agent reply w1)
      as [rows [Hrows Hids]].
    rewrite Hrows. split.
    + rewrite Frame.map_update_where; [exact Hids | reflexivity].
    + intros a Hin Hid. apply Frame.in_update_where in Hin. destruct Hin as [r [_ Ha]].
      destruct (Nat.eqb (Db.agent_id r) (Db.agent_id agent)) eqn:Hr; subst a.
      * split; reflexivity.
      * apply Nat.eqb_neq in Hr. contradiction.
  - intros e. unfold Effects.outcome, Effects.exec.
    pose proof (LoopFrame.executeSubtask_begin_keeps Db.calls subtask) as Hcalls.
    specialize (Hcalls ltac:(auto with frame) ltac:(auto with frame) ltac:(auto with frame) w).
    unfold Loop.executeSubtask.
    destruct (Loop.executeSubtask_begin subtask w) as [w1 r] eqn:Hbegin.
    rewrite (bind_run _ _ w w1 r Hbegin). destruct r as [e1 | started]; simpl in *.
    + intro H. injection H as H. subst e1. split; [reflexivity | exact Hcalls].
    + unfold Effects.bind, Effects.attempt.
      destruct (Claude.callAgent env _ _ w1) as [w2 reply].
      rewrite Escapes.executeSubtask_finish_returns. discriminate.
Qed.

(* ================================================================== *)
(** * The context handed to a subtask *)
(* ================================================================== *)

Module Context.

Import Db Effects Frame Hoare.

(** The [WHERE] clause of [buildContext]: a completed subtask of the task
    with a lower sequence index. *)
Definition earlier_completed (taskId : nat) (beforeSequence : Z) (s : Subtask) : Prop :=
  st_task_id s = taskId /\ (st_sequence s < beforeSequence)%Z /\ st_status s = SUB_COMPLETED.

(** One iteration of the loop of [buildContext]. *)
Definition record_output (context : Loop.Obj) (row : Subtask) : Loop.Obj :=
  Loop.obj_set (st_agent_type row) (st_output row) context.

Lemma own_set_keys {V : Type} (k : string) (v : V) (o : list (string * V)) (k' : string) :
  In k' (map fst (Loop.own_set k v o)) <-> k' = k \/ In k' (map fst o).
Proof.
  induction o as [ | [k0 v0] rest IH]; simpl.
  - intuition.
  - destruct (String.eqb k0 k) eqn:Hk; simpl.
    + apply String.eqb_eq in Hk. subst k0. intuition.
    + rewrite IH. intuition.
Qed.

Lemma own_set_nodup {V : Type} (k : string) (v : V) (o : list (string * V)) :
  NoDup (map fst o) -> NoDup (map fst (Loop.own_set k v o)).
Proof.
  induction o as [ | [k0 v0] rest IH]; simpl; intro Hnd.
  - constructor; [intros [] | constructor].
  - inversion Hnd as [ | ? ? Hnotin Hrest]; subst.
    destruct (String.eqb k0 k) eqn:Hk; simpl.
    + apply String.eqb_eq in Hk. subst k0. now constructor.
    + constructor; [ | now apply IH].
      rewrite own_set_keys. intros [Heq | Hin]; [ | contradiction].
      subst k0. now rewrite String.eqb_refl in Hk.
Qed.

(** On properties without duplicate keys, writing [k] binds [k] to [v] and
    keeps the other bindings. *)
Lemma in_own_set {V : Type} (k : string) (v : V) (o : list (string * V)) (k' : string) (v' : V) :
  NoDup (map fst o) ->
  In (k', v') (Loop.own_set k v o) <-> (k' = k /\ v' = v) \/ (k' <> k /\ In (k', v') o).
Proof.
  induction o as [ | [k0 v0] rest IH]; simpl; intro Hnd.
  - split.
    + intros [H | []]. injection H as <- <-. now left.
    + intros [[-> ->] | [_ []]]. now left.
  - inversion Hnd as [ | ? ? Hnotin Hrest]; subst.
    destruct (String.eqb k0 k) eqn:Hk; simpl.
    + apply String.eqb_eq in Hk. subst k0. split.
      * intros [H | H].
        -- injection H as <- <-. now left.
        -- destruct (String.eqb k' k) eqn:Hk'.
           ++ apply String.eqb_eq in Hk'. subst k'. exfalso. apply Hnotin.
              apply in_map_iff. now exists (k, v').
           ++ apply String.eqb_neq in Hk'. right. split; [exact Hk' | now right].
      * intros [[-> ->] | [Hne [H | H]]].
        -- now left.
        -- injection H as H _. now contradiction Hne.
        -- now right.
    + apply String.eqb_neq in Hk. rewrite (IH Hrest). split.
      * intros [H | [[-> ->] | [Hne H]]].
        -- injection H as <- <-. right. split; [exact Hk | now left].
        -- now left.
        -- right. split; [exact Hne | now right].
      * intros [[-> ->] | [Hne [H | H]]].
        -- right. now left.
        -- now left.
        -- right. right. now split.
Qed.

(** [Object.entries] lists the own properties, each once. *)
Lemma filter_partition {A : Type} (p : A -> bool) (l : list A) :
  Permutation (filter p l ++ filter (fun a => negb (p a)) l) l.
Proof.
  induction l as [ | a rest IH]; simpl; [constructor | ].
  destruct (p a); simpl.
  - now constructor.
  - apply Permutation_sym, Permutation_cons_app, Permutation_sym, IH.
Qed.

Lemma entries_perm (o : Loop.Obj) : Permutation (Loop.entries o) (Loop.own o).
Proof.
  unfold Loop.entries.
  apply perm_trans with (filter Loop.is_index (Loop.own o)
                         ++ filter (fun entry => negb (Loop.is_index entry)) (Loop.own o)).
  - apply Permutation_app_tail. apply OrderBy.order_by_perm.
  - apply filter_partition.
Qed.

Lemma in_entries (o : Loop.Obj) (entry : string * option string) :
  In entry (Loop.entries o) <-> In entry (Loop.own o).
Proof.
  split; apply Permutation_in; [ | apply Permutation_sym]; apply entries_perm.
Qed.

(** After the loop no key occurs twice, [__proto__] is an own key only once
    the prototype has been removed, and each own key is bound to the output
    of the last row of that type. *)
Lemma record_outputs (rows : list Subtask) :
  let context := fold_left record_output rows Loop.empty_obj in
  NoDup (map fst (Loop.own context))
  /\ (Loop.proto context = true -> ~ In "__proto__" (map fst (Loop.own context)))
  /\ forall ty out, In (ty, out) (Loop.own context) ->
       exists before r after,
         rows = before ++ r :: after /\ st_agent_type r = ty /\ st_output r = out
         /\ forall r', In r' after -> st_agent_type r' <> ty.
Proof.
  induction rows as [ | x l IH] using rev_ind; simpl.
  - split; [constructor | ]. split; [intros _ [] | ]. intros ty out [].
  - rewrite fold_left_app. simpl. destruct IH as [Hnd [Hproto IH]].
    set (o := fold_left record_output l Loop.empty_obj) in *.
    assert (Hkeep : forall ty out, In (ty, out) (Loop.own o) -> st_agent_type x <> ty ->
              exists before r after,
                l ++ [x] = before ++ r :: after /\ st_agent_type r = ty /\ st_output r = out
                /\ forall r', In r' after -> st_agent_type r' <> ty).
    { intros ty out Hin Hne. apply IH in Hin.
      destruct Hin as [before [r [after [-> [Hty [Hout Hafter]]]]]].
      exists before, r, (after ++ [x]). rewrite <- app_assoc. repeat split; auto.
      intros r' Hr'. apply in_app_iff in Hr'. destruct Hr' as [Hr' | [<- | []]]; auto. }
    assert (Hwrite : NoDup (map fst (Loop.own_set (st_agent_type x) (st_output x) (Loop.own o)))
              /\ forall ty out,
                   In (ty, out) (Loop.own_set (st_agent_type x) (st_output x) (Loop.own o)) ->
                   exists before r after,
                     l ++ [x] = before ++ r :: after /\ st_agent_type r = ty
                     /\ st_output r = out /\ forall r', In r' after -> st_agent_type r' <> ty).
    { split; [now apply own_set_nodup | ]. intros ty out Hin.
      apply (in_own_set _ _ _ _ _ Hnd) in Hin. destruct Hin as [[-> ->] | [Hne Hin]].
      - exists l, x, []. repeat split. intros r' [].
      - apply Hkeep; [exact Hin | ]. intro Heq. apply Hne. now symmetry. }
    assert (Hwritten : record_output o x
                       = Loop.mkObj (Loop.own_set (st_agent_type x) (st_output x) (Loop.own o))
                           (Loop.proto o) ->
              NoDup (map fst (Loop.own (record_output o x)))
              /\ (Loop.proto (record_output o x) = true ->
                    st_agent_type x <> "__proto__" ->
                    ~ In "__proto__" (map fst (Loop.own (record_output o x))))
              /\ forall ty out, In (ty, out) (Loop.own (record_output o x)) ->
                   exists before r after,
                     l ++ [x] = before ++ r :: after /\ st_agent_type r = ty
                     /\ st_output r = out /\ forall r', In r' after -> st_agent_type r' <> ty).
    { intros ->. simpl. destruct Hwrite as [Hnd' Hin']. split; [exact Hnd' | ].
      split; [ | exact Hin']. intros Hp Hne Hin. apply own_set_keys in Hin.
      destruct Hin as [Heq | Hin]; [now apply Hne | now apply (Hproto Hp)]. }
    destruct (String.eqb (st_agent_type x) "__proto__") eqn:Hkey.
    + destruct (Loop.proto o) eqn:Hp.
      * assert (Hsame : forall ty out, In (ty, out) (Loop.own o) ->
                  exists before r after,
                    l ++ [x] = before ++ r :: after /\ st_agent_type r = ty
                    /\ st_output r = out /\ forall r', In r' after -> st_agent_type r' <> ty).
        { intros ty out Hin. apply Hkeep; [exact Hin | ].
          apply String.eqb_eq in Hkey. rewrite Hkey. intros <-. apply (Hproto eq_refl).
          apply in_map_iff. now exists ("__proto__", out). }
        destruct (st_output x) as [text | ] eqn:Hout.
        -- assert (Hstep : record_output o x = o).
           { unfold record_output, Loop.obj_set. now rewrite Hkey, Hp, Hout. }
           rewrite Hstep. split; [exact Hnd | ]. split; [ | exact Hsame].
           intros _. now apply Hproto.
        -- assert (Hstep : record_output o x = Loop.mkObj (Loop.own o) false).
           { unfold record_output, Loop.obj_set. now rewrite Hkey, Hp, Hout. }
           rewrite Hstep. simpl. split; [exact Hnd | ]. split; [discriminate | exact Hsame].
      * assert (Hstep : record_output o x
                        = Loop.mkObj (Loop.own_set (st_agent_type x) (st_output x) (Loop.own o))
                            false).
        { unfold record_output, Loop.obj_set. now rewrite Hkey, Hp. }
        destruct (Hwritten Hstep) as [H1 [_ H3]]. split; [exact H1 | ]. split; [ | exact H3].
        rewrite Hstep. simpl. discriminate.
    + assert (Hstep : record_output o x
                      = Loop.mkObj (Loop.own_set (st_agent_type x) (st_output x) (Loop.own o))
                          (Loop.proto o)).
      { unfold record_output, Loop.obj_set. now rewrite Hkey. }
      destruct (Hwritten Hstep) as [H1 [H2 H3]]. split; [exact H1 | ]. split; [ | exact H3].
      intro Hp. apply (H2 Hp). now apply String.eqb_neq.
Qed.

(** Every row of a type other than [__proto__] leaves its type as a key. *)
Lemma record_outputs_keys (rows : list Subtask) (s : Subtask) :
  In s rows -> st_agent_type s <> "__proto__" ->
  In (st_agent_type s) (map fst (Loop.own (fold_left record_output rows Loop.empty_obj))).
Proof.
  induction rows as [ | x l IH] using rev_ind; intros Hs Hty; [contradiction | ].
  rewrite fold_left_app. simpl. unfold record_output at 1. unfold Loop.obj_set.
  apply in_app_iff in Hs.
  destruct (String.eqb (st_agent_type x) "__proto__") eqn:Hkey; simpl.
  - apply String.eqb_eq in Hkey.
    assert (Hl : In s l).
    { destruct Hs as [Hs | [<- | []]]; [exact Hs | contradiction]. }
    pose proof (IH Hl Hty) as Hin.
    destruct (Loop.proto (fold_left record_output l Loop.empty_obj)); simpl.
    + destruct (st_output x); exact Hin.
    + apply own_set_keys. now right.
  - apply own_set_keys. destruct Hs as [Hs | [<- | []]]; [right; now apply IH | now left].
Qed.

Lemma sorted_before {A : Type} (R : A -> A -> Prop) (before after : list A) (r : A) :
  StronglySorted R (before ++ r :: after) -> forall x, In x before -> R x r.
Proof.
  induction before as [ | b rest IH]; simpl; intros Hs x Hx; [contradiction | ].
  inversion Hs as [ | ? ? Hrest Hall]; subst. destruct Hx as [<- | Hx].
  - rewrite Forall_forall in Hall. apply Hall. apply in_app_iff. right. now left.
  - now apply IH.
Qed.

(** The rows that the query of [buildContext] returns. *)
Definition selected (taskId : nat) (beforeSequence : Z) (w : World) : list Subtask :=
  order_by st_sequence
    (filter (fun s =>
       Nat.eqb (st_task_id s) taskId
       && (st_sequence s <? beforeSequence)%Z
       && subtask_status_eqb (st_status s) SUB_COMPLETED) (subtasks w)).

Lemma in_selected (taskId : nat) (beforeSequence : Z) (w : World) (s : Subtask) :
  In s (selected taskId beforeSequence w)
  <-> In s (subtasks w) /\ earlier_completed taskId beforeSequence s.
Proof.
  unfold selected, earlier_completed. rewrite OrderBy.in_order_by, filter_In.
  rewrite !andb_true_iff, Nat.eqb_eq, Z.ltb_lt, Lifecycle.subtask_status_eqb_eq. tauto.
Qed.

Lemma buildContext_selected (taskId : nat) (beforeSequence : Z) (w : World) :
  Loop.buildContext taskId beforeSequence w
  = (w, inr (fold_left record_output (selected taskId beforeSequence w) Loop.empty_obj)).
Proof. reflexivity. Qed.

(** The "Previous work" lines cannot be written when an output is NULL. *)
Lemma previous_work_null (entries : list (string * option string)) (ty : string) (w : World) :
  In (ty, None) entries ->
  exists msg, Loop.previous_work entries w = (w, inl (JS.TypeError msg)).
Proof.
  induction entries as [ | [agent output] rest IH]; simpl; intro Hin; [contradiction | ].
  destruct output as [text | ].
  - destruct Hin as [H | Hin]; [discriminate | ].
    destruct (IH Hin) as [msg Hmsg]. exists msg.
    unfold bind at 1. simpl. unfold bind at 1. now rewrite Hmsg.
  - eexists. reflexivity.
Qed.

Lemma previous_work_text (entries : list (string * option string)) (w : World) :
  (forall ty out, In (ty, out) entries -> out <> None) ->
  exists text, Loop.previous_work entries w = (w, inr text).
Proof.
  induction entries as [ | [agent output] rest IH]; simpl; intro Hall.
  - now exists "".
  - destruct output as [text | ].
    + destruct IH as [more Hmore]; [intros ty out Hin; apply (Hall ty); now right | ].
      eexists. unfold bind at 1. simpl. unfold bind at 1. rewrite Hmore. reflexivity.
    + exfalso. apply (Hall agent None); [now left | reflexivity].
Qed.

(** The world when [executeSubtask] reaches [buildContext]: the subtask is
    [in_progress], the agent [working], and the status change is published. *)
Definition started (subtask : Subtask) (agent : Agent) (w : World) : World :=
  exec
    (bind (modify (set_subtasks (update_where
             (fun s => Nat.eqb (subtask_id s) (subtask_id subtask))
             (Loop.started_row (now w)))))
       (fun _ => bind (modify (set_agents (update_where
             (fun a => Nat.eqb (agent_id a) (agent_id agent))
             (fun a => mkAgent (agent_id a) (agent_type a) (current_hub a) (target_hub a)
                         State.WORKING (Some (JS.slice0 50 (st_description subtask)))
                         (position_x a) (position_y a) (position_z a)))))
       (fun _ => emit (agent_status_changed (agent_type agent) State.WORKING
                         (Some (JS.slice0 50 (st_description subtask))))))) w.

Lemma executeSubtask_begin_started (subtask : Subtask) (agent : Agent) (w : World) :
  first_where (fun a => Nat.eqb (agent_id a) (st_agent_id subtask)) (agents w) = Some agent ->
  Loop.executeSubtask_begin subtask w
  = bind (Loop.buildPrompt subtask
            (fold_left record_output
               (selected (st_task_id subtask) (st_sequence subtask) (started subtask agent w))
               Loop.empty_obj))
      (fun prompt =>
         bind (emit (Loop.startingSpeech (agent_type agent)))
           (fun _ => ret (agent, prompt)))
      (started subtask agent w).
Proof.
  intro Hagent. unfold Loop.executeSubtask_begin, Loop.getAgent.
  unfold bind at 1. unfold read at 1. cbn beta iota. rewrite Hagent.
  reflexivity.
Qed.

(** The designer's subtask of task 10 completed without an output, the
    coder's subtask ready. *)
Definition null_output : World :=
  mkWorld Scenario.seed_hubs [Cases.designer; Cases.coder]
    [Scenario.a_task 10 TASK_IN_PROGRESS]
    [ Scenario.a_subtask 20 10 2 "designer" "design_studio" 0 SUB_COMPLETED;
      Cases.coder_subtask ]
    [] [] [] true [] [] 0%Z 100 0.

End Context.

(** [buildContext(taskId, beforeSequence)] returns an object in which no key
    occurs twice.  The type of every completed subtask of the task with a
    lower sequence index is a key, unless the type is [__proto__]; and every
    key is bound to the output of such a subtask of that type with the
    highest sequence index: an earlier subtask of the same type does not
    reach the prompt. *)
Theorem buildContext_keeps_latest_output_per_agent_type
    (taskId : nat) (beforeSequence : Z) (w : Db.World) :
  exists context,
    Loop.buildContext taskId beforeSequence w = (w, inr context)
    /\ NoDup (map fst (Loop.entries context))
    /\ (forall s, In s (Db.subtasks w) -> Context.earlier_completed taskId beforeSequence s ->
          Db.st_agent_type s <> "__proto__" ->
          In (Db.st_agent_type s) (map fst (Loop.entries context)))
    /\ (forall ty out, In (ty, out) (Loop.entries context) ->
          exists r, In r (Db.subtasks w) /\ Context.earlier_completed taskId beforeSequence r
                    /\ Db.st_agent_type r = ty /\ Db.st_output r = out
                    /\ forall s, In s (Db.subtasks w) ->
                         Context.earlier_completed taskId beforeSequence s ->
                         Db.st_agent_type s = ty ->
                         (Db.st_sequence s <= Db.st_sequence r)%Z).
Proof.
  exists (fold_left Context.record_output (Context.selected taskId beforeSequence w)
            Loop.empty_obj).
  destruct (Context.record_outputs (Context.selected taskId beforeSequence w))
    as [Hnd [_ Hin]].
  split; [reflexivity | ]. split; [ | split].
  - apply (Permutation_NoDup
             (Permutation_sym (Permutation_map fst (Context.entries_perm _)))). exact Hnd.
  - intros s Hs Hq Hty.
    apply (Permutation_in _ (Permutation_sym (Permutation_map fst (Context.entries_perm _)))).
    apply Context.record_outputs_keys; [ | exact Hty].
    apply Context.in_selected. now split.
  - intros ty out Hentry. apply Context.in_entries in Hentry. apply Hin in Hentry.
    destruct Hentry as [before [r [after [Heq [Hty [Hout Hafter]]]]]].
    assert (Hr : In r (Context.selected taskId beforeSequence w)).
    { rewrite Heq. apply in_app_iff. right. now left. }
    apply Context.in_selected in Hr. destruct Hr as [Hr Hq].
    exists r. repeat split; try assumption; try apply Hq.
    intros s Hs Hqs Htys.
    assert (Hsel : In s (Context.selected taskId beforeSequence w))
      by (apply Context.in_selected; now split).
    rewrite Heq in Hsel. apply in_app_iff in Hsel. destruct Hsel as [Hb | [<- | Ha]].
    + apply (Context.sorted_before (OrderBy.key_le Db.st_sequence) before after r); [ | exact Hb].
      rewrite <- Heq. apply OrderBy.order_by_sorted.
    + apply Z.le_refl.
    + exfalso. now apply (Hafter s).
Qed.

(** A completed subtask whose output is NULL stops every later subtask of
    its task: when the completed earlier subtasks of some agent type, other
    than [__proto__], all have a NULL output, [buildPrompt] throws a
    TypeError on [output.slice].  This happens outside the [try] of
    [executeSubtask]: the call throws, no reasoning call is made, and the
    subtask stays [in_progress] and the agent [working]. *)
Theorem null_output_stops_later_subtask
    (env : Env.Runtime) (subtask : Db.Subtask) (agent : Db.Agent) (r0 : Db.Subtask)
    (w : Db.World) :
  Db.first_where (fun a => Nat.eqb (Db.agent_id a) (Db.st_agent_id subtask)) (Db.agents w)
    = Some agent ->
  In r0 (Db.subtasks w) -> Db.subtask_id r0 <> Db.subtask_id subtask ->
  Context.earlier_completed (Db.st_task_id subtask) (Db.st_sequence subtask) r0 ->
  Db.st_agent_type r0 <> "__proto__" ->
  (forall r, In r (Db.subtasks w) ->
     Context.earlier_completed (Db.st_task_id subtask) (Db.st_sequence subtask) r ->
     Db.st_agent_type r = Db.st_agent_type r0 -> Db.st_output r = None) ->
  let w' := Effects.exec (Loop.executeSubtask env subtask) w in
  (exists msg, Effects.outcome (Loop.executeSubtask env subtask) w = inl (JS.TypeError msg))
  /\ Db.calls w' = Db.calls w
  /\ (forall r, In r (Db.subtasks w) -> Db.subtask_id r = Db.subtask_id subtask ->
        In (Loop.started_row (Db.now w) r) (Db.subtasks w'))
  /\ (forall a, In a (Db.agents w') -> Db.agent_id a = Db.agent_id agent ->
        Db.agent_status a = State.WORKING).
Proof.
  intros Hagent Hr0 Hother Hq0 Hordinary Hnull w'. subst w'.
  set (w1 := Context.started subtask agent w).
  set (context := fold_left Context.record_output
                    (Context.selected (Db.st_task_id subtask) (Db.st_sequence subtask) w1)
                    Loop.empty_obj).
  assert (Hsub1 : Db.subtasks w1
                  = Db.update_where (fun s => Nat.eqb (Db.subtask_id s) (Db.subtask_id subtask))
                      (Loop.started_row (Db.now w)) (Db.subtasks w)) by reflexivity.
  assert (Hsel0 : In r0 (Context.selected (Db.st_task_id subtask) (Db.st_sequence subtask) w1)).
  { apply Context.in_selected. split; [ | exact Hq0]. rewrite Hsub1.
    apply Delivery.in_update_where_kept; [exact Hr0 | ]. now apply Nat.eqb_neq. }
  assert (Hentry : In (Db.st_agent_type r0, None) (Loop.entries context)).
  { apply Context.in_entries.
    pose proof (Context.record_outputs_keys _ _ Hsel0 Hordinary) as Hkey. fold context in Hkey.
    apply in_map_iff in Hkey. destruct Hkey as [[ty out] [Hty Hin]]. simpl in Hty. subst ty.
    replace out with (@None string) in Hin; [exact Hin | ].
    apply (proj2 (proj2 (Context.record_outputs _))) in Hin.
    destruct Hin as [before [r [after [Heq [Hty [Hout _]]]]]].
    assert (Hr : In r (Context.selected (Db.st_task_id subtask) (Db.st_sequence subtask) w1)).
    { rewrite Heq. apply in_app_iff. right. now left. }
    apply Context.in_selected in Hr. destruct Hr as [Hr Hq]. rewrite Hsub1 in Hr.
    apply Frame.in_update_where in Hr. destruct Hr as [r' [Hr' Hrr]].
    destruct (Nat.eqb (Db.subtask_id r') (Db.subtask_id subtask)).
    - subst r. destruct Hq as [_ [_ Hstatus]]. discriminate Hstatus.
    - subst r'. rewrite <- Hout. symmetry. now apply Hnull. }
  assert (Hthrow : exists msg, Loop.buildPrompt subtask context w1 = (w1, inl (JS.TypeError msg))).
  { unfold Loop.buildPrompt.
    destruct (Loop.entries context) as [ | entry rest] eqn:Hctx; [contradiction | ].
    cbn [List.length Nat.ltb Nat.leb]. rewrite <- Hctx in *.
    destruct (Context.previous_work_null (Loop.entries context) _ w1 Hentry) as [msg Hmsg].
    exists msg. unfold Effects.bind at 1 2. now rewrite Hmsg. }
  destruct Hthrow as [msg Hmsg].
  assert (Hrun : Loop.executeSubtask env subtask w = (w1, inl (JS.TypeError msg))).
  { unfold Loop.executeSubtask.
    rewrite (bind_run _ _ w w1 (inl (JS.TypeError msg))); [reflexivity | ].
    rewrite (Context.executeSubtask_begin_started subtask agent w Hagent).
    fold w1. fold context. now rewrite (bind_run _ _ w1 w1 (inl (JS.TypeError msg)) Hmsg). }
  unfold Effects.outcome, Effects.exec. rewrite Hrun. simpl.
  split; [now exists msg | ]. split; [reflexivity | ]. split.
  - intros r Hr Hid. apply Frame.in_update_where. exists r. split; [exact Hr | ].
    now rewrite (proj2 (Nat.eqb_eq _ _) Hid).
  - intros a Ha Hid. apply Frame.in_update_where in Ha. destruct Ha as [a0 [_ Ha]].
    destruct (Nat.eqb (Db.agent_id a0) (Db.agent_id agent)) eqn:Hk; subst a.
    + reflexivity.
    + apply Nat.eqb_neq in Hk. contradiction.
Qed.

Lemma null_output_stops_later_subtask_witness :
  exists msg,
    Effects.outcome (Loop.executeSubtask Scenario.env_prose Cases.coder_subtask)
      Context.null_output
    = inl (JS.TypeError msg).
Proof.
  apply (null_output_stops_later_subtask Scenario.env_prose Cases.coder_subtask Cases.coder
           (Scenario.a_subtask 20 10 2 "designer" "design_studio" 0 Db.SUB_COMPLETED)
           Context.null_output).
  - reflexivity.
  - left. reflexivity.
  - discriminate.
  - repeat split.
  - discriminate.
  - intros r [<- | [<- | []]] _ Hty; [reflexivity | discriminate Hty].
Defined.

(* ================================================================== *)
(** * A request for help that cannot be recorded *)
(* ================================================================== *)

Module Help.

Import Db Effects Frame Hoare.

(** Without a topic the [INSERT] of [requestAgentHelp] is rejected
    ([content] is [NOT NULL]), unless reading [toAgent.id] has thrown
    before; either way nothing has been written. *)
Lemma requestAgentHelp_without_topic (env : Env.Runtime) (fromAgent : Agent)
    (toAgentType : JS.JSValue) (topic : option JS.JSValue) (taskId : nat) (w : World) :
  Loop.pg_param env topic = None ->
  exists e, Loop.requestAgentHelp env fromAgent toAgentType topic taskId w = (w, inl e).
Proof.
  intro Htopic. unfold Loop.requestAgentHelp, Loop.getAgentByType.
  unfold bind at 1. unfold read at 1. cbn beta iota.
  destruct (first_where _ (agents w)) as [toAgent | ]; [ | eexists; reflexivity].
  rewrite Htopic. eexists. reflexivity.
Qed.

(** On an object the bubbles only publish events. *)
Lemma emitBubbles_object (agent : Agent) (fs : list (string * JS.JSValue)) (w : World) :
  exists l, Loop.emitBubbles agent (JS.JObj fs) w = (set_events (fun ev => ev ++ l) w, inr tt).
Proof.
  unfold Loop.emitBubbles, Loop.prop, bind, settle, ret, when, emit, modify. simpl.
  assert (Hnil : forall w0 : World, w0 = set_events (fun ev => ev ++ []) w0).
  { intros [ ]. unfold set_events. simpl. now rewrite app_nil_r. }
  assert (Hone : forall (a b : Event) (w0 : World),
            set_events (fun ev => ev ++ [b]) (set_events (fun ev => ev ++ [a]) w0)
            = set_events (fun ev => ev ++ [a; b]) w0).
  { intros a b [ ]. unfold set_events. simpl. now rewrite <- app_assoc. }
  destruct (JS.lookup_field "thinking" fs) as [thinking | ];
    [destruct (JS.truthy thinking) | ];
    (destruct (JS.lookup_field "saying" fs) as [saying | ];
      [destruct (JS.truthy saying) | ]); simpl;
    first [ exists []; f_equal; apply Hnil
          | eexists; f_equal; apply Hone
          | eexists; reflexivity ].
Qed.

(** [parsed.output || response] is never stored as NULL. *)
Lemma saved_output_not_null (env : Env.Runtime) (output : option JS.JSValue) (response : string) :
  Loop.pg_param env (Some (JS.or_else output (JS.JStr response))) <> None.
Proof.
  unfold JS.or_else. destruct output as [x | ]; [ | discriminate].
  destruct (JS.truthy x) eqn:Hx; [ | discriminate].
  destruct x; simpl in *; discriminate.
Qed.

Lemma update_where_twice {A : Type} (p : A -> bool) (g h : A -> A) (rows : list A) :
  (forall r, p (g r) = p r) ->
  update_where p h (update_where p g rows) = update_where p (fun r => h (g r)) rows.
Proof.
  intro Hp. unfold update_where. rewrite map_map. apply map_ext. intro r.
  destruct (p r) eqn:Hr; [now rewrite Hp, Hr | now rewrite Hr].
Qed.

(** The part from the [try] on, when a statement after the call throws. *)
Lemma finish_after_body_throw (env : Env.Runtime) (subtask : Subtask) (agent : Agent)
    (response : string) (w wb : World) (e : JS.Exn) :
  Loop.handleResponse env subtask agent response w = (wb, inl e) ->
  Loop.executeSubtask_finish env subtask agent (inr response) w
  = (exec (bind (Loop.handleFailure subtask agent)
             (fun _ => bind (modify (set_agents (update_where
                                (fun a => Nat.eqb (agent_id a) (agent_id agent))
                                Loop.idle_agent)))
             (fun _ => emit (agent_status_changed (agent_type agent) State.IDLE None)))) wb,
     inr tt).
Proof.
  intro Hbody. unfold Loop.executeSubtask_finish, try_catch, bind, settle, ret, exec.
  rewrite Hbody. reflexivity.
Qed.

(** The reply of the scenario: an object that names a helper and no topic. *)
Definition help_reply : string :=
  ("{" ++ Loop.dquote ++ "needsHelp" ++ Loop.dquote ++ ": "
       ++ Loop.dquote ++ "reviewer" ++ Loop.dquote ++ "}")%string.

Definition env_help : Env.Runtime :=
  Env.mkRuntime
    (fun text => if String.eqb text help_reply
                 then Some (JS.JObj [("needsHelp", JS.JStr "reviewer")]) else None)
    (fun _ => PrimFloat.nan) (fun _ => "") (fun _ _ _ => inr help_reply)
    (fun _ _ _ => None) (fun _ => "task") "http://localhost:3000/preview".

End Help.

(** A reply that asks for help ([needsHelp] truthy) without a usable topic
    ([helpTopic] missing or null) fails the subtask after its output has been
    saved: "Save output" marks the subtask [completed] with the output and
    the completion time, then [requestAgentHelp] throws inside the same
    [try], and the [catch] sets the status to [failed].  The subtask ends
    [failed] with an output and a completion time; no message is recorded and
    no task is touched. *)
Theorem help_without_topic_fails_saved_subtask
    (env : Env.Runtime) (subtask : Db.Subtask) (agent : Db.Agent) (response : string)
    (fs : list (string * JS.JSValue)) (target : JS.JSValue) (w : Db.World) :
  Env.JSON_parse env response = Some (JS.JObj fs) ->
  JS.lookup_field "needsHelp" fs = Some target -> JS.truthy target = true ->
  Loop.pg_param env (JS.lookup_field "helpTopic" fs) = None ->
  let output :=
    Loop.pg_param env (Some (JS.or_else (JS.lookup_field "output" fs) (JS.JStr response))) in
  let w' := Effects.exec (Loop.executeSubtask_finish env subtask agent (inr response)) w in
  output <> None
  /\ Db.subtasks w'
     = Db.update_where (fun s => Nat.eqb (Db.subtask_id s) (Db.subtask_id subtask))
         (fun s => Loop.failed_row (Loop.completed_row output (Db.now w) s)) (Db.subtasks w)
  /\ Db.messages w' = Db.messages w
  /\ Db.tasks w' = Db.tasks w.
Proof.
  intros Hparse Hneeds Htruthy Htopic output w'. subst w'.
  split; [apply Help.saved_output_not_null | ].
  destruct (Help.emitBubbles_object agent fs w) as [l Hbubbles].
  set (wa := Db.set_events (fun ev => ev ++ l) w) in *.
  set (wb := Db.set_subtasks
               (Db.update_where (fun s => Nat.eqb (Db.subtask_id s) (Db.subtask_id subtask))
                  (Loop.completed_row output (Db.now w))) wa).
  assert (Hsave : Loop.saveOutput env subtask (JS.JObj fs) response wa = (wb, inr tt))
    by reflexivity.
  assert (Hhelp : exists e, Loop.handleHelp env subtask agent (JS.JObj fs) wb = (wb, inl e)).
  { unfold Loop.handleHelp, Loop.prop. unfold Effects.bind at 1. simpl. rewrite Hneeds, Htruthy.
    unfold Effects.bind at 1. simpl.
    apply Help.requestAgentHelp_without_topic. exact Htopic. }
  assert (Hfiles : exists r, Loop.handleFiles env subtask agent (JS.JObj fs) wb = (wb, r)).
  { unfold Loop.handleFiles, Loop.prop. unfold Effects.bind at 1. simpl.
    destruct (JS.lookup_field "files" fs) as [files | ]; [ | eexists; reflexivity].
    destruct (JS.truthy files); [ | eexists; reflexivity].
    unfold Effects.bind at 1.
    destruct (Loop.length_positive env files) as [e | [ | ]]; simpl;
      try (eexists; reflexivity).
    destruct (Env.saveTaskFiles env _ _ _); eexists; reflexivity. }
  assert (Hbody : exists e, Loop.handleResponse env subtask agent response w = (wb, inl e)).
  { unfold Loop.handleResponse, Loop.parseAgentResponse. rewrite Hparse.
    rewrite (bind_run _ _ w wa (inr tt) Hbubbles).
    rewrite (bind_run _ _ wa wb (inr tt) Hsave).
    destruct Hfiles as [r Hfiles]. rewrite (bind_run _ _ wb wb r Hfiles).
    destruct r as [e | []]; [now exists e | ].
    destruct Hhelp as [e Hhelp]. rewrite (bind_run _ _ wb wb (inl e) Hhelp). now exists e. }
  destruct Hbody as [e Hbody].
  unfold Effects.exec.
  rewrite (Help.finish_after_body_throw env subtask agent response w wb e Hbody).
  simpl. split; [ | split; reflexivity].
  apply Help.update_where_twice. reflexivity.
Qed.

Lemma help_without_topic_fails_saved_subtask_witness :
  map (fun s => (Db.st_status s, Db.st_output s, Db.st_completed_at s))
    (Db.subtasks (Effects.exec (Loop.executeSubtask_finish Help.env_help Cases.coder_subtask
                                  Cases.coder (inr Help.help_reply)) Replies.coder_alone))
  = [(Db.SUB_FAILED, Some Help.help_reply, Some 0%Z)].
Proof.
  rewrite (proj1 (proj2 (help_without_topic_fails_saved_subtask Help.env_help
             Cases.coder_subtask Cases.coder Help.help_reply
             [("needsHelp", JS.JStr "reviewer")] (JS.JStr "reviewer") Replies.coder_alone
             eq_refl eq_refl eq_refl eq_refl))).
  reflexivity.
Defined.

(* ================================================================== *)
(** * A message whose answer cannot be produced *)
(* ================================================================== *)

Module Undelivered.

Import Db Effects Frame Hoare.

Definition messages_and_events (w : World) : list Message * list Event :=
  (messages w, events w).

(** [deliverMessage] from "Mark as read" on, in the world that statement
    leaves. *)
Lemma deliverMessage_marked (env : Env.Runtime) (row : Message * string * string) (w : World) :
  exists answer : string -> M unit,
    Loop.deliverMessage env row w
    = bind (Claude.callAgent env (snd row)
              (Loop.nl ++ "        " ++ snd (fst row) ++ " said: " ++ Loop.dquote
               ++ msg_content (fst (fst row)) ++ Loop.dquote ++ Loop.nl
               ++ "        Respond briefly and helpfully." ++ Loop.nl ++ "      ")%string)
        answer
        (set_messages (update_where
           (fun m => Nat.eqb (message_id m) (message_id (fst (fst row))))
           (Loop.read_row (now w))) w)
    /\ forall response w2,
         match answer response w2 with
         | (w3, inl _) => w3 = w2
         | (_, inr _) => True
         end.
Proof.
  eexists. split; [reflexivity | ].
  intros response w2. cbn beta. unfold Loop.prop, bind, settle.
  destruct (JS.get_prop (Loop.parseAgentResponse env response) "saying"); reflexivity.
Qed.

(** A designer and a reviewer at the town square, one unread message, and a
    reasoning service that is down. *)
Definition waiting : World :=
  mkWorld Scenario.seed_hubs
    [ Scenario.agent_at 2 "designer" "town_square" 0 0;
      Scenario.agent_at 4 "reviewer" "town_square" 0 0 ]
    [ Scenario.a_task 10 TASK_IN_PROGRESS ] []
    [ mkMessage 50 10 2 4 "designer" (Some "reviewer") "which palette?"
        (Some "town_square") None 0%Z ]
    [] [] true [] [] 7%Z 100 0.

(** The row that the query of [processMessages()] returns in [waiting]. *)
Definition waiting_row : Message * string * string :=
  (mkMessage 50 10 2 4 "designer" (Some "reviewer") "which palette?"
     (Some "town_square") None 0%Z, "designer", "reviewer").

End Undelivered.

(** A message is marked read before its answer is requested, and nothing
    undoes the mark: when delivering a message throws (the recipient's type
    has no configuration, the reasoning call fails, or the reply parses to
    [null]), the message is read, no answer has been published, and no later
    pass selects the message again. *)
Theorem failed_answer_leaves_message_read
    (env : Env.Runtime) (row : Db.Message * string * string) (e : JS.Exn) (w : Db.World) :
  Effects.outcome (Loop.deliverMessage env row) w = inl e ->
  let w' := Effects.exec (Loop.deliverMessage env row) w in
  Db.messages w'
    = Db.update_where (fun m => Nat.eqb (Db.message_id m) (Db.message_id (fst (fst row))))
        (Loop.read_row (Db.now w)) (Db.messages w)
  /\ Db.events w' = Db.events w
  /\ (forall row', In row' (Loop.ready_messages w') ->
        Db.message_id (fst (fst row')) <> Db.message_id (fst (fst row))).
Proof.
  intros Hthrow w'.
  assert (Hstate : Undelivered.messages_and_events w'
                   = (Db.update_where
                        (fun m => Nat.eqb (Db.message_id m) (Db.message_id (fst (fst row))))
                        (Loop.read_row (Db.now w)) (Db.messages w),
                      Db.events w)).
  { subst w'. unfold Effects.outcome, Effects.exec in *.
    destruct (Undelivered.deliverMessage_marked env row w) as [answer [Hrun Hanswer]].
    rewrite Hrun in *. set (w1 := Db.set_messages _ w) in *.
    pose proof (LoopFrame.callAgent_keeps Undelivered.messages_and_events env (snd row)
                  (Loop.nl ++ "        " ++ snd (fst row) ++ " said: " ++ Loop.dquote
                   ++ Db.msg_content (fst (fst row)) ++ Loop.dquote ++ Loop.nl
                   ++ "        Respond briefly and helpfully." ++ Loop.nl ++ "      ")%string
                  ltac:(intros ?; reflexivity) w1) as Hcall.
    unfold Effects.bind in *.
    destruct (Claude.callAgent env _ _ w1) as [w2 [e2 | response]]; simpl in *.
    - exact Hcall.
    - specialize (Hanswer response w2).
      destruct (answer response w2) as [w3 [e3 | []]]; simpl in *; [ | discriminate].
      subst w3. exact Hcall. }
  injection Hstate as Hmessages Hevents.
  split; [exact Hmessages | ]. split; [exact Hevents | ].
  intros row' Hready Hid.
  destruct (Delivery.ready_message_selected w' row' Hready) as [Hin [Hunread _]].
  rewrite Hmessages in Hin. apply Frame.in_update_where in Hin.
  destruct Hin as [m [_ Hm]].
  destruct (Nat.eqb (Db.message_id m) (Db.message_id (fst (fst row)))) eqn:Hk.
  - rewrite Hm in Hunread. discriminate Hunread.
  - apply Nat.eqb_neq in Hk. apply Hk. now rewrite <- Hm.
Qed.

Lemma failed_answer_leaves_message_read_witness :
  Loop.ready_messages Undelivered.waiting = [Undelivered.waiting_row]
  /\ forall row',
       In row' (Loop.ready_messages
                  (Effects.exec (Loop.deliverMessage Scenario.env_down Undelivered.waiting_row)
                     Undelivered.waiting)) ->
       Db.message_id (fst (fst row')) <> 50.
Proof.
  split; [reflexivity | ].
  apply (failed_answer_leaves_message_read Scenario.env_down Undelivered.waiting_row
           (JS.Error "overloaded") Undelivered.waiting).
  reflexivity.
Defined.

(* ================================================================== *)
(** * Sending agents to a hub *)
(* ================================================================== *)

Module Travel.

Import Db Effects Frame Hoare.

(** The row that the [UPDATE] of [assignAgentToHub] writes: the target hub
    and the status [traveling]. *)
Definition sent_to (hubId : string) (a : Agent) : Agent :=
  mkAgent (agent_id a) (agent_type a) (current_hub a) (Some hubId) State.TRAVELING
    (agent_doing a) (position_x a) (position_y a) (position_z a).

(** What the celebration does to a row: nothing at the town square, else the
    way there. *)
Definition celebrating (a : Agent) : Agent :=
  if sql_eq (current_hub a) (Some "town_square") then a else sent_to "town_square" a.

(** The rows that the query of [updateAgentPositions()] returns. *)
Definition moving (w : World) : list Agent :=
  filter (fun a =>
    match target_hub a with Some _ => true | None => false end
    && State.status_eqb (agent_status a) State.TRAVELING) (agents w).

Lemma first_where_key (rows : list Agent) (a : Agent) :
  NoDup (map agent_id rows) -> In a rows ->
  first_where (fun x => Nat.eqb (agent_id x) (agent_id a)) rows = Some a.
Proof.
  intros Hnd Hin. unfold first_where.
  destruct (Invariant.find_in_some (fun x => Nat.eqb (agent_id x) (agent_id a)) rows a Hin)
    as [a' Hfind]; [apply Nat.eqb_refl | ].
  rewrite Hfind. f_equal. destruct (find_some _ _ Hfind) as [Hin' Hid].
  apply Nat.eqb_eq in Hid.
  apply (Delivery.key_determines_row agent_id rows); assumption.
Qed.

(** [assignAgentToHub], case by case, once the agent's row is known. *)
Lemma assignAgentToHub_found (agentId : nat) (hubId : string) (agent : Agent) (w : World) :
  first_where (fun a => Nat.eqb (agent_id a) agentId) (agents w) = Some agent ->
  Loop.assignAgentToHub agentId hubId w
  = if sql_eq (current_hub agent) (Some hubId) then (w, inr tt)
    else if has_hub hubId w then
      let w1 := set_agents (update_where (fun a => Nat.eqb (agent_id a) agentId)
                              (sent_to hubId)) w in
      match first_where (fun h => sql_eq (Some (hub_id h)) (Some hubId)) (hubs w) with
      | Some hub =>
          (set_events (fun l => l ++ [agent_move (agent_type agent) (position_x agent)
                                        (position_y agent) (hub_position_x hub)
                                        (hub_position_y hub) hubId]) w1,
           inr tt)
      | None =>
          (w1, inl (JS.TypeError "Cannot read properties of undefined (reading 'position_x')"))
      end
    else (w, inl (Loop.db_error "agents_target_hub_fkey")).
Proof.
  intro Hfound. unfold Loop.assignAgentToHub, Loop.getAgent, Loop.getHub.
  unfold bind at 1. unfold read at 1. cbn beta iota. rewrite Hfound.
  unfold bind at 1. unfold defined, ret. cbn beta iota.
  destruct (sql_eq (current_hub agent) (Some hubId)); [reflexivity | ].
  unfold bind at 1 2. unfold read at 1. cbn beta iota.
  destruct (has_hub hubId w); [ | reflexivity].
  unfold modify at 1. cbn beta iota.
  unfold bind, read. cbn beta iota. cbn [hubs set_agents].
  destruct (first_where _ (hubs w)); reflexivity.
Qed.

Lemma celebrating_twice (a : Agent) : celebrating (celebrating a) = celebrating a.
Proof.
  unfold celebrating. destruct (sql_eq (current_hub a) (Some "town_square")) eqn:H.
  - now rewrite H.
  - simpl. now rewrite H.
Qed.

Lemma celebrating_id (a : Agent) : agent_id (celebrating a) = agent_id a.
Proof. unfold celebrating. now destruct (sql_eq _ _). Qed.

(** One iteration of the loop of [celebrateCompletion()]. *)
Lemma celebrate_one (r : Agent) (w : World) :
  has_hub "town_square" w = true -> NoDup (map agent_id (agents w)) ->
  In (agent_id r) (map agent_id (agents w)) ->
  snd (Loop.assignAgentToHub (agent_id r) "town_square" w) = inr tt
  /\ agents (fst (Loop.assignAgentToHub (agent_id r) "town_square" w))
     = map (fun a => if Nat.eqb (agent_id a) (agent_id r) then celebrating a else a) (agents w)
  /\ hubs (fst (Loop.assignAgentToHub (agent_id r) "town_square" w)) = hubs w.
Proof.
  intros Hhub Hnd Hin. apply in_map_iff in Hin. destruct Hin as [a [Hid Ha]].
  pose proof (first_where_key (agents w) a Hnd Ha) as Hfound. rewrite Hid in Hfound.
  rewrite (assignAgentToHub_found _ _ a w Hfound).
  assert (Hrows : forall x, In x (agents w) -> Nat.eqb (agent_id x) (agent_id r) = true -> x = a).
  { intros x Hx Hk. apply Nat.eqb_eq in Hk.
    apply (Delivery.key_determines_row agent_id (agents w)); try assumption. congruence. }
  destruct (sql_eq (current_hub a) (Some "town_square")) eqn:Hat.
  - split; [reflexivity | ]. split; [ | reflexivity]. simpl.
    rewrite <- (map_id (agents w)) at 1. apply map_ext_in. intros x Hx.
    destruct (Nat.eqb (agent_id x) (agent_id r)) eqn:Hk; [ | reflexivity].
    rewrite (Hrows x Hx Hk). unfold celebrating. now rewrite Hat.
  - rewrite Hhub. destruct (Invariant.has_hub_found "town_square" w Hhub) as [h Hh].
    cbn zeta. rewrite Hh. split; [reflexivity | ]. split; [ | reflexivity]. simpl.
    unfold update_where. apply map_ext_in. intros x Hx.
    destruct (Nat.eqb (agent_id x) (agent_id r)) eqn:Hk; [ | reflexivity].
    rewrite (Hrows x Hx Hk). unfold celebrating. now rewrite Hat.
Qed.

(** The loop of [celebrateCompletion()] over some of the agents. *)
Lemma celebrate_loop (rows : list Agent) (w : World) :
  has_hub "town_square" w = true -> NoDup (map agent_id (agents w)) ->
  (forall r, In r rows -> In (agent_id r) (map agent_id (agents w))) ->
  let run := for_each rows (fun agent => Loop.assignAgentToHub (agent_id agent) "town_square") w in
  snd run = inr tt
  /\ agents (fst run)
     = map (fun a => if existsb (fun r => Nat.eqb (agent_id a) (agent_id r)) rows
                     then celebrating a else a) (agents w).
Proof.
  revert w. induction rows as [ | r rest IH]; intros w Hhub Hnd Hrows; cbn zeta.
  - split; [reflexivity | ]. simpl. symmetry. apply map_id.
  - destruct (celebrate_one r w Hhub Hnd (Hrows r (or_introl eq_refl))) as [Hret [Hag Hhubs]].
    simpl for_each. unfold bind.
    destruct (Loop.assignAgentToHub (agent_id r) "town_square" w) as [w1 res]. simpl in *.
    subst res.
    assert (Hids : map agent_id (agents w1) = map agent_id (agents w)).
    { rewrite Hag, map_map. apply map_ext. intro a.
      destruct (Nat.eqb (agent_id a) (agent_id r)); [apply celebrating_id | reflexivity]. }
    destruct (IH w1) as [Hret' Hag'].
    + unfold has_hub. rewrite Hhubs. exact Hhub.
    + now rewrite Hids.
    + intros r' Hr'. rewrite Hids. apply Hrows. now right.
    + split; [exact Hret' | ]. rewrite Hag', Hag, map_map. apply map_ext. intro a.
      destruct (Nat.eqb (agent_id a) (agent_id r)) eqn:Hk; simpl.
      * rewrite celebrating_id, celebrating_twice.
        now destruct (existsb _ rest).
      * reflexivity.
Qed.

(** The celebration as a whole. *)
Lemma celebrateCompletion_agents (w : World) :
  has_hub "town_square" w = true -> NoDup (map agent_id (agents w)) ->
  snd (Loop.celebrateCompletion w) = inr tt
  /\ agents (fst (Loop.celebrateCompletion w)) = map celebrating (agents w).
Proof.
  intros Hhub Hnd.
  destruct (celebrate_loop (agents w) w Hhub Hnd) as [Hret Hag].
  { intros r Hr. now apply in_map. }
  destruct (for_each (agents w) _ w) as [w1 res] eqn:Hloop. simpl in Hret, Hag. subst res.
  assert (Hrun : exists w2, Loop.celebrateCompletion w = (w2, inr tt) /\ agents w2 = agents w1).
  { unfold Loop.celebrateCompletion, bind, read. rewrite Hloop.
    eexists. split; reflexivity. }
  destruct Hrun as [w2 [Hrun Hsame]]. rewrite Hrun. simpl.
  split; [reflexivity | ]. rewrite Hsame, Hag. apply map_ext_in. intros a Ha.
  replace (existsb (fun r => Nat.eqb (agent_id a) (agent_id r)) (agents w)) with true;
    [reflexivity | ].
  symmetry. apply existsb_exists. exists a. split; [exact Ha | apply Nat.eqb_refl].
Qed.

End Travel.

(** [assignAgentToHub(agentId, hubId)] at its edges.  Without a row of the
    agent it throws a TypeError and writes nothing; for a hub that is not in
    the table the [UPDATE] is rejected by the foreign key and nothing is
    written.  Otherwise, the agent not being at the hub, it returns: the rows
    of the agent get the target hub and the status [traveling] and keep their
    current hub and their position, the other rows are left alone, and one
    [agent_move] event is published, from the agent's position to the
    hub's. *)
Theorem assignAgentToHub_unknown_agent_or_hub (agentId : nat) (hubId : string) (w : Db.World) :
  (Db.first_where (fun a => Nat.eqb (Db.agent_id a) agentId) (Db.agents w) = None ->
     exists msg, Loop.assignAgentToHub agentId hubId w = (w, inl (JS.TypeError msg)))
  /\ (forall agent,
        Db.first_where (fun a => Nat.eqb (Db.agent_id a) agentId) (Db.agents w) = Some agent ->
        Db.sql_eq (Db.current_hub agent) (Some hubId) = false ->
        (Db.has_hub hubId w = false ->
           Loop.assignAgentToHub agentId hubId w
           = (w, inl (Loop.db_error "agents_target_hub_fkey")))
        /\ (Db.has_hub hubId w = true ->
             exists hub,
               In hub (Db.hubs w) /\ Db.hub_id hub = hubId
               /\ Loop.assignAgentToHub agentId hubId w
                  = (Db.set_events
                       (fun l => l ++ [Db.agent_move (Db.agent_type agent) (Db.position_x agent)
                                         (Db.position_y agent) (Db.hub_position_x hub)
                                         (Db.hub_position_y hub) hubId])
                       (Db.set_agents
                          (Db.update_where (fun a => Nat.eqb (Db.agent_id a) agentId)
                             (Travel.sent_to hubId)) w),
                     inr tt))).
Proof.
  split.
  - intro Hnone. unfold Loop.assignAgentToHub, Loop.getAgent, Effects.bind, Effects.read.
    rewrite Hnone. eexists. reflexivity.
  - intros agent Hfound Hnot. rewrite (Travel.assignAgentToHub_found _ _ agent w Hfound), Hnot.
    split; intro Hhub; rewrite Hhub; [reflexivity | ].
    destruct (Invariant.has_hub_found hubId w Hhub) as [hub Hh]. exists hub.
    cbn zeta. rewrite Hh. unfold Db.first_where in Hh. apply find_some in Hh.
    destruct Hh as [Hin Heq]. simpl in Heq. apply String.eqb_eq in Heq.
    split; [exact Hin | ]. split; [exact Heq | reflexivity].
Qed.

(** [celebrateCompletion()], the town square being a hub and the agents
    having unique keys: it returns, every agent that is not at the town
    square is on its way there ([traveling] with the town square as target,
    current hub and position unchanged), the agents at the town square are
    left as they are, and the four congratulations are scheduled after 1, 1.5,
    2 and 2.5 seconds.  Tasks, subtasks and messages are not touched. *)
Theorem celebrateCompletion_sends_everyone_to_the_square (w : Db.World) :
  Db.has_hub "town_square" w = true -> NoDup (map Db.agent_id (Db.agents w)) ->
  let w' := Effects.exec Loop.celebrateCompletion w in
  Effects.outcome Loop.celebrateCompletion w = inr tt
  /\ Db.agents w' = map Travel.celebrating (Db.agents w)
  /\ (forall a, In a (Db.agents w') ->
        Db.current_hub a = Some "town_square"
        \/ (Db.agent_status a = State.TRAVELING /\ Db.target_hub a = Some "town_square"))
  /\ map fst (Db.timers w') = map fst (Db.timers w) ++ [1000; 1500; 2000; 2500]%Z
  /\ (Db.tasks w', Db.subtasks w', Db.messages w') = (Db.tasks w, Db.subtasks w, Db.messages w).
Proof.
  intros Hhub Hnd w'. subst w'.
  destruct (Travel.celebrateCompletion_agents w Hhub Hnd) as [Hret Hag].
  unfold Effects.outcome, Effects.exec.
  split; [exact Hret | ]. split; [exact Hag | ]. split; [ | split].
  - intros a Ha. rewrite Hag in Ha. apply in_map_iff in Ha. destruct Ha as [a0 [<- _]].
    unfold Travel.celebrating.
    destruct (Db.sql_eq (Db.current_hub a0) (Some "town_square")) eqn:Hat.
    + left. apply Dispatch.sql_eq_true in Hat. destruct Hat as [x [Hx Hy]].
      injection Hy as <-. exact Hx.
    + right. split; reflexivity.
  - unfold Loop.celebrateCompletion, Effects.bind, Effects.read.
    assert (Hloop : Frame.keeps Db.timers
                      (for_each (Db.agents w)
                         (fun agent => Loop.assignAgentToHub (Db.agent_id agent) "town_square"))).
    { apply Frame.keeps_for_each. intro r.
      apply LoopFrame.assignAgentToHub_keeps; auto with frame. }
    specialize (Hloop w).
    unfold Loop.celebrateCompletion, Effects.bind, Effects.read in Hret.
    destruct (for_each (Db.agents w) _ w) as [w1 [e | []]]; [discriminate Hret | ].
    simpl in *. rewrite Hloop, !map_app. simpl. now rewrite <- !app_assoc.
  - exact (LoopFrame.celebrateCompletion_keeps
             (fun w0 => (Db.tasks w0, Db.subtasks w0, Db.messages w0))
             ltac:(blind) ltac:(blind) ltac:(blind) w).
Qed.

Lemma celebrateCompletion_sends_everyone_to_the_square_witness :
  map Db.agent_status (Db.agents (Effects.exec Loop.celebrateCompletion Cases.both_ready))
  = [State.TRAVELING; State.TRAVELING].
Proof.
  rewrite (proj1 (proj2 (celebrateCompletion_sends_everyone_to_the_square Cases.both_ready
                           eq_refl ltac:(repeat constructor; simpl; intuition discriminate)))).
  reflexivity.
Defined.

Module Stranded.

Import Db Effects Frame Hoare.

Definition agent_ids (w : World) : list nat := map agent_id (agents w).

Lemma agent_ids_blind : blind_agents agent_ids.
Proof.
  intros p g w Hg. unfold agent_ids. simpl. apply map_update_where. intro a. apply Hg.
Qed.

(** The movement of one agent leaves the rows of the other agents alone. *)
Lemma moveOneAgent_keeps_row (r row : Agent) :
  agent_id r <> agent_id row ->
  preserves (fun w => In row (agents w)) (Loop.moveOneAgent r).
Proof.
  intros Hne w Hin.
  assert (Hkept : In row (agents (fst (Loop.moveOneAgent r w)))).
  { unfold Loop.moveOneAgent, Loop.getHub, bind, read, defined, emit, modify, ret, throw.
    destruct (first_where _ (hubs w)) as [hub | ]; [ | exact Hin].
    destruct (fst (Pathfinding.moveAgentToHub _ _ _ _)); simpl;
      (apply Delivery.in_update_where_kept; [exact Hin | ]);
      apply Nat.eqb_neq; congruence. }
  destruct (snd (Loop.moveOneAgent r w)); exact Hkept.
Qed.

(** A row that the query of [updateAgentPositions()] does not return is not
    written by the movement phase. *)
Lemma updateAgentPositions_keeps_row (row : Agent) (w : World) :
  NoDup (agent_ids w) -> In row (agents w) -> agent_status row <> State.TRAVELING ->
  In row (agents (exec Loop.updateAgentPositions w)).
Proof.
  intros Hnd Hin Hstatus.
  assert (Hloop : preserves (fun w0 => In row (agents w0))
                    (for_each (Travel.moving w) Loop.moveOneAgent)).
  { apply triple_for_each. intros r Hr. apply moveOneAgent_keeps_row.
    intro Hid. apply filter_In in Hr. destruct Hr as [Hr Hsel].
    assert (r = row)
      by (apply (Delivery.key_determines_row agent_id (agents w)); assumption).
    subst r. apply andb_true_iff in Hsel. destruct Hsel as [_ Hsel].
    apply State.status_eqb_eq in Hsel. contradiction. }
  specialize (Hloop w Hin). unfold exec, Loop.updateAgentPositions, bind, read.
  fold (Travel.moving w).
  destruct (for_each (Travel.moving w) Loop.moveOneAgent w) as [w1 [e | u]]; exact Hloop.
Qed.

(** [n] movement phases in a row. *)
Fixpoint passes (n : nat) (w : World) : World :=
  match n with
  | 0 => w
  | S k => passes k (exec Loop.updateAgentPositions w)
  end.

Lemma passes_keep_row (row : Agent) (n : nat) (w : World) :
  NoDup (agent_ids w) -> In row (agents w) -> agent_status row <> State.TRAVELING ->
  In row (agents (passes n w)).
Proof.
  revert w. induction n as [ | k IH]; intros w Hnd Hin Hstatus; simpl; [exact Hin | ].
  apply IH; [ | now apply updateAgentPositions_keeps_row | exact Hstatus].
  unfold exec.
  rewrite (LoopFrame.updateAgentPositions_keeps agent_ids agent_ids_blind
             ltac:(blind) ltac:(blind) w).
  exact Hnd.
Qed.

(** The last subtask of task 10 is ready: the coder is idle at its desk,
    away from the town square, next to a designer whose subtask is
    completed and who is idle at the studio. *)
Definition last_subtask : World :=
  mkWorld Scenario.seed_hubs [Cases.designer; Cases.coder]
    [Scenario.a_task 10 TASK_IN_PROGRESS]
    [ mkSubtask 20 10 2 "designer" "do your part" (Some "a palette") SUB_COMPLETED 0
        (Some "design_studio") None None;
      Cases.coder_subtask ]
    [] [] [] true [] [] 0%Z 100 0.

(** The prompt that [executeSubtask] builds for the coder there. *)
Definition coder_prompt : string :=
  Eval vm_compute in
    match outcome (Loop.executeSubtask_begin Cases.coder_subtask) last_subtask with
    | inr started => snd started
    | inl _ => EmptyString
    end.

End Stranded.

Module Celebration.

Import Db Effects Frame Hoare.

(** The row written when execution starts: [working] on the subtask. *)
Definition working_on (subtask : Subtask) (a : Agent) : Agent :=
  mkAgent (agent_id a) (agent_type a) (current_hub a) (target_hub a)
    State.WORKING (Some (JS.slice0 50 (st_description subtask)))
    (position_x a) (position_y a) (position_z a).

(** What the first part of [executeSubtask] leaves in the tables. *)
Definition started_tables (subtask : Subtask) (agent : Agent) (w : World)
    : list Agent * list Subtask * list Hub :=
  (update_where (fun a => Nat.eqb (agent_id a) (agent_id agent)) (working_on subtask)
     (agents w),
   update_where (fun s => Nat.eqb (subtask_id s) (subtask_id subtask))
     (Loop.started_row (now w)) (subtasks w),
   hubs w).

Definition tables (w : World) : list Agent * list Subtask * list Hub :=
  (agents w, subtasks w, hubs w).

(** When the first part of [executeSubtask] returns, the agent it returns is
    the row that the query found, and the two [UPDATE]s are in the tables. *)
Lemma executeSubtask_begin_returned (subtask : Subtask) (agent : Agent) (prompt : string)
    (w : World) :
  outcome (Loop.executeSubtask_begin subtask) w = inr (agent, prompt) ->
  first_where (fun a => Nat.eqb (agent_id a) (st_agent_id subtask)) (agents w) = Some agent
  /\ tables (exec (Loop.executeSubtask_begin subtask) w) = started_tables subtask agent w.
Proof.
  unfold outcome, exec. intro Hbegin.
  destruct (first_where (fun a => Nat.eqb (agent_id a) (st_agent_id subtask)) (agents w))
    as [a | ] eqn:Hfound.
  - rewrite (Context.executeSubtask_begin_started subtask a w Hfound) in *.
    set (context := fold_left _ _ _) in *.
    pose proof (LoopFrame.buildPrompt_keeps tables subtask context
                  (Context.started subtask a w)) as Hkept.
    unfold bind in *.
    destruct (Loop.buildPrompt subtask context (Context.started subtask a w))
      as [w1 [e | p]]; simpl in *; [discriminate Hbegin | ].
    injection Hbegin as -> _. split; [reflexivity | ].
    unfold tables in *. simpl. exact Hkept.
  - unfold Loop.executeSubtask_begin, Loop.getAgent, bind, read in Hbegin.
    rewrite Hfound in Hbegin. discriminate Hbegin.
Qed.

(** The statements after the call for a reply on which [JSON.parse] throws,
    when every other subtask of the task is completed: the celebration
    sends every agent away from the town square on its way, and the reset
    that follows sets the executing agent to [idle]. *)
Lemma executeSubtask_finish_celebrates (env : Env.Runtime) (subtask : Subtask) (agent : Agent)
    (response : string) (w : World) :
  Env.JSON_parse env response = None ->
  has_hub "town_square" w = true -> NoDup (map agent_id (agents w)) ->
  (forall s, In s (subtasks w) -> st_task_id s = st_task_id subtask ->
     subtask_id s <> subtask_id subtask -> st_status s = SUB_COMPLETED) ->
  Loop.executeSubtask_finish env subtask agent (inr response) w
  = (fst (Loop.executeSubtask_finish env subtask agent (inr response) w), inr tt)
  /\ agents (exec (Loop.executeSubtask_finish env subtask agent (inr response)) w)
     = update_where (fun a => Nat.eqb (agent_id a) (agent_id agent)) Loop.idle_agent
         (map Travel.celebrating (agents w)).
Proof.
  intros Hparse Hhub Hnd Hothers.
  split.
  { rewrite (surjective_pairing (Loop.executeSubtask_finish _ _ _ _ _)) at 1.
    now rewrite Escapes.executeSubtask_finish_returns. }
  set (wb := set_subtasks
               (update_where (fun s => Nat.eqb (subtask_id s) (subtask_id subtask))
                  (Loop.completed_row (Some response) (now w))) w).
  assert (Hcount : Loop.count_not_completed (st_task_id subtask) wb = 0).
  { apply Lifecycle.count_zero_all_completed. intros s Hs Hown. unfold wb in Hs. simpl in Hs.
    apply in_update_where in Hs. destruct Hs as [r [Hr Hs]].
    destruct (Nat.eqb (subtask_id r) (subtask_id subtask)) eqn:Hk; subst s.
    - reflexivity.
    - apply Nat.eqb_neq in Hk. now apply Hothers. }
  set (w1 := Invariant.marked_completed env (st_task_id subtask) wb).
  destruct (Travel.celebrateCompletion_agents w1 Hhub Hnd) as [Hret Hag].
  assert (Hbody : Loop.handleResponse env subtask agent response w
                  = (fst (Loop.celebrateCompletion w1), inr tt)).
  { rewrite (Replies.handleResponse_raw env subtask agent response w Hparse). fold wb.
    rewrite (Invariant.checkTaskCompletion_all_completed env _ wb Hcount). fold w1.
    rewrite (surjective_pairing (Loop.celebrateCompletion w1)) at 1. now rewrite Hret. }
  unfold exec, Loop.executeSubtask_finish, try_catch, bind, settle, ret.
  rewrite Hbody. simpl. now rewrite Hag.
Qed.

End Celebration.

(** The agent that completes the last subtask of a task does not travel to
    the celebration.  [executeSubtask] reads the agent's row and builds the
    prompt, the reasoning service answers with a reply on which
    [JSON.parse] throws, the town square is a hub, the agents' keys are
    unique, the agent is away from the town square and every other subtask
    of the task is completed.  Then [executeSubtask] returns; the completion
    check has sent every agent that is away from the town square on its
    way, the executing agent included, and the "Reset agent status"
    statement that follows has set this agent's status to [idle] and left
    its target hub.  The movement phase moves only [traveling] agents, so no
    number of movement phases changes the row: the agent stays where it is,
    idle, with the town square as its target. *)
Theorem last_subtask_agent_misses_the_celebration
    (env : Env.Runtime) (subtask : Db.Subtask) (agent : Db.Agent) (prompt response : string)
    (w : Db.World) :
  Effects.outcome (Loop.executeSubtask_begin subtask) w = inr (agent, prompt) ->
  Effects.outcome (Claude.callAgent env (Db.agent_type agent) prompt)
    (Effects.exec (Loop.executeSubtask_begin subtask) w) = inr response ->
  Env.JSON_parse env response = None ->
  Db.has_hub "town_square" w = true -> NoDup (map Db.agent_id (Db.agents w)) ->
  Db.sql_eq (Db.current_hub agent) (Some "town_square") = false ->
  (forall s, In s (Db.subtasks w) -> Db.st_task_id s = Db.st_task_id subtask ->
     Db.subtask_id s <> Db.subtask_id subtask -> Db.st_status s = Db.SUB_COMPLETED) ->
  let w' := Effects.exec (Loop.executeSubtask env subtask) w in
  let row := Loop.idle_agent (Travel.sent_to "town_square" agent) in
  Effects.outcome (Loop.executeSubtask env subtask) w = inr tt
  /\ Db.agents w'
     = Db.update_where (fun a => Nat.eqb (Db.agent_id a) (Db.agent_id agent)) Loop.idle_agent
         (map Travel.celebrating
            (Db.update_where (fun a => Nat.eqb (Db.agent_id a) (Db.agent_id agent))
               (Celebration.working_on subtask) (Db.agents w)))
  /\ In row (Db.agents w')
  /\ Db.agent_status row = State.IDLE /\ Db.target_hub row = Some "town_square"
  /\ Db.current_hub row = Db.current_hub agent
  /\ forall n, In row (Db.agents (Stranded.passes n w')).
Proof.
  intros Hbegin Hcall Hparse Hhub Hnd Haway Hothers w' row.
  destruct (Celebration.executeSubtask_begin_returned subtask agent prompt w Hbegin)
    as [Hfound Htables].
  unfold Effects.outcome, Effects.exec in *.
  destruct (Loop.executeSubtask_begin subtask w) as [wb res] eqn:Hb.
  simpl in Hbegin, Hcall, Htables. subst res.
  pose proof (LoopFrame.callAgent_keeps Celebration.tables env (Db.agent_type agent) prompt
                ltac:(blind) wb) as Hkept.
  destruct (Claude.callAgent env (Db.agent_type agent) prompt wb) as [wc res] eqn:Hc.
  simpl in Hcall, Hkept. subst res. rewrite Htables in Hkept.
  unfold Celebration.tables, Celebration.started_tables in Hkept.
  injection Hkept as Hagents Hsubtasks Hhubs.
  assert (Hrun : Loop.executeSubtask env subtask w
                 = Loop.executeSubtask_finish env subtask agent (inr response) wc).
  { unfold Loop.executeSubtask, Effects.bind, Effects.attempt. rewrite Hb. simpl.
    rewrite Hc. reflexivity. }
  destruct (Celebration.executeSubtask_finish_celebrates env subtask agent response wc Hparse)
    as [Hret Hrows].
  { unfold Db.has_hub in *. now rewrite Hhubs. }
  { rewrite Hagents. rewrite Frame.map_update_where by reflexivity. exact Hnd. }
  { intros s Hs Hown Hne. rewrite Hsubtasks in Hs. apply Frame.in_update_where in Hs.
    destruct Hs as [r [Hr Hs]].
    destruct (Nat.eqb (Db.subtask_id r) (Db.subtask_id subtask)) eqn:Hk; subst s.
    - apply Nat.eqb_eq in Hk. contradiction.
    - now apply Hothers. }
  unfold Effects.exec in Hrows. rewrite Hagents in Hrows.
  subst w'. rewrite Hrun.
  assert (Hrow : In row (Db.agents
                   (fst (Loop.executeSubtask_finish env subtask agent (inr response) wc)))).
  { rewrite Hrows. apply Frame.in_update_where.
    exists (Travel.celebrating (Celebration.working_on subtask agent)). split.
    - apply in_map. apply Frame.in_update_where. exists agent. split.
      + unfold Db.first_where in Hfound. now apply find_some in Hfound.
      + now rewrite Nat.eqb_refl.
    - rewrite Travel.celebrating_id. simpl. rewrite Nat.eqb_refl.
      unfold Travel.celebrating. simpl. rewrite Haway. reflexivity. }
  split; [now rewrite Hret | ]. split; [exact Hrows | ]. split; [exact Hrow | ].
  split; [reflexivity | ]. split; [reflexivity | ]. split; [reflexivity | ].
  intro n. apply Stranded.passes_keep_row.
  - unfold Stranded.agent_ids. rewrite Hrows.
    rewrite Frame.map_update_where by reflexivity.
    rewrite map_map. erewrite map_ext; [ | intro a; apply Travel.celebrating_id].
    rewrite Frame.map_update_where by reflexivity. exact Hnd.
  - exact Hrow.
  - discriminate.
Qed.

Lemma last_subtask_agent_misses_the_celebration_witness :
  map (fun a => (Db.agent_type a, Db.agent_status a, Db.target_hub a))
    (Db.agents (Effects.exec (Loop.executeSubtask Scenario.env_prose Cases.coder_subtask)
                  Stranded.last_subtask))
  = [ ("designer", State.TRAVELING, Some "town_square");
      ("coder", State.IDLE, Some "town_square") ].
Proof.
  rewrite (proj1 (proj2 (last_subtask_agent_misses_the_celebration Scenario.env_prose
                    Cases.coder_subtask Cases.coder Stranded.coder_prompt Scenario.prose
                    Stranded.last_subtask
                    ltac:(vm_compute; reflexivity) ltac:(vm_compute; reflexivity)
                    eq_refl eq_refl
                    ltac:(repeat constructor; simpl; intuition discriminate)
                    eq_refl
                    ltac:(intros s [<- | [<- | []]] _ Hne;
                          [reflexivity | now contradiction Hne])))).
  reflexivity.
Defined.

(* ================================================================== *)
(** * Intake: pending tasks reach the planner *)
(* ================================================================== *)

Module Intake.

Import Db Effects Frame Hoare.

Definition pending (t : Task) : bool := task_status_eqb (task_status t) TASK_PENDING.

(** The rows that the query of [processPendingTasks()] returns. *)
Definition selected (w : World) : list Task :=
  firstn 5 (order_by task_created_at (filter pending (tasks w))).

(** The row that the [UPDATE] of [processPendingTasks()] writes. *)
Definition planning (t : Z) (r : Task) : Task :=
  mkTask (task_id r) (task_prompt r) (task_user_id r) TASK_PLANNING
    (task_created_at r) (Some t) (task_completed_at r)
    (download_url r) (preview_url r) (task_error r).

(** The body of the loop of [processPendingTasks()]. *)
Definition take (task : Task) : M unit :=
  bind (read now) (fun t =>
  bind (modify (set_tasks (update_where (fun r => Nat.eqb (task_id r) (task_id task))
                             (planning t)))) (fun _ =>
  bind (Loop.getAgentByType (Some "planner")) (fun found =>
  bind (defined found "id") (fun planner =>
  bind (Loop.assignAgentToHub (agent_id planner) "planning_room") (fun _ =>
  bind (emit (task_started (task_id task) "planner")) (fun _ =>
  modify (set_activeTasks
            (Loop.map_set (task_id task)
               (mkActiveTask task "planning" (agent_id planner)))))))))).

Lemma processPendingTasks_selected (w : World) :
  Loop.processPendingTasks w = for_each (selected w) take w.
Proof. reflexivity. Qed.

Definition has_planner (w : World) : Prop :=
  exists a, In a (agents w) /\ agent_type a = "planner".

(** What the loop needs to go on: the hubs, the agents' keys and types, and
    the clock. *)
Definition staff (w : World) : list Hub * list (nat * string) * Z :=
  (hubs w, map (fun a => (agent_id a, agent_type a)) (agents w), now w).

Lemma staff_blind_agents : blind_agents staff.
Proof.
  intros p g w Hg. unfold staff. simpl. f_equal. f_equal.
  unfold update_where. rewrite map_map. apply map_ext. intro a.
  destruct (p a); [ | reflexivity]. destruct (Hg a) as [H1 H2]. now rewrite H1, H2.
Qed.

Lemma has_planner_staff (w1 w2 : World) :
  staff w2 = staff w1 -> has_planner w1 -> has_planner w2.
Proof.
  unfold staff. intros Heq [a [Ha Hty]]. injection Heq as _ Hrows _.
  assert (Hin : In (agent_id a, agent_type a)
                  (map (fun a => (agent_id a, agent_type a)) (agents w2))).
  { rewrite Hrows. exact (in_map (fun a => (agent_id a, agent_type a)) _ a Ha). }
  apply in_map_iff in Hin. destruct Hin as [a' [Heq Ha']]. injection Heq as _ Hty'.
  exists a'. split; [exact Ha' | congruence].
Qed.

Lemma planner_found (w : World) :
  has_planner w ->
  exists planner,
    first_where (fun a => sql_eq (Some (agent_type a)) (Some "planner")) (agents w) = Some planner
    /\ In (agent_id planner) (map agent_id (agents w)).
Proof.
  intros [a [Ha Hty]].
  destruct (Invariant.find_in_some
              (fun a => sql_eq (Some (agent_type a)) (Some "planner")) (agents w) a Ha)
    as [planner Hfind].
  { simpl. rewrite Hty. reflexivity. }
  exists planner. split; [exact Hfind | ].
  apply find_some in Hfind. apply in_map. apply Hfind.
Qed.

Lemma take_keeps_staff (task : Task) : keeps staff (take task).
Proof.
  unfold take, Loop.getAgentByType.
  pose proof staff_blind_agents as Ha.
  assert (Hk : blind_tasks staff) by (intros p g w Hg; reflexivity).
  assert (He : blind_events staff) by (intros g w; reflexivity).
  assert (Hs : blind_activeTasks staff) by (intros g w; reflexivity).
  pose proof (@LoopFrame.assignAgentToHub_keeps). frame.
Qed.

(** One iteration, with a planner and the planning room in the tables. *)
Lemma take_returns (task : Task) (w : World) :
  has_planner w -> has_hub "planning_room" w = true ->
  snd (take task w) = inr tt
  /\ tasks (fst (take task w))
     = update_where (fun r => Nat.eqb (task_id r) (task_id task)) (planning (now w)) (tasks w).
Proof.
  intros Hplanner Hhub. destruct (planner_found w Hplanner) as [planner [Hfind Hid]].
  set (w1 := set_tasks (update_where (fun r => Nat.eqb (task_id r) (task_id task))
                          (planning (now w))) w).
  pose proof (Invariant.assignAgentToHub_returns (agent_id planner) "planning_room" w1
                Hhub Hid) as Hret.
  pose proof (LoopFrame.assignAgentToHub_keeps tasks (agent_id planner) "planning_room"
                ltac:(blind) ltac:(blind) w1) as Htasks.
  unfold take, Loop.getAgentByType, bind, read, modify, defined, ret, emit.
  fold w1. cbn [agents set_tasks w1]. rewrite Hfind.
  destruct (Loop.assignAgentToHub (agent_id planner) "planning_room" w1) as [w2 r].
  simpl in Hret, Htasks. subst r. simpl. split; [reflexivity | exact Htasks].
Qed.

Lemma planning_twice (t : Z) (r : Task) : planning t (planning t r) = planning t r.
Proof. reflexivity. Qed.

(** The loop over some tasks. *)
Lemma take_all (rows : list Task) (w : World) :
  has_planner w -> has_hub "planning_room" w = true ->
  snd (for_each rows take w) = inr tt
  /\ tasks (fst (for_each rows take w))
     = update_where (fun r => existsb (fun t => Nat.eqb (task_id r) (task_id t)) rows)
         (planning (now w)) (tasks w).
Proof.
  revert w. induction rows as [ | task rest IH]; intros w Hplanner Hhub.
  - split; [reflexivity | ]. simpl. unfold update_where. symmetry. apply map_id.
  - destruct (take_returns task w Hplanner Hhub) as [Hret Htasks].
    pose proof (take_keeps_staff task w) as Hstaff.
    simpl for_each. unfold bind. destruct (take task w) as [w1 r]. simpl in *. subst r.
    assert (Hnow : now w1 = now w) by (unfold staff in Hstaff; congruence).
    destruct (IH w1) as [Hret' Htasks'].
    + now apply (has_planner_staff w).
    + unfold has_hub. unfold staff in Hstaff. injection Hstaff as Hh _ _. now rewrite Hh.
    + split; [exact Hret' | ]. rewrite Htasks', Htasks, Hnow.
      unfold update_where. rewrite map_map. apply map_ext. intro r.
      destruct (Nat.eqb (task_id r) (task_id task)); simpl.
      * now destruct (existsb _ rest).
      * reflexivity.
Qed.

Lemma sorted_split {A : Type} (R : A -> A -> Prop) (l1 l2 : list A) :
  StronglySorted R (l1 ++ l2) -> forall x y, In x l1 -> In y l2 -> R x y.
Proof.
  induction l1 as [ | a rest IH]; simpl; intros Hs x y Hx Hy; [contradiction | ].
  inversion Hs as [ | ? ? Hrest Hall]; subst. destruct Hx as [<- | Hx].
  - rewrite Forall_forall in Hall. apply Hall. apply in_app_iff. now right.
  - now apply IH.
Qed.

(** The selection: at most five pending tasks, and no pending task left
    out is older than one taken. *)
Lemma selected_oldest (w : World) :
  List.length (selected w) <= 5
  /\ (forall t, In t (selected w) -> In t (tasks w) /\ task_status t = TASK_PENDING)
  /\ (forall t, In t (tasks w) -> task_status t = TASK_PENDING ->
        In t (selected w)
        \/ forall p, In p (selected w) -> (task_created_at p <= task_created_at t)%Z).
Proof.
  unfold selected. set (sorted := order_by task_created_at (filter pending (tasks w))).
  assert (Hin : forall t, In t sorted <-> In t (tasks w) /\ task_status t = TASK_PENDING).
  { intro t. unfold sorted. rewrite OrderBy.in_order_by, filter_In. unfold pending.
    now rewrite Lifecycle.task_status_eqb_eq. }
  split; [apply firstn_le_length | ]. split.
  - intros t Ht. apply Hin. rewrite <- (firstn_skipn 5 sorted). apply in_app_iff. now left.
  - intros t Ht Hp. assert (Hs : In t sorted) by (apply Hin; now split).
    rewrite <- (firstn_skipn 5 sorted) in Hs. apply in_app_iff in Hs.
    destruct Hs as [Hs | Hs]; [now left | right].
    intros p Hpicked.
    apply (sorted_split (OrderBy.key_le task_created_at) (firstn 5 sorted) (skipn 5 sorted));
      try assumption.
    rewrite firstn_skipn. apply OrderBy.order_by_sorted.
Qed.

End Intake.

(** [processPendingTasks()].  The pass takes at most five pending tasks,
    oldest first: a pending task that is left out is no older than any task
    taken.  With a planner among the agents and the planning room among the
    hubs the pass returns, and exactly the rows with the key of a task taken
    are [planning] with the start time of the pass.  Without a planner the
    pass throws on the first task, after it has marked that task
    [planning]: the later phases of the tick are skipped and no later pass
    takes the task again. *)
Theorem intake_takes_the_oldest_pending_tasks (w : Db.World) :
  let picked := Intake.selected w in
  let w' := Effects.exec Loop.processPendingTasks w in
  List.length picked <= 5
  /\ (forall t, In t picked -> In t (Db.tasks w) /\ Db.task_status t = Db.TASK_PENDING)
  /\ (forall t, In t (Db.tasks w) -> Db.task_status t = Db.TASK_PENDING ->
        In t picked
        \/ forall p, In p picked -> (Db.task_created_at p <= Db.task_created_at t)%Z)
  /\ (Intake.has_planner w -> Db.has_hub "planning_room" w = true ->
        Effects.outcome Loop.processPendingTasks w = inr tt
        /\ Db.tasks w'
           = Db.update_where
               (fun r => existsb (fun t => Nat.eqb (Db.task_id r) (Db.task_id t)) picked)
               (Intake.planning (Db.now w)) (Db.tasks w))
  /\ (~ Intake.has_planner w -> forall first rest, picked = first :: rest ->
        (exists msg, Effects.outcome Loop.processPendingTasks w = inl (JS.TypeError msg))
        /\ Db.tasks w'
           = Db.update_where (fun r => Nat.eqb (Db.task_id r) (Db.task_id first))
               (Intake.planning (Db.now w)) (Db.tasks w)
        /\ forall t, In t (Intake.selected w') -> Db.task_id t <> Db.task_id first).
Proof.
  intros picked w'. subst picked w'.
  destruct (Intake.selected_oldest w) as [Hlen [Hpicked Holdest]].
  split; [exact Hlen | ]. split; [exact Hpicked | ]. split; [exact Holdest | ]. split.
  - intros Hplanner Hhub. unfold Effects.outcome, Effects.exec.
    rewrite Intake.processPendingTasks_selected. now apply Intake.take_all.
  - intros Hnone first rest Hsel.
    assert (Hfind : Db.first_where
                      (fun a => Db.sql_eq (Some (Db.agent_type a)) (Some "planner"))
                      (Db.agents w) = None).
    { unfold Db.first_where.
      destruct (List.find _ (Db.agents w)) as [a | ] eqn:Hf; [ | reflexivity].
      exfalso. apply Hnone. apply find_some in Hf. destruct Hf as [Ha Hty].
      exists a. split; [exact Ha | ]. simpl in Hty. now apply String.eqb_eq in Hty. }
    assert (Hrun : exists msg,
              Loop.processPendingTasks w
              = (Db.set_tasks
                   (Db.update_where (fun r => Nat.eqb (Db.task_id r) (Db.task_id first))
                      (Intake.planning (Db.now w))) w,
                 inl (JS.TypeError msg))).
    { rewrite Intake.processPendingTasks_selected, Hsel. simpl for_each.
      unfold Intake.take, Loop.getAgentByType, Effects.bind, Effects.read, Effects.modify,
        Effects.defined, Effects.throw.
      cbn [Db.agents Db.set_tasks]. rewrite Hfind. eexists. reflexivity. }
    destruct Hrun as [msg Hrun]. unfold Effects.outcome, Effects.exec. rewrite Hrun. simpl.
    split; [now exists msg | ]. split; [reflexivity | ].
    intros t Ht Hid.
    destruct (Intake.selected_oldest
                (Db.set_tasks
                   (Db.update_where (fun r => Nat.eqb (Db.task_id r) (Db.task_id first))
                      (Intake.planning (Db.now w))) w)) as [_ [Hpicked' _]].
    destruct (Hpicked' t Ht) as [Hin Hpending]. simpl in Hin.
    apply Frame.in_update_where in Hin. destruct Hin as [r [_ Hr]].
    destruct (Nat.eqb (Db.task_id r) (Db.task_id first)) eqn:Hk; subst t.
    + discriminate Hpending.
    + apply Nat.eqb_neq in Hk. contradiction.
Qed.

Lemma intake_takes_the_oldest_pending_tasks_witness :
  exists msg, Effects.outcome Loop.processPendingTasks TickSpec.no_planner
              = inl (JS.TypeError msg).
Proof.
  apply (proj2 (proj2 (proj2 (proj2
           (intake_takes_the_oldest_pending_tasks TickSpec.no_planner))))
           ltac:(intros [a [[<- | []] Hty]]; discriminate Hty)
           (Scenario.a_task 10 Db.TASK_PENDING) [] eq_refl).
Defined.

(* ================================================================== *)
(** * The movement phase *)
(* ================================================================== *)

Module Movement.

Import Db Effects Frame Hoare.

(** The [WHERE] clause of [updateAgentPositions()]. *)
Definition is_moving (a : Agent) : bool :=
  match target_hub a with Some _ => true | None => false end
  && State.status_eqb (agent_status a) State.TRAVELING.

(** The row of the agent's target hub. *)
Definition hub_of (w : World) (a : Agent) : option Hub :=
  first_where (fun h => sql_eq (Some (hub_id h)) (target_hub a)) (hubs w).

(** The row that the pass writes for an agent bound for [hub]: on arrival
    the agent is idle at the hub, at the hub's coordinates; otherwise it has
    the coordinates that [moveAgentToHub] assigned. *)
Definition toward (hub : Hub) (a : Agent) : Agent :=
  let moved :=
    Pathfinding.moveAgentToHub
      (position_x a, position_y a) (hub_position_x hub, hub_position_y hub)
      Loop.AGENT_SPEED (PrimFloat.div Loop.TICK_INTERVAL 1000%float) in
  if fst moved then
    mkAgent (agent_id a) (agent_type a) (target_hub a) None State.IDLE (agent_doing a)
      (hub_position_x hub) (hub_position_y hub) (position_z a)
  else
    mkAgent (agent_id a) (agent_type a) (current_hub a) (target_hub a) (agent_status a)
      (agent_doing a) (fst (snd moved)) (snd (snd moved)) (position_z a).

Definition stepped (w : World) (a : Agent) : Agent :=
  match hub_of w a with
  | Some hub => toward hub a
  | None => a
  end.

Lemma toward_id (hub : Hub) (a : Agent) : agent_id (toward hub a) = agent_id a.
Proof. unfold toward. now destruct (fst _). Qed.

Lemma stepped_id (w : World) (a : Agent) : agent_id (stepped w a) = agent_id a.
Proof. unfold stepped. destruct (hub_of w a); [apply toward_id | reflexivity]. Qed.

(** One iteration of the loop, for a row of the table. *)
Lemma moveOneAgent_row (agent : Agent) (hub : Hub) (w : World) :
  NoDup (map agent_id (agents w)) -> In agent (agents w) -> hub_of w agent = Some hub ->
  snd (Loop.moveOneAgent agent w) = inr tt
  /\ agents (fst (Loop.moveOneAgent agent w))
     = map (fun a => if Nat.eqb (agent_id a) (agent_id agent) then stepped w a else a) (agents w)
  /\ hubs (fst (Loop.moveOneAgent agent w)) = hubs w.
Proof.
  intros Hnd Hin Hhub.
  assert (Hrows : forall x, In x (agents w) -> Nat.eqb (agent_id x) (agent_id agent) = true ->
                            x = agent).
  { intros x Hx Hk. apply Nat.eqb_eq in Hk.
    apply (Delivery.key_determines_row agent_id (agents w)); assumption. }
  unfold Loop.moveOneAgent, Loop.getHub, bind, read, defined, emit, modify, ret.
  unfold hub_of in Hhub. rewrite Hhub.
  destruct (fst (Pathfinding.moveAgentToHub _ _ _ _)) eqn:Harrived; simpl;
    (split; [reflexivity | ]); (split; [ | reflexivity]);
    unfold update_where; apply map_ext_in; intros x Hx;
    (destruct (Nat.eqb (agent_id x) (agent_id agent)) eqn:Hk; [ | reflexivity]);
    rewrite (Hrows x Hx Hk); unfold stepped, hub_of; rewrite Hhub; unfold toward;
    rewrite Harrived; reflexivity.
Qed.

(** The loop over some of the traveling agents. *)
Lemma move_all (rows : list Agent) (w0 w : World) :
  NoDup (map agent_id (agents w)) -> NoDup (map agent_id rows) -> hubs w = hubs w0 ->
  (forall r, In r rows -> In r (agents w) /\ hub_of w0 r <> None) ->
  snd (for_each rows Loop.moveOneAgent w) = inr tt
  /\ agents (fst (for_each rows Loop.moveOneAgent w))
     = map (fun a => if existsb (fun r => Nat.eqb (agent_id a) (agent_id r)) rows
                     then stepped w0 a else a) (agents w).
Proof.
  revert w. induction rows as [ | r rest IH]; intros w Hnd Hrows Hhubs Hin.
  - split; [reflexivity | ]. simpl. symmetry. apply map_id.
  - destruct (Hin r (or_introl eq_refl)) as [Hr Hhub].
    assert (Hsame : forall a, stepped w a = stepped w0 a).
    { intro a. unfold stepped, hub_of. now rewrite Hhubs. }
    destruct (hub_of w0 r) as [hub | ] eqn:Hh; [ | contradiction].
    assert (Hh' : hub_of w r = Some hub) by (unfold hub_of in *; now rewrite Hhubs).
    destruct (moveOneAgent_row r hub w Hnd Hr Hh') as [Hret [Hag Hhubs1]].
    simpl for_each. unfold bind.
    destruct (Loop.moveOneAgent r w) as [w1 res]. simpl in *. subst res.
    inversion Hrows as [ | ? ? Hnotin Hrest]; subst.
    assert (Hids : map agent_id (agents w1) = map agent_id (agents w)).
    { rewrite Hag, map_map. apply map_ext. intro a.
      destruct (Nat.eqb (agent_id a) (agent_id r)); [apply stepped_id | reflexivity]. }
    destruct (IH w1) as [Hret' Hag'].
    + now rewrite Hids.
    + exact Hrest.
    + congruence.
    + intros r' Hr'. destruct (Hin r' (or_intror Hr')) as [Hr'w Hh'']. split; [ | exact Hh''].
      rewrite Hag. apply in_map_iff. exists r'. split; [ | exact Hr'w].
      destruct (Nat.eqb (agent_id r') (agent_id r)) eqn:Hk; [ | reflexivity].
      exfalso. apply Hnotin. apply Nat.eqb_eq in Hk. rewrite <- Hk. now apply in_map.
    + split; [exact Hret' | ]. rewrite Hag', Hag, map_map. apply map_ext. intro a.
      destruct (Nat.eqb (agent_id a) (agent_id r)) eqn:Hk; simpl.
      * rewrite stepped_id, Hsame.
        replace (existsb (fun r0 => Nat.eqb (agent_id a) (agent_id r0)) rest) with false;
          [reflexivity | ].
        symmetry. apply not_true_is_false. intro Hex. apply existsb_exists in Hex.
        destruct Hex as [r' [Hr' Hk']]. apply Hnotin.
        apply Nat.eqb_eq in Hk, Hk'. rewrite <- Hk, Hk'. now apply in_map.
      * reflexivity.
Qed.

Lemma nodup_filter_keys (p : Agent -> bool) (rows : list Agent) :
  NoDup (map agent_id rows) -> NoDup (map agent_id (filter p rows)).
Proof.
  induction rows as [ | a rest IH]; simpl; intro Hnd; [constructor | ].
  inversion Hnd as [ | ? ? Hnotin Hrest]; subst.
  destruct (p a); simpl; [ | now apply IH].
  constructor; [ | now apply IH].
  intro Hin. apply Hnotin. apply in_map_iff in Hin. destruct Hin as [x [Hx Hin]].
  apply filter_In in Hin. rewrite <- Hx. apply in_map. apply Hin.
Qed.

(** A designer on the way to the studio, one step from arriving, and a coder
    at the desk. *)
Definition arriving : World :=
  mkWorld Scenario.seed_hubs
    [ mkAgent 2 "designer" (Some "town_square") (Some "design_studio") State.TRAVELING None
        5 3 0;
      Cases.coder ]
    [] [] [] [] [] true [] [] 0%Z 100 0.

End Movement.

(** [updateAgentPositions()], the agents having unique keys.  When the target
    hub of every traveling agent is in the table, the pass returns and has
    written each row once: a row that is [traveling] with a target hub is the
    row [Movement.toward] of its hub (idle at the hub, at the hub's
    coordinates and with no target, when [moveAgentToHub] declared arrival;
    otherwise unchanged but for the coordinates), and every other row is left
    as it was.  When the target hub of the first traveling agent is not in
    the table the pass throws a TypeError and writes nothing. *)
Theorem movement_phase_steps_each_traveling_agent_once (w : Db.World) :
  NoDup (map Db.agent_id (Db.agents w)) ->
  ((forall a, In a (Db.agents w) -> Movement.is_moving a = true -> Movement.hub_of w a <> None) ->
     Effects.outcome Loop.updateAgentPositions w = inr tt
     /\ Db.agents (Effects.exec Loop.updateAgentPositions w)
        = map (fun a => if Movement.is_moving a then Movement.stepped w a else a) (Db.agents w))
  /\ (forall first rest,
        filter Movement.is_moving (Db.agents w) = first :: rest ->
        Movement.hub_of w first = None ->
        exists msg, Loop.updateAgentPositions w = (w, inl (JS.TypeError msg))).
Proof.
  intro Hnd. split.
  - intro Hhubs.
    destruct (Movement.move_all (filter Movement.is_moving (Db.agents w)) w w Hnd) as [Hret Hag].
    + now apply Movement.nodup_filter_keys.
    + reflexivity.
    + intros r Hr. apply filter_In in Hr. destruct Hr as [Hr Hsel]. split; [exact Hr | ].
      now apply Hhubs.
    + unfold Effects.outcome, Effects.exec.
      change (Loop.updateAgentPositions w)
        with (for_each (filter Movement.is_moving (Db.agents w)) Loop.moveOneAgent w).
      split; [exact Hret | ]. rewrite Hag. apply map_ext_in. intros a Ha.
      destruct (Movement.is_moving a) eqn:Hsel.
      * replace (existsb _ _) with true; [reflexivity | ]. symmetry. apply existsb_exists.
        exists a. split; [ | apply Nat.eqb_refl]. apply filter_In. now split.
      * replace (existsb _ _) with false; [reflexivity | ]. symmetry.
        apply not_true_is_false. intro Hex. apply existsb_exists in Hex.
        destruct Hex as [r [Hr Hk]]. apply filter_In in Hr. destruct Hr as [Hr Hmoving].
        apply Nat.eqb_eq in Hk.
        assert (a = r) by (apply (Delivery.key_determines_row Db.agent_id (Db.agents w));
                           assumption).
        subst r. congruence.
  - intros first rest Hsel Hnone.
    change (Loop.updateAgentPositions w)
      with (for_each (filter Movement.is_moving (Db.agents w)) Loop.moveOneAgent w).
    rewrite Hsel. simpl for_each.
    unfold Loop.moveOneAgent, Loop.getHub, Effects.bind, Effects.read, Effects.defined,
      Effects.throw.
    unfold Movement.hub_of in Hnone. rewrite Hnone. eexists. reflexivity.
Qed.

Lemma movement_phase_steps_each_traveling_agent_once_witness :
  map (fun a => (Db.current_hub a, Db.target_hub a, Db.agent_status a))
    (Db.agents (Effects.exec Loop.updateAgentPositions Movement.arriving))
  = [ (Some "design_studio", None, State.IDLE); (Some "coding_desk", None, State.IDLE) ].
Proof.
  rewrite (proj2 (proj1 (movement_phase_steps_each_traveling_agent_once Movement.arriving
                           ltac:(repeat constructor; simpl; intuition discriminate))
                    ltac:(intros a [<- | [<- | []]] H; [discriminate | discriminate H]))).
  reflexivity.
Defined.

(* ================================================================== *)
(** * The agent state machine: what can be reached, and serialization *)
(* ================================================================== *)

Module Reach.

(** A sequence of [transition(event, payload)] calls on one object; the
    rejected ones leave it as it is. *)
Definition run (calls : list (State.AgentEvents * State.Payload)) (st : State.AgentState)
    : State.AgentState :=
  fold_left (fun s call => snd (State.transition (fst call) (snd call) s)) calls st.

(** The statuses on the idle side of the table. *)
Definition at_rest (s : State.AgentStatus) : Prop :=
  s = State.IDLE \/ s = State.TRAVELING \/ s = State.CHATTING.

Lemma transition_at_rest (e : State.AgentEvents) (p : State.Payload) (st : State.AgentState) :
  at_rest (State.status st) -> at_rest (State.status (snd (State.transition e p st))).
Proof.
  intro H. unfold State.transition, State.canTransition.
  destruct (State.transitions (State.status st) e) as [t | ] eqn:Ht; simpl; [ | exact H].
  assert (Hnew : at_rest t).
  { unfold at_rest in *. destruct H as [H | [H | H]]; rewrite H in Ht;
      destruct e; simpl in Ht; inversion Ht; auto. }
  destruct e; exact Hnew.
Qed.

(** A state as [start()] builds it from a seeded row. *)
Definition fresh : State.AgentState := Loop.new_AgentState (Scenario.seed_agent 3 "coder").

End Reach.

(** What the transition table cannot do.  [start_work] is listed under no
    status, so [startWork(doing)] is rejected whatever the state; no entry of
    the table leads to [waiting]; and [working] is entered only from
    [waiting] or [blocked], which are entered only from [working].  Hence an
    agent state that is idle, traveling or chatting stays among these three
    statuses under every sequence of [transition] calls: it never becomes
    [working], and [completeWork()], [block()] and [unblock()] are rejected
    on it. *)
Theorem working_is_unreachable_from_idle :
  (forall doing st, State.startWork doing st = (false, st))
  /\ (forall s e t, State.transitions s e = Some t -> t <> State.WAITING)
  /\ (forall st calls,
        Reach.at_rest (State.status st) ->
        let st' := Reach.run calls st in
        Reach.at_rest (State.status st')
        /\ State.completeWork st' = (false, st')
        /\ State.block st' = (false, st')
        /\ State.unblock st' = (false, st')).
Proof.
  split; [ | split].
  - intros doing st. apply State.transition_rejects. now destruct (State.status st).
  - intros s e t H. destruct s, e; simpl in H; inversion H; discriminate.
  - intros st calls Hrest st'.
    assert (Hrest' : Reach.at_rest (State.status st')).
    { subst st'. revert st Hrest. induction calls as [ | [e p] rest IH]; intros st Hrest.
      - exact Hrest.
      - simpl. apply IH. now apply Reach.transition_at_rest. }
    split; [exact Hrest' | ].
    repeat split; apply State.transition_rejects;
      destruct Hrest' as [H | [H | H]]; rewrite H; reflexivity.
Qed.

Lemma working_is_unreachable_from_idle_witness :
  let st' := Reach.run [ (State.ASSIGN_TASK, State.mkPayload (Some 10) (Some 21)
                            (Some "coding_desk") None None None);
                         (State.ARRIVE, State.no_payload);
                         (State.START_WORK, State.mkPayload None None None None
                            (Some "writing code") None) ] Reach.fresh in
  Reach.at_rest (State.status st') /\ State.completeWork st' = (false, st').
Proof.
  intro st'.
  destruct (proj2 (proj2 working_is_unreachable_from_idle) Reach.fresh
              [ (State.ASSIGN_TASK, State.mkPayload (Some 10) (Some 21)
                   (Some "coding_desk") None None None);
                (State.ARRIVE, State.no_payload);
                (State.START_WORK, State.mkPayload None None None None
                   (Some "writing code") None) ]
              (or_introl eq_refl)) as [H1 [H2 _]].
  split; [exact H1 | exact H2].
Defined.

Module Serialization.

(** The position as the constructor stores it: [z || 0]. *)
Definition stored (p : State.Position) : State.Position :=
  State.mkPosition (State.px p) (State.py p) (JS.num_or_zero (State.pz p)).

Lemma num_or_zero_twice (x : float) : JS.num_or_zero (JS.num_or_zero x) = JS.num_or_zero x.
Proof.
  unfold JS.num_or_zero.
  destruct (PrimFloat.is_zero x || PrimFloat.is_nan x) eqn:H; [reflexivity | now rewrite H].
Qed.

Lemma stored_twice (p : State.Position) : stored (stored p) = stored p.
Proof. unfold stored. simpl. now rewrite num_or_zero_twice. Qed.

End Serialization.

(** [AgentState.fromJSON] undoes [toJSON()] up to two things: the listeners
    are not serialized (the restored object starts with none, and nothing has
    been sent to it), and the constructor stores [z || 0], so a [z] that is
    [NaN] or [-0] comes back as [0].  Every other field is restored, the
    task, the subtask and the chat partner included.  In the other direction
    the data survive up to the same change of [z], and restoring twice is
    restoring once. *)
Theorem fromJSON_restores_what_toJSON_wrote (st : State.AgentState) (data : State.StateData) :
  AgentStateManager.fromJSON (State.toJSON st)
  = State.mkAgentState (State.agentId st) (State.agentType st) (State.status st)
      (State.currentHub st) (State.targetHub st) (State.currentTask st)
      (State.currentSubtask st) (Serialization.stored (State.position st))
      (State.doing st) (State.chattingWith st) []
  /\ State.toJSON (AgentStateManager.fromJSON data)
     = State.mkStateData (State.d_agentId data) (State.d_agentType data) (State.d_status data)
         (State.d_currentHub data) (State.d_targetHub data) (State.d_currentTask data)
         (State.d_currentSubtask data) (Serialization.stored (State.d_position data))
         (State.d_doing data) (State.d_chattingWith data)
  /\ AgentStateManager.fromJSON (State.toJSON (AgentStateManager.fromJSON data))
     = AgentStateManager.fromJSON data.
Proof.
  split; [reflexivity | ]. split; [reflexivity | ].
  unfold AgentStateManager.fromJSON, State.toJSON, Loop.new_AgentState. simpl.
  now rewrite Serialization.num_or_zero_twice.
Qed.

(* ================================================================== *)
(** * From submission to the planner; starting and stopping the loop *)
(* ================================================================== *)

Module Submission.

Import Db Effects.

Lemma order_by_length {A : Type} (key : A -> Z) (l : list A) :
  List.length (order_by key l) = List.length l.
Proof. apply Permutation_length. apply OrderBy.order_by_perm. Qed.

(** With at most five pending tasks, the pass takes them all. *)
Lemma selected_all (w : World) (t : Task) :
  List.length (filter Intake.pending (tasks w)) <= 5 ->
  In t (tasks w) -> task_status t = TASK_PENDING -> In t (Intake.selected w).
Proof.
  intros Hlen Hin Hp. unfold Intake.selected.
  rewrite firstn_all2 by (now rewrite order_by_length).
  apply OrderBy.in_order_by. apply filter_In. split; [exact Hin | ].
  unfold Intake.pending. now rewrite Hp.
Qed.

End Submission.

(** A submitted task reaches the planner in the next intake.  [POST
    /api/tasks] with a prompt appends a [pending] task whose key is fresh;
    when fewer than five tasks were pending, and a planner and the planning
    room are in the tables, the next [processPendingTasks()] returns, the
    task is [planning] with the start time of the pass, and no task is left
    [pending]. *)
Theorem submitted_task_reaches_the_planner
    (prompt : string) (userId : option string) (task : Db.Task) (w w1 : Db.World) :
  Routes.createTask prompt userId w = (w1, Some task) ->
  List.length (filter Intake.pending (Db.tasks w)) < 5 ->
  Intake.has_planner w -> Db.has_hub "planning_room" w = true ->
  let w2 := Effects.exec Loop.processPendingTasks w1 in
  Db.task_status task = Db.TASK_PENDING /\ Db.task_id task = Db.next_id w
  /\ Db.tasks w1 = Db.tasks w ++ [task]
  /\ Effects.outcome Loop.processPendingTasks w1 = inr tt
  /\ In (Intake.planning (Db.now w) task) (Db.tasks w2)
  /\ (forall t, In t (Db.tasks w2) -> Db.task_status t <> Db.TASK_PENDING).
Proof.
  intros Hcreate Hfew Hplanner Hhub w2. subst w2.
  unfold Routes.createTask in Hcreate.
  destruct (String.eqb prompt ""); [discriminate Hcreate | ].
  injection Hcreate as Hw1 Htask.
  assert (Hrows : Db.tasks w1 = Db.tasks w ++ [task]) by (subst w1 task; reflexivity).
  assert (Hstaff : Db.agents w1 = Db.agents w /\ Db.hubs w1 = Db.hubs w /\ Db.now w1 = Db.now w)
    by (subst w1; repeat split).
  destruct Hstaff as [Hag [Hhubs Hnow]].
  assert (Hplanner1 : Intake.has_planner w1) by (unfold Intake.has_planner; now rewrite Hag).
  assert (Hhub1 : Db.has_hub "planning_room" w1 = true)
    by (unfold Db.has_hub; now rewrite Hhubs).
  assert (Hstatus : Db.task_status task = Db.TASK_PENDING) by (subst task; reflexivity).
  assert (Hfew1 : List.length (filter Intake.pending (Db.tasks w1)) <= 5).
  { rewrite Hrows, filter_app, length_app. simpl.
    destruct (Intake.pending task); simpl; lia. }
  split; [exact Hstatus | ]. split; [subst task; reflexivity | ]. split; [exact Hrows | ].
  unfold Effects.outcome, Effects.exec. rewrite Intake.processPendingTasks_selected.
  destruct (Intake.take_all (Intake.selected w1) w1 Hplanner1 Hhub1) as [Hret Htasks].
  split; [exact Hret | ]. rewrite Htasks, Hnow.
  assert (Hmarked : forall t, In t (Db.tasks w1) -> Db.task_status t = Db.TASK_PENDING ->
            existsb (fun p => Nat.eqb (Db.task_id t) (Db.task_id p)) (Intake.selected w1) = true).
  { intros t Ht Hp. apply existsb_exists. exists t.
    split; [now apply Submission.selected_all | apply Nat.eqb_refl]. }
  split.
  - apply Frame.in_update_where. exists task. split.
    + rewrite Hrows. apply in_app_iff. right. now left.
    + rewrite Hmarked; [reflexivity | | exact Hstatus].
      rewrite Hrows. apply in_app_iff. right. now left.
  - intros t Ht Hp. apply Frame.in_update_where in Ht. destruct Ht as [r [Hr Ht]].
    destruct (existsb _ (Intake.selected w1)) eqn:Hex; subst t.
    + discriminate Hp.
    + rewrite (Hmarked r Hr Hp) in Hex. discriminate Hex.
Qed.

Lemma submitted_task_reaches_the_planner_witness :
  In (Intake.planning 0%Z
        (Db.mkTask 100 "build a page" "anonymous" Db.TASK_PENDING 0%Z None None None None None))
     (Db.tasks (Effects.exec Loop.processPendingTasks
                  (fst (Routes.createTask "build a page" None Scenario.seed_world)))).
Proof.
  exact (proj1 (proj2 (proj2 (proj2 (proj2
           (submitted_task_reaches_the_planner "build a page" None
              (Db.mkTask 100 "build a page" "anonymous" Db.TASK_PENDING 0%Z
                 None None None None None)
              Scenario.seed_world
              (fst (Routes.createTask "build a page" None Scenario.seed_world))
              eq_refl ltac:(simpl; lia)
              ltac:(exists (Scenario.seed_agent 1 "planner"); split;
                    [left; reflexivity | reflexivity])
              eq_refl)))))).
Defined.

Module Lifetime.

Import Db Effects Frame Hoare.

Lemma map_set_fresh {V : Type} (k : nat) (v : V) (m : list (nat * V)) :
  ~ In k (map fst m) -> Loop.map_set k v m = m ++ [(k, v)].
Proof.
  induction m as [ | [k' v'] rest IH]; simpl; intro Hfresh; [reflexivity | ].
  destruct (Nat.eqb k' k) eqn:Hk.
  - apply Nat.eqb_eq in Hk. exfalso. apply Hfresh. now left.
  - f_equal. apply IH. intro Hin. apply Hfresh. now right.
Qed.

(** The loop of [start()] over rows with unique keys, none of them
    registered yet. *)
Lemma register_all (rows : list Agent) (m : list (nat * State.AgentState)) :
  NoDup (map agent_id rows) ->
  (forall a, In a rows -> ~ In (agent_id a) (map fst m)) ->
  fold_left (fun acc agent => Loop.map_set (agent_id agent) (Loop.new_AgentState agent) acc)
    rows m
  = m ++ map (fun a => (agent_id a, Loop.new_AgentState a)) rows.
Proof.
  revert m. induction rows as [ | a rest IH]; intros m Hnd Hfresh; simpl.
  - now rewrite app_nil_r.
  - inversion Hnd as [ | ? ? Hnotin Hrest]; subst.
    rewrite (map_set_fresh _ _ m (Hfresh a (or_introl eq_refl))).
    rewrite IH; [now rewrite <- app_assoc | exact Hrest | ].
    intros b Hb Hin. rewrite map_app in Hin. apply in_app_iff in Hin.
    destruct Hin as [Hin | [Hin | []]].
    + apply (Hfresh b (or_intror Hb) Hin).
    + simpl in Hin. apply Hnotin. rewrite Hin. now apply in_map.
Qed.

Lemma tick_keeps_running (env : Env.Runtime) (w : World) :
  running (fst (Loop.tick env w)) = running w.
Proof.
  unfold Loop.tick. destruct (negb (running w)) eqn:Hr; [reflexivity | ].
  assert (Hk : keeps running (Loop.phases env)).
  { unfold Loop.phases.
    pose proof (@LoopFrame.processPendingTasks_keeps).
    pose proof (@LoopFrame.updateAgentPositions_keeps).
    pose proof (@LoopFrame.processSubtasks_keeps).
    pose proof (@LoopFrame.processMessages_keeps).
    frame. }
  specialize (Hk w). destruct (Loop.phases env w) as [w' [e | u]]; exact Hk.
Qed.

End Lifetime.

(** Starting and stopping the loop.  After [stop()] a tick does nothing and
    does not schedule a successor: the chain of ticks ends.  [start()] does
    not look at [running]: every call sets it, runs a tick and schedules the
    next one, so a second call starts a second chain of ticks.  On a fresh
    orchestrator whose agents have unique keys and are not traveling,
    [start()] registers one in-memory state per agent row, in row order,
    built from the row. *)
Theorem start_registers_the_agents_and_stop_ends_the_ticks (env : Env.Runtime) (w : Db.World) :
  Loop.tick env (Loop.stop w) = (Loop.stop w, Loop.mkTickResult None false)
  /\ Loop.rescheduled (snd (Loop.start env w)) = true
  /\ Db.running (fst (Loop.start env w)) = true
  /\ (Db.agentStates w = [] -> NoDup (map Db.agent_id (Db.agents w)) ->
      (forall a, In a (Db.agents w) -> Db.agent_status a <> State.TRAVELING) ->
      Db.agentStates (fst (Loop.start env w))
      = map (fun a => (Db.agent_id a, Loop.new_AgentState a)) (Db.agents w)).
Proof.
  split; [reflexivity | ]. split; [ | split].
  - unfold Loop.start, Loop.tick. simpl.
    now destruct (Loop.phases env _) as [w' [e | u]].
  - unfold Loop.start. now rewrite Lifetime.tick_keeps_running.
  - intros Hfresh Hnd Hidle. unfold Loop.start.
    set (w2 := Db.set_agentStates _ (Db.set_running true w)).
    assert (Hreg : Db.agentStates w2
                   = map (fun a => (Db.agent_id a, Loop.new_AgentState a)) (Db.agents w)).
    { unfold w2. simpl. rewrite Hfresh.
      rewrite (Lifetime.register_all (Db.agents w) [] Hnd); [reflexivity | ].
      intros a _ []. }
    rewrite <- Hreg. apply (InMemory.tick_same env w2); [ | reflexivity].
    intros id st Hin. rewrite Hreg in Hin. apply in_map_iff in Hin.
    destruct Hin as [a [Heq Ha]]. injection Heq as _ <-. simpl. now apply Hidle.
Qed.

(* ================================================================== *)
(** * src/agents/claude.js: conversations and the structured block *)
(* ================================================================== *)

Module Chat.

Import Db Effects.

(** A call for an agent type that names a property of [agentConfigs], answered
    by the service. *)
Lemma callAgent_answered (env : Env.Runtime) (agentType prompt text : string) (w : World) :
  Claude.config_of agentType <> JS.Absent ->
  Env.messages_create env (calls w) agentType prompt = inr text ->
  Claude.callAgent env agentType prompt w = (bump_calls w, inr text).
Proof.
  intros Hknown Hanswer. unfold Claude.callAgent.
  destruct (Claude.config_of agentType); [ | | contradiction];
    unfold bind, read, modify; now rewrite Hanswer.
Qed.

(** The speakers of [rounds] rounds. *)
Fixpoint speakers (agent1Type agent2Type : string) (rounds : nat) : list string :=
  match rounds with
  | 0 => []
  | S remaining => agent1Type :: agent2Type :: speakers agent1Type agent2Type remaining
  end.

Lemma agentChat_loop_answered (env : Env.Runtime) (agent1Type agent2Type : string)
    (rounds : nat) :
  Claude.config_of agent1Type <> JS.Absent -> Claude.config_of agent2Type <> JS.Absent ->
  (forall n agentType prompt, exists text, Env.messages_create env n agentType prompt = inr text) ->
  forall context conversation w,
  exists said w',
    Claude.agentChat_loop env agent1Type agent2Type context rounds conversation w
    = (w', inr (conversation ++ said))
    /\ map fst said = speakers agent1Type agent2Type rounds
    /\ calls w' = calls w + 2 * rounds
    /\ (tasks w', subtasks w', agents w', messages w', events w')
       = (tasks w, subtasks w, agents w, messages w, events w).
Proof.
  intros H1 H2 Hservice. induction rounds as [ | remaining IH]; intros context conversation w.
  - exists [], w. simpl. rewrite app_nil_r. repeat split. lia.
  - cbn [Claude.agentChat_loop].
    match goal with
    | |- context [Claude.callAgent env agent1Type ?p] => set (prompt1 := p)
    end.
    destruct (Hservice (calls w) agent1Type prompt1) as [msg1 Hmsg1].
    rewrite (bind_run _ _ w (bump_calls w) (inr msg1)
               (callAgent_answered env agent1Type prompt1 msg1 w H1 Hmsg1)).
    match goal with
    | |- context [Claude.callAgent env agent2Type ?p] => set (prompt2 := p)
    end.
    destruct (Hservice (calls (bump_calls w)) agent2Type prompt2) as [msg2 Hmsg2].
    rewrite (bind_run _ _ (bump_calls w) (bump_calls (bump_calls w)) (inr msg2)
               (callAgent_answered env agent2Type prompt2 msg2 (bump_calls w) H2 Hmsg2)).
    destruct (IH msg2 (conversation ++ [(agent1Type, msg1); (agent2Type, msg2)])
                (bump_calls (bump_calls w))) as [said [w' [Hrun [Hfrom [Hcalls Hsame]]]]].
    exists ((agent1Type, msg1) :: (agent2Type, msg2) :: said), w'.
    rewrite Hrun. split; [now rewrite <- app_assoc | ]. split; [simpl; now rewrite Hfrom | ].
    split; [rewrite Hcalls; simpl; lia | exact Hsame].
Qed.

End Chat.

(** [agentChat(agent1Type, agent2Type, topic, rounds)] with both types
    naming a property of [agentConfigs] (one of the four configurations, or a
    property that every object inherits, such as [constructor]) and a service
    that answers: it returns a conversation of [2 * rounds] entries in which
    the two agents alternate, the first agent speaking first, after exactly
    [2 * rounds] reasoning calls; without [rounds] two rounds are held.  With
    a first agent type that names no property of [agentConfigs], own or
    inherited, and at least one round, it throws before any call. *)
Theorem agentChat_alternates_the_speakers
    (env : Env.Runtime) (agent1Type agent2Type topic : string) (rounds : nat) (w : Db.World) :
  (Claude.config_of agent1Type <> JS.Absent -> Claude.config_of agent2Type <> JS.Absent ->
   (forall n agentType prompt,
      exists text, Env.messages_create env n agentType prompt = inr text) ->
   exists conversation w',
     Claude.agentChat env agent1Type agent2Type topic (Some rounds) w = (w', inr conversation)
     /\ map fst conversation = Chat.speakers agent1Type agent2Type rounds
     /\ List.length conversation = 2 * rounds
     /\ Db.calls w' = Db.calls w + 2 * rounds)
  /\ Claude.agentChat env agent1Type agent2Type topic None
     = Claude.agentChat env agent1Type agent2Type topic (Some 2)
  /\ (Claude.config_of agent1Type = JS.Absent ->
      Claude.agentChat env agent1Type agent2Type topic (Some (S rounds)) w
      = (w, inl (JS.Error ("Unknown agent type: " ++ agent1Type)))).
Proof.
  split; [ | split].
  - intros H1 H2 Hservice.
    destruct (Chat.agentChat_loop_answered env agent1Type agent2Type rounds H1 H2 Hservice
                topic [] w) as [said [w' [Hrun [Hfrom [Hcalls _]]]]].
    exists said, w'. split; [exact Hrun | ]. split; [exact Hfrom | ]. split; [ | exact Hcalls].
    rewrite <- (length_map fst), Hfrom.
    clear. induction rounds as [ | n IH]; simpl; [reflexivity | rewrite IH; lia].
  - reflexivity.
  - intro Hnone. unfold Claude.agentChat. simpl. unfold Effects.bind at 1.
    unfold Claude.callAgent. now rewrite Hnone.
Qed.

Module Braces.

(** The character does not occur in the string. *)
Definition absent (c : ascii) (s : string) : Prop := Claude.first_index c s = None.

Lemma last_index_none (c : ascii) (s : string) :
  Claude.first_index c s = None -> Claude.last_index c s = None.
Proof.
  induction s as [ | a rest IH]; simpl; [reflexivity | ].
  destruct (Ascii.eqb a c); [discriminate | ].
  destruct (Claude.first_index c rest); [discriminate | ].
  intros _. now rewrite IH.
Qed.

Lemma first_index_app (c : ascii) (p rest : string) :
  absent c p -> Claude.first_index c (p ++ String c rest) = Some (String.length p).
Proof.
  unfold absent. induction p as [ | a p' IH]; simpl.
  - intros _. now rewrite Ascii.eqb_refl.
  - destruct (Ascii.eqb a c); [discriminate | ].
    destruct (Claude.first_index c p') eqn:Hp; [discriminate | ].
    intros _. now rewrite IH.
Qed.

Lemma last_index_app (c : ascii) (s q : string) :
  absent c q -> Claude.last_index c (s ++ String c q) = Some (String.length s).
Proof.
  intro Hq. induction s as [ | a s' IH]; simpl.
  - rewrite (last_index_none c q Hq). now rewrite Ascii.eqb_refl.
  - now rewrite IH.
Qed.

Lemma substring_prefix (b q : string) : String.substring 0 (String.length b) (b ++ q) = b.
Proof. induction b as [ | a b' IH]; simpl; [now destruct q | now rewrite IH]. Qed.

Lemma substring_app (p b q : string) :
  String.substring (String.length p) (String.length b) (p ++ b ++ q) = b.
Proof. induction p as [ | a p' IH]; simpl; [apply substring_prefix | exact IH]. Qed.

Lemma length_app (a b : string) :
  String.length (a ++ b) = String.length a + String.length b.
Proof. induction a as [ | c a' IH]; simpl; [reflexivity | now rewrite IH]. Qed.

Lemma app_assoc (a b c : string) : ((a ++ b) ++ c = a ++ b ++ c)%string.
Proof. induction a as [ | x a' IH]; simpl; [reflexivity | now rewrite IH]. Qed.

(** Two objects in one reply. *)
Definition two_objects : string := "{a} and {b}".

End Braces.

(** The structured block that [parseAgentResponse] of claude.js hands to
    [JSON.parse] runs from the first opening brace of the reply to its last
    closing brace: for a reply [prefix {body} suffix] with no opening brace
    in the prefix and no closing brace in the suffix the block is [{body}],
    whatever braces the body holds.  Prose around one object is dropped; but
    two objects in one reply, or a closing brace in the prose that follows,
    are read as a single block, and the reply degrades to plain output when
    that block does not parse. *)
Theorem parseAgentResponse_reads_first_to_last_brace
    (env : Env.Runtime) (prefix body suffix : string) :
  Braces.absent "{" prefix -> Braces.absent "}" suffix ->
  let block := ("{" ++ body ++ "}")%string in
  let response := (prefix ++ block ++ suffix)%string in
  Claude.match_braces response = Some block
  /\ Claude.parseAgentResponse env response
     = match Env.JSON_parse env block with
       | Some parsed => parsed
       | None => Claude.plain_output response
       end.
Proof.
  intros Hprefix Hsuffix block response.
  assert (Hmatch : Claude.match_braces response = Some block).
  { assert (Hfirst : response = (prefix ++ String "{" ((body ++ "}") ++ suffix))%string)
      by reflexivity.
    assert (Hlast : response = ((prefix ++ String "{" body) ++ String "}" suffix)%string).
    { rewrite Hfirst, !Braces.app_assoc. reflexivity. }
    assert (Hblock : response = (prefix ++ block ++ suffix)%string) by reflexivity.
    unfold Claude.match_braces.
    rewrite Hfirst at 1. rewrite (Braces.first_index_app "{" prefix _ Hprefix).
    rewrite Hlast at 1. rewrite (Braces.last_index_app "}" _ suffix Hsuffix).
    rewrite Braces.length_app. simpl String.length.
    replace (Nat.ltb (String.length prefix) (String.length prefix + S (String.length body)))
      with true
      by (symmetry; apply Nat.ltb_lt; lia).
    f_equal.
    replace (String.length prefix + S (String.length body) - String.length prefix + 1)
      with (String.length block)
      by (unfold block; simpl; rewrite Braces.length_app; simpl; lia).
    rewrite Hblock. apply Braces.substring_app. }
  split; [exact Hmatch | ]. unfold Claude.parseAgentResponse. now rewrite Hmatch.
Qed.

Lemma parseAgentResponse_reads_first_to_last_brace_witness :
  Claude.match_braces Braces.two_objects = Some Braces.two_objects
  /\ Claude.parseAgentResponse Scenario.env_prose Braces.two_objects
     = Claude.plain_output Braces.two_objects.
Proof.
  apply (parseAgentResponse_reads_first_to_last_brace Scenario.env_prose "" "a} and {b" "");
    reflexivity.
Defined.

Module Registry.

Lemma map_get_set_same {V : Type} (k : nat) (v : V) (m : list (nat * V)) :
  Loop.map_get k (Loop.map_set k v m) = Some v.
Proof.
  unfold Loop.map_get. induction m as [ | [k' v'] rest IH]; simpl.
  - now rewrite Nat.eqb_refl.
  - destruct (Nat.eqb k' k) eqn:Hk; simpl; [now rewrite Nat.eqb_refl | now rewrite Hk].
Qed.

Lemma map_get_set_other {V : Type} (k k' : nat) (v : V) (m : list (nat * V)) :
  k' <> k -> Loop.map_get k' (Loop.map_set k v m) = Loop.map_get k' m.
Proof.
  intro Hne. unfold Loop.map_get. induction m as [ | [k0 v0] rest IH]; simpl.
  - replace (Nat.eqb k k') with false; [reflexivity | ].
    symmetry. apply Nat.eqb_neq. congruence.
  - destruct (Nat.eqb k0 k) eqn:Hk; simpl.
    + apply Nat.eqb_eq in Hk. subst k0.
      replace (Nat.eqb k k') with false; [reflexivity | ].
      symmetry. apply Nat.eqb_neq. congruence.
    + destruct (Nat.eqb k0 k'); [reflexivity | exact IH].
Qed.

Lemma map_set_keys {V : Type} (k : nat) (v : V) (m : list (nat * V)) :
  map fst (Loop.map_set k v m)
  = if existsb (Nat.eqb k) (map fst m) then map fst m else map fst m ++ [k].
Proof.
  induction m as [ | [k0 v0] rest IH]; simpl; [reflexivity | ].
  destruct (Nat.eqb k0 k) eqn:Hk; simpl.
  - apply Nat.eqb_eq in Hk. subst k0. now rewrite Nat.eqb_refl.
  - rewrite IH. replace (Nat.eqb k k0) with false.
    + simpl. now destruct (existsb (Nat.eqb k) (map fst rest)).
    + symmetry. apply Nat.eqb_neq. apply Nat.eqb_neq in Hk. congruence.
Qed.

End Registry.

(** The state manager is keyed by agent: after [set(agentId, agent)] the
    state under [agentId] is the fresh state of the row (no task, no subtask,
    whatever the state it replaces held), the states under the other keys are
    the ones they were, and the keys keep their order, a new key going last.
    [getByStatus(status)] returns the registered states with that status and
    no other; [getByType(type)] returns [null] exactly when no registered
    state has the type, and otherwise a registered state of that type. *)
Theorem manager_set_replaces_one_state
    (agentId : nat) (agent : Db.Agent) (m : AgentStateManager.Agents) :
  let state := fst (AgentStateManager.set agentId agent m) in
  let m' := snd (AgentStateManager.set agentId agent m) in
  AgentStateManager.get agentId m' = Some state
  /\ State.currentTask state = None /\ State.currentSubtask state = None
  /\ (forall other, other <> agentId ->
        AgentStateManager.get other m' = AgentStateManager.get other m)
  /\ map fst m' = (if existsb (Nat.eqb agentId) (map fst m)
                   then map fst m else map fst m ++ [agentId])
  /\ (forall status st,
        In st (AgentStateManager.getByStatus status m')
        <-> In st (AgentStateManager.values m') /\ State.status st = status)
  /\ (forall type,
        match AgentStateManager.getByType type m' with
        | Some st => In st (AgentStateManager.values m') /\ State.agentType st = type
        | None => forall st, In st (AgentStateManager.values m') -> State.agentType st <> type
        end).
Proof.
  intros state m'. subst state m'. unfold AgentStateManager.set, AgentStateManager.get. simpl.
  split; [apply Registry.map_get_set_same | ]. split; [reflexivity | ].
  split; [reflexivity | ].
  split; [intros other Hne; now apply Registry.map_get_set_other | ].
  split; [apply Registry.map_set_keys | ]. split.
  - intros status st. unfold AgentStateManager.getByStatus.
    now rewrite filter_In, State.status_eqb_eq.
  - intro type. unfold AgentStateManager.getByType.
    destruct (List.find _ _) as [st | ] eqn:Hfind.
    + apply find_some in Hfind. destruct Hfind as [Hin Hty].
      split; [exact Hin | now apply String.eqb_eq].
    + intros st Hin Hty. pose proof (find_none _ _ Hfind st Hin) as Hno. cbv beta in Hno.
      rewrite Hty, String.eqb_refl in Hno. discriminate Hno.
Qed.

(* ================================================================== *)
(** * The background processor: how often a task may fail *)
(* ================================================================== *)

Module Retries.

Import TaskProcessor.

(** [k] failures of the same task in a row. *)
Fixpoint failures (k : nat) (task : Db.Task) (message : option string) (p : Processor)
    : Processor :=
  match k with
  | 0 => p
  | S n => failures n task message (handleTaskFailure task message p)
  end.

Lemma map_get_delete {V : Type} (k : nat) (m : list (nat * V)) :
  Loop.map_get k (map_delete k m) = None.
Proof.
  unfold Loop.map_get, map_delete. induction m as [ | [k' v'] rest IH]; simpl; [reflexivity | ].
  destruct (Nat.eqb k' k) eqn:Hk; simpl; [exact IH | now rewrite Hk].
Qed.

(** A failure below the limit only counts. *)
Lemma failure_counted (task : Db.Task) (message : option string) (p : Processor) (a : Active) :
  Loop.map_get (Db.task_id task) (activeTasks p) = Some a -> a_retries a < MAX_RETRIES ->
  let p' := handleTaskFailure task message p in
  tasks p' = tasks p /\ published p' = published p
  /\ Loop.map_get (Db.task_id task) (activeTasks p')
     = Some (mkActive (a_task a) (a_startedAt a) (S (a_retries a))).
Proof.
  intros Hget Hlt p'. subst p'. unfold handleTaskFailure. rewrite Hget.
  replace (Nat.ltb (a_retries a) MAX_RETRIES) with true by (symmetry; now apply Nat.ltb_lt).
  simpl. repeat split. apply Registry.map_get_set_same.
Qed.

(** A failure at the limit, or of a task that is not active, fails the task. *)
Lemma failure_final (task : Db.Task) (message : option string) (p : Processor) :
  (forall a, Loop.map_get (Db.task_id task) (activeTasks p) = Some a ->
             MAX_RETRIES <= a_retries a) ->
  let p' := handleTaskFailure task message p in
  tasks p' = Db.update_where (fun r => Nat.eqb (Db.task_id r) (Db.task_id task))
               (failed_task message) (tasks p)
  /\ published p' = published p ++ [task_failed (Db.task_id task) message]
  /\ Loop.map_get (Db.task_id task) (activeTasks p') = None.
Proof.
  intros Hlimit p'. subst p'. unfold handleTaskFailure.
  destruct (Loop.map_get (Db.task_id task) (activeTasks p)) as [a | ] eqn:Hget.
  - replace (Nat.ltb (a_retries a) MAX_RETRIES) with false.
    + simpl. repeat split. apply map_get_delete.
    + symmetry. apply Nat.ltb_ge. now apply Hlimit.
  - simpl. repeat split. apply map_get_delete.
Qed.

(** A processor in which task 10 is active and has not failed yet. *)
Definition one_active : Processor :=
  mkProcessor true [(10, mkActive (Scenario.a_task 10 Db.TASK_PLANNING) 0%Z 0)] []
    [Scenario.a_task 10 Db.TASK_PLANNING] [] 0%Z.

End Retries.

(** [handleTaskFailure] gives an active task [MAX_RETRIES] = 3 chances.  For
    an entry that has been retried [r] times, each of the next [3 - r]
    failures only raises the counter of the entry: the task's row and the
    published events are untouched.  The failure after that removes the
    entry, sets the task to [failed] with the error message and publishes
    [task_failed].  A task without an entry, such as one that
    [processTask] has just handled, is failed by its first failure. *)
Theorem task_fails_on_the_failure_after_the_retries
    (task : Db.Task) (message : option string) (p : TaskProcessor.Processor) :
  (forall a, Loop.map_get (Db.task_id task) (TaskProcessor.activeTasks p) = Some a ->
     (forall k, TaskProcessor.a_retries a + k <= TaskProcessor.MAX_RETRIES ->
        let p' := Retries.failures k task message p in
        TaskProcessor.tasks p' = TaskProcessor.tasks p
        /\ TaskProcessor.published p' = TaskProcessor.published p
        /\ Loop.map_get (Db.task_id task) (TaskProcessor.activeTasks p')
           = Some (TaskProcessor.mkActive (TaskProcessor.a_task a) (TaskProcessor.a_startedAt a)
                     (TaskProcessor.a_retries a + k)))
     /\ (TaskProcessor.a_retries a <= TaskProcessor.MAX_RETRIES ->
         let p' := Retries.failures
                     (S (TaskProcessor.MAX_RETRIES - TaskProcessor.a_retries a))
                     task message p in
         TaskProcessor.tasks p'
         = Db.update_where (fun r => Nat.eqb (Db.task_id r) (Db.task_id task))
             (TaskProcessor.failed_task message) (TaskProcessor.tasks p)
         /\ TaskProcessor.published p'
            = TaskProcessor.published p
              ++ [TaskProcessor.task_failed (Db.task_id task) message]
         /\ Loop.map_get (Db.task_id task) (TaskProcessor.activeTasks p') = None))
  /\ (let p' := TaskProcessor.handleTaskFailure task message (TaskProcessor.processTask task p) in
      TaskProcessor.tasks p'
      = Db.update_where (fun r => Nat.eqb (Db.task_id r) (Db.task_id task))
          (TaskProcessor.failed_task message) (TaskProcessor.tasks p)
      /\ TaskProcessor.published p'
         = TaskProcessor.published p
           ++ [TaskProcessor.task_processed (Db.task_id task);
               TaskProcessor.task_failed (Db.task_id task) message]).
Proof.
  split.
  - intros a Hget.
    assert (Hcount : forall k p0 a0,
              Loop.map_get (Db.task_id task) (TaskProcessor.activeTasks p0) = Some a0 ->
              TaskProcessor.a_retries a0 + k <= TaskProcessor.MAX_RETRIES ->
              let p' := Retries.failures k task message p0 in
              TaskProcessor.tasks p' = TaskProcessor.tasks p0
              /\ TaskProcessor.published p' = TaskProcessor.published p0
              /\ Loop.map_get (Db.task_id task) (TaskProcessor.activeTasks p')
                 = Some (TaskProcessor.mkActive (TaskProcessor.a_task a0)
                           (TaskProcessor.a_startedAt a0) (TaskProcessor.a_retries a0 + k))).
    { induction k as [ | k IH]; intros p0 a0 Hget0 Hle; cbn zeta.
      - simpl. rewrite Nat.add_0_r. destruct a0. auto.
      - simpl Retries.failures.
        destruct (Retries.failure_counted task message p0 a0 Hget0 ltac:(lia))
          as [Ht [Hp Hg]].
        destruct (IH _ _ Hg ltac:(simpl; lia)) as [Ht' [Hp' Hg']]. cbn zeta in *.
        rewrite Ht', Hp', Hg', Ht, Hp. simpl. repeat split. do 2 f_equal. lia. }
    split; [intros k Hk; now apply Hcount | ].
    intros Hle p'. subst p'.
    replace (S (TaskProcessor.MAX_RETRIES - TaskProcessor.a_retries a))
      with (TaskProcessor.MAX_RETRIES - TaskProcessor.a_retries a + 1) by lia.
    assert (Hsplit : forall j k p0, Retries.failures (j + k) task message p0
                                    = Retries.failures k task message
                                        (Retries.failures j task message p0)).
    { induction j as [ | j IH]; intros k p0; simpl; [reflexivity | apply IH]. }
    rewrite Hsplit. simpl Retries.failures at 1.
    destruct (Hcount (TaskProcessor.MAX_RETRIES - TaskProcessor.a_retries a) p a Hget
                ltac:(lia)) as [Ht [Hp Hg]]. cbn zeta in *.
    rewrite <- Ht, <- Hp. apply Retries.failure_final.
    intros a1 Hget1. rewrite Hg in Hget1. injection Hget1 as <-.
    change (TaskProcessor.MAX_RETRIES
            <= TaskProcessor.a_retries a
               + (TaskProcessor.MAX_RETRIES - TaskProcessor.a_retries a)).
    lia.
  - cbn zeta.
    destruct (Retries.failure_final task message (TaskProcessor.processTask task p))
      as [Ht [Hp _]].
    + intros a Hget. unfold TaskProcessor.processTask in Hget. simpl in Hget.
      rewrite Retries.map_get_delete in Hget. discriminate Hget.
    + cbn zeta in *. rewrite Ht, Hp. unfold TaskProcessor.processTask. simpl.
      split; [reflexivity | now rewrite <- app_assoc].
Qed.

Lemma task_fails_on_the_failure_after_the_retries_witness :
  map Db.task_status
    (TaskProcessor.tasks (Retries.failures 3 (Scenario.a_task 10 Db.TASK_PLANNING)
                            (Some "overloaded") Retries.one_active))
  = [Db.TASK_PLANNING]
  /\ map Db.task_status
       (TaskProcessor.tasks (Retries.failures 4 (Scenario.a_task 10 Db.TASK_PLANNING)
                               (Some "overloaded") Retries.one_active))
     = [Db.TASK_FAILED].
Proof.
  destruct (proj1 (task_fails_on_the_failure_after_the_retries
                     (Scenario.a_task 10 Db.TASK_PLANNING) (Some "overloaded")
                     Retries.one_active)
              (TaskProcessor.mkActive (Scenario.a_task 10 Db.TASK_PLANNING) 0%Z 0) eq_refl)
    as [Hbefore Hafter].
  split.
  - exact (f_equal (map Db.task_status)
             (proj1 (Hbefore 3 ltac:(simpl; unfold TaskProcessor.MAX_RETRIES; lia)))).
  - exact (f_equal (map Db.task_status)
             (proj1 (Hafter ltac:(simpl; unfold TaskProcessor.MAX_RETRIES; lia)))).
Defined.

(* ================================================================== *)
(** * The manual move, and the worker's execution of a subtask *)
(* ================================================================== *)

Module Manual.

Import Db.

(** The designer, idle in the studio. *)
Definition designer_at_home : World :=
  mkWorld Scenario.seed_hubs [Cases.designer] [] [] [] [] [] true [] [] 0%Z 100 0.

Lemma set_agents_same (f : list Agent -> list Agent) (w : World) :
  f (agents w) = agents w -> set_agents f w = w.
Proof. destruct w. unfold set_agents. simpl. now intros ->. Qed.

End Manual.

(** [POST /api/agents/:id/move].  For a hub that is not in the table (or a
    missing [hub]) the answer is 404 and nothing is written.  For a known hub
    and an agent without a row the answer is 500 and nothing is written.
    For a known hub and an agent with a row the answer is 200: the rows of
    the agent are [traveling] with the hub as target, and one [agent_move]
    event is published.  Unlike [assignAgentToHub], the route does not
    compare the hub with the agent's current hub: an agent that is moved to
    the hub where it stands becomes [traveling] as well. *)
Theorem manual_move_skips_the_current_hub_check (id : nat) (hub : option string) (w : Db.World) :
  (Db.first_where (fun h => Db.sql_eq (Some (Db.hub_id h)) hub) (Db.hubs w) = None ->
     Routes.moveAgent id hub w = (w, 404))
  /\ (forall targetHub,
        Db.first_where (fun h => Db.sql_eq (Some (Db.hub_id h)) hub) (Db.hubs w)
          = Some targetHub ->
        (Db.first_where (fun a => Nat.eqb (Db.agent_id a) id) (Db.agents w) = None ->
           Routes.moveAgent id hub w = (w, 500))
        /\ (forall agent,
              Db.first_where (fun a => Nat.eqb (Db.agent_id a) id) (Db.agents w) = Some agent ->
              let w' := fst (Routes.moveAgent id hub w) in
              snd (Routes.moveAgent id hub w) = 200
              /\ Db.agents w'
                 = Db.update_where (fun a => Nat.eqb (Db.agent_id a) id) (Routes.moved_to hub)
                     (Db.agents w)
              /\ In (Routes.moved_to hub agent) (Db.agents w')
              /\ Db.agent_status (Routes.moved_to hub agent) = State.TRAVELING
              /\ Db.target_hub (Routes.moved_to hub agent) = hub
              /\ List.length (Db.events w') = S (List.length (Db.events w)))).
Proof.
  split.
  - intro Hnone. unfold Routes.moveAgent. destruct hub; [now rewrite Hnone | reflexivity].
  - intros targetHub Hhub.
    assert (Hname : exists hubId, hub = Some hubId).
    { destruct hub as [hubId | ]; [now exists hubId | ].
      unfold Db.first_where in Hhub. apply find_some in Hhub. destruct Hhub as [_ H].
      discriminate H. }
    destruct Hname as [hubId ->]. split.
    + intro Hnone. unfold Routes.moveAgent. rewrite Hhub.
      assert (Hsame : Db.set_agents
                        (Db.update_where (fun a => Nat.eqb (Db.agent_id a) id)
                           (Routes.moved_to (Some hubId))) w = w).
      { apply Manual.set_agents_same. apply update_where_none. intros r Hr.
        unfold Db.first_where in Hnone. apply (find_none _ _ Hnone r Hr). }
      cbn zeta. rewrite Hsame, Hnone. reflexivity.
    + intros agent Hagent w'. subst w'. unfold Routes.moveAgent. rewrite Hhub.
      cbn zeta. cbn [Db.agents Db.set_agents].
      assert (Hfound : Db.first_where (fun a => Nat.eqb (Db.agent_id a) id)
                         (Db.update_where (fun a => Nat.eqb (Db.agent_id a) id)
                            (Routes.moved_to (Some hubId)) (Db.agents w))
                       = Some (Routes.moved_to (Some hubId) agent)).
      { unfold Db.first_where, Db.update_where in *. clear Hhub.
        induction (Db.agents w) as [ | a rest IH]; simpl in *; [discriminate | ].
        destruct (Nat.eqb (Db.agent_id a) id) eqn:Hk; simpl.
        - rewrite Hk. now injection Hagent as ->.
        - rewrite Hk. now apply IH. }
      rewrite Hfound. simpl. split; [reflexivity | ]. split; [reflexivity | ]. split.
      * apply Frame.in_update_where. exists agent.
        unfold Db.first_where in Hagent. apply find_some in Hagent.
        destruct Hagent as [Hin Hk]. split; [exact Hin | now rewrite Hk].
      * repeat split. rewrite length_app. simpl. lia.
Qed.

Lemma manual_move_skips_the_current_hub_check_witness :
  map (fun a => (Db.current_hub a, Db.target_hub a, Db.agent_status a))
    (Db.agents (fst (Routes.moveAgent 2 (Some "design_studio") Manual.designer_at_home)))
  = [ (Some "design_studio", Some "design_studio", State.TRAVELING) ]
  /\ Effects.exec (Loop.assignAgentToHub 2 "design_studio") Manual.designer_at_home
     = Manual.designer_at_home.
Proof.
  split; [ | reflexivity].
  destruct (proj2 (manual_move_skips_the_current_hub_check 2 (Some "design_studio")
                     Manual.designer_at_home) (Db.mkHub "design_studio" 5 3) eq_refl)
    as [_ Hmoved].
  destruct (Hmoved Cases.designer eq_refl) as [_ [Hrows _]].
  rewrite Hrows. reflexivity.
Defined.

Module Worker.

Import Db Effects Frame Hoare.

(** What the statements before the worker's [UPDATE] of the subtask leave
    alone. *)
Definition rows (w : World) : list Subtask * Z * list Agent := (subtasks w, now w, agents w).

Section Attempt.

Variable env : Env.Runtime.
Variable agent : Agent.
Variable draw : nat -> nat.
Variable subtask : Subtask.
Variable w1 : World.

Definition untouched (w : World) : Prop := rows w = rows w1.

Definition saved (w : World) : Prop :=
  agents w = agents w1
  /\ exists output,
       output <> None
       /\ subtasks w
          = update_where (fun s => Nat.eqb (subtask_id s) (subtask_id subtask))
              (Loop.completed_row output (now w1)) (subtasks w1).

Lemma untouched_reads (w w' : World) : rows w' = rows w -> untouched w -> untouched w'.
Proof. unfold untouched. congruence. Qed.

Lemma quiet {A : Type} (m : M A) : keeps rows m -> triple untouched m (fun _ => untouched) untouched.
Proof. apply (keeps_preserves rows). exact untouched_reads. Qed.

Lemma saveFile_keeps (file : JS.JSValue) : keeps rows (AgentWorker.saveFile file).
Proof. unfold AgentWorker.saveFile. frame. Qed.

Lemma processOutput_keeps (parsed : JS.JSValue) : keeps rows (AgentWorker.processOutput env parsed).
Proof.
  unfold AgentWorker.processOutput. pose proof saveFile_keeps. frame.
Qed.

Lemma worker_buildPrompt_keeps : keeps rows (AgentWorker.buildPrompt subtask).
Proof.
  unfold AgentWorker.buildPrompt, AgentWorker.getPreviousOutputs.
  pose proof (@LoopFrame.previous_work_keeps). frame.
Qed.

(** The [try] block: it throws with the rows untouched, or returns with the
    subtask completed. *)
Lemma attemptSubtask_saves :
  triple untouched (AgentWorker.attemptSubtask env agent draw subtask)
    (fun _ => saved) untouched.
Proof.
  assert (He : blind_events rows) by (intros g w; reflexivity).
  assert (Hc : blind_calls rows) by (intros w; reflexivity).
  unfold AgentWorker.attemptSubtask.
  apply (triple_bind _ _ _ (fun _ => untouched)); [apply quiet, worker_buildPrompt_keeps | intro prompt].
  apply (triple_bind _ _ _ (fun _ => untouched)); [apply quiet; frame | intros _].
  apply (triple_bind _ _ _ (fun _ => untouched)).
  { apply quiet. apply LoopFrame.callAgent_keeps. exact Hc. }
  intro response.
  apply (triple_bind _ _ _ (fun _ => untouched)); [apply quiet; frame | intro thinking].
  apply (triple_bind _ _ _ (fun _ => untouched)); [apply quiet; frame | intros _].
  apply (triple_bind _ _ _ (fun _ => untouched)); [apply quiet; frame | intro saying].
  apply (triple_bind _ _ _ (fun _ => untouched)); [apply quiet; frame | intros _].
  apply (triple_bind _ _ _ (fun _ => untouched)); [apply quiet, processOutput_keeps | intros _].
  apply (triple_bind _ _ _ (fun _ => untouched)); [apply quiet; frame | intro output].
  intros w Hw. unfold bind, read, modify, ret. simpl.
  unfold untouched, rows in Hw. injection Hw as Hsub Hnow Hag.
  split; [exact Hag | ].
  exists (Loop.pg_param env (Some (JS.or_else output (JS.JStr response)))).
  split; [apply Help.saved_output_not_null | ].
  rewrite <- Hsub, <- Hnow. reflexivity.
Qed.

End Attempt.

End Worker.

(** [AgentWorker.executeSubtask(subtask)], whatever the reply.  When it
    returns, the subtask is [completed] with an output that is not NULL, and
    the worker's agent is left [working] on the subtask: nothing sets it back
    to [idle].  When it throws (the prompt cannot be built, the reasoning
    call fails, a file entry is [null], ...) the agent is [idle] with
    [doing = NULL] and the subtask rows are exactly as they were: the worker
    does not mark the subtask [failed].  Either way no agent row is added or
    dropped. *)
Theorem worker_leaves_the_agent_working
    (env : Env.Runtime) (agent : Db.Agent) (draw : nat -> nat) (subtask : Db.Subtask)
    (w : Db.World) :
  let run := AgentWorker.executeSubtask env agent draw subtask w in
  map Db.agent_id (Db.agents (fst run)) = map Db.agent_id (Db.agents w)
  /\ match snd run with
     | inr _ =>
         (forall a, In a (Db.agents (fst run)) -> Db.agent_id a = Db.agent_id agent ->
            Db.agent_status a = State.WORKING
            /\ Db.agent_doing a = Some (JS.slice0 50 (Db.st_description subtask)))
         /\ exists output,
              output <> None
              /\ Db.subtasks (fst run)
                 = Db.update_where
                     (fun s => Nat.eqb (Db.subtask_id s) (Db.subtask_id subtask))
                     (Loop.completed_row output (Db.now w)) (Db.subtasks w)
     | inl _ =>
         (forall a, In a (Db.agents (fst run)) -> Db.agent_id a = Db.agent_id agent ->
            Db.agent_status a = State.IDLE /\ Db.agent_doing a = None)
         /\ Db.subtasks (fst run) = Db.subtasks w
     end.
Proof.
  intro run. subst run. unfold AgentWorker.executeSubtask.
  set (w1 := fst (AgentWorker.updateStatus agent State.WORKING
                    (Some (JS.slice0 50 (Db.st_description subtask))) w)).
  assert (Hfirst : AgentWorker.updateStatus agent State.WORKING
                     (Some (JS.slice0 50 (Db.st_description subtask))) w = (w1, inr tt))
    by reflexivity.
  rewrite (bind_run _ _ w w1 (inr tt) Hfirst).
  pose proof (Worker.attemptSubtask_saves env agent draw subtask w1 w1 eq_refl) as Htry.
  unfold Effects.try_catch.
  destruct (AgentWorker.attemptSubtask env agent draw subtask w1) as [w2 [e | parsed]];
    simpl in Htry.
  - unfold Worker.untouched, Worker.rows in Htry. injection Htry as Hsub _ Hag.
    unfold AgentWorker.updateStatus, Effects.bind, Effects.modify, Effects.emit, Effects.throw.
    simpl. rewrite Hag, Hsub. simpl. split; [ | split; [ | reflexivity]].
    + rewrite !Frame.map_update_where; reflexivity.
    + intros a Ha Hid. apply Frame.in_update_where in Ha. destruct Ha as [a0 [_ Ha]].
      destruct (Nat.eqb (Db.agent_id a0) (Db.agent_id agent)) eqn:Hk; subst a.
      * split; reflexivity.
      * apply Nat.eqb_neq in Hk. contradiction.
  - destruct Htry as [Hag [output [Hout Hsub]]]. simpl. rewrite Hag. split; [ | split].
    + simpl. rewrite Frame.map_update_where; reflexivity.
    + intros a Ha Hid. simpl in Ha. apply Frame.in_update_where in Ha.
      destruct Ha as [a0 [_ Ha]].
      destruct (Nat.eqb (Db.agent_id a0) (Db.agent_id agent)) eqn:Hk; subst a.
      * split; reflexivity.
      * apply Nat.eqb_neq in Hk. contradiction.
    + exists output. split; [exact Hout | exact Hsub].
Qed.

(** The worker on the reply [null]: the parser of claude.js finds no
    brace in it, and the subtask is completed with the raw reply. *)
Example worker_completes_the_null_reply :
  let run := AgentWorker.executeSubtask Scenario.env_null Cases.coder (fun _ => 0)
               Cases.coder_subtask Replies.coder_alone in
  map Db.agent_status (Db.agents (fst run)) = [State.WORKING]
  /\ map (fun s => (Db.st_status s, Db.st_output s)) (Db.subtasks (fst run))
     = [(Db.SUB_COMPLETED, Some "null")].
Proof. vm_compute. split; reflexivity. Qed.
